(* ===== verification/_CoqProject ===== *)
-Q . S2P
Prelude.v
Machine.v
Common.v
CLib.v
Memory.v
Cpu.v
Instruction.v
Vm.v
Isa.v
VmArith.v
VmFacts.v
VmRefine.v
VmStep.v
VmStack.v
Loader.v
VmBranch.v
VmSys.v
VmStreams.v
VmDemo.v
VmProps.v
VmHalt.v
Symtab.v
Lexer.v
LexFacts.v
Parser.v
Syntax.v
Assembler.v
AsmFacts.v
EmitFacts.v
AsmCorrect.v
AsmProps.v
Disassembler.v
DisFacts.v
DisProps.v
Debugger.v
DbgSpec.v
DbgFacts.v
DbgRefine.v
DbgProps.v
Main.v
MainProps.v
RtLex.v
RtParse.v
RtImage.v
RoundTrip.v
Pipeline.v
SyntaxFacts.v
ParseFacts.v
Reader.v
AsmSpec.v
SpecProps.v
Section11.v
AsmBounds.v
LangSem.v
LangFacts.v
LangProps.v
Heap.v
AsmHeap.v
AsmHeapFacts.v
DisHeap.v
DbgHeap.v
MainHeap.v
HeapProps.v
MainSafe.v
Golden.v
LangRules.v
FactorialExample.v
DbgLang.v
SortExample.v
PrintExamples.v
UnitTests.v
MachineTests.v
