(* ===== verification/Prelude.v ===== *)
(** * ByteVM: a verification library for the ByteVM virtual machine

    ByteVM is a 16-bit register machine with an assembler, a disassembler, a loader
    for its [.bvm] images, a debugger and a command line. The library models every
    part of it (the C files below [src/src/] and [src/include/bytevm/]) as
    executable functions and proves what makes each part correct against the
    specification in [src/docs/DESIGN.md], which is cited by section.

    ** Parts

    A source text goes through [Lexer] and [Parser] (pass 1: statements, addresses
    and labels; pass 2: bytes) and is written as an image by [Assembler]; [Loader]
    checks an image and resets the machine to it; [Vm] executes it one cycle at a
    time, fetching through [Instruction] from [Memory]; [Disassembler] prints an
    image back; [Debugger] runs the machine under commands; [Main] connects them to
    files and streams.

    - [Common]: [common.c], the result codes.
    - [CLib]: the character classes, [printf] conversions and number readings of the
      C library that the sources use.
    - [Memory], [Cpu]: [memory.c] and [cpu.c]. The 64 KB array is a finite map that
      reads 0 elsewhere; memories that read the same are [≡], and the operations are
      proper for it.
    - [Instruction]: [opcode.h], [instruction.h], [instruction.c]. [instr_bytes] is
      the encoding of section 7 and [instr_legal] the operands section 7.3 allows.
    - [Vm]: [vm.c], one definition per [exec_] function, then [instruction_execute]
      and [vm_step].
    - [Isa]: the specification of the architecture, written from sections 2 and 4 to
      9 without reference to [vm.c]: arithmetic on integers, jump conditions on four
      Booleans, the cycle as the relation [isa_step].
    - [Loader]: [loader.c], with section 10 as the predicate [image_valid].
    - [Symtab], [Lexer], [Parser], [Assembler]: [src/assembler/] and [assembler.c].
    - [Disassembler], [Debugger], [Main]: [disassembler.c], [debugger.c], [main.c].
    - [Syntax]: the specification of the assembly language: a grammar on tokens that
      derives items, the addressing mode and size of an item, the addresses of items and
      labels on unbounded counters, and the image. [Section11] has the language of
      section 11, and [Syntax] the one that is implemented, which differs in two points
      (a long register is a label, and a word out of range is truncated). [Reader] is an
      executable reader of the grammar, with the proof that it is one.
    - [LangSem]: what an assembly program means: the items of a source executed over
      their layout with the instructions of [Isa]. No image, encoding or decoder occurs
      in it.
    - [DbgSpec]: the specification of the debugger: lines as words, words as commands,
      commands as steps of a machine, a set of breakpoints and the streams; with [step]
      as implemented, which breakpoints do not stop, and as in section 13.
    - [Heap]: [malloc], [realloc] and [free] over an arbitrary [Allocator], a state monad
      for what uses them, ownership ([runs]), and the growable arrays of the sources.
      [AsmHeap], [DisHeap], [DbgHeap] and [MainHeap] are the functions of the assembler,
      the disassembler, the debugger and the command line with their allocations, frees
      and out-of-memory paths; the functions above are the same computations without
      them.

    Each file of definitions is followed by its facts and its theorems: [VmArith],
    [VmFacts], [VmRefine], [VmStep], [VmStack], [VmBranch], [VmSys], [VmStreams],
    [VmProps] and [VmHalt] for the machine; [LexFacts], [AsmFacts], [EmitFacts],
    [AsmCorrect], [AsmProps] for the assembler; [DisFacts], [DisProps]; [DbgFacts],
    [DbgRefine], [DbgProps]; [MainProps]; [RtLex], [RtParse], [RtImage], [RoundTrip] for
    disassembling and assembling again, and [Pipeline] for the commands that do so;
    [SyntaxFacts], [ParseFacts], [AsmSpec], [SpecProps] and [Section11] for the assembler
    against the specified language, [AsmBounds] for its bounds; [LangFacts] and [LangProps] for
    programs that run; [AsmHeapFacts] and [HeapProps] for memory management; [MainSafe] for
    the safety of the program as a whole. [VmDemo] has concrete programs at which theorems
    are instantiated.
    [Golden] runs the repository's example programs to their recorded outputs, [UnitTests]
    and [MachineTests] evaluate its unit tests on the definitions, and [FactorialExample],
    [SortExample] and [PrintExamples] verify the programs of [examples/] for all their data,
    with the rules of [LangRules] for runs with a postcondition. [DbgLang] is about
    debugging an assembly program.

    [Machine] is the interface through which the debugger and the command line see the
    machine: a step that is defined under an invariant and does nothing after a halt.
    [rounds_spec] is proved against it once, for any bounded loop that steps until
    there is a reason to stop; [VmStep.vm_machine] is the implementation.

    ** How C is represented

    - A [uint8_t] or [uint16_t] is an integer in range ([is_u8], [is_u16]) and every
      conversion is written out ([u8], [u16], [u32], [s16]); [long] and [unsigned
      long] have 64 bits. Bytes and characters are integers below 256, strings lists
      of them without the terminating NUL.
    - Code that can fail returns an option, a sum, or [res]: [Ok], [Err line message]
      or [UB]. Undefined behaviour - an index outside an array, a signed overflow - is
      a value ([None] in the machine, [UB] elsewhere), so that its absence is a
      theorem and not an assumption.
    - The standard streams are [Stdio]: the characters not yet read and the
      characters written. The debugger's [in] and [out] are the same streams, as
      [main] passes them. [World] adds the error stream, the files that can be opened
      and the files written.
    - Loops that are not structural run on fuel. [lex_loop] has one round per
      character, [build_loop] one per token, [dis_loop] one per address, [repl_loop]
      one per character of input and one for its end; each bound is proved to be
      enough, and running out is a result of its own. The two loops with a limit of
      ten million cycles use [iter_until], whose bound is a binary number.

    ** What the theorems show

    - The machine ([VmProps]): a cycle implements the architecture's relation and
      misses none of its outcomes; the decoder accepts exactly the encodings of the
      instructions section 7.3 allows and names the reason otherwise; faults commit nothing; PUSH, POP,
      CALL and RET are a bounded stack that can never overwrite the program; CMP and
      a conditional jump decide the named relation on all words; FLAGS change only
      where they may; READ_INT reads what PRINT_INT prints; runs from a valid image
      are safe for ever; the loader accepts exactly the valid images and leaves
      nothing of the machine before. Code whose control flow has no cycle, as a check of
      its bytes can see, and that has no RET and no STORE, halts on every input
      ([VmHalt]).
    - The assembler ([AsmProps]): printing and lexing are inverse; labels denote the
      statements they stand before; the passes stay inside their buffers under a
      stated bound - all statements end at 0xFFFF or before - which is also shown to be
      needed; under the same bound an assembled image loads, starts at its first
      statement, and decodes at every statement to the instruction that was written. The
      bound can be read off the text: twice its length
      behind its highest [.org] ([AsmBounds]).
    - The assembly language ([Section11], [SpecProps]): a program of section 11 is
      assembled to the image it has by section 11, and what is assembled otherwise uses
      one of the two departures; an error is on the first line at fault; the statements
      of pass 1 are well typed, and a well-typed statement that has bytes has those of a
      legal instruction.
    - Programs ([LangProps]): a machine with the assembled image of a source loaded does,
      instruction by instruction, what the items of the source say, as long as the
      program stays in its language - it does not store to its instructions and does not
      run to an address that has none; so the output and exit status of [run] follow
      from the source. Correctness of a program is therefore proved on its source and
      holds of the machine: the subroutine of [factorial.asm] computes the factorial of
      every argument ([FactorialExample]), [sort.asm] sorts and prints any six words
      within 1089 instructions ([SortExample]), [hello.asm] prints any string and
      [sum.asm] the sum of any five words ([PrintExamples]). In the debugger, [continue]
      stops in the state the source's semantics has at the first breakpoint or at the
      limit of ten million instructions, and shows the instruction the source has there
      ([DbgLang]).
    - The disassembler ([DisProps]): it is total; it refuses exactly the byte strings
      without the magic number and version, those that are too short, and those whose
      entry point is not the first byte of the code; and its lines are the code byte for
      byte, if that ends at 0xFFFF or before.
    - The round trip ([RoundTrip]): the text of a canonical image - entered at the first
      byte of its code, nothing behind its data, code and data that end at 0xFFFF or
      before, the data behind the code - assembles to the same bytes; so [dis] is undone by [asm], and [run] cannot tell the
      text from the image ([Pipeline]). The image of a source whose statements end at
      0xFFFF or before is canonical.
    - The debugger ([DbgProps]): sessions end and are safe on every input; a session is,
      text aside, the specified one of the commands that were typed and the only one, so
      that step, continue and reset move the machine exactly as plain cycles would and
      breakpoints are a bounded set; it is one of section 13 unless a [step] passes a
      breakpoint; its machine is always one the loaded program reaches.
    - The command line ([MainProps]): exit status and messages of a run; asm followed
      by run is run; nothing is written when assembling fails.
    - Memory management ([HeapProps]): whichever requests are refused, every command
      uses only live blocks, writes inside their bounds, frees each once and leaves none;
      it does what it does with unlimited memory, or exits with 1 and a message that
      memory has run out or, when it was a symbol that had no memory, that its label is
      already defined; a debugger session goes on and can differ only in the text it
      prints.
    - The program ([MainSafe]): no invocation on files of any bytes, and on sources that
      keep within the bounds of [AsmBounds], reaches one of the undefined behaviours of
      the model.

    Where the code does not do what its documentation says, a lemma at the end of the
    theorem file exhibits it on a concrete input.

    ** Not modelled

    Blocks have a size and an owner, and writes into them are checked: a store into an
    array by its index, [memcpy], [strcpy], [fread] and the NUL behind a string by the
    range they write. What a block contains is carried beside its pointer, and a read of
    it is checked for being of an allocated block, not for its index: the sources read
    arrays below their counts and strings up to the NUL that is written behind them.
    Sizes of blocks count elements, not bytes, and their products with element sizes do
    not overflow. Of a file that is read, [fseek] and [ftell] failures are outcomes of
    opening it, and [File_short] is a read that ends early; of a file that is written, the
    bytes that [fwrite] takes and those that survive [fclose] are arbitrary. Errors on the
    standard streams are not modelled: the code does not look at them. A source text is
    shorter than 2^31 bytes, so that lines and lengths fit their C types. *)

From stdpp Require Export base tactics list gmap numbers option strings.
From Stdlib Require Export ZArith Lia.
From Stdlib Require String Ascii.
Open Scope Z_scope.

(** ** Fixed-width integers *)

(** C conversions to the unsigned and signed types the source uses. *)
Definition u8 (z : Z) : Z := z mod 256.
Definition u16 (z : Z) : Z := z mod 65536.
Definition u32 (z : Z) : Z := z mod 4294967296.
Definition s16 (z : Z) : Z := if u16 z <? 32768 then u16 z else u16 z - 65536.

Definition is_u8 (z : Z) : Prop := 0 <= z < 256.
Definition is_u16 (z : Z) : Prop := 0 <= z < 65536.

#[export] Instance is_u8_dec z : Decision (is_u8 z).
Proof. unfold is_u8. apply _. Defined.
#[export] Instance is_u16_dec z : Decision (is_u16 z).
Proof. unfold is_u16. apply _. Defined.

(** Close a decidable goal by evaluating its decision procedure. *)
Ltac by_decide :=
  match goal with |- ?P => apply (bool_decide_eq_true_1 P); vm_compute; reflexivity end.

(** Arithmetic with [/] and [mod] by literals. *)
Ltac mlia := unfold u8, u16, u32, is_u8, is_u16 in *; Z.to_euclidean_division_equations; lia.

Create HintDb bytevm.

Lemma u8_range z : is_u8 (u8 z).
Proof. mlia. Qed.

Lemma u16_range z : is_u16 (u16 z).
Proof. mlia. Qed.

Lemma u8_id z : is_u8 z -> u8 z = z.
Proof. intros H. apply Z.mod_small, H. Qed.

Lemma u16_id z : is_u16 z -> u16 z = z.
Proof. intros H. apply Z.mod_small, H. Qed.

Lemma u16_u16 z : u16 (u16 z) = u16 z.
Proof. apply u16_id, u16_range. Qed.

Lemma u8_u8 z : u8 (u8 z) = u8 z.
Proof. apply u8_id, u8_range. Qed.

Lemma is_u8_u16 z : is_u8 z -> is_u16 z.
Proof. unfold is_u8, is_u16. lia. Qed.

Lemma u16_add_l a b : u16 (u16 a + b) = u16 (a + b).
Proof. apply Z.add_mod_idemp_l. lia. Qed.

Lemma u16_add_r a b : u16 (a + u16 b) = u16 (a + b).
Proof. apply Z.add_mod_idemp_r. lia. Qed.

Lemma u16_inj a b : is_u16 a -> is_u16 b -> u16 a = u16 b -> a = b.
Proof. intros. rewrite <- (u16_id a), <- (u16_id b); auto. Qed.

(** Equality of 16-bit sums is equality of the offsets. *)
Lemma u16_add_inj a i j : 0 <= i < 65536 -> 0 <= j < 65536 ->
  u16 (a + i) = u16 (a + j) -> i = j.
Proof. intros. mlia. Qed.

#[export] Hint Resolve u8_range u16_range is_u8_u16 : bytevm.

(** ** Bits of machine words *)

Lemma testbit_land_pow2 x n :
  0 <= n -> negb (Z.land x (2 ^ n) =? 0) = Z.testbit x n.
Proof.
  intros Hn. destruct (Z.testbit x n) eqn:E.
  - apply negb_true_iff, Z.eqb_neq. intros H0.
    assert (Z.testbit (Z.land x (2 ^ n)) n = false) as H1 by (rewrite H0; apply Z.bits_0).
    rewrite Z.land_spec, E, Z.pow2_bits_true in H1 by lia. discriminate.
  - apply negb_false_iff, Z.eqb_eq, Z.bits_inj'. intros m Hm.
    rewrite Z.land_spec, Z.bits_0.
    destruct (decide (m = n)) as [->|Hne]; [by rewrite E|].
    rewrite Z.pow2_bits_false by lia. by rewrite andb_false_r.
Qed.

Lemma land_1_testbit x n :
  0 <= n -> negb (Z.land (Z.shiftr x n) 1 =? 0) = Z.testbit x n.
Proof.
  intros Hn. change 1 with (2 ^ 0). rewrite testbit_land_pow2 by lia.
  rewrite Z.shiftr_spec by lia. done.
Qed.

Lemma testbit_div x n : 0 <= n -> Z.testbit x n = Z.odd (x / 2 ^ n).
Proof.
  intros Hn. rewrite Z.testbit_odd, Z.shiftr_div_pow2 by lia. reflexivity.
Qed.

(** The sign bit of a 16-bit word. *)
Lemma testbit15 x : is_u16 x -> Z.testbit x 15 = (32768 <=? x).
Proof.
  unfold is_u16. intros H. rewrite testbit_div by lia. change (2 ^ 15) with 32768.
  destruct (Z.leb_spec 32768 x).
  - replace (x / 32768) with 1; [reflexivity|]. mlia.
  - rewrite Z.div_small by lia. reflexivity.
Qed.

Lemma land_sign_bit x : is_u16 x -> negb (Z.land x 0x8000 =? 0) = (32768 <=? x).
Proof.
  intros H. change 0x8000 with (2 ^ 15).
  rewrite testbit_land_pow2 by lia. by apply testbit15.
Qed.

(** A number is below [2^n] exactly when its bits from [n] up are clear. *)
Lemma bits_bound x n :
  0 <= n -> 0 <= x -> (forall m, n <= m -> Z.testbit x m = false) -> x < 2 ^ n.
Proof.
  intros Hn Hx Hb.
  assert (x = x mod 2 ^ n) as ->; [|apply Z.mod_pos_bound; lia].
  apply Z.bits_inj'. intros m Hm. destruct (Z.lt_ge_cases m n).
  - by rewrite Z.mod_pow2_bits_low by lia.
  - rewrite Z.mod_pow2_bits_high by lia. apply Hb. lia.
Qed.

Lemma testbit_high x n m : 0 <= x < 2 ^ n -> 0 <= n <= m -> Z.testbit x m = false.
Proof.
  intros Hx Hm. rewrite <- (Z.mod_small x (2 ^ n)) by lia.
  apply Z.mod_pow2_bits_high. lia.
Qed.

Section bitwise_bounds.
Context (n a b : Z) (Hn : 0 <= n) (Ha : 0 <= a < 2 ^ n) (Hb : 0 <= b < 2 ^ n).

Lemma land_bound : 0 <= Z.land a b < 2 ^ n.
Proof.
  split; [apply Z.land_nonneg; lia|].
  apply bits_bound; [lia|apply Z.land_nonneg; lia|].
  intros m Hm. rewrite Z.land_spec, (testbit_high a n) by lia. done.
Qed.

Lemma lor_bound : 0 <= Z.lor a b < 2 ^ n.
Proof.
  split; [apply Z.lor_nonneg; lia|].
  apply bits_bound; [lia|apply Z.lor_nonneg; lia|].
  intros m Hm. rewrite Z.lor_spec, !(testbit_high _ n) by lia. done.
Qed.

Lemma lxor_bound : 0 <= Z.lxor a b < 2 ^ n.
Proof.
  assert (0 <= Z.lxor a b) by (apply Z.lxor_nonneg; lia).
  split; [done|]. apply bits_bound; [lia|done|].
  intros m Hm. rewrite Z.lxor_spec, !(testbit_high _ n) by lia. done.
Qed.
End bitwise_bounds.

Lemma is_u16_land a b : is_u16 a -> is_u16 b -> is_u16 (Z.land a b).
Proof. intros. apply (land_bound 16); [lia|assumption..]. Qed.
Lemma is_u16_lor a b : is_u16 a -> is_u16 b -> is_u16 (Z.lor a b).
Proof. intros. apply (lor_bound 16); [lia|assumption..]. Qed.
Lemma is_u16_lxor a b : is_u16 a -> is_u16 b -> is_u16 (Z.lxor a b).
Proof. intros. apply (lxor_bound 16); [lia|assumption..]. Qed.

#[export] Hint Resolve is_u16_land is_u16_lor is_u16_lxor : bytevm.

(** A low part and a shifted high part do not overlap: [lor] is [+]. *)
Lemma lor_shift_add lo hi n :
  0 <= n -> 0 <= lo < 2 ^ n -> 0 <= hi -> Z.lor lo (Z.shiftl hi n) = lo + hi * 2 ^ n.
Proof.
  intros Hn Hlo Hhi. rewrite <- Z.shiftl_mul_pow2 by lia.
  symmetry. rewrite <- Z.lxor_lor.
  - apply Z.add_nocarry_lxor. apply Z.bits_inj'. intros m Hm.
    rewrite Z.land_spec, Z.bits_0, Z.shiftl_spec by lia.
    destruct (Z.lt_ge_cases m n).
    + rewrite (Z.testbit_neg_r hi) by lia. apply andb_false_r.
    + rewrite (testbit_high lo n) by lia. done.
  - apply Z.bits_inj'. intros m Hm.
    rewrite Z.land_spec, Z.bits_0, Z.shiftl_spec by lia.
    destruct (Z.lt_ge_cases m n).
    + rewrite (Z.testbit_neg_r hi) by lia. apply andb_false_r.
    + rewrite (testbit_high lo n) by lia. done.
Qed.

(** ** Signed readings of a 16-bit word *)

Lemma s16_u16 z : s16 (u16 z) = s16 z.
Proof. unfold s16. by rewrite u16_u16. Qed.

Lemma s16_range z : -32768 <= s16 z <= 32767.
Proof. unfold s16. pose proof (u16_range z) as H. unfold is_u16 in H. case_match; lia. Qed.

Lemma s16_cases z : is_u16 z ->
  (z < 32768 /\ s16 z = z) \/ (32768 <= z /\ s16 z = z - 65536).
Proof.
  intros H. unfold s16. rewrite (u16_id z H). destruct (Z.ltb_spec z 32768); lia.
Qed.

(** ** Strings

    A C string is the list of its bytes as integers below 256, without the
    terminator; literals are written [str "..."]. *)
Definition str (s : string) : list Z :=
  map (fun c => Z.of_N (Ascii.N_of_ascii c)) (String.list_ascii_of_string s).

(** The length of a list, as the integers the addresses are. *)
Abbreviation zlen l := (Z.of_nat (length l)).

Definition is_byte_list (l : list Z) : Prop := Forall is_u8 l.

#[export] Instance is_byte_list_dec l : Decision (is_byte_list l).
Proof. unfold is_byte_list. apply _. Defined.

(** ** Results of fallible code

    [Ok] is a normal return, [Err line msg] a reported error, [UB] a path on
    which the C code has undefined behaviour. *)
Inductive res (A : Type) : Type :=
| Ok (a : A)
| Err (line : Z) (msg : list Z)
| UB.
Arguments Ok {A} a.
Arguments Err {A} line msg.
Arguments UB {A}.

#[export] Instance res_ret : MRet res := fun A a => Ok a.
#[export] Instance res_bind : MBind res := fun A B f m =>
  match m with Ok a => f a | Err l e => Err l e | UB => UB end.

Lemma res_bind_Ok {A B} (f : A -> res B) (m : res A) b :
  (m ≫= f) = Ok b <-> exists a, m = Ok a /\ f a = Ok b.
Proof.
  split.
  - destruct m; simpl; intros H; [eauto|discriminate..].
  - intros (a & -> & H). exact H.
Qed.

(** ** Bounded loops

    [iter_until p f a] runs the loop body [f] at most [p] times: [inl] continues,
    [inr] leaves the loop. The bound is binary, so a limit of millions of rounds
    costs nothing until they are run. *)
Fixpoint iter_until {A B} (p : positive) (f : A -> A + B) (a : A) : A + B :=
  match p with
  | xH => f a
  | xO p => match iter_until p f a with inl a => iter_until p f a | inr b => inr b end
  | xI p =>
      match f a with
      | inl a => match iter_until p f a with inl a => iter_until p f a | inr b => inr b end
      | inr b => inr b
      end
  end.

(** The same loop, one round at a time. *)
Fixpoint iter_n {A B} (n : nat) (f : A -> A + B) (a : A) : A + B :=
  match n with
  | O => inl a
  | S n => match f a with inl a => iter_n n f a | inr b => inr b end
  end.

Lemma iter_n_add {A B} (f : A -> A + B) n m a :
  iter_n (n + m) f a = match iter_n n f a with inl a => iter_n m f a | inr b => inr b end.
Proof. revert a. induction n as [|n IH]; intros a; simpl; [done|]. destruct (f a); auto. Qed.

Lemma iter_until_n {A B} (f : A -> A + B) p a : iter_until p f a = iter_n (Pos.to_nat p) f a.
Proof.
  revert a. induction p as [p IH|p IH|]; intros a.
  - rewrite Pos2Nat.inj_xI. cbn [iter_until iter_n]. destruct (f a) as [a'|]; [|done].
    replace (2 * Pos.to_nat p)%nat with (Pos.to_nat p + Pos.to_nat p)%nat by lia.
    rewrite IH, iter_n_add. destruct (iter_n _ f a'); auto.
  - rewrite Pos2Nat.inj_xO. cbn [iter_until].
    replace (2 * Pos.to_nat p)%nat with (Pos.to_nat p + Pos.to_nat p)%nat by lia.
    rewrite IH, iter_n_add. destruct (iter_n _ f a); auto.
  - rewrite Pos2Nat.inj_1. cbn [iter_until iter_n]. by destruct (f a).
Qed.
