(* ===== verification/Machine.v ===== *)
(** The interface between the machine and the programs that drive it: a state that
    steps, may halt, and has an invariant under which stepping is defined. What
    drives it is a bounded loop that asks a question before each step; [rounds_spec]
    says where such a loop ends. [VmStep] implements the interface with [vm_step];
    the debugger's [continue] and the command line's run loop are its clients. *)

From S2P Require Import Prelude.

Class Machine (A : Type) := {
  m_step : A -> option A;
  m_halted : A -> bool;
  m_inv : A -> Prop;
  m_step_total s : m_inv s -> exists s', m_step s = Some s' /\ m_inv s';
  m_step_halted s : m_halted s = true -> m_step s = Some s;
}.

Section Runs.
  Context {A : Type} `{Machine A}.

Fixpoint m_steps (n : nat) (s : A) : option A :=
  match n with
  | O => Some s
  | S n => s ← m_step s; m_steps n s
  end.

Lemma m_steps_halted n s : m_halted s = true -> m_steps n s = Some s.
Proof. intros Hh. induction n as [|n IH]; [done|]. simpl. by rewrite (m_step_halted s Hh). Qed.

Lemma m_steps_total n s : m_inv s -> exists s', m_steps n s = Some s' /\ m_inv s'.
Proof.
  revert s. induction n as [|n IH]; intros s Hs; [by exists s|].
  destruct (m_step_total s Hs) as (s1 & E & H1). simpl. rewrite E. by apply IH.
Qed.

Lemma m_steps_add n k s s' : m_steps n s = Some s' -> m_steps (n + k) s = m_steps k s'.
Proof.
  revert s. induction n as [|n IH]; intros s E; cbn [Nat.add m_steps] in *; [by simplify_eq|].
  destruct (m_step s) as [s1|]; [|done]. by apply IH.
Qed.

(** The state in which a machine has halted, or the last before a limit, is one. *)
Lemma m_steps_unique m n k s s1 s2 : m_steps n s = Some s1 -> m_steps k s = Some s2 -> (n <= m)%nat -> (k <= m)%nat ->
  m_halted s1 = true \/ n = m -> m_halted s2 = true \/ k = m -> s1 = s2.
Proof.
  assert (Hw : forall n k s1 s2, m_steps n s = Some s1 -> m_steps k s = Some s2 -> (n <= k)%nat -> (k <= m)%nat ->
    m_halted s1 = true \/ n = m -> s1 = s2).
  { intros n' k' t1 t2 E1 E2 Hle Hk He. replace k' with (n' + (k' - n'))%nat in E2 by lia.
    rewrite (m_steps_add _ _ _ _ E1) in E2. destruct He as [Hh| ->].
    - rewrite m_steps_halted in E2 by done. by simplify_eq.
    - replace (k' - m)%nat with 0%nat in E2 by lia. by simplify_eq/=. }
  intros E1 E2 H1 H2 He1 He2. destruct (Nat.le_ge_cases n k) as [Hle|Hle]; [by apply (Hw n k)|].
  symmetry. by apply (Hw k n).
Qed.

  (** A loop that steps as long as [leave] gives no reason to stop. *)
  Context {R : Type} (leave : A -> option R) (round : A -> A + R).

Definition drives : Prop := forall s,
  match leave s with
  | Some r => round s = inr r
  | None => forall s', m_step s = Some s' -> round s = inl s'
  end.

(** The loop runs the machine to the first state with a reason to stop, and gives
    that reason, or as many steps as it has rounds. *)
Lemma rounds_spec (Hd : drives) n s : m_inv s ->
  exists k s', (k <= n)%nat /\ m_steps k s = Some s' /\ m_inv s' /\
    (forall j t, (j < k)%nat -> m_steps j s = Some t -> leave t = None) /\
    ((exists r, leave s' = Some r /\ iter_n n round s = inr r /\ (k < n)%nat) \/
     (iter_n n round s = inl s' /\ k = n)).
Proof.
  revert s. induction n as [|n IH]; intros s Hs.
  { exists 0%nat, s. split_and!; [done..|lia|by right]. }
  pose proof (Hd s) as Hr. simpl. destruct (leave s) as [r|] eqn:El.
  { exists 0%nat, s. rewrite Hr. split_and!; [lia|done..|lia|left; exists r; split_and!; [done..|lia]]. }
  destruct (m_step_total s Hs) as (s1 & E & H1). rewrite (Hr s1 E).
  destruct (IH s1 H1) as (k & s' & Hk & Hks & Hi & Hj & Hres).
  exists (S k), s'. split_and!; [lia|simpl; by rewrite E|done| |].
  - intros [|j] t Hlt Ht; [simpl in Ht; by simplify_eq|].
    simpl in Ht. rewrite E in Ht. eapply Hj; [|exact Ht]. lia.
  - destruct Hres as [(r & ? & ? & ?)|[? ->]]; [left; exists r; split_and!; [done..|lia]|auto].
Qed.

End Runs.
