(* ===== verification/Common.v ===== *)
(** Result codes shared by every subsystem: [include/bytevm/common.h] and
    [src/common.c]. *)

From S2P Require Import Prelude.
Open Scope Z_scope.

Inductive VmResult : Type :=
| VM_OK
| VM_ERR_INVALID_OPCODE
| VM_ERR_INVALID_MODE
| VM_ERR_DIV_BY_ZERO
| VM_ERR_STACK_OVERFLOW
| VM_ERR_STACK_UNDERFLOW
| VM_ERR_BAD_BYTECODE_HEADER
| VM_ERR_INVALID_SYSCALL.

#[export] Instance VmResult_eq_dec : EqDecision VmResult.
Proof. solve_decision. Defined.

Definition vm_result_str (result : VmResult) : list Z :=
  match result with
  | VM_OK => str "ok"
  | VM_ERR_INVALID_OPCODE => str "invalid opcode"
  | VM_ERR_INVALID_MODE => str "invalid addressing mode"
  | VM_ERR_DIV_BY_ZERO => str "division by zero"
  | VM_ERR_STACK_OVERFLOW => str "stack overflow"
  | VM_ERR_STACK_UNDERFLOW => str "stack underflow"
  | VM_ERR_BAD_BYTECODE_HEADER => str "bad bytecode header"
  | VM_ERR_INVALID_SYSCALL => str "invalid syscall code"
  end.

(** Distinct codes have distinct descriptions, so a report identifies the code. *)
Lemma vm_result_str_inj a b : vm_result_str a = vm_result_str b -> a = b.
Proof. destruct a, b; intros H; first [reflexivity | vm_compute in H; discriminate]. Qed.
