(* ===== verification/CLib.v ===== *)
(** The parts of the C standard library the sources use on characters and
    numbers: the [ctype.h] classes in the "C" locale, the [printf] conversions
    that appear in format strings, and the digit values that reading them back
    computes. Characters are their codes, 0-255. *)

From S2P Require Import Prelude.
Open Scope Z_scope.

(** ** Character classes *)

Definition isdigit (c : Z) : bool := (48 <=? c) && (c <=? 57).
Definition isupper (c : Z) : bool := (65 <=? c) && (c <=? 90).
Definition islower (c : Z) : bool := (97 <=? c) && (c <=? 122).
Definition isalpha (c : Z) : bool := isupper c || islower c.
Definition isalnum (c : Z) : bool := isalpha c || isdigit c.
Definition isxdigit (c : Z) : bool :=
  isdigit c || ((65 <=? c) && (c <=? 70)) || ((97 <=? c) && (c <=? 102)).
Definition isspace (c : Z) : bool := (c =? 32) || ((9 <=? c) && (c <=? 13)).
Definition tolower (c : Z) : Z := if isupper c then c + 32 else c.

(** ** Decimal output: [%u], [%d], [%ld], [%lld], [%zu] *)

Fixpoint dec_digits (fuel : nat) (n : Z) (acc : list Z) : list Z :=
  match fuel with
  | O => acc
  | S fuel =>
      let acc := (48 + n mod 10) :: acc in
      if n <? 10 then acc else dec_digits fuel (n / 10) acc
  end.

(** A number has at most as many decimal digits as binary ones. *)
Definition fmt_u (n : Z) : list Z := dec_digits (S (Z.to_nat (Z.log2 n))) n [].

Definition fmt_d (n : Z) : list Z := if n <? 0 then 45 :: fmt_u (- n) else fmt_u n.

(** ** Hexadecimal output of an 8-bit ([%02X]) and a 16-bit ([%04X]) value *)

Definition hex_digit (d : Z) : Z := if d <? 10 then 48 + d else 55 + d.

Definition fmt_02X (v : Z) : list Z := [hex_digit (v / 16 mod 16); hex_digit (v mod 16)].

Definition fmt_04X (v : Z) : list Z :=
  [hex_digit (v / 4096 mod 16); hex_digit (v / 256 mod 16);
   hex_digit (v / 16 mod 16); hex_digit (v mod 16)].

(** ** [snprintf] into a buffer of [size] bytes keeps [size - 1] characters *)

Definition clip (size : nat) (s : list Z) : list Z := take (size - 1) s.

(** ** Digit values *)

Definition hex_val (c : Z) : Z :=
  let ch := tolower c in
  if (48 <=? ch) && (ch <=? 57) then ch - 48 else ch - 97 + 10.

Definition dec_value (v : Z) (ds : list Z) : Z :=
  fold_left (fun v c => v * 10 + (c - 48)) ds v.

Definition hex_value (v : Z) (ds : list Z) : Z :=
  fold_left (fun v c => v * 16 + hex_val c) ds v.

Lemma dec_value_app v l1 l2 : dec_value v (l1 ++ l2) = dec_value (dec_value v l1) l2.
Proof. apply fold_left_app. Qed.

Lemma isdigit_spec c : isdigit c = true <-> 48 <= c <= 57.
Proof. unfold isdigit. rewrite andb_true_iff, !Z.leb_le. lia. Qed.

(** The digits [dec_digits] puts in front of the accumulator denote the number. *)
Lemma dec_digits_spec fuel n acc :
  0 <= n < 10 ^ Z.of_nat fuel -> fuel <> O ->
  exists ds, dec_digits fuel n acc = ds ++ acc /\ dec_value 0 ds = n /\
             Forall (fun c => isdigit c = true) ds /\ ds <> [].
Proof.
  revert n acc. induction fuel as [|fuel IH]; intros n acc Hn Hf; [done|].
  simpl. rewrite Nat2Z.inj_succ, Z.pow_succ_r in Hn by lia.
  destruct (Z.ltb_spec n 10) as [Hlt|Hge].
  - exists [48 + n mod 10]. rewrite (Z.mod_small n 10) by lia.
    split; [done|split; [unfold dec_value; simpl; lia|split; [|done]]].
    constructor; [|done]. apply isdigit_spec. lia.
  - assert (fuel <> O) as Hf' by (intros ->; simpl in *; lia).
    destruct (IH (n / 10) ((48 + n mod 10) :: acc)) as (ds & -> & Hv & Hd & _); [mlia|done|].
    exists (ds ++ [48 + n mod 10]). rewrite <- app_assoc.
    split; [done|split; [|split]].
    + rewrite dec_value_app, Hv. unfold dec_value; simpl. mlia.
    + apply Forall_app. split; [done|]. constructor; [|done]. apply isdigit_spec. mlia.
    + by destruct ds.
Qed.

Lemma fmt_u_spec n : 0 <= n ->
  dec_value 0 (fmt_u n) = n /\ Forall (fun c => isdigit c = true) (fmt_u n) /\ fmt_u n <> [].
Proof.
  intros Hn. unfold fmt_u.
  destruct (dec_digits_spec (S (Z.to_nat (Z.log2 n))) n []) as (ds & -> & H); [|done|].
  - split; [done|]. rewrite Nat2Z.inj_succ, Z2Nat.id by apply Z.log2_nonneg.
    destruct (Z.eq_dec n 0) as [->|Hne]; [done|].
    apply Z.lt_le_trans with (2 ^ Z.succ (Z.log2 n)); [apply Z.log2_spec; lia|].
    apply Z.pow_le_mono_l. lia.
  - by rewrite app_nil_r.
Qed.

Lemma hex_val_digit d : 0 <= d < 16 -> hex_val (hex_digit d) = d /\ isxdigit (hex_digit d) = true.
Proof.
  intros H.
  assert (In d [0;1;2;3;4;5;6;7;8;9;10;11;12;13;14;15]) as Hin by (simpl; lia).
  repeat (destruct Hin as [<-|Hin]; [by split|]). done.
Qed.

Lemma hex_val_digit_mod k : hex_val (hex_digit (k mod 16)) = k mod 16.
Proof. apply hex_val_digit. apply Z.mod_pos_bound. lia. Qed.

Lemma fmt_04X_value v : is_u16 v -> hex_value 0 (fmt_04X v) = v.
Proof.
  intros. unfold hex_value, fmt_04X. cbn [fold_left]. rewrite !hex_val_digit_mod. mlia.
Qed.

Lemma fmt_02X_value v : is_u8 v -> hex_value 0 (fmt_02X v) = v.
Proof.
  intros. unfold hex_value, fmt_02X. cbn [fold_left]. rewrite !hex_val_digit_mod. mlia.
Qed.
