(* ===== verification/Memory.v ===== *)
(** The 64 KB memory: [include/bytevm/memory.h] and [src/memory.c].

    [data] is the array [uint8_t data[65536]]: a finite map from the address to
    the byte, where an address that was never written since [mem_init] reads as
    the zero that [memset] stored. Two memories that read the same everywhere
    are equivalent ([≡]); the accessors respect that equivalence. *)

From S2P Require Import Prelude.
Open Scope Z_scope.

Definition MEMORY_SIZE : Z := 65536.

Record Memory : Type := mkMemory { data : gmap Z Z }.

Definition mem_init (mem : Memory) : Memory := {| data := ∅ |}.

Definition mem_read8 (mem : Memory) (addr : Z) : Z := default 0 (data mem !! addr).

Definition mem_write8 (mem : Memory) (addr value : Z) : Memory :=
  {| data := <[addr := value]> (data mem) |}.

Definition mem_read16 (mem : Memory) (addr : Z) : Z :=
  u16 (Z.lor (mem_read8 mem addr)
             (u16 (Z.shiftl (mem_read8 mem (u16 (addr + 1))) 8))).

Definition mem_write16 (mem : Memory) (addr value : Z) : Memory :=
  let mem := mem_write8 mem addr (u8 (Z.land value 0xFF)) in
  mem_write8 mem (u16 (addr + 1)) (u8 (Z.shiftr value 8)).

(** ** Equivalence of memories *)

#[export] Instance mem_equiv : Equiv Memory :=
  fun m1 m2 => forall a, mem_read8 m1 a = mem_read8 m2 a.

#[export] Instance mem_equivalence : Equivalence (≡@{Memory}).
Proof.
  split; [by intros m a|by intros m1 m2 H a|].
  intros m1 m2 m3 H1 H2 a. by rewrite (H1 a), (H2 a).
Qed.

#[export] Instance mem_read8_proper : Proper ((≡) ==> (=) ==> (=)) mem_read8.
Proof. intros m1 m2 H a ? <-. apply H. Qed.

#[export] Instance mem_read16_proper : Proper ((≡) ==> (=) ==> (=)) mem_read16.
Proof. intros m1 m2 H a ? <-. unfold mem_read16. by rewrite !(H _). Qed.

(** ** Byte access *)

Lemma mem_read8_init m a : mem_read8 (mem_init m) a = 0.
Proof. unfold mem_read8. simpl. by rewrite lookup_empty. Qed.

Lemma mem_read8_write8_eq m a v : mem_read8 (mem_write8 m a v) a = v.
Proof. unfold mem_read8. simpl. by rewrite lookup_insert_eq. Qed.

Lemma mem_read8_write8_ne m a b v :
  a <> b -> mem_read8 (mem_write8 m a v) b = mem_read8 m b.
Proof. intros H. unfold mem_read8. simpl. by rewrite lookup_insert_ne. Qed.

Lemma mem_read8_write8 m a b v :
  mem_read8 (mem_write8 m a v) b = if decide (a = b) then v else mem_read8 m b.
Proof.
  case_decide; [subst; apply mem_read8_write8_eq|by apply mem_read8_write8_ne].
Qed.

#[export] Instance mem_write8_proper : Proper ((≡) ==> (=) ==> (=) ==> (≡)) mem_write8.
Proof.
  intros m1 m2 H a ? <- v ? <- b. rewrite !mem_read8_write8. by rewrite (H b).
Qed.

#[export] Instance mem_write16_proper : Proper ((≡) ==> (=) ==> (=) ==> (≡)) mem_write16.
Proof. intros m1 m2 H a ? <- v ? <-. unfold mem_write16. by rewrite H. Qed.

(** ** Well-formed memories: every cell is a byte *)

Definition mem_wf (m : Memory) : Prop := map_Forall (fun _ v => is_u8 v) (data m).

Lemma mem_read8_u8 m a : mem_wf m -> is_u8 (mem_read8 m a).
Proof.
  intros H. unfold mem_read8. destruct (data m !! a) as [v|] eqn:E; simpl.
  - exact (H a v E).
  - unfold is_u8. lia.
Qed.

Lemma mem_wf_init m : mem_wf (mem_init m).
Proof. apply map_Forall_empty. Qed.

Lemma mem_wf_write8 m a v : mem_wf m -> is_u8 v -> mem_wf (mem_write8 m a v).
Proof. intros. by apply map_Forall_insert_2. Qed.

Lemma mem_wf_write16 m a v : mem_wf m -> mem_wf (mem_write16 m a v).
Proof. intros. by repeat apply mem_wf_write8; auto using u8_range. Qed.

#[export] Hint Resolve mem_read8_u8 mem_wf_init mem_wf_write8 mem_wf_write16 : bytevm.

(** ** Word access *)

Lemma mem_read16_u16 m a : is_u16 (mem_read16 m a).
Proof. apply u16_range. Qed.

#[export] Hint Resolve mem_read16_u16 : bytevm.

(** The little-endian reading: low byte at the address, high byte after it,
    with the address wrapping at the top of memory. *)
Lemma mem_read16_bytes m a : mem_wf m ->
  mem_read16 m a = mem_read8 m a + 256 * mem_read8 m (u16 (a + 1)).
Proof.
  intros Hm. unfold mem_read16.
  pose proof (mem_read8_u8 m a Hm) as Hlo.
  pose proof (mem_read8_u8 m (u16 (a + 1)) Hm) as Hhi.
  rewrite Z.shiftl_mul_pow2 by lia.
  unfold is_u8 in *. rewrite (u16_id (_ * 2 ^ 8)) by (unfold is_u16; lia).
  rewrite <- Z.shiftl_mul_pow2, lor_shift_add by lia.
  rewrite u16_id by (unfold is_u16; lia). lia.
Qed.

Lemma u8_land_255 v : u8 (Z.land v 0xFF) = v mod 256.
Proof.
  change 0xFF with (Z.ones 8). rewrite Z.land_ones by lia. apply u8_u8.
Qed.

Lemma u8_shiftr_8 v : is_u16 v -> u8 (Z.shiftr v 8) = v / 256.
Proof.
  intros. rewrite Z.shiftr_div_pow2 by lia. change (2 ^ 8) with 256. mlia.
Qed.

Lemma succ16_ne a : a <> u16 (a + 1).
Proof. intros H. assert (is_u16 a) by (rewrite H; apply u16_range). mlia. Qed.

Lemma mem_read8_write16_lo m a v :
  mem_read8 (mem_write16 m a v) a = v mod 256.
Proof.
  unfold mem_write16. rewrite mem_read8_write8_ne by (pose proof (succ16_ne a); congruence).
  rewrite mem_read8_write8_eq. apply u8_land_255.
Qed.

Lemma mem_read8_write16_hi m a v : is_u16 v ->
  mem_read8 (mem_write16 m a v) (u16 (a + 1)) = v / 256.
Proof.
  intros. unfold mem_write16. rewrite mem_read8_write8_eq. by apply u8_shiftr_8.
Qed.

Lemma mem_read8_write16_ne m a v b :
  b <> a -> b <> u16 (a + 1) -> mem_read8 (mem_write16 m a v) b = mem_read8 m b.
Proof. intros. unfold mem_write16. by rewrite !mem_read8_write8_ne. Qed.

Lemma mem_read16_write16_eq m a v :
  mem_wf m -> is_u16 v -> mem_read16 (mem_write16 m a v) a = v.
Proof.
  intros Hm Hv. rewrite mem_read16_bytes by auto with bytevm.
  rewrite mem_read8_write16_lo, mem_read8_write16_hi by done. mlia.
Qed.

Lemma mem_read16_ext m1 m2 a :
  mem_read8 m1 a = mem_read8 m2 a ->
  mem_read8 m1 (u16 (a + 1)) = mem_read8 m2 (u16 (a + 1)) ->
  mem_read16 m1 a = mem_read16 m2 a.
Proof. intros H1 H2. unfold mem_read16. by rewrite H1, H2. Qed.
