(* ===== verification/Cpu.v ===== *)
(** The register file: [include/bytevm/cpu.h] and [src/cpu.c]. *)

From S2P Require Import Prelude.
Open Scope Z_scope.

Definition CPU_INITIAL_SP : Z := 0xFFFE.

Inductive CpuFlagBit : Type := CPU_FLAG_Z | CPU_FLAG_C | CPU_FLAG_S | CPU_FLAG_O.

#[export] Instance CpuFlagBit_eq_dec : EqDecision CpuFlagBit.
Proof. solve_decision. Defined.

(** The enumeration's values: the bit positions in FLAGS. *)
Definition flag_bit (bit : CpuFlagBit) : Z :=
  match bit with
  | CPU_FLAG_Z => 0
  | CPU_FLAG_C => 1
  | CPU_FLAG_S => 2
  | CPU_FLAG_O => 3
  end.

(** [r] is the array [uint16_t r[8]]. *)
Record CPU : Type := mkCPU { r : list Z; pc : Z; sp : Z; flags : Z }.

Definition cpu_init (cpu : CPU) : CPU :=
  {| r := replicate 8 0; pc := 0; sp := CPU_INITIAL_SP; flags := 0 |}.

Definition cpu_get_flag (cpu : CPU) (bit : CpuFlagBit) : bool :=
  negb (Z.land (Z.shiftr (flags cpu) (flag_bit bit)) 0x1 =? 0).

Definition cpu_set_flag (cpu : CPU) (bit : CpuFlagBit) (value : bool) : CPU :=
  let mask := u16 (Z.shiftl 1 (flag_bit bit)) in
  let flags' := if value then u16 (Z.lor (flags cpu) mask)
                else u16 (Z.land (flags cpu) (u16 (Z.lnot mask))) in
  {| r := r cpu; pc := pc cpu; sp := sp cpu; flags := flags' |}.

(** ** Well-formed register files

    Every register holds a 16-bit value, and the reserved FLAGS bits 4-15 are
    clear. *)
Record cpu_wf (c : CPU) : Prop := {
  cpu_wf_len : length (r c) = 8%nat;
  cpu_wf_r : Forall is_u16 (r c);
  cpu_wf_pc : is_u16 (pc c);
  cpu_wf_sp : is_u16 (sp c);
  cpu_wf_flags : 0 <= flags c < 16;
}.

Lemma cpu_wf_init c : cpu_wf (cpu_init c).
Proof.
  split; simpl; try reflexivity; try (unfold is_u16, CPU_INITIAL_SP; lia).
  repeat constructor; unfold is_u16; lia.
Qed.

Lemma flag_bit_range b : 0 <= flag_bit b <= 3.
Proof. destruct b; simpl; lia. Qed.

(** ** Flag accessors as bit operations *)

Lemma cpu_get_flag_testbit c b : cpu_get_flag c b = Z.testbit (flags c) (flag_bit b).
Proof. apply land_1_testbit. pose proof (flag_bit_range b). lia. Qed.

(** The sixteen values FLAGS takes, for computing with every one of them. *)
Definition flag_values : list Z := [0;1;2;3;4;5;6;7;8;9;10;11;12;13;14;15].

Lemma flag_values_in f : 0 <= f < 16 -> In f flag_values.
Proof. intros. simpl. lia. Qed.

Definition set_flag_ok (f : Z) (b b' : CpuFlagBit) (v : bool) : bool :=
  let c := mkCPU [] 0 0 f in
  let c' := cpu_set_flag c b v in
  (0 <=? flags c') && (flags c' <? 16) &&
  eqb (cpu_get_flag c' b') (if decide (b = b') then v else cpu_get_flag c b').

Lemma set_flag_ok_all :
  forallb (fun f => forallb (fun b => forallb (fun b' =>
    set_flag_ok f b b' true && set_flag_ok f b b' false)
      [CPU_FLAG_Z; CPU_FLAG_C; CPU_FLAG_S; CPU_FLAG_O])
      [CPU_FLAG_Z; CPU_FLAG_C; CPU_FLAG_S; CPU_FLAG_O]) flag_values = true.
Proof. vm_compute. reflexivity. Qed.

Lemma set_flag_ok_true f b b' v : 0 <= f < 16 -> set_flag_ok f b b' v = true.
Proof.
  intros Hf. pose proof set_flag_ok_all as H.
  rewrite forallb_forall in H. specialize (H f (flag_values_in f Hf)).
  rewrite forallb_forall in H. specialize (H b ltac:(destruct b; simpl; tauto)).
  rewrite forallb_forall in H. specialize (H b' ltac:(destruct b'; simpl; tauto)).
  apply andb_true_iff in H as [Ht Hn]. by destruct v.
Qed.

Lemma cpu_set_flag_flags c b v : 0 <= flags c < 16 -> 0 <= flags (cpu_set_flag c b v) < 16.
Proof.
  intros Hf. pose proof (set_flag_ok_true (flags c) b b v Hf) as H.
  unfold set_flag_ok in H. rewrite !andb_true_iff, Z.leb_le, Z.ltb_lt in H.
  destruct H as [[H1 H2] _]. exact (conj H1 H2).
Qed.

(** Reading after writing a flag: the written bit, the others as they were. *)
Lemma cpu_get_set_flag c b b' v : 0 <= flags c < 16 ->
  cpu_get_flag (cpu_set_flag c b v) b' = if decide (b = b') then v else cpu_get_flag c b'.
Proof.
  intros Hf. pose proof (set_flag_ok_true (flags c) b b' v Hf) as H.
  unfold set_flag_ok in H. rewrite !andb_true_iff, eqb_true_iff in H.
  destruct H as [_ H]. exact H.
Qed.

Lemma cpu_wf_set_flag c b v : cpu_wf c -> cpu_wf (cpu_set_flag c b v).
Proof.
  intros [H1 H2 H3 H4 H5]. split; try assumption. by apply cpu_set_flag_flags.
Qed.

#[export] Hint Resolve cpu_wf_init cpu_wf_set_flag : bytevm.
