(* ===== verification/Instruction.v ===== *)
(** Instruction encoding: [include/bytevm/opcode.h],
    [include/bytevm/instruction.h] and [src/instruction.c].

    The decoder is characterised against [instr_bytes], the byte string an
    instruction is encoded as (section "The encoding" below): decoding at [pc]
    succeeds exactly when memory holds the bytes of a legal instruction there. *)

From S2P Require Import Prelude Common Memory.
Open Scope Z_scope.

Inductive Opcode : Type :=
| OP_NOP | OP_MOV | OP_ADD | OP_SUB | OP_MUL | OP_DIV | OP_MOD | OP_AND | OP_OR
| OP_XOR | OP_NOT | OP_SHL | OP_SHR | OP_LOAD | OP_STORE | OP_PUSH | OP_POP
| OP_CMP | OP_JMP | OP_JZ | OP_JNZ | OP_JG | OP_JGE | OP_JL | OP_JLE | OP_JB
| OP_JAE | OP_JA | OP_JBE | OP_CALL | OP_RET | OP_SYS | OP_HALT.

#[export] Instance Opcode_eq_dec : EqDecision Opcode.
Proof. solve_decision. Defined.

(** The enumeration's values, fixed by the encoding. *)
Definition opcode_value (op : Opcode) : Z :=
  match op with
  | OP_NOP => 0x00 | OP_MOV => 0x01 | OP_ADD => 0x02 | OP_SUB => 0x03
  | OP_MUL => 0x04 | OP_DIV => 0x05 | OP_MOD => 0x06 | OP_AND => 0x07
  | OP_OR => 0x08 | OP_XOR => 0x09 | OP_NOT => 0x0A | OP_SHL => 0x0B
  | OP_SHR => 0x0C | OP_LOAD => 0x0D | OP_STORE => 0x0E | OP_PUSH => 0x0F
  | OP_POP => 0x10 | OP_CMP => 0x11 | OP_JMP => 0x12 | OP_JZ => 0x13
  | OP_JNZ => 0x14 | OP_JG => 0x15 | OP_JGE => 0x16 | OP_JL => 0x17
  | OP_JLE => 0x18 | OP_JB => 0x19 | OP_JAE => 0x1A | OP_JA => 0x1B
  | OP_JBE => 0x1C | OP_CALL => 0x1D | OP_RET => 0x1E | OP_SYS => 0x1F
  | OP_HALT => 0xFF
  end.

Definition opcodes : list Opcode :=
  [OP_NOP; OP_MOV; OP_ADD; OP_SUB; OP_MUL; OP_DIV; OP_MOD; OP_AND; OP_OR; OP_XOR;
   OP_NOT; OP_SHL; OP_SHR; OP_LOAD; OP_STORE; OP_PUSH; OP_POP; OP_CMP; OP_JMP; OP_JZ;
   OP_JNZ; OP_JG; OP_JGE; OP_JL; OP_JLE; OP_JB; OP_JAE; OP_JA; OP_JBE; OP_CALL; OP_RET;
   OP_SYS; OP_HALT].

(** The opcode an encoding byte denotes, if any: the inverse of [opcode_value]. *)
Definition opcode_of_byte (b : Z) : option Opcode :=
  List.find (fun op => opcode_value op =? b) opcodes.

(** Addressing modes. A C value of the enumeration can also hold one of the
    reserved nibbles 6-15 before it is checked: [MODE_RESERVED]. *)
Inductive AddrMode : Type :=
| MODE_NONE | MODE_REG | MODE_IMM16 | MODE_MEM_DIRECT | MODE_REG_INDIRECT | MODE_IMM8
| MODE_RESERVED (nibble : Z).

#[export] Instance AddrMode_eq_dec : EqDecision AddrMode.
Proof. solve_decision. Defined.

Definition mode_value (m : AddrMode) : Z :=
  match m with
  | MODE_NONE => 0 | MODE_REG => 1 | MODE_IMM16 => 2 | MODE_MEM_DIRECT => 3
  | MODE_REG_INDIRECT => 4 | MODE_IMM8 => 5 | MODE_RESERVED n => n
  end.

(** The cast [(AddrMode)nibble]. *)
Definition mode_of_nibble (n : Z) : AddrMode :=
  match n with
  | 0 => MODE_NONE | 1 => MODE_REG | 2 => MODE_IMM16 | 3 => MODE_MEM_DIRECT
  | 4 => MODE_REG_INDIRECT | 5 => MODE_IMM8 | _ => MODE_RESERVED n
  end.

Record Operand : Type := mkOperand { mode : AddrMode; value : Z }.

Record Instruction : Type := mkInstr { opcode : Opcode; op1 : Operand; op2 : Operand }.

(** ** The legality table *)

Definition MODE_BIT (m : AddrMode) : Z := u8 (Z.shiftl 1 (mode_value m)).
Definition MODES_NONE : Z := MODE_BIT MODE_NONE.
Definition MODES_REG : Z := MODE_BIT MODE_REG.
Definition MODES_REG_IMM16 : Z := u8 (Z.lor (MODE_BIT MODE_REG) (MODE_BIT MODE_IMM16)).
Definition MODES_MEM : Z :=
  u8 (Z.lor (MODE_BIT MODE_MEM_DIRECT) (MODE_BIT MODE_REG_INDIRECT)).
Definition MODES_MEM_DIRECT : Z := MODE_BIT MODE_MEM_DIRECT.
Definition MODES_IMM8 : Z := MODE_BIT MODE_IMM8.

Record OpcodeInfo : Type := mkInfo { valid : bool; op1_modes : Z; op2_modes : Z }.

(** [OPCODE_TABLE[b]]: entries of bytes that are no opcode are zero-initialised. *)
Definition OPCODE_TABLE (b : Z) : OpcodeInfo :=
  match opcode_of_byte b with
  | None => mkInfo false 0 0
  | Some op =>
    match op with
    | OP_NOP => mkInfo true MODES_NONE MODES_NONE
    | OP_MOV | OP_ADD | OP_SUB | OP_MUL | OP_DIV | OP_MOD | OP_AND | OP_OR | OP_XOR =>
        mkInfo true MODES_REG MODES_REG_IMM16
    | OP_NOT => mkInfo true MODES_REG MODES_NONE
    | OP_SHL | OP_SHR => mkInfo true MODES_REG MODES_REG_IMM16
    | OP_LOAD => mkInfo true MODES_REG MODES_MEM
    | OP_STORE => mkInfo true MODES_MEM MODES_REG
    | OP_PUSH => mkInfo true MODES_REG_IMM16 MODES_NONE
    | OP_POP => mkInfo true MODES_REG MODES_NONE
    | OP_CMP => mkInfo true MODES_REG_IMM16 MODES_REG_IMM16
    | OP_JMP | OP_JZ | OP_JNZ | OP_JG | OP_JGE | OP_JL | OP_JLE | OP_JB | OP_JAE
    | OP_JA | OP_JBE | OP_CALL => mkInfo true MODES_MEM_DIRECT MODES_NONE
    | OP_RET => mkInfo true MODES_NONE MODES_NONE
    | OP_SYS => mkInfo true MODES_IMM8 MODES_NONE
    | OP_HALT => mkInfo true MODES_NONE MODES_NONE
    end
  end.

Definition mode_is_known (m : AddrMode) : bool := mode_value m <=? mode_value MODE_IMM8.

Definition mode_is_legal (m : AddrMode) (legal : Z) : bool :=
  if negb (mode_is_known m) then false
  else negb (Z.land legal (MODE_BIT m) =? 0).

(** [instruction_opcode_modes]: the two masks, or [None] when it returns false. *)
Definition instruction_opcode_modes (op : Opcode) : option (Z * Z) :=
  let info := OPCODE_TABLE (u8 (opcode_value op)) in
  if negb (valid info) then None else Some (op1_modes info, op2_modes info).

(** ** The decoder *)

(** One operand at [addr]: the operand and the advanced address, or an error. *)
Definition decode_operand (mem : Memory) (addr : Z) (m : AddrMode)
  : VmResult + (Z * Operand) :=
  match m with
  | MODE_NONE => inr (addr, mkOperand m 0)
  | MODE_REG | MODE_REG_INDIRECT =>
      let idx := mem_read8 mem addr in
      let addr := u16 (addr + 1) in
      if 7 <? idx then inl VM_ERR_INVALID_MODE
      else inr (addr, mkOperand m idx)
  | MODE_IMM8 =>
      let value := mem_read8 mem addr in
      inr (u16 (addr + 1), mkOperand m value)
  | MODE_IMM16 | MODE_MEM_DIRECT =>
      let value := mem_read16 mem addr in
      inr (u16 (addr + 2), mkOperand m value)
  | MODE_RESERVED _ => inl VM_ERR_INVALID_MODE
  end.

(** [instruction_decode]: on success the advanced [pc] and the instruction; on
    failure the error alone, as the C code leaves [*pc] untouched then. *)
Definition instruction_decode (mem : Memory) (pc : Z) : VmResult + (Z * Instruction) :=
  let addr := pc in
  let opcode_byte := mem_read8 mem addr in
  let info := OPCODE_TABLE opcode_byte in
  match (if valid info then opcode_of_byte opcode_byte else None) with
  | None => inl VM_ERR_INVALID_OPCODE
  | Some opcode =>
    let addr := u16 (addr + 1) in
    let mode_byte := mem_read8 mem addr in
    let mode1 := mode_of_nibble (Z.shiftr mode_byte 4) in
    let mode2 := mode_of_nibble (Z.land mode_byte 0x0F) in
    let addr := u16 (addr + 1) in
    if negb (mode_is_legal mode1 (op1_modes info)) then inl VM_ERR_INVALID_MODE
    else if negb (mode_is_legal mode2 (op2_modes info)) then inl VM_ERR_INVALID_MODE
    else
      match decode_operand mem addr mode1 with
      | inl e => inl e
      | inr (addr, op1) =>
        match decode_operand mem addr mode2 with
        | inl e => inl e
        | inr (addr, op2) => inr (addr, mkInstr opcode op1 op2)
        end
      end
  end.

(** ** Opcodes and modes as numbers *)

Lemma opcode_of_byte_value op : opcode_of_byte (opcode_value op) = Some op.
Proof. destruct op; reflexivity. Qed.

Lemma opcode_of_byte_Some b op : opcode_of_byte b = Some op <-> b = opcode_value op.
Proof.
  split.
  - intros H. apply find_some in H as [_ H]. apply Z.eqb_eq in H. done.
  - intros ->. apply opcode_of_byte_value.
Qed.

Lemma opcode_value_u8 op : is_u8 (opcode_value op).
Proof. destruct op; unfold is_u8; simpl; lia. Qed.

Lemma opcode_table_valid op : valid (OPCODE_TABLE (opcode_value op)) = true.
Proof. destruct op; reflexivity. Qed.

Lemma opcode_fetch b op :
  (if valid (OPCODE_TABLE b) then opcode_of_byte b else None) = Some op
  <-> b = opcode_value op.
Proof.
  split.
  - destruct (valid _); [|discriminate]. apply opcode_of_byte_Some.
  - intros ->. rewrite opcode_table_valid. apply opcode_of_byte_value.
Qed.

Lemma mode_value_of_nibble n : mode_value (mode_of_nibble n) = n.
Proof. destruct n as [|[[[]|[]|]|[[]|[]|]|]|]; reflexivity. Qed.

Definition mode_reserved (m : AddrMode) : bool :=
  match m with MODE_RESERVED _ => true | _ => false end.

Lemma mode_of_nibble_value m : mode_reserved m = false -> mode_of_nibble (mode_value m) = m.
Proof. by destruct m. Qed.

Lemma mode_value_bound m : mode_reserved m = false -> 0 <= mode_value m <= 5.
Proof. destruct m; simpl; intros; [lia..|discriminate]. Qed.

(** ** The encoding *)

Definition operand_bytes (op : Operand) : list Z :=
  match mode op with
  | MODE_NONE | MODE_RESERVED _ => []
  | MODE_REG | MODE_REG_INDIRECT | MODE_IMM8 => [value op]
  | MODE_IMM16 | MODE_MEM_DIRECT => [value op mod 256; value op / 256]
  end.

Definition mode_byte (i : Instruction) : Z :=
  16 * mode_value (mode (op1 i)) + mode_value (mode (op2 i)).

Definition instr_bytes (i : Instruction) : list Z :=
  opcode_value (opcode i) :: mode_byte i :: operand_bytes (op1 i) ++ operand_bytes (op2 i).

(** The values an operand of each mode can carry. *)
Definition operand_wf (op : Operand) : Prop :=
  match mode op with
  | MODE_NONE => value op = 0
  | MODE_REG | MODE_REG_INDIRECT => 0 <= value op <= 7
  | MODE_IMM16 | MODE_MEM_DIRECT => is_u16 (value op)
  | MODE_IMM8 => is_u8 (value op)
  | MODE_RESERVED _ => False
  end.

(** ** Legal instructions

    The normative table of DESIGN.md section 7.3, one predicate per operand
    class. *)

Definition none_operand (op : Operand) : Prop := mode op = MODE_NONE /\ value op = 0.
Definition reg_operand (op : Operand) : Prop := mode op = MODE_REG /\ 0 <= value op <= 7.
Definition imm16_operand (op : Operand) : Prop := mode op = MODE_IMM16 /\ is_u16 (value op).
Definition direct_operand (op : Operand) : Prop :=
  mode op = MODE_MEM_DIRECT /\ is_u16 (value op).
Definition indirect_operand (op : Operand) : Prop :=
  mode op = MODE_REG_INDIRECT /\ 0 <= value op <= 7.
Definition imm8_operand (op : Operand) : Prop := mode op = MODE_IMM8 /\ is_u8 (value op).
Definition src_operand (op : Operand) : Prop := reg_operand op \/ imm16_operand op.
Definition mem_operand (op : Operand) : Prop := direct_operand op \/ indirect_operand op.

Definition operand_shapes (op : Opcode) : (Operand -> Prop) * (Operand -> Prop) :=
  match op with
  | OP_NOP | OP_RET | OP_HALT => (none_operand, none_operand)
  | OP_MOV | OP_ADD | OP_SUB | OP_MUL | OP_DIV | OP_MOD | OP_AND | OP_OR | OP_XOR
  | OP_SHL | OP_SHR => (reg_operand, src_operand)
  | OP_NOT | OP_POP => (reg_operand, none_operand)
  | OP_LOAD => (reg_operand, mem_operand)
  | OP_STORE => (mem_operand, reg_operand)
  | OP_PUSH => (src_operand, none_operand)
  | OP_CMP => (src_operand, src_operand)
  | OP_JMP | OP_JZ | OP_JNZ | OP_JG | OP_JGE | OP_JL | OP_JLE | OP_JB | OP_JAE
  | OP_JA | OP_JBE | OP_CALL => (direct_operand, none_operand)
  | OP_SYS => (imm8_operand, none_operand)
  end.

(** Both operands have the shapes of the opcode. *)
Definition instr_legal (i : Instruction) : Prop :=
  fst (operand_shapes (opcode i)) (op1 i) /\ snd (operand_shapes (opcode i)) (op2 i).

(** [OPCODE_TABLE] and its masks, with the values the modes can carry, say the same. *)
Record table_legal (i : Instruction) : Prop := {
  table_op1 : operand_wf (op1 i);
  table_op2 : operand_wf (op2 i);
  table_mode1 :
    mode_is_legal (mode (op1 i)) (op1_modes (OPCODE_TABLE (opcode_value (opcode i)))) = true;
  table_mode2 :
    mode_is_legal (mode (op2 i)) (op2_modes (OPCODE_TABLE (opcode_value (opcode i)))) = true;
}.

Lemma legal_mask_none op : operand_wf op /\ mode_is_legal (mode op) MODES_NONE = true <-> none_operand op.
Proof. unfold operand_wf, none_operand. destruct op as [[] v]; simpl; intuition discriminate. Qed.

(** Reading one mask: the modes it admits, with the values each can carry. *)
Ltac mask_shape :=
  unfold operand_wf, src_operand, mem_operand, reg_operand, imm16_operand, direct_operand,
    indirect_operand, imm8_operand;
  match goal with op : Operand |- _ => destruct op as [m v]; destruct m as [| | | | | |n]; simpl end;
  intuition discriminate.

Lemma legal_mask_reg op : operand_wf op /\ mode_is_legal (mode op) MODES_REG = true <-> reg_operand op.
Proof. mask_shape. Qed.
Lemma legal_mask_src op :
  operand_wf op /\ mode_is_legal (mode op) MODES_REG_IMM16 = true <-> src_operand op.
Proof. mask_shape. Qed.
Lemma legal_mask_mem op : operand_wf op /\ mode_is_legal (mode op) MODES_MEM = true <-> mem_operand op.
Proof. mask_shape. Qed.
Lemma legal_mask_direct op :
  operand_wf op /\ mode_is_legal (mode op) MODES_MEM_DIRECT = true <-> direct_operand op.
Proof. mask_shape. Qed.
Lemma legal_mask_imm8 op : operand_wf op /\ mode_is_legal (mode op) MODES_IMM8 = true <-> imm8_operand op.
Proof. mask_shape. Qed.

Lemma legal_table i : table_legal i <-> instr_legal i.
Proof.
  unfold instr_legal. transitivity
    ((operand_wf (op1 i) /\
      mode_is_legal (mode (op1 i)) (op1_modes (OPCODE_TABLE (opcode_value (opcode i)))) = true) /\
     (operand_wf (op2 i) /\
      mode_is_legal (mode (op2 i)) (op2_modes (OPCODE_TABLE (opcode_value (opcode i)))) = true)).
  - split; [intros []|intros [[] []]]; repeat split; assumption.
  - destruct (opcode i); cbn [OPCODE_TABLE opcode_of_byte opcode_value find opcodes op1_modes
      op2_modes operand_shapes fst snd Z.eqb Pos.eqb];
    rewrite ?legal_mask_none, ?legal_mask_reg, ?legal_mask_src, ?legal_mask_mem,
      ?legal_mask_direct, ?legal_mask_imm8; reflexivity.
Qed.

Lemma legal_operands i : instr_legal i -> operand_wf (op1 i) /\ operand_wf (op2 i).
Proof. by intros []%legal_table. Qed.

Lemma instr_bytes_length i : 2 <= zlen (instr_bytes i) <= 6.
Proof.
  unfold instr_bytes. cbn [length]. rewrite length_app.
  assert (forall o, (length (operand_bytes o) <= 2)%nat) as H
    by (intros o; unfold operand_bytes; destruct (mode o); simpl; lia).
  pose proof (H (op1 i)). pose proof (H (op2 i)). lia.
Qed.

(** Memory holds [bs] from [a] on, wrapping at the top. *)
Fixpoint bytes_at (mem : Memory) (a : Z) (bs : list Z) : Prop :=
  match bs with
  | [] => True
  | b :: bs => mem_read8 mem a = b /\ bytes_at mem (u16 (a + 1)) bs
  end.

#[export] Instance bytes_at_dec mem a bs : Decision (bytes_at mem a bs).
Proof. revert a. induction bs; intros; simpl; apply _. Defined.

Lemma bytes_at_app mem a bs1 bs2 : is_u16 a ->
  bytes_at mem a (bs1 ++ bs2) <->
  bytes_at mem a bs1 /\ bytes_at mem (u16 (a + zlen bs1)) bs2.
Proof.
  revert a. induction bs1 as [|b bs1 IH]; intros a Ha; simpl.
  - rewrite Z.add_0_r, u16_id by done. tauto.
  - rewrite IH by apply u16_range.
    replace (u16 (u16 (a + 1) + zlen bs1)) with (u16 (a + Z.of_nat (S (length bs1)))); [tauto|].
    rewrite u16_add_l. f_equal. lia.
Qed.

(** A memory that was given [bs] at [i] holds them there. *)
Lemma bytes_at_intro mem i bs : 0 <= i -> i + zlen bs <= 65536 ->
  (forall k, (k < length bs)%nat -> mem_read8 mem (i + Z.of_nat k) = default 0 (bs !! k)) ->
  bytes_at mem i bs.
Proof.
  revert i. induction bs as [|b bs IH]; intros i Hi Hl H; simpl in *; [done|]. split.
  - specialize (H 0%nat ltac:(lia)). by rewrite Z.add_0_r in H.
  - destruct bs as [|b' bs']; [done|]. cbn [length] in *.
    rewrite u16_id by (unfold is_u16; lia). apply IH; [lia|simpl; lia|].
    intros k Hk. specialize (H (S k) ltac:(simpl in *; lia)).
    replace (i + 1 + Z.of_nat k) with (i + Z.of_nat (S k)) by lia. exact H.
Qed.

Lemma bytes_at_read m a bs k : 0 <= a -> a + zlen bs <= 65536 -> bytes_at m a bs -> (k < length bs)%nat ->
  mem_read8 m (a + Z.of_nat k) = default 0 (bs !! k).
Proof.
  revert a k. induction bs as [|b bs IH]; intros a k Ha Hl Hb Hk; cbn [length bytes_at] in *; [lia|].
  destruct Hb as [Hb Hbs]. destruct k as [|k]; [by rewrite Z.add_0_r|].
  destruct bs as [|c bs]; [simpl in Hk; lia|]. cbn [length] in *.
  rewrite u16_id in Hbs by (unfold is_u16; lia). simpl. rewrite <- (IH (a + 1) k); try done; try lia.
  f_equal. lia.
Qed.

Lemma operand_wf_not_reserved op : operand_wf op -> mode_reserved (mode op) = false.
Proof. unfold operand_wf. by destruct (mode op). Qed.

Lemma u16_succ_succ a : u16 (u16 (a + 1) + 1) = u16 (a + 2).
Proof. rewrite u16_add_l. f_equal. lia. Qed.

Section decoder.
Context (mem : Memory) (Hmem : mem_wf mem).

(** A word in memory is the little-endian value of the two bytes there. *)
Lemma bytes_at_word a v : is_u16 v ->
  mem_read16 mem a = v <-> bytes_at mem a [v mod 256; v / 256].
Proof.
  intros Hv. simpl. rewrite mem_read16_bytes by done.
  pose proof (mem_read8_u8 mem a Hmem). pose proof (mem_read8_u8 mem (u16 (a + 1)) Hmem).
  unfold is_u8, is_u16 in *.
  split; [intros <-; split; [|split; [|done]]|intros (Hlo & Hhi & _)]; mlia.
Qed.

Lemma decode_operand_sound a m a' op :
  decode_operand mem a m = inr (a', op) ->
  mode op = m /\ (mode_reserved m = false -> operand_wf op) /\
  (is_u16 a -> bytes_at mem a (operand_bytes op) /\ a' = u16 (a + zlen (operand_bytes op))).
Proof.
  pose proof (mem_read8_u8 mem a Hmem) as H8.
  pose proof (mem_read16_u16 mem a) as H16.
  unfold operand_wf, operand_bytes, is_u8 in *.
  destruct m; simpl; try case_match eqn:Hc; intros [= <- <-]; simpl;
    (split; [done|split; [intros _; first [done | lia]|intros Ha]]).
  all: try (by split; [split|]).
  - by rewrite Z.add_0_r, u16_id.
  - split; [by apply bytes_at_word|done].
  - split; [by apply bytes_at_word|done].
Qed.

Lemma decode_operand_complete a op :
  is_u16 a -> operand_wf op -> bytes_at mem a (operand_bytes op) ->
  decode_operand mem a (mode op) = inr (u16 (a + zlen (operand_bytes op)), op).
Proof.
  unfold operand_wf, operand_bytes, decode_operand. destruct op as [m v]; simpl.
  intros Ha Hwf Hb. destruct m; simpl in *;
    try (apply bytes_at_word in Hb; [|done]);
    repeat match goal with H : _ /\ True |- _ => destruct H as [H _] end; subst; try done.
  - by rewrite Z.add_0_r, u16_id.
  - rewrite (proj2 (Z.ltb_ge 7 _)) by lia. done.
  - rewrite (proj2 (Z.ltb_ge 7 _)) by lia. done.
Qed.

Lemma mode_nibbles b i :
  b = mode_byte i -> mode_reserved (mode (op1 i)) = false ->
  mode_reserved (mode (op2 i)) = false ->
  mode_of_nibble (Z.shiftr b 4) = mode (op1 i) /\
  mode_of_nibble (Z.land b 0x0F) = mode (op2 i).
Proof.
  intros -> H1 H2. pose proof (mode_value_bound _ H1). pose proof (mode_value_bound _ H2).
  unfold mode_byte. change 0x0F with (Z.ones 4). rewrite Z.land_ones by lia.
  rewrite Z.shiftr_div_pow2 by lia. change (2 ^ 4) with 16.
  split; rewrite <- mode_of_nibble_value by done; f_equal; mlia.
Qed.

Lemma nibbles_mode_byte b m1 m2 : is_u8 b ->
  mode_of_nibble (Z.shiftr b 4) = m1 -> mode_of_nibble (Z.land b 0x0F) = m2 ->
  16 * mode_value m1 + mode_value m2 = b.
Proof.
  intros Hb <- <-. rewrite !mode_value_of_nibble.
  change 0x0F with (Z.ones 4). rewrite Z.land_ones by lia.
  rewrite Z.shiftr_div_pow2 by lia. change (2 ^ 4) with 16. mlia.
Qed.

Lemma mode_is_legal_known m legal : mode_is_legal m legal = true -> mode_value m <= 5.
Proof.
  unfold mode_is_legal, mode_is_known. simpl.
  destruct (mode_value m <=? 5) eqn:E; simpl; [|discriminate]. lia.
Qed.

Lemma legal_nibble_not_reserved n legal : 0 <= n ->
  mode_is_legal (mode_of_nibble n) legal = true -> mode_reserved (mode_of_nibble n) = false.
Proof.
  intros Hn H. apply mode_is_legal_known in H. rewrite mode_value_of_nibble in H.
  assert (n = 0 \/ n = 1 \/ n = 2 \/ n = 3 \/ n = 4 \/ n = 5) as Hc by lia.
  by destruct Hc as [->|[->|[->|[->|[->| ->]]]]].
Qed.

Lemma decode_sound p p' i : is_u16 p ->
  instruction_decode mem p = inr (p', i) ->
  instr_legal i /\ bytes_at mem p (instr_bytes i) /\
  p' = u16 (p + zlen (instr_bytes i)).
Proof.
  intros Hp. unfold instruction_decode.
  destruct (if valid _ then _ else _) as [op|] eqn:Hop; [|discriminate].
  apply opcode_fetch in Hop. rewrite u16_succ_succ, Hop.
  pose proof (mem_read8_u8 mem (u16 (p + 1)) Hmem) as Hmb.
  set (mb := mem_read8 mem (u16 (p + 1))) in *.
  destruct (mode_is_legal _ (op1_modes _)) eqn:Hl1; [simpl|discriminate].
  destruct (mode_is_legal _ (op2_modes _)) eqn:Hl2; [simpl|discriminate].
  destruct (decode_operand _ _ (mode_of_nibble (Z.shiftr mb 4))) as [|[a1 o1]] eqn:Hd1;
    [discriminate|].
  destruct (decode_operand _ a1 _) as [|[a2 o2]] eqn:Hd2; [discriminate|].
  intros [= <- <-].
  apply decode_operand_sound in Hd1 as (Hm1 & Hw1 & Hb1).
  destruct (Hb1 (u16_range _)) as [Hb1' ->]. clear Hb1.
  apply decode_operand_sound in Hd2 as (Hm2 & Hw2 & Hb2).
  destruct (Hb2 (u16_range _)) as [Hb2' ->]. clear Hb2.
  specialize (Hw1 (legal_nibble_not_reserved _ _ ltac:(apply Z.shiftr_nonneg, Hmb) Hl1)).
  specialize (Hw2 (legal_nibble_not_reserved _ _
    ltac:(apply Z.land_nonneg; left; apply Hmb) Hl2)).
  split; [|split].
  - apply legal_table. split; simpl; try done; congruence.
  - unfold instr_bytes, mode_byte. simpl. rewrite u16_succ_succ.
    split; [done|split].
    + symmetry. apply nibbles_mode_byte; [done|by rewrite Hm1|by rewrite Hm2].
    + apply bytes_at_app; [apply u16_range|done].
  - unfold instr_bytes. simpl. rewrite length_app. mlia.
Qed.

Lemma decode_complete p i : is_u16 p ->
  instr_legal i -> bytes_at mem p (instr_bytes i) ->
  instruction_decode mem p = inr (u16 (p + zlen (instr_bytes i)), i).
Proof.
  intros Hp [Hw1 Hw2 Hl1 Hl2]%legal_table. unfold instr_bytes. simpl.
  rewrite bytes_at_app by apply u16_range.
  rewrite u16_succ_succ.
  intros (Hop & Hmb & Hb1 & Hb2).
  unfold instruction_decode. rewrite Hop, (proj2 (opcode_fetch _ _) eq_refl).
  destruct (mode_nibbles _ i Hmb (operand_wf_not_reserved _ Hw1)
              (operand_wf_not_reserved _ Hw2)) as [-> ->].
  rewrite Hl1, Hl2. simpl.
  rewrite u16_succ_succ, decode_operand_complete by (done || apply u16_range).
  rewrite decode_operand_complete by (done || apply u16_range).
  rewrite length_app. destruct i; simpl. do 2 f_equal. mlia.
Qed.
End decoder.

(** ** Failures of the decoder *)

Lemma opcode_of_byte_None b : opcode_of_byte b = None <-> forall op, b <> opcode_value op.
Proof.
  split.
  - intros H op ->. by rewrite opcode_of_byte_value in H.
  - intros H. destruct (opcode_of_byte b) as [op|] eqn:E; [|done].
    apply opcode_of_byte_Some in E. by destruct (H op).
Qed.

Lemma opcode_fetch_None b :
  (if valid (OPCODE_TABLE b) then opcode_of_byte b else None) = None
  <-> forall op, b <> opcode_value op.
Proof.
  rewrite <- opcode_of_byte_None. unfold OPCODE_TABLE.
  destruct (opcode_of_byte b) as [op|]; [|done]. destruct op; done.
Qed.

Lemma decode_operand_error mem a m e :
  decode_operand mem a m = inl e -> e = VM_ERR_INVALID_MODE.
Proof. destruct m; simpl; try case_match; congruence. Qed.

(** The error says why: no opcode byte, or an opcode with no legal encoding. *)
Lemma decode_error mem p e : mem_wf mem -> is_u16 p ->
  instruction_decode mem p = inl e ->
  (e = VM_ERR_INVALID_OPCODE /\ forall op, mem_read8 mem p <> opcode_value op) \/
  (e = VM_ERR_INVALID_MODE /\ (exists op, mem_read8 mem p = opcode_value op) /\
   forall i, instr_legal i -> ~ bytes_at mem p (instr_bytes i)).
Proof.
  intros Hm Hp He.
  assert (Hno : forall i, instr_legal i -> ~ bytes_at mem p (instr_bytes i)).
  { intros i Hi Hb. by rewrite (decode_complete mem Hm p i) in He. }
  revert He. unfold instruction_decode.
  destruct (if valid _ then _ else _) as [op|] eqn:Hop.
  - apply opcode_fetch in Hop. intros He. right. split; [|by eauto].
    repeat case_match; simplify_eq; eauto using decode_operand_error.
  - intros [= <-]. left. split; [done|]. by apply opcode_fetch_None.
Qed.

Lemma legal_encoding_unique mem p i j : mem_wf mem -> is_u16 p ->
  instr_legal i -> instr_legal j ->
  bytes_at mem p (instr_bytes i) -> bytes_at mem p (instr_bytes j) -> i = j.
Proof.
  intros Hm Hp Hi Hj Hbi Hbj.
  pose proof (decode_complete mem Hm p i Hp Hi Hbi) as Di.
  rewrite (decode_complete mem Hm p j Hp Hj Hbj) in Di. congruence.
Qed.
