(* ===== verification/Vm.v ===== *)
(** The virtual machine: [include/bytevm/vm.h] and [src/vm.c].

    Every [exec_*] function is a state transformer that returns the new machine
    and a result code. Indexing [r[8]] out of range is undefined behaviour in C:
    such a run has no result here ([None]). The standard streams are the record
    [Stdio]: the bytes still to be read and the bytes written so far. *)

From S2P Require Import Prelude Common CLib Memory Cpu Instruction.
Open Scope Z_scope.

Record VM : Type := mkVM {
  cpu : CPU;
  memory : Memory;
  halted : bool;
  last_error : VmResult;
  error_pc : Z;
  stack_limit : Z;
}.

Record Stdio : Type := mkStdio { stdin : list Z; stdout : list Z }.

Definition put (io : Stdio) (bytes : list Z) : Stdio :=
  {| stdin := stdin io; stdout := stdout io ++ bytes |}.

(** ** Field assignments *)

Definition set_cpu (vm : VM) (c : CPU) : VM :=
  mkVM c (memory vm) (halted vm) (last_error vm) (error_pc vm) (stack_limit vm).
Definition set_memory (vm : VM) (m : Memory) : VM :=
  mkVM (cpu vm) m (halted vm) (last_error vm) (error_pc vm) (stack_limit vm).
Definition set_halted (vm : VM) (b : bool) : VM :=
  mkVM (cpu vm) (memory vm) b (last_error vm) (error_pc vm) (stack_limit vm).
Definition set_fault (vm : VM) (e : VmResult) (at_pc : Z) : VM :=
  mkVM (cpu vm) (memory vm) true e at_pc (stack_limit vm).
Definition set_pc (vm : VM) (v : Z) : VM :=
  set_cpu vm (mkCPU (r (cpu vm)) v (sp (cpu vm)) (flags (cpu vm))).
Definition set_sp (vm : VM) (v : Z) : VM :=
  set_cpu vm (mkCPU (r (cpu vm)) (pc (cpu vm)) v (flags (cpu vm))).
Definition set_flag (vm : VM) (b : CpuFlagBit) (v : bool) : VM :=
  set_cpu vm (cpu_set_flag (cpu vm) b v).

(** [vm->cpu.r[i]] read and assigned: undefined when [i] is no register. *)
Definition get_r (vm : VM) (i : Z) : option Z := r (cpu vm) !! Z.to_nat i.
Definition set_r (vm : VM) (i v : Z) : option VM :=
  if decide (Z.to_nat i < length (r (cpu vm)))%nat then
    Some (set_cpu vm (mkCPU (<[Z.to_nat i := v]> (r (cpu vm)))
                            (pc (cpu vm)) (sp (cpu vm)) (flags (cpu vm))))
  else None.

Definition vm_init (vm : VM) : VM :=
  {| cpu := cpu_init (cpu vm);
     memory := mem_init (memory vm);
     halted := false;
     last_error := VM_OK;
     error_pc := 0;
     stack_limit := 0 |}.

(** ** Operands *)

Definition operand_read (vm : VM) (op : Operand) : option Z :=
  match mode op with
  | MODE_REG => get_r vm (value op)
  | MODE_IMM16 => Some (value op)
  | _ => Some 0
  end.

Definition operand_effective_address (vm : VM) (op : Operand) : option Z :=
  match mode op with
  | MODE_MEM_DIRECT => Some (value op)
  | MODE_REG_INDIRECT => get_r vm (value op)
  | _ => Some 0
  end.

(** ** Shifts: the result and [*carry_out] *)

Definition shift_left (value n : Z) : Z * bool :=
  if n =? 0 then (value, false)
  else if 16 <? n then (0, false)
  else (if n =? 16 then 0 else u16 (Z.shiftl value n),
        negb (Z.land (Z.shiftr value (16 - n)) 0x1 =? 0)).

Definition shift_right (value n : Z) : Z * bool :=
  if n =? 0 then (value, false)
  else if 16 <? n then (0, false)
  else (if n =? 16 then 0 else u16 (Z.shiftr value n),
        negb (Z.land (Z.shiftr value (n - 1)) 0x1 =? 0)).

(** ** Data movement *)

Definition exec_mov (vm : VM) (instr : Instruction) : option (VM * VmResult) :=
  v ← operand_read vm (op2 instr);
  vm ← set_r vm (value (op1 instr)) v;
  Some (vm, VM_OK).

Definition exec_load (vm : VM) (instr : Instruction) : option (VM * VmResult) :=
  addr ← operand_effective_address vm (op2 instr);
  vm ← set_r vm (value (op1 instr)) (mem_read16 (memory vm) addr);
  Some (vm, VM_OK).

Definition exec_store (vm : VM) (instr : Instruction) : option (VM * VmResult) :=
  addr ← operand_effective_address vm (op1 instr);
  val ← get_r vm (value (op2 instr));
  Some (set_memory vm (mem_write16 (memory vm) addr val), VM_OK).

(** ** Arithmetic *)

(** [cpu_set_flag] of Z and S from a result, as every ALU operation ends. *)
Definition set_zs (vm : VM) (result : Z) : VM :=
  let vm := set_flag vm CPU_FLAG_Z (result =? 0) in
  set_flag vm CPU_FLAG_S (negb (Z.land result 0x8000 =? 0)).

Definition exec_add (vm : VM) (instr : Instruction) : option (VM * VmResult) :=
  a ← get_r vm (value (op1 instr));
  b ← operand_read vm (op2 instr);
  let sum := u32 (a + b) in
  let result := u16 sum in
  let vm := set_flag vm CPU_FLAG_C (negb (Z.shiftr sum 16 =? 0)) in
  let vm := set_flag vm CPU_FLAG_O
    (negb (Z.land (Z.land (Z.lxor a result) (Z.lxor b result)) 0x8000 =? 0)) in
  let vm := set_zs vm result in
  vm ← set_r vm (value (op1 instr)) result;
  Some (vm, VM_OK).

Definition exec_sub (vm : VM) (instr : Instruction) : option (VM * VmResult) :=
  a ← get_r vm (value (op1 instr));
  b ← operand_read vm (op2 instr);
  let result := u16 (a - b) in
  let vm := set_flag vm CPU_FLAG_C (a <? b) in
  let vm := set_flag vm CPU_FLAG_O
    (negb (Z.land (Z.land (Z.lxor a b) (Z.lxor a result)) 0x8000 =? 0)) in
  let vm := set_zs vm result in
  vm ← set_r vm (value (op1 instr)) result;
  Some (vm, VM_OK).

Definition exec_mul (vm : VM) (instr : Instruction) : option (VM * VmResult) :=
  a ← get_r vm (value (op1 instr));
  b ← operand_read vm (op2 instr);
  let product := u32 (a * b) in
  let result := u16 (Z.land product 0xFFFF) in
  let signed_product := s16 a * s16 b in
  let vm := set_flag vm CPU_FLAG_C (negb (Z.shiftr product 16 =? 0)) in
  let vm := set_flag vm CPU_FLAG_O ((signed_product <? -32768) || (32767 <? signed_product)) in
  let vm := set_zs vm result in
  vm ← set_r vm (value (op1 instr)) result;
  Some (vm, VM_OK).

Definition exec_div (vm : VM) (instr : Instruction) : option (VM * VmResult) :=
  a ← get_r vm (value (op1 instr));
  b ← operand_read vm (op2 instr);
  if b =? 0 then Some (vm, VM_ERR_DIV_BY_ZERO)
  else
    let result := u16 (a / b) in
    let vm := set_zs vm result in
    vm ← set_r vm (value (op1 instr)) result;
    Some (vm, VM_OK).

Definition exec_mod (vm : VM) (instr : Instruction) : option (VM * VmResult) :=
  a ← get_r vm (value (op1 instr));
  b ← operand_read vm (op2 instr);
  if b =? 0 then Some (vm, VM_ERR_DIV_BY_ZERO)
  else
    let result := u16 (a mod b) in
    let vm := set_zs vm result in
    vm ← set_r vm (value (op1 instr)) result;
    Some (vm, VM_OK).

(** ** Bitwise *)

Definition exec_and (vm : VM) (instr : Instruction) : option (VM * VmResult) :=
  a ← get_r vm (value (op1 instr));
  b ← operand_read vm (op2 instr);
  let result := u16 (Z.land a b) in
  let vm := set_zs vm result in
  vm ← set_r vm (value (op1 instr)) result;
  Some (vm, VM_OK).

Definition exec_or (vm : VM) (instr : Instruction) : option (VM * VmResult) :=
  a ← get_r vm (value (op1 instr));
  b ← operand_read vm (op2 instr);
  let result := u16 (Z.lor a b) in
  let vm := set_zs vm result in
  vm ← set_r vm (value (op1 instr)) result;
  Some (vm, VM_OK).

Definition exec_xor (vm : VM) (instr : Instruction) : option (VM * VmResult) :=
  a ← get_r vm (value (op1 instr));
  b ← operand_read vm (op2 instr);
  let result := u16 (Z.lxor a b) in
  let vm := set_zs vm result in
  vm ← set_r vm (value (op1 instr)) result;
  Some (vm, VM_OK).

Definition exec_not (vm : VM) (instr : Instruction) : option (VM * VmResult) :=
  a ← get_r vm (value (op1 instr));
  let result := u16 (Z.lnot a) in
  let vm := set_zs vm result in
  vm ← set_r vm (value (op1 instr)) result;
  Some (vm, VM_OK).

Definition exec_shl (vm : VM) (instr : Instruction) : option (VM * VmResult) :=
  a ← get_r vm (value (op1 instr));
  n ← operand_read vm (op2 instr);
  let '(result, carry) := shift_left a n in
  let vm := set_flag vm CPU_FLAG_C carry in
  let vm := set_zs vm result in
  vm ← set_r vm (value (op1 instr)) result;
  Some (vm, VM_OK).

Definition exec_shr (vm : VM) (instr : Instruction) : option (VM * VmResult) :=
  a ← get_r vm (value (op1 instr));
  n ← operand_read vm (op2 instr);
  let '(result, carry) := shift_right a n in
  let vm := set_flag vm CPU_FLAG_C carry in
  let vm := set_zs vm result in
  vm ← set_r vm (value (op1 instr)) result;
  Some (vm, VM_OK).

(** ** Comparison *)

Definition exec_cmp (vm : VM) (instr : Instruction) : option (VM * VmResult) :=
  a ← operand_read vm (op1 instr);
  b ← operand_read vm (op2 instr);
  let result := u16 (a - b) in
  let vm := set_flag vm CPU_FLAG_C (a <? b) in
  let vm := set_flag vm CPU_FLAG_O
    (negb (Z.land (Z.land (Z.lxor a b) (Z.lxor a result)) 0x8000 =? 0)) in
  Some (set_zs vm result, VM_OK).

(** ** Control flow *)

(** [if (condition) vm->cpu.pc = instr->op1.value], the shape of every jump. *)
Definition jump_if (vm : VM) (instr : Instruction) (taken : bool) : option (VM * VmResult) :=
  Some (if taken then set_pc vm (value (op1 instr)) else vm, VM_OK).

Definition exec_jmp (vm : VM) (instr : Instruction) : option (VM * VmResult) :=
  jump_if vm instr true.

Definition exec_jz (vm : VM) (instr : Instruction) : option (VM * VmResult) :=
  jump_if vm instr (cpu_get_flag (cpu vm) CPU_FLAG_Z).

Definition exec_jnz (vm : VM) (instr : Instruction) : option (VM * VmResult) :=
  jump_if vm instr (negb (cpu_get_flag (cpu vm) CPU_FLAG_Z)).

Definition exec_jg (vm : VM) (instr : Instruction) : option (VM * VmResult) :=
  let z := cpu_get_flag (cpu vm) CPU_FLAG_Z in
  let s := cpu_get_flag (cpu vm) CPU_FLAG_S in
  let o := cpu_get_flag (cpu vm) CPU_FLAG_O in
  jump_if vm instr (negb z && eqb s o).

Definition exec_jge (vm : VM) (instr : Instruction) : option (VM * VmResult) :=
  let s := cpu_get_flag (cpu vm) CPU_FLAG_S in
  let o := cpu_get_flag (cpu vm) CPU_FLAG_O in
  jump_if vm instr (eqb s o).

Definition exec_jl (vm : VM) (instr : Instruction) : option (VM * VmResult) :=
  let s := cpu_get_flag (cpu vm) CPU_FLAG_S in
  let o := cpu_get_flag (cpu vm) CPU_FLAG_O in
  jump_if vm instr (negb (eqb s o)).

Definition exec_jle (vm : VM) (instr : Instruction) : option (VM * VmResult) :=
  let z := cpu_get_flag (cpu vm) CPU_FLAG_Z in
  let s := cpu_get_flag (cpu vm) CPU_FLAG_S in
  let o := cpu_get_flag (cpu vm) CPU_FLAG_O in
  jump_if vm instr (z || negb (eqb s o)).

Definition exec_jb (vm : VM) (instr : Instruction) : option (VM * VmResult) :=
  jump_if vm instr (cpu_get_flag (cpu vm) CPU_FLAG_C).

Definition exec_jae (vm : VM) (instr : Instruction) : option (VM * VmResult) :=
  jump_if vm instr (negb (cpu_get_flag (cpu vm) CPU_FLAG_C)).

Definition exec_ja (vm : VM) (instr : Instruction) : option (VM * VmResult) :=
  let c := cpu_get_flag (cpu vm) CPU_FLAG_C in
  let z := cpu_get_flag (cpu vm) CPU_FLAG_Z in
  jump_if vm instr (negb c && negb z).

Definition exec_jbe (vm : VM) (instr : Instruction) : option (VM * VmResult) :=
  let c := cpu_get_flag (cpu vm) CPU_FLAG_C in
  let z := cpu_get_flag (cpu vm) CPU_FLAG_Z in
  jump_if vm instr (c || z).

(** ** Stack *)

Definition exec_push (vm : VM) (instr : Instruction) : option (VM * VmResult) :=
  value ← operand_read vm (op1 instr);
  let sp := sp (cpu vm) in
  if (sp <? 2) || (u16 (sp - 2) <? stack_limit vm) then Some (vm, VM_ERR_STACK_OVERFLOW)
  else
    let vm := set_memory vm (mem_write16 (memory vm) sp value) in
    Some (set_sp vm (u16 (sp - 2)), VM_OK).

Definition exec_pop (vm : VM) (instr : Instruction) : option (VM * VmResult) :=
  if sp (cpu vm) =? CPU_INITIAL_SP then Some (vm, VM_ERR_STACK_UNDERFLOW)
  else
    let new_sp := u16 (sp (cpu vm) + 2) in
    vm ← set_r vm (value (op1 instr)) (mem_read16 (memory vm) new_sp);
    Some (set_sp vm new_sp, VM_OK).

(** ** Functions *)

Definition exec_call (vm : VM) (instr : Instruction) : option (VM * VmResult) :=
  let sp := sp (cpu vm) in
  if (sp <? 2) || (u16 (sp - 2) <? stack_limit vm) then Some (vm, VM_ERR_STACK_OVERFLOW)
  else
    let vm := set_memory vm (mem_write16 (memory vm) sp (pc (cpu vm))) in
    let vm := set_sp vm (u16 (sp - 2)) in
    Some (set_pc vm (value (op1 instr)), VM_OK).

Definition exec_ret (vm : VM) (instr : Instruction) : option (VM * VmResult) :=
  if sp (cpu vm) =? CPU_INITIAL_SP then Some (vm, VM_ERR_STACK_UNDERFLOW)
  else
    let new_sp := u16 (sp (cpu vm) + 2) in
    let vm := set_pc vm (mem_read16 (memory vm) new_sp) in
    Some (set_sp vm new_sp, VM_OK).

(** ** System calls *)

(** The characters [read_int_from_stdin] skips first. *)
Definition read_int_space (c : Z) : bool :=
  (c =? 32) || (c =? 9) || (c =? 10) || (c =? 13) || (c =? 11) || (c =? 12).

Fixpoint skip_space (l : list Z) : list Z :=
  match l with
  | c :: l' => if read_int_space c then skip_space l' else l
  | [] => []
  end.

(** The digit loop: [has_digit], [magnitude] (an [unsigned long] of 64 bits) and
    the stream, the first non-digit pushed back. *)
Fixpoint read_digits (l : list Z) (has_digit : bool) (magnitude : Z) : bool * Z * list Z :=
  match l with
  | c :: l' =>
      if isdigit c then
        read_digits l' true ((((magnitude * 10) mod 2 ^ 64) + (c - 48)) mod 2 ^ 64)
      else (has_digit, magnitude, l)
  | [] => (has_digit, magnitude, [])
  end.

(** [read_int_from_stdin]: the value read and the rest of the stream. *)
Definition read_int_from_stdin (l : list Z) : Z * list Z :=
  let l := skip_space l in
  let '(negative, l) :=
    match l with
    | c :: l' => if c =? 45 then (true, l') else (false, l)
    | [] => (false, [])
    end in
  let '(has_digit, magnitude, l) := read_digits l false 0 in
  if negb has_digit then (0, l)
  else
    let low16 := u16 (Z.land magnitude 0xFFFF) in
    (if negative : bool then u16 (0 - low16) else low16, l).

Definition exec_sys (vm : VM) (io : Stdio) (instr : Instruction)
  : option (VM * Stdio * VmResult) :=
  let code := value (op1 instr) in
  match code with
  | 0x01 => r0 ← get_r vm 0; Some (vm, put io (fmt_d (s16 r0)), VM_OK)
  | 0x02 => r0 ← get_r vm 0; Some (vm, put io [u8 (Z.land r0 0xFF)], VM_OK)
  | 0x03 =>
      let '(v, rest) := read_int_from_stdin (stdin io) in
      vm ← set_r vm 0 v;
      Some (vm, mkStdio rest (stdout io), VM_OK)
  | 0x04 => Some (set_halted vm true, io, VM_OK)
  | _ => Some (vm, io, VM_ERR_INVALID_SYSCALL)
  end.

(** ** The instruction cycle *)

(** An [exec_*] function that does no input or output. *)
Definition no_io (io : Stdio) (res : option (VM * VmResult)) : option (VM * Stdio * VmResult) :=
  '(vm, result) ← res; Some (vm, io, result).

Definition instruction_execute (vm : VM) (io : Stdio) (instr : Instruction)
  : option (VM * Stdio * VmResult) :=
  match opcode instr with
  | OP_NOP => Some (vm, io, VM_OK)
  | OP_MOV => no_io io (exec_mov vm instr)
  | OP_ADD => no_io io (exec_add vm instr)
  | OP_SUB => no_io io (exec_sub vm instr)
  | OP_MUL => no_io io (exec_mul vm instr)
  | OP_DIV => no_io io (exec_div vm instr)
  | OP_MOD => no_io io (exec_mod vm instr)
  | OP_AND => no_io io (exec_and vm instr)
  | OP_OR => no_io io (exec_or vm instr)
  | OP_XOR => no_io io (exec_xor vm instr)
  | OP_NOT => no_io io (exec_not vm instr)
  | OP_SHL => no_io io (exec_shl vm instr)
  | OP_SHR => no_io io (exec_shr vm instr)
  | OP_LOAD => no_io io (exec_load vm instr)
  | OP_STORE => no_io io (exec_store vm instr)
  | OP_PUSH => no_io io (exec_push vm instr)
  | OP_POP => no_io io (exec_pop vm instr)
  | OP_CMP => no_io io (exec_cmp vm instr)
  | OP_JMP => no_io io (exec_jmp vm instr)
  | OP_JZ => no_io io (exec_jz vm instr)
  | OP_JNZ => no_io io (exec_jnz vm instr)
  | OP_JG => no_io io (exec_jg vm instr)
  | OP_JGE => no_io io (exec_jge vm instr)
  | OP_JL => no_io io (exec_jl vm instr)
  | OP_JLE => no_io io (exec_jle vm instr)
  | OP_JB => no_io io (exec_jb vm instr)
  | OP_JAE => no_io io (exec_jae vm instr)
  | OP_JA => no_io io (exec_ja vm instr)
  | OP_JBE => no_io io (exec_jbe vm instr)
  | OP_CALL => no_io io (exec_call vm instr)
  | OP_RET => no_io io (exec_ret vm instr)
  | OP_SYS => exec_sys vm io instr
  | OP_HALT => Some (set_halted vm true, io, VM_OK)
  end.

Definition vm_step (vm : VM) (io : Stdio) : option (VM * Stdio * VmResult) :=
  if halted vm then Some (vm, io, last_error vm)
  else
    let fault_pc := pc (cpu vm) in
    '(vm, io, result) ←
      match instruction_decode (memory vm) (pc (cpu vm)) with
      | inl e => Some (vm, io, e)
      | inr (pc', instr) => instruction_execute (set_pc vm pc') io instr
      end;
    if decide (result = VM_OK) then Some (vm, io, result)
    else Some (set_fault vm result fault_pc, io, result).
