(* ===== verification/Isa.v ===== *)
(** The architecture ByteVM promises: DESIGN.md sections 3-6 and 8, stated over
    plain integers and functions, with no bit manipulation, no wrapping
    conversions and no undefined behaviour.

    [isa_exec] is the meaning of one instruction and [isa_step] of one
    instruction cycle; [VmRefine] proves that [vm_step] implements them. *)

From S2P Require Import Prelude Common CLib Memory Cpu Instruction Vm.
Open Scope Z_scope.

(** ** Architectural state *)

Record Flags : Type := mkFlags { fZ : bool; fC : bool; fS : bool; fO : bool }.

Record Arch : Type := mkArch {
  gpr : Z -> Z;
  apc : Z;
  asp : Z;
  afl : Flags;
  ram : Z -> Z;
}.

(** Equality of what the architecture can observe: eight registers, the address
    space, PC, SP and the four flags. *)
#[export] Instance arch_equiv : Equiv Arch := fun a1 a2 =>
  (forall i, 0 <= i <= 7 -> gpr a1 i = gpr a2 i) /\ apc a1 = apc a2 /\ asp a1 = asp a2 /\
  afl a1 = afl a2 /\ (forall x, ram a1 x = ram a2 x).

#[export] Instance arch_equivalence : Equivalence (≡@{Arch}).
Proof.
  split.
  - intros a. by repeat split.
  - intros a1 a2 (H1 & H2 & H3 & H4 & H5). repeat split; auto. intros i Hi. by rewrite H1.
  - intros a1 a2 a3 (H1 & H2 & H3 & H4 & H5) (G1 & G2 & G3 & G4 & G5).
    repeat split; try congruence. intros. rewrite H1, G1; auto.
Qed.

(** ** Numbers *)

Definition signed (x : Z) : Z := if x <? 32768 then x else x - 65536.
Definition fits (z : Z) : bool := (-32768 <=? z) && (z <=? 32767).

(** ** Storage *)

Definition upd (f : Z -> Z) (i v : Z) : Z -> Z := fun j => if j =? i then v else f j.

Definition word_at (ram : Z -> Z) (a : Z) : Z := ram a + 256 * ram ((a + 1) mod 65536).

Definition store_word (ram : Z -> Z) (a v : Z) : Z -> Z := fun b =>
  if b =? a then v mod 256
  else if b =? (a + 1) mod 65536 then v / 256
  else ram b.

Definition with_gpr (a : Arch) (i v : Z) : Arch :=
  mkArch (upd (gpr a) i v) (apc a) (asp a) (afl a) (ram a).
Definition with_pc (a : Arch) (v : Z) : Arch :=
  mkArch (gpr a) v (asp a) (afl a) (ram a).
Definition with_sp (a : Arch) (v : Z) : Arch :=
  mkArch (gpr a) (apc a) v (afl a) (ram a).
Definition with_flags (a : Arch) (f : Flags) : Arch :=
  mkArch (gpr a) (apc a) (asp a) f (ram a).
Definition with_ram (a : Arch) (m : Z -> Z) : Arch :=
  mkArch (gpr a) (apc a) (asp a) (afl a) m.

(** ** Operands *)

Definition src_val (a : Arch) (op : Operand) : Z :=
  match mode op with MODE_REG => gpr a (value op) | _ => value op end.

Definition mem_addr (a : Arch) (op : Operand) : Z :=
  match mode op with MODE_REG_INDIRECT => gpr a (value op) | _ => value op end.

(** ** The arithmetic and logic unit (sections 8.2-8.4)

    The result and the flags of an operation on two words, [None] for a division
    by zero. Operations that leave C or O alone keep the old ones. *)
Definition alu (op : Opcode) (a b : Z) (f : Flags) : option (Z * Flags) :=
  let zs c o v := Some (v, mkFlags (v =? 0) c (signed v <? 0) o) in
  match op with
  | OP_ADD => zs (65536 <=? a + b) (negb (fits (signed a + signed b))) ((a + b) mod 65536)
  | OP_SUB => zs (a <? b) (negb (fits (signed a - signed b))) ((a - b) mod 65536)
  | OP_MUL => zs (65536 <=? a * b) (negb (fits (signed a * signed b))) ((a * b) mod 65536)
  | OP_DIV => if b =? 0 then None else zs (fC f) (fO f) (a / b)
  | OP_MOD => if b =? 0 then None else zs (fC f) (fO f) (a mod b)
  | OP_AND => zs (fC f) (fO f) (Z.land a b)
  | OP_OR => zs (fC f) (fO f) (Z.lor a b)
  | OP_XOR => zs (fC f) (fO f) (Z.lxor a b)
  | OP_NOT => zs (fC f) (fO f) (65535 - a)
  | OP_SHL => zs (Z.odd (a * 2 ^ b / 65536)) (fO f) ((a * 2 ^ b) mod 65536)
  | OP_SHR => zs (Z.odd (2 * a / 2 ^ b)) (fO f) (a / 2 ^ b)
  | _ => Some (a, f)
  end.

(** ** Jump conditions (section 5) *)
Definition taken (op : Opcode) (f : Flags) : bool :=
  match op with
  | OP_JMP => true
  | OP_JZ => fZ f
  | OP_JNZ => negb (fZ f)
  | OP_JG => negb (fZ f) && eqb (fS f) (fO f)
  | OP_JGE => eqb (fS f) (fO f)
  | OP_JL => negb (eqb (fS f) (fO f))
  | OP_JLE => fZ f || negb (eqb (fS f) (fO f))
  | OP_JB => fC f
  | OP_JAE => negb (fC f)
  | OP_JA => negb (fC f) && negb (fZ f)
  | OP_JBE => fC f || fZ f
  | _ => false
  end.

(** ** Execution (section 8)

    [limit] is the stack limit of section 6. *)
Inductive Outcome : Type := Next | Stop | Fault (e : VmResult).

Definition isa_push (limit : Z) (a : Arch) (v : Z) : Arch * Outcome :=
  if asp a - 2 <? limit then (a, Fault VM_ERR_STACK_OVERFLOW)
  else (with_sp (with_ram a (store_word (ram a) (asp a) v)) (asp a - 2), Next).

Definition isa_sys (a : Arch) (io : Stdio) (code : Z) : Arch * Stdio * Outcome :=
  match code with
  | 1 => (a, put io (fmt_d (signed (gpr a 0))), Next)
  | 2 => (a, put io [gpr a 0 mod 256], Next)
  | 3 => let '(v, rest) := read_int_from_stdin (stdin io) in
         (with_gpr a 0 v, mkStdio rest (stdout io), Next)
  | 4 => (a, io, Stop)
  | _ => (a, io, Fault VM_ERR_INVALID_SYSCALL)
  end.

Definition isa_exec (limit : Z) (a : Arch) (io : Stdio) (i : Instruction)
  : Arch * Stdio * Outcome :=
  match opcode i with
  | OP_NOP => (a, io, Next)
  | OP_HALT => (a, io, Stop)
  | OP_MOV => (with_gpr a (value (op1 i)) (src_val a (op2 i)), io, Next)
  | OP_LOAD => (with_gpr a (value (op1 i)) (word_at (ram a) (mem_addr a (op2 i))), io, Next)
  | OP_STORE =>
      (with_ram a (store_word (ram a) (mem_addr a (op1 i)) (gpr a (value (op2 i)))), io, Next)
  | OP_ADD | OP_SUB | OP_MUL | OP_DIV | OP_MOD | OP_AND | OP_OR | OP_XOR | OP_NOT
  | OP_SHL | OP_SHR =>
      match alu (opcode i) (gpr a (value (op1 i))) (src_val a (op2 i)) (afl a) with
      | Some (v, f) => (with_gpr (with_flags a f) (value (op1 i)) v, io, Next)
      | None => (a, io, Fault VM_ERR_DIV_BY_ZERO)
      end
  | OP_CMP =>
      match alu OP_SUB (src_val a (op1 i)) (src_val a (op2 i)) (afl a) with
      | Some (_, f) => (with_flags a f, io, Next)
      | None => (a, io, Next)
      end
  | OP_JMP | OP_JZ | OP_JNZ | OP_JG | OP_JGE | OP_JL | OP_JLE | OP_JB | OP_JAE
  | OP_JA | OP_JBE =>
      (if taken (opcode i) (afl a) then with_pc a (value (op1 i)) else a, io, Next)
  | OP_PUSH => let '(a, o) := isa_push limit a (src_val a (op1 i)) in (a, io, o)
  | OP_POP =>
      if asp a =? 0xFFFE then (a, io, Fault VM_ERR_STACK_UNDERFLOW)
      else
        let sp := (asp a + 2) mod 65536 in
        (with_sp (with_gpr a (value (op1 i)) (word_at (ram a) sp)) sp, io, Next)
  | OP_CALL =>
      match isa_push limit a (apc a) with
      | (a, Next) => (with_pc a (value (op1 i)), io, Next)
      | (a, o) => (a, io, o)
      end
  | OP_RET =>
      if asp a =? 0xFFFE then (a, io, Fault VM_ERR_STACK_UNDERFLOW)
      else
        let sp := (asp a + 2) mod 65536 in
        (with_sp (with_pc a (word_at (ram a) sp)) sp, io, Next)
  | OP_SYS => isa_sys a io (value (op1 i))
  end.

(** ** The instruction cycle (section 2.1)

    [ram_holds] says that memory holds a byte string from an address on. A cycle
    either executes the legal instruction whose encoding PC points at, with PC
    already past it, or faults because no instruction is encoded there. *)
Fixpoint ram_holds (ram : Z -> Z) (a : Z) (bs : list Z) : Prop :=
  match bs with
  | [] => True
  | b :: bs => ram a = b /\ ram_holds ram ((a + 1) mod 65536) bs
  end.

Inductive isa_step (limit : Z) (a : Arch) (io : Stdio) : Arch -> Stdio -> Outcome -> Prop :=
| isa_step_exec i a' io' o :
    instr_legal i ->
    ram_holds (ram a) (apc a) (instr_bytes i) ->
    isa_exec limit (with_pc a ((apc a + zlen (instr_bytes i)) mod 65536)) io i = (a', io', o) ->
    isa_step limit a io a' io' o
| isa_step_bad_opcode :
    (forall op, ram a (apc a) <> opcode_value op) ->
    isa_step limit a io a io (Fault VM_ERR_INVALID_OPCODE)
| isa_step_bad_mode op :
    ram a (apc a) = opcode_value op ->
    (forall i, instr_legal i -> ~ ram_holds (ram a) (apc a) (instr_bytes i)) ->
    isa_step limit a io a io (Fault VM_ERR_INVALID_MODE).
