(* ===== verification/VmArith.v ===== *)
(** The word arithmetic of [src/vm.c]: the flag formulas and the shift routines,
    which the source writes with masks and shifts, compute the arithmetic
    conditions of the architecture ([Isa.alu]). *)

From S2P Require Import Prelude Common CLib Memory Cpu Instruction Vm Isa.
Open Scope Z_scope.

Lemma s16_signed a : is_u16 a -> s16 a = signed a.
Proof. intros. unfold s16, signed. by rewrite u16_id. Qed.

Lemma signed_neg a : is_u16 a -> (signed a <? 0) = (32768 <=? a).
Proof. unfold signed, is_u16. intros. destruct (Z.ltb_spec a 32768), (Z.leb_spec 32768 a); lia. Qed.

(** ** Sign and carry bits *)

Lemma sign_bit a : is_u16 a -> negb (Z.land a 0x8000 =? 0) = (signed a <? 0).
Proof. intros. by rewrite land_sign_bit, signed_neg. Qed.

Lemma carry_bit s : 0 <= s -> negb (Z.shiftr s 16 =? 0) = (65536 <=? s).
Proof.
  intros Hs. rewrite Z.shiftr_div_pow2 by lia. change (2 ^ 16) with 65536.
  destruct (Z.eqb_spec (s / 65536) 0), (Z.leb_spec 65536 s); simpl; try done; mlia.
Qed.

(** The sign bit of [(x ^ r) & (y ^ r)]: the signs of [x] and [y] agree and
    differ from that of [r]. *)
Lemma sign_bit_lxor2 x y z t : is_u16 x -> is_u16 y -> is_u16 z -> is_u16 t ->
  negb (Z.land (Z.land (Z.lxor x y) (Z.lxor z t)) 0x8000 =? 0) =
  xorb (32768 <=? x) (32768 <=? y) && xorb (32768 <=? z) (32768 <=? t).
Proof.
  intros. change 0x8000 with (2 ^ 15). rewrite testbit_land_pow2 by lia.
  by rewrite Z.land_spec, !Z.lxor_spec, !testbit15.
Qed.

(** Deciding a goal about [leb]/[ltb] of 16-bit words by cases. *)
Ltac word_cases :=
  unfold fits, signed, is_u16 in *;
  repeat match goal with
         | |- context [?a <? 32768] => destruct (Z.ltb_spec a 32768)
         end;
  repeat match goal with
         | |- context [?a <=? ?b] => destruct (Z.leb_spec a b)
         | |- context [?a <? ?b] => destruct (Z.ltb_spec a b)
         end; first [reflexivity | exfalso; lia].

Lemma add_overflow a b : is_u16 a -> is_u16 b ->
  negb (Z.land (Z.land (Z.lxor a (u16 (a + b))) (Z.lxor b (u16 (a + b)))) 0x8000 =? 0) =
  negb (fits (signed a + signed b)).
Proof.
  intros Ha Hb. rewrite sign_bit_lxor2 by auto with bytevm.
  assert ((a + b < 65536 /\ u16 (a + b) = a + b) \/
          (65536 <= a + b /\ u16 (a + b) = a + b - 65536)) as [[Hc ->]|[Hc ->]] by mlia.
  all: word_cases.
Qed.

Lemma sub_overflow a b : is_u16 a -> is_u16 b ->
  negb (Z.land (Z.land (Z.lxor a b) (Z.lxor a (u16 (a - b)))) 0x8000 =? 0) =
  negb (fits (signed a - signed b)).
Proof.
  intros Ha Hb. rewrite sign_bit_lxor2 by auto with bytevm.
  assert ((b <= a /\ u16 (a - b) = a - b) \/
          (a < b /\ u16 (a - b) = a - b + 65536)) as [[Hc ->]|[Hc ->]] by mlia.
  all: word_cases.
Qed.

Lemma mul_overflow a b : is_u16 a -> is_u16 b ->
  (s16 a * s16 b <? -32768) || (32767 <? s16 a * s16 b) = negb (fits (signed a * signed b)).
Proof.
  intros. rewrite !s16_signed by done. generalize (signed a * signed b). intros p.
  unfold fits. rewrite negb_andb, <- !Z.ltb_antisym. done.
Qed.

Lemma mul_range a b : is_u16 a -> is_u16 b -> 0 <= a * b < 4294967296.
Proof. unfold is_u16. nia. Qed.

Lemma u16_land_ffff x : u16 (Z.land x 0xFFFF) = u16 x.
Proof. change 0xFFFF with (Z.ones 16). rewrite Z.land_ones by lia. apply u16_u16. Qed.

(** ** Shifts *)

Lemma pow2_split n m : 0 <= m <= n -> 2 ^ n = 2 ^ (n - m) * 2 ^ m.
Proof. intros. rewrite <- Z.pow_add_r by lia. f_equal. lia. Qed.

Lemma shift_left_spec v n : is_u16 v -> 0 <= n ->
  shift_left v n = ((v * 2 ^ n) mod 65536, Z.odd (v * 2 ^ n / 65536)).
Proof.
  intros Hv Hn. unfold shift_left, is_u16 in *.
  destruct (Z.eqb_spec n 0) as [->|Hn0].
  { rewrite Z.mul_1_r, Z.mod_small, Z.div_small by lia. done. }
  destruct (Z.ltb_spec 16 n) as [Hbig|Hsmall].
  - rewrite (pow2_split n 17), Z.mul_assoc by lia. change (2 ^ 17) with (2 * 65536).
    rewrite Z.mul_assoc, Z.mod_mul, Z.div_mul by lia.
    rewrite Z.odd_mul. simpl (Z.odd 2). by rewrite andb_false_r.
  - rewrite land_1_testbit by lia. f_equal.
    + destruct (Z.eqb_spec n 16) as [->|]; [by rewrite Z.mod_mul|].
      by rewrite Z.shiftl_mul_pow2 by lia.
    + rewrite testbit_div by lia. f_equal.
      change 65536 with (2 ^ 16). rewrite (pow2_split 16 n), Z.div_mul_cancel_r by lia. done.
Qed.

Lemma shift_right_spec v n : is_u16 v -> 0 <= n ->
  shift_right v n = (v / 2 ^ n, Z.odd (2 * v / 2 ^ n)).
Proof.
  intros Hv Hn. unfold shift_right, is_u16 in *.
  destruct (Z.eqb_spec n 0) as [->|Hn0].
  { rewrite !Z.div_1_r, Z.odd_mul. done. }
  assert (2 * v / 2 ^ n = v / 2 ^ (n - 1)) as ->.
  { rewrite (pow2_split n 1), (Z.mul_comm 2) by lia. change (2 ^ 1) with 2.
    apply Z.div_mul_cancel_r; lia. }
  destruct (Z.ltb_spec 16 n) as [Hbig|Hsmall].
  - assert (2 ^ 16 <= 2 ^ (n - 1)) by (apply Z.pow_le_mono_r; lia).
    assert (2 ^ 16 <= 2 ^ n) by (apply Z.pow_le_mono_r; lia).
    rewrite !Z.div_small by lia. done.
  - rewrite land_1_testbit by lia. f_equal; [|by rewrite testbit_div by lia].
    destruct (Z.eqb_spec n 16) as [->|].
    + by rewrite Z.div_small by lia.
    + rewrite Z.shiftr_div_pow2 by lia. apply u16_id.
      split; [apply Z.div_pos; lia|]. apply Z.div_lt_upper_bound; nia.
Qed.
