(* ===== verification/VmFacts.v ===== *)
(** The machine's invariant and the closed forms of its operations.

    [vm_wf] is the type invariant of the state: every field within its C type,
    FLAGS within its four bits, and a machine that runs has no recorded error.
    Under it registers and operands always read as words ([reg],
    [operand_val]), so the partial accesses of [Vm] become total. *)

From S2P Require Import Prelude Common CLib Memory Cpu Instruction Vm.
Open Scope Z_scope.

Record vm_wf (vm : VM) : Prop := {
  wf_cpu : cpu_wf (cpu vm);
  wf_mem : mem_wf (memory vm);
  wf_error_pc : is_u16 (error_pc vm);
  wf_limit : is_u16 (stack_limit vm);
  wf_running : halted vm = false -> last_error vm = VM_OK;
}.

Lemma vm_wf_init vm : vm_wf (vm_init vm).
Proof.
  split; simpl; auto with bytevm; unfold is_u16; lia.
Qed.

(** ** Total register access *)

Definition reg (vm : VM) (i : Z) : Z := default 0 (r (cpu vm) !! Z.to_nat i).

Definition put_r (vm : VM) (i v : Z) : VM :=
  set_cpu vm (mkCPU (<[Z.to_nat i := v]> (r (cpu vm)))
                    (pc (cpu vm)) (sp (cpu vm)) (flags (cpu vm))).

Definition operand_val (vm : VM) (op : Operand) : Z :=
  match mode op with MODE_REG => reg vm (value op) | MODE_IMM16 => value op | _ => 0 end.

Definition operand_addr (vm : VM) (op : Operand) : Z :=
  match mode op with
  | MODE_MEM_DIRECT => value op
  | MODE_REG_INDIRECT => reg vm (value op)
  | _ => 0
  end.

Section registers.
Context (vm : VM) (Hwf : vm_wf vm).

Lemma reg_lookup i : 0 <= i <= 7 -> r (cpu vm) !! Z.to_nat i = Some (reg vm i).
Proof.
  intros Hi. unfold reg. destruct (r (cpu vm) !! Z.to_nat i) eqn:E; [done|].
  apply lookup_ge_None in E. rewrite (cpu_wf_len _ (wf_cpu _ Hwf)) in E. lia.
Qed.

Lemma get_r_reg i : 0 <= i <= 7 -> get_r vm i = Some (reg vm i).
Proof. apply reg_lookup. Qed.

Lemma reg_u16 i : is_u16 (reg vm i).
Proof.
  unfold reg. destruct (r (cpu vm) !! Z.to_nat i) as [v|] eqn:E; simpl.
  - exact (Forall_lookup_1 _ _ _ _ (cpu_wf_r _ (wf_cpu _ Hwf)) E).
  - unfold is_u16. lia.
Qed.

Lemma set_r_put i v : 0 <= i <= 7 -> set_r vm i v = Some (put_r vm i v).
Proof.
  intros Hi. unfold set_r. rewrite decide_True; [done|].
  rewrite (cpu_wf_len _ (wf_cpu _ Hwf)). lia.
Qed.

Lemma reg_put_r i j v : 0 <= i <= 7 -> 0 <= j <= 7 ->
  reg (put_r vm i v) j = if j =? i then v else reg vm j.
Proof.
  intros Hi Hj. unfold reg, put_r. simpl. destruct (Z.eqb_spec j i) as [->|Hne].
  - rewrite list_lookup_insert_eq; [done|]. rewrite (cpu_wf_len _ (wf_cpu _ Hwf)). lia.
  - rewrite list_lookup_insert_ne by lia. done.
Qed.

Lemma operand_read_val op : src_operand op \/ none_operand op ->
  operand_read vm op = Some (operand_val vm op) /\ is_u16 (operand_val vm op).
Proof.
  unfold operand_read, operand_val.
  intros [[[-> Hv]|[-> Hv]]|[-> Hv]]; [|done|done].
  split; [by apply get_r_reg|apply reg_u16].
Qed.

Lemma operand_addr_val op : mem_operand op ->
  operand_effective_address vm op = Some (operand_addr vm op) /\ is_u16 (operand_addr vm op).
Proof.
  unfold operand_effective_address, operand_addr.
  intros [[-> Hv]|[-> Hv]]; [done|]. split; [by apply get_r_reg|apply reg_u16].
Qed.
End registers.

(** ** The invariant under field assignments *)

Lemma vm_wf_set_cpu vm c : vm_wf vm -> cpu_wf c -> vm_wf (set_cpu vm c).
Proof. intros [] ?. by split. Qed.

Lemma vm_wf_set_pc vm v : vm_wf vm -> is_u16 v -> vm_wf (set_pc vm v).
Proof. intros H ?. apply vm_wf_set_cpu; [done|]. destruct H as [[] _ _ _ _]. by split. Qed.

Lemma vm_wf_set_sp vm v : vm_wf vm -> is_u16 v -> vm_wf (set_sp vm v).
Proof. intros H ?. apply vm_wf_set_cpu; [done|]. destruct H as [[] _ _ _ _]. by split. Qed.

Lemma vm_wf_set_flag vm b v : vm_wf vm -> vm_wf (set_flag vm b v).
Proof. intros H. apply vm_wf_set_cpu; [done|]. apply cpu_wf_set_flag, H. Qed.

Lemma vm_wf_set_zs vm v : vm_wf vm -> vm_wf (set_zs vm v).
Proof. intros. by repeat apply vm_wf_set_flag. Qed.

Lemma vm_wf_put_r vm i v : vm_wf vm -> is_u16 v -> vm_wf (put_r vm i v).
Proof.
  intros H ?. apply vm_wf_set_cpu; [done|]. destruct H as [[] _ _ _ _].
  split; simpl; try done; [by rewrite length_insert|by apply Forall_insert].
Qed.

Lemma vm_wf_set_memory vm m : vm_wf vm -> mem_wf m -> vm_wf (set_memory vm m).
Proof. intros [] ?. by split. Qed.

Lemma vm_wf_set_halted vm : vm_wf vm -> vm_wf (set_halted vm true).
Proof. intros []. by split. Qed.

Lemma vm_wf_set_fault vm e p : vm_wf vm -> is_u16 p -> vm_wf (set_fault vm e p).
Proof. intros [] ?. by split. Qed.

Lemma vm_wf_mem_write16 vm a v : vm_wf vm -> vm_wf (set_memory vm (mem_write16 (memory vm) a v)).
Proof. intros H. apply vm_wf_set_memory; [done|]. apply mem_wf_write16, H. Qed.

#[export] Hint Resolve vm_wf_set_pc vm_wf_set_sp vm_wf_set_flag vm_wf_set_zs vm_wf_put_r
  vm_wf_set_halted vm_wf_set_fault vm_wf_mem_write16 reg_u16 : bytevm.

(** ** What an operation may touch

    [set_flag], [put_r], ... each change one field: these rewrite a projection
    of the result to one of the original. *)
Lemma sp_set_flag vm b v : sp (cpu (set_flag vm b v)) = sp (cpu vm).
Proof. done. Qed.
Lemma reg_set_flag vm b v i : reg (set_flag vm b v) i = reg vm i.
Proof. done. Qed.
