(* ===== verification/VmRefine.v ===== *)
(** [vm_step] implements the architecture of [Isa].

    [abs] reads the architectural state off a machine; [implements] relates a
    run of an [exec_*] function to the specified outcome. The per-instruction
    lemmas compose to [execute_refines] and [step_refines]. *)

From S2P Require Import Prelude Common CLib Memory Cpu Instruction Vm VmFacts Isa VmArith.
Open Scope Z_scope.

Definition flags_of (c : CPU) : Flags :=
  mkFlags (cpu_get_flag c CPU_FLAG_Z) (cpu_get_flag c CPU_FLAG_C)
          (cpu_get_flag c CPU_FLAG_S) (cpu_get_flag c CPU_FLAG_O).

Definition abs (vm : VM) : Arch :=
  mkArch (reg vm) (pc (cpu vm)) (sp (cpu vm)) (flags_of (cpu vm)) (mem_read8 (memory vm)).

(** The fields that only [vm_step] itself and the loader assign. *)
Definition same_control (vm vm' : VM) : Prop :=
  last_error vm' = last_error vm /\ error_pc vm' = error_pc vm /\
  stack_limit vm' = stack_limit vm.

Definition implements (vm : VM) (res : option (VM * Stdio * VmResult))
  (spec : Arch * Stdio * Outcome) : Prop :=
  exists vm' io' rc, res = Some (vm', io', rc) /\ vm_wf vm' /\ same_control vm vm' /\
    abs vm' ≡ spec.1.1 /\ io' = spec.1.2 /\
    match spec.2 with
    | Next => rc = VM_OK /\ halted vm' = halted vm
    | Stop => rc = VM_OK /\ halted vm' = true
    | Fault e => rc = e /\ e <> VM_OK /\ vm' = vm
    end.

(** ** The abstraction of each assignment *)

Lemma abs_put_r vm i v : vm_wf vm -> 0 <= i <= 7 -> abs (put_r vm i v) ≡ with_gpr (abs vm) i v.
Proof.
  intros Hwf Hi. split; [|by repeat split].
  intros j Hj. simpl. by apply reg_put_r.
Qed.

Lemma flags_of_set c b v : 0 <= flags c < 16 ->
  flags_of (cpu_set_flag c b v) =
  mkFlags (if decide (b = CPU_FLAG_Z) then v else fZ (flags_of c))
          (if decide (b = CPU_FLAG_C) then v else fC (flags_of c))
          (if decide (b = CPU_FLAG_S) then v else fS (flags_of c))
          (if decide (b = CPU_FLAG_O) then v else fO (flags_of c)).
Proof. intros. unfold flags_of. by rewrite !cpu_get_set_flag. Qed.

(** [vm'] is [vm] with other flags. *)
Record flags_only (vm vm' : VM) (f : Flags) : Prop := {
  fo_wf : vm_wf vm';
  fo_abs : abs vm' = with_flags (abs vm) f;
  fo_control : same_control vm vm';
  fo_halted : halted vm' = halted vm;
}.

Lemma flags_only_set vm b v : vm_wf vm ->
  flags_only vm (set_flag vm b v) (flags_of (cpu_set_flag (cpu vm) b v)).
Proof. intros. split; [by apply vm_wf_set_flag|done..]. Qed.

Lemma flags_only_trans vm1 vm2 vm3 f g :
  flags_only vm1 vm2 f -> flags_only vm2 vm3 g -> flags_only vm1 vm3 g.
Proof.
  intros [H1 H2 (H3 & H4 & H5) H6] [G1 G2 (G3 & G4 & G5) G6]. split.
  - done.
  - by rewrite G2, H2.
  - split; [|split]; congruence.
  - congruence.
Qed.

Lemma flags_range vm : vm_wf vm -> 0 <= flags (cpu vm) < 16.
Proof. intros H. apply cpu_wf_flags, H. Qed.

#[export] Hint Resolve flags_range : bytevm.

(** Z and S follow from the result, whatever the machine was. *)
Lemma flags_only_zs vm v : vm_wf vm -> is_u16 v ->
  flags_only vm (set_zs vm v)
    (mkFlags (v =? 0) (fC (flags_of (cpu vm))) (signed v <? 0) (fO (flags_of (cpu vm)))).
Proof.
  intros Hwf Hv. unfold set_zs. rewrite sign_bit by done.
  assert (vm_wf (set_flag vm CPU_FLAG_Z (v =? 0))) by auto with bytevm.
  eapply flags_only_trans; [by apply flags_only_set|].
  pose proof (flags_only_set (set_flag vm CPU_FLAG_Z (v =? 0)) CPU_FLAG_S
    (signed v <? 0) H) as G.
  rewrite flags_of_set in G by auto with bytevm.
  change (cpu (set_flag vm CPU_FLAG_Z (v =? 0))) with
    (cpu_set_flag (cpu vm) CPU_FLAG_Z (v =? 0)) in G.
  rewrite flags_of_set in G by auto with bytevm.
  exact G.
Qed.

Lemma flags_only_c vm c : vm_wf vm ->
  flags_only vm (set_flag vm CPU_FLAG_C c)
    (mkFlags (fZ (flags_of (cpu vm))) c (fS (flags_of (cpu vm))) (fO (flags_of (cpu vm)))).
Proof.
  intros Hwf. pose proof (flags_only_set vm CPU_FLAG_C c Hwf) as G.
  rewrite flags_of_set in G by auto with bytevm. exact G.
Qed.

Lemma flags_only_o vm o : vm_wf vm ->
  flags_only vm (set_flag vm CPU_FLAG_O o)
    (mkFlags (fZ (flags_of (cpu vm))) (fC (flags_of (cpu vm))) (fS (flags_of (cpu vm))) o).
Proof.
  intros Hwf. pose proof (flags_only_set vm CPU_FLAG_O o Hwf) as G.
  rewrite flags_of_set in G by auto with bytevm. exact G.
Qed.

Lemma fo_flags vm vm' f : flags_only vm vm' f -> flags_of (cpu vm') = f.
Proof. intros [_ H _ _]. apply (f_equal afl) in H. done. Qed.

Lemma flags_only_czs vm c v : vm_wf vm -> is_u16 v ->
  flags_only vm (set_zs (set_flag vm CPU_FLAG_C c) v)
    (mkFlags (v =? 0) c (signed v <? 0) (fO (flags_of (cpu vm)))).
Proof.
  intros Hwf Hv. pose proof (flags_only_c vm c Hwf) as Hc.
  eapply flags_only_trans; [exact Hc|].
  pose proof (flags_only_zs _ v (fo_wf _ _ _ Hc) Hv) as G.
  by rewrite (fo_flags _ _ _ Hc) in G.
Qed.

Lemma flags_only_cozs vm c o v : vm_wf vm -> is_u16 v ->
  flags_only vm (set_zs (set_flag (set_flag vm CPU_FLAG_C c) CPU_FLAG_O o) v)
    (mkFlags (v =? 0) c (signed v <? 0) o).
Proof.
  intros Hwf Hv. pose proof (flags_only_c vm c Hwf) as Hc.
  pose proof (flags_only_o _ o (fo_wf _ _ _ Hc)) as Ho.
  rewrite (fo_flags _ _ _ Hc) in Ho. simpl in Ho.
  eapply flags_only_trans; [exact Hc|]. eapply flags_only_trans; [exact Ho|].
  pose proof (flags_only_zs _ v (fo_wf _ _ _ Ho) Hv) as G.
  by rewrite (fo_flags _ _ _ Ho) in G.
Qed.

(** ** Outcomes *)

Section outcomes.
Context (vm : VM) (Hwf : vm_wf vm) (io : Stdio).

Lemma implements_fault e : e <> VM_OK ->
  implements vm (Some (vm, io, e)) (abs vm, io, Fault e).
Proof. intros. exists vm, io, e. unfold same_control. simpl. split_and!; done. Qed.

Lemma implements_next vm' a io' : vm_wf vm' -> same_control vm vm' ->
  halted vm' = halted vm -> abs vm' ≡ a ->
  implements vm (Some (vm', io', VM_OK)) (a, io', Next).
Proof. intros. exists vm', io', VM_OK. simpl. split_and!; done. Qed.

(** A register write that ends an operation. *)
Lemma implements_put vm1 f i v : flags_only vm vm1 f -> 0 <= i <= 7 -> is_u16 v ->
  implements vm (no_io io (vm2 ← set_r vm1 i v; Some (vm2, VM_OK)))
    (with_gpr (with_flags (abs vm) f) i v, io, Next).
Proof.
  intros Hf Hi Hv. rewrite set_r_put by (apply Hf || done). simpl.
  apply implements_next.
  - apply vm_wf_put_r; [apply Hf|done].
  - apply Hf.
  - apply Hf.
  - rewrite <- (fo_abs _ _ _ Hf). apply abs_put_r; [apply Hf|done].
Qed.

Lemma implements_mov i v : 0 <= i <= 7 -> is_u16 v ->
  implements vm (no_io io (vm2 ← set_r vm i v; Some (vm2, VM_OK)))
    (with_gpr (abs vm) i v, io, Next).
Proof.
  intros. apply (implements_put vm (flags_of (cpu vm))); [|done..].
  by split.
Qed.

(** Operands read as the architecture says. *)
Lemma operand_val_src op : src_operand op -> operand_val vm op = src_val (abs vm) op.
Proof. unfold operand_val, src_val. by intros [[-> _]|[-> _]]. Qed.

Lemma operand_addr_mem op : mem_operand op -> operand_addr vm op = mem_addr (abs vm) op.
Proof. unfold operand_addr, mem_addr. by intros [[-> _]|[-> _]]. Qed.

Lemma word_at_abs a : word_at (ram (abs vm)) a = mem_read16 (memory vm) a.
Proof. unfold word_at. simpl. rewrite mem_read16_bytes by apply Hwf. done. Qed.

Lemma store_word_abs a v b : is_u16 v ->
  mem_read8 (mem_write16 (memory vm) a v) b = store_word (ram (abs vm)) a v b.
Proof.
  intros Hv. unfold store_word. fold (u16 (a + 1)).
  destruct (Z.eqb_spec b a) as [->|H1]; [apply mem_read8_write16_lo|].
  destruct (Z.eqb_spec b (u16 (a + 1))) as [->|H2]; [by apply mem_read8_write16_hi|].
  by apply mem_read8_write16_ne.
Qed.
End outcomes.

(** ** Instructions *)

Section instructions.
Context (vm : VM) (Hwf : vm_wf vm) (io : Stdio) (i : Instruction).

(** The specified outcome of an operation of the arithmetic and logic unit. *)
Definition alu_outcome (op : Opcode) : Arch * Stdio * Outcome :=
  let a := abs vm in
  match alu op (gpr a (value (op1 i))) (src_val a (op2 i)) (afl a) with
  | Some (v, f) => (with_gpr (with_flags a f) (value (op1 i)) v, io, Next)
  | None => (a, io, Fault VM_ERR_DIV_BY_ZERO)
  end.

Section binary.
Context (H1 : reg_operand (op1 i)) (H2 : src_operand (op2 i)).

Let a := reg vm (value (op1 i)).
Let b := operand_val vm (op2 i).

Lemma alu_operands :
  get_r vm (value (op1 i)) = Some a /\ operand_read vm (op2 i) = Some b /\
  gpr (abs vm) (value (op1 i)) = a /\ src_val (abs vm) (op2 i) = b /\
  is_u16 a /\ is_u16 b.
Proof.
  destruct (operand_read_val vm Hwf (op2 i)) as [Hb Hub]; [by left|].
  split_and!; try done.
  - apply get_r_reg; [done|apply H1].
  - by rewrite <- operand_val_src.
  - by apply reg_u16.
Qed.

(** Unfold one operation to its operands, specified and implemented. *)
Ltac alu_op f :=
  destruct alu_operands as (Ea & Eb & Sa & Sb & Ha & Hb);
  unfold f, alu_outcome; rewrite Sa, Sb, Ea, Eb; cbn [mbind option_bind alu afl abs].

Lemma refine_add : implements vm (no_io io (exec_add vm i)) (alu_outcome OP_ADD).
Proof.
  alu_op exec_add. pose proof Ha as Ha'. pose proof Hb as Hb'. unfold is_u16 in Ha', Hb'.
  assert (u32 (a + b) = a + b) as -> by mlia.
  rewrite carry_bit, add_overflow by (done || lia).
  apply implements_put; [|apply H1|apply u16_range].
  by apply flags_only_cozs, u16_range.
Qed.

Lemma refine_sub : implements vm (no_io io (exec_sub vm i)) (alu_outcome OP_SUB).
Proof.
  alu_op exec_sub. rewrite sub_overflow by done.
  apply implements_put; [|apply H1|apply u16_range].
  by apply flags_only_cozs, u16_range.
Qed.

Lemma refine_mul : implements vm (no_io io (exec_mul vm i)) (alu_outcome OP_MUL).
Proof.
  alu_op exec_mul. pose proof (mul_range a b Ha Hb).
  assert (u32 (a * b) = a * b) as -> by (apply Z.mod_small; lia).
  rewrite carry_bit, u16_land_ffff, mul_overflow by (done || lia).
  apply implements_put; [|apply H1|apply u16_range].
  by apply flags_only_cozs, u16_range.
Qed.

Lemma refine_div : implements vm (no_io io (exec_div vm i)) (alu_outcome OP_DIV).
Proof.
  alu_op exec_div. destruct (Z.eqb_spec b 0) as [Hz|Hz]; [by apply implements_fault|].
  assert (is_u16 (a / b)) as Hd.
  { unfold is_u16 in *. split; [apply Z.div_pos; lia|].
    apply Z.le_lt_trans with a; [|lia]. apply Z.div_le_upper_bound; nia. }
  rewrite u16_id by done.
  apply implements_put; [|apply H1|done]. by apply flags_only_zs.
Qed.

Lemma refine_mod : implements vm (no_io io (exec_mod vm i)) (alu_outcome OP_MOD).
Proof.
  alu_op exec_mod. destruct (Z.eqb_spec b 0) as [Hz|Hz]; [by apply implements_fault|].
  assert (is_u16 (a mod b)) as Hd.
  { unfold is_u16 in *. pose proof (Z.mod_pos_bound a b). lia. }
  rewrite u16_id by done.
  apply implements_put; [|apply H1|done]. by apply flags_only_zs.
Qed.

Lemma refine_and : implements vm (no_io io (exec_and vm i)) (alu_outcome OP_AND).
Proof.
  alu_op exec_and. rewrite u16_id by auto with bytevm.
  apply implements_put; [|apply H1|auto with bytevm].
  apply flags_only_zs; auto with bytevm.
Qed.

Lemma refine_or : implements vm (no_io io (exec_or vm i)) (alu_outcome OP_OR).
Proof.
  alu_op exec_or. rewrite u16_id by auto with bytevm.
  apply implements_put; [|apply H1|auto with bytevm].
  apply flags_only_zs; auto with bytevm.
Qed.

Lemma refine_xor : implements vm (no_io io (exec_xor vm i)) (alu_outcome OP_XOR).
Proof.
  alu_op exec_xor. rewrite u16_id by auto with bytevm.
  apply implements_put; [|apply H1|auto with bytevm].
  apply flags_only_zs; auto with bytevm.
Qed.

Lemma refine_shl : implements vm (no_io io (exec_shl vm i)) (alu_outcome OP_SHL).
Proof.
  alu_op exec_shl. rewrite shift_left_spec by (done || apply Hb).
  apply implements_put; [|apply H1|apply Z.mod_pos_bound; lia].
  apply flags_only_czs; [done|]. apply Z.mod_pos_bound; lia.
Qed.

Lemma refine_shr : implements vm (no_io io (exec_shr vm i)) (alu_outcome OP_SHR).
Proof.
  alu_op exec_shr. rewrite shift_right_spec by (done || apply Hb).
  assert (is_u16 (a / 2 ^ b)).
  { unfold is_u16 in *. assert (0 < 2 ^ b) by (apply Z.pow_pos_nonneg; lia).
    split; [apply Z.div_pos; lia|]. apply Z.div_lt_upper_bound; nia. }
  apply implements_put; [|apply H1|done]. by apply flags_only_czs.
Qed.

Lemma refine_mov : implements vm (no_io io (exec_mov vm i))
  (with_gpr (abs vm) (value (op1 i)) (src_val (abs vm) (op2 i)), io, Next).
Proof.
  destruct alu_operands as (_ & Eb & _ & Sb & _ & Hb). unfold exec_mov. rewrite Sb, Eb.
  apply implements_mov; [done|apply H1|done].
Qed.
End binary.

Lemma refine_not : reg_operand (op1 i) -> none_operand (op2 i) ->
  implements vm (no_io io (exec_not vm i)) (alu_outcome OP_NOT).
Proof.
  intros H1 H2. unfold exec_not, alu_outcome. rewrite get_r_reg by (done || apply H1).
  cbn [mbind option_bind alu gpr abs afl].
  set (a := reg vm (value (op1 i))).
  assert (u16 (Z.lnot a) = 65535 - a) as ->.
  { pose proof (reg_u16 vm Hwf (value (op1 i))). fold a in H. unfold Z.lnot. mlia. }
  assert (is_u16 (65535 - a)).
  { pose proof (reg_u16 vm Hwf (value (op1 i))). fold a in H. mlia. }
  apply implements_put; [|apply H1|done]. by apply flags_only_zs.
Qed.

Lemma refine_cmp : src_operand (op1 i) -> src_operand (op2 i) ->
  implements vm (no_io io (exec_cmp vm i))
    (match alu OP_SUB (src_val (abs vm) (op1 i)) (src_val (abs vm) (op2 i)) (afl (abs vm)) with
     | Some (_, f) => (with_flags (abs vm) f, io, Next)
     | None => (abs vm, io, Next)
     end).
Proof.
  intros H1 H2.
  destruct (operand_read_val vm Hwf (op1 i)) as [Ea Ha]; [by left|].
  destruct (operand_read_val vm Hwf (op2 i)) as [Eb Hb]; [by left|].
  unfold exec_cmp. rewrite <- !operand_val_src by done. rewrite Ea, Eb.
  cbn [mbind option_bind alu afl abs]. rewrite sub_overflow by done.
  set (v := u16 (operand_val vm (op1 i) - operand_val vm (op2 i))).
  destruct (flags_only_cozs vm (operand_val vm (op1 i) <? operand_val vm (op2 i))
    (negb (fits (signed (operand_val vm (op1 i)) - signed (operand_val vm (op2 i))))) v Hwf
    (u16_range _)) as [F1 F2 F3 F4].
  apply implements_next; [done..|]. by rewrite F2.
Qed.

Lemma refine_load : reg_operand (op1 i) -> mem_operand (op2 i) ->
  implements vm (no_io io (exec_load vm i))
    (with_gpr (abs vm) (value (op1 i))
       (word_at (ram (abs vm)) (mem_addr (abs vm) (op2 i))), io, Next).
Proof.
  intros H1 H2. unfold exec_load.
  destruct (operand_addr_val vm Hwf (op2 i) H2) as [-> _].
  rewrite <- operand_addr_mem, word_at_abs by done.
  apply implements_mov; [done|apply H1|apply mem_read16_u16].
Qed.

Lemma refine_store : mem_operand (op1 i) -> reg_operand (op2 i) ->
  implements vm (no_io io (exec_store vm i))
    (with_ram (abs vm) (store_word (ram (abs vm)) (mem_addr (abs vm) (op1 i))
       (gpr (abs vm) (value (op2 i)))), io, Next).
Proof.
  intros H1 H2. unfold exec_store.
  destruct (operand_addr_val vm Hwf (op1 i) H1) as [-> _].
  rewrite get_r_reg by (done || apply H2). cbn [mbind option_bind no_io].
  rewrite <- operand_addr_mem by done.
  apply implements_next; [auto with bytevm|done|done|].
  repeat split. intros x. apply store_word_abs. by apply reg_u16.
Qed.

Lemma refine_jump b : direct_operand (op1 i) ->
  implements vm (no_io io (jump_if vm i b))
    (if b then with_pc (abs vm) (value (op1 i)) else abs vm, io, Next).
Proof.
  intros [_ Hv]. unfold jump_if. apply implements_next; destruct b; auto with bytevm; done.
Qed.

(** The push that PUSH and CALL share. *)
Lemma push_test : (sp (cpu vm) <? 2) || (u16 (sp (cpu vm) - 2) <? stack_limit vm) =
  (sp (cpu vm) - 2 <? stack_limit vm).
Proof.
  pose proof (cpu_wf_sp _ (wf_cpu _ Hwf)) as Hs. pose proof (wf_limit _ Hwf) as Hl.
  unfold is_u16 in *. destruct (Z.ltb_spec (sp (cpu vm)) 2); simpl.
  - symmetry. apply Z.ltb_lt. lia.
  - rewrite u16_id by (unfold is_u16; lia). done.
Qed.

Lemma refine_push : src_operand (op1 i) ->
  implements vm (no_io io (exec_push vm i))
    (let '(a, o) := isa_push (stack_limit vm) (abs vm) (src_val (abs vm) (op1 i)) in (a, io, o)).
Proof.
  intros H1. destruct (operand_read_val vm Hwf (op1 i)) as [Ea Ha]; [by left|].
  unfold exec_push, isa_push. rewrite <- operand_val_src, Ea by done.
  cbn [mbind option_bind asp abs]. rewrite push_test.
  destruct (Z.ltb_spec (sp (cpu vm) - 2) (stack_limit vm)); [by apply implements_fault|].
  pose proof (cpu_wf_sp _ (wf_cpu _ Hwf)) as Hs. pose proof (wf_limit _ Hwf) as Hl.
  unfold is_u16 in Hs, Hl. rewrite u16_id by (unfold is_u16; lia).
  apply implements_next; [|done|done|].
  - apply vm_wf_set_sp; [auto with bytevm|unfold is_u16; lia].
  - repeat split. intros x. by apply store_word_abs.
Qed.

Lemma refine_call : direct_operand (op1 i) ->
  implements vm (no_io io (exec_call vm i))
    (match isa_push (stack_limit vm) (abs vm) (apc (abs vm)) with
     | (a, Next) => (with_pc a (value (op1 i)), io, Next)
     | (a, o) => (a, io, o)
     end).
Proof.
  intros [_ H1]. unfold exec_call, isa_push.
  cbn [mbind option_bind asp apc abs]. rewrite push_test.
  destruct (Z.ltb_spec (sp (cpu vm) - 2) (stack_limit vm)); [by apply implements_fault|].
  pose proof (cpu_wf_sp _ (wf_cpu _ Hwf)) as Hs. pose proof (wf_limit _ Hwf) as Hl.
  unfold is_u16 in Hs, Hl. rewrite u16_id by (unfold is_u16; lia).
  apply implements_next; [|done|done|].
  - apply vm_wf_set_pc; [|done]. apply vm_wf_set_sp; [auto with bytevm|unfold is_u16; lia].
  - repeat split. intros x. apply store_word_abs, (cpu_wf_pc _ (wf_cpu _ Hwf)).
Qed.

Lemma refine_pop : reg_operand (op1 i) ->
  implements vm (no_io io (exec_pop vm i))
    (if asp (abs vm) =? 0xFFFE then (abs vm, io, Fault VM_ERR_STACK_UNDERFLOW)
     else
       let sp := (asp (abs vm) + 2) mod 65536 in
       (with_sp (with_gpr (abs vm) (value (op1 i)) (word_at (ram (abs vm)) sp)) sp, io, Next)).
Proof.
  intros [_ H1]. unfold exec_pop, CPU_INITIAL_SP. cbn [asp abs].
  destruct (Z.eqb_spec (sp (cpu vm)) 0xFFFE); [by apply implements_fault|].
  cbv zeta. rewrite word_at_abs, set_r_put by done. cbn [mbind option_bind no_io].
  fold (u16 (sp (cpu vm) + 2)).
  apply implements_next; [auto with bytevm|done|done|].
  pose proof (abs_put_r vm (value (op1 i))
    (mem_read16 (memory vm) (u16 (sp (cpu vm) + 2))) Hwf H1) as (G1 & G2 & G3 & G4 & G5).
  by repeat split.
Qed.

Lemma refine_ret :
  implements vm (no_io io (exec_ret vm i))
    (if asp (abs vm) =? 0xFFFE then (abs vm, io, Fault VM_ERR_STACK_UNDERFLOW)
     else
       let sp := (asp (abs vm) + 2) mod 65536 in
       (with_sp (with_pc (abs vm) (word_at (ram (abs vm)) sp)) sp, io, Next)).
Proof.
  unfold exec_ret, CPU_INITIAL_SP. cbn [asp abs].
  destruct (Z.eqb_spec (sp (cpu vm)) 0xFFFE); [by apply implements_fault|].
  cbv zeta. rewrite word_at_abs by done. fold (u16 (sp (cpu vm) + 2)).
  apply implements_next; auto with bytevm; done.
Qed.

Lemma read_int_u16 l : is_u16 (read_int_from_stdin l).1.
Proof.
  unfold read_int_from_stdin. repeat case_match; simpl; try apply u16_range;
    unfold is_u16; lia.
Qed.

Lemma refine_sys : implements vm (exec_sys vm io i) (isa_sys (abs vm) io (value (op1 i))).
Proof.
  unfold exec_sys, isa_sys. rewrite get_r_reg by (done || lia). cbn [mbind option_bind gpr abs].
  destruct (value (op1 i)) as [|[[]|[[]|[]|]|]|]; try by apply implements_fault.
  - pose proof (read_int_u16 (stdin io)) as Hv.
    destruct (read_int_from_stdin (stdin io)) as [v rest]. simpl in Hv.
    rewrite set_r_put by (done || lia). cbn [mbind option_bind].
    apply implements_next; [auto with bytevm|done|done|].
    apply abs_put_r; [done|lia].
  - exists (set_halted vm true), io, VM_OK. simpl. split_and!; auto with bytevm; done.
  - rewrite u8_land_255. by apply implements_next.
  - rewrite s16_signed by (by apply reg_u16). by apply implements_next.
Qed.
End instructions.

(** ** The dispatcher *)

Lemma execute_refines vm io i : vm_wf vm -> instr_legal i ->
  implements vm (instruction_execute vm io i) (isa_exec (stack_limit vm) (abs vm) io i).
Proof.
  intros Hwf Hi. destruct Hi as [H1 H2].
  unfold instruction_execute, isa_exec.
  destruct (opcode i); cbn [operand_shapes fst snd] in H1, H2.
  - by apply implements_next.
  - by apply refine_mov.
  - by apply refine_add.
  - by apply refine_sub.
  - by apply refine_mul.
  - by apply refine_div.
  - by apply refine_mod.
  - by apply refine_and.
  - by apply refine_or.
  - by apply refine_xor.
  - by apply refine_not.
  - by apply refine_shl.
  - by apply refine_shr.
  - by apply refine_load.
  - by apply refine_store.
  - by apply refine_push.
  - by apply refine_pop.
  - by apply refine_cmp.
  - by apply (refine_jump vm Hwf io i true).
  - by apply refine_jump.
  - by apply refine_jump.
  - by apply refine_jump.
  - by apply refine_jump.
  - by apply refine_jump.
  - by apply refine_jump.
  - by apply refine_jump.
  - by apply refine_jump.
  - by apply refine_jump.
  - by apply refine_jump.
  - by apply refine_call.
  - by apply refine_ret.
  - by apply refine_sys.
  - exists (set_halted vm true), io, VM_OK. simpl. split_and!; auto with bytevm; done.
Qed.
