(* ===== verification/VmStep.v ===== *)
(** Runs of the machine: one cycle refines [Isa.isa_step], any number of cycles
    is free of undefined behaviour, and the stack discipline is invariant. *)

From S2P Require Import Prelude Machine Common CLib Memory Cpu Instruction Vm VmFacts Isa VmArith.
From S2P Require Import VmRefine.
From stdpp Require Import relations.
Open Scope Z_scope.

(** ** One cycle *)

Lemma ram_holds_bytes m a bs : ram_holds (mem_read8 m) a bs <-> bytes_at m a bs.
Proof. revert a. induction bs as [|b bs IH]; intros a; simpl; [done|]. by rewrite IH. Qed.

(** What [vm_step] leaves behind for each outcome of the specified cycle. *)
Definition step_result (vm vm' : VM) (rc : VmResult) (o : Outcome) : Prop :=
  match o with
  | Next => rc = VM_OK /\ halted vm' = false /\ error_pc vm' = error_pc vm
  | Stop => rc = VM_OK /\ halted vm' = true /\ last_error vm' = VM_OK /\
            error_pc vm' = error_pc vm
  | Fault e => rc = e /\ e <> VM_OK /\ halted vm' = true /\ last_error vm' = e /\
               error_pc vm' = pc (cpu vm)
  end.

Lemma abs_set_fault vm e p : abs (set_fault vm e p) = abs vm.
Proof. done. Qed.

Lemma decode_pc_u16 mem p p' i : mem_wf mem -> is_u16 p ->
  instruction_decode mem p = inr (p', i) -> is_u16 p'.
Proof. intros Hm Hp H. apply decode_sound in H as (_ & _ & ->); [|done..]. apply u16_range. Qed.

Lemma step_fetch_fault vm io e : vm_wf vm -> halted vm = false ->
  instruction_decode (memory vm) (pc (cpu vm)) = inl e -> e <> VM_OK ->
  vm_step vm io = Some (set_fault vm e (pc (cpu vm)), io, e).
Proof.
  intros Hwf Hh Hd He. unfold vm_step. rewrite Hh, Hd. simpl. by rewrite decide_False.
Qed.

(** A cycle whose fetch succeeds is the execution of the decoded instruction,
    followed by the recording of a fault. *)
Lemma step_fetched vm io p' i : halted vm = false ->
  instruction_decode (memory vm) (pc (cpu vm)) = inr (p', i) ->
  vm_step vm io =
    ('(vm', io', rc) ← instruction_execute (set_pc vm p') io i;
     if decide (rc = VM_OK) then Some (vm', io', rc)
     else Some (set_fault vm' rc (pc (cpu vm)), io', rc)).
Proof. intros Hh Hd. unfold vm_step. by rewrite Hh, Hd. Qed.

Lemma step_refines vm io : vm_wf vm -> halted vm = false ->
  exists vm' io' rc a' o, vm_step vm io = Some (vm', io', rc) /\ vm_wf vm' /\
    stack_limit vm' = stack_limit vm /\
    isa_step (stack_limit vm) (abs vm) io a' io' o /\ abs vm' ≡ a' /\
    step_result vm vm' rc o.
Proof.
  intros Hwf Hh. pose proof (wf_mem _ Hwf) as Hm. pose proof (cpu_wf_pc _ (wf_cpu _ Hwf)) as Hp.
  destruct (instruction_decode (memory vm) (pc (cpu vm))) as [e|[p' i]] eqn:Hd.
  - assert (e <> VM_OK /\ isa_step (stack_limit vm) (abs vm) io (abs vm) io (Fault e)) as [He Hs].
    { destruct (decode_error _ _ _ Hm Hp Hd) as [[-> H]|(-> & [op Hop] & H)]; split; try done.
      - by apply isa_step_bad_opcode.
      - eapply isa_step_bad_mode; [exact Hop|].
        intros i Hi Hr. apply (H i Hi). by apply ram_holds_bytes. }
    exists (set_fault vm e (pc (cpu vm))), io, e, (abs vm), (Fault e).
    split_and!; try done.
    + by apply step_fetch_fault.
    + by apply vm_wf_set_fault.
  - destruct (decode_sound (memory vm) Hm (pc (cpu vm)) p' i Hp Hd) as (Hi & Hb & Hp').
    assert (is_u16 p') as Hu by (rewrite Hp'; apply u16_range).
    assert (vm_wf (set_pc vm p')) as Hwf1 by auto with bytevm.
    destruct (execute_refines (set_pc vm p') io i Hwf1 Hi)
      as (vm' & io' & rc & He & Hwf' & (Hc1 & Hc2 & Hc3) & Ha & Hio & Ho).
    change (abs (set_pc vm p')) with (with_pc (abs vm) p') in *.
    destruct (isa_exec _ _ io i) as [[a' io''] o] eqn:Hx. cbn [fst snd] in *. subst io''.
    assert (isa_step (stack_limit vm) (abs vm) io a' io' o) as Hstep.
    { eapply isa_step_exec; [exact Hi|by apply ram_holds_bytes|].
      change ((apc (abs vm) + zlen (instr_bytes i)) mod 65536)
        with (u16 (pc (cpu vm) + zlen (instr_bytes i))).
      rewrite <- Hp'. exact Hx. }
    rewrite (step_fetched _ _ _ _ Hh Hd), He. simpl.
    destruct o as [| |e].
    + destruct Ho as [-> Ho]. rewrite decide_True by done.
      exists vm', io', VM_OK, a', Next. split_and!; try done. simpl in *.
      split_and!; [done|congruence|done].
    + destruct Ho as [-> Ho]. rewrite decide_True by done.
      exists vm', io', VM_OK, a', Stop. split_and!; try done. simpl in *.
      pose proof (wf_running _ Hwf Hh). split_and!; congruence.
    + destruct Ho as (-> & Hne & ->). rewrite decide_False by done.
      exists (set_fault (set_pc vm p') e (pc (cpu vm))), io', e, a', (Fault e).
      split_and!; try done. by apply vm_wf_set_fault.
Qed.

(** The cycle is total and keeps the invariant, halted machines included. *)
Lemma step_total vm io : vm_wf vm ->
  exists vm' io' rc, vm_step vm io = Some (vm', io', rc) /\ vm_wf vm' /\
                     stack_limit vm' = stack_limit vm.
Proof.
  intros Hwf. destruct (halted vm) eqn:Hh.
  - exists vm, io, (last_error vm). unfold vm_step. by rewrite Hh.
  - destruct (step_refines vm io Hwf Hh) as (vm' & io' & rc & _ & _ & H1 & H2 & H3 & _). eauto 6.
Qed.

(** ** Runs

    The state of a run is the machine with its streams; [vm_next] is one
    successful cycle of a machine that is still running, and its reflexive
    transitive closure [rtc vm_next] is reachability. *)
Definition State : Type := VM * Stdio.

Inductive vm_next : State -> State -> Prop :=
| vm_next_step vm io vm' io' rc :
    halted vm = false -> vm_step vm io = Some (vm', io', rc) ->
    vm_next (vm, io) (vm', io').

(** [n] cycles, as a caller's loop runs them. *)
Fixpoint vm_steps (n : nat) (vm : VM) (io : Stdio) : option State :=
  match n with
  | O => Some (vm, io)
  | S n => '(vm, io, _) ← vm_step vm io; vm_steps n vm io
  end.

Lemma vm_next_wf s s' : vm_next s s' -> vm_wf s.1 -> vm_wf s'.1 /\ stack_limit s'.1 = stack_limit s.1.
Proof.
  intros [vm io vm' io' rc Hh Hs] Hwf. simpl in *.
  destruct (step_total vm io Hwf) as (v & i & c & E & H1 & H2). simplify_eq. done.
Qed.

Lemma vm_next_total s : vm_wf s.1 -> halted s.1 = false -> exists s', vm_next s s'.
Proof.
  destruct s as [vm io]. simpl. intros Hwf Hh.
  destruct (step_total vm io Hwf) as (v & i & c & E & _). exists (v, i). by econstructor.
Qed.

Lemma rtc_next_wf s s' : rtc vm_next s s' -> vm_wf s.1 ->
  vm_wf s'.1 /\ stack_limit s'.1 = stack_limit s.1.
Proof.
  induction 1 as [s|s1 s2 s3 H _ IH]; intros Hwf; [done|].
  destruct (vm_next_wf _ _ H Hwf) as [H1 H2]. destruct (IH H1). split; [done|congruence].
Qed.

(** The virtual machine and its streams, as what drives them sees them. *)
#[export] Program Instance vm_machine : Machine State := {
  m_step s := match vm_step s.1 s.2 with Some (vm, io, _) => Some (vm, io) | None => None end;
  m_halted s := halted s.1;
  m_inv s := vm_wf s.1;
}.
Next Obligation.
  intros [vm io] Hwf. destruct (step_total vm io Hwf) as (v & i & c & E & Hv & _).
  exists (v, i). cbn [fst snd]. by rewrite E.
Qed.
Next Obligation. intros [vm io] Hh. cbn [fst snd] in *. unfold vm_step. by rewrite Hh. Qed.

Lemma vm_steps_machine n vm io : vm_steps n vm io = m_steps n (vm, io).
Proof.
  revert vm io. induction n as [|n IH]; intros vm io; [done|]. simpl.
  destruct (vm_step vm io) as [[[v i] c]|]; simpl; [apply IH|done].
Qed.

Lemma vm_steps_halted n vm io : halted vm = true -> vm_steps n vm io = Some (vm, io).
Proof. intros Hh. rewrite vm_steps_machine. by apply m_steps_halted. Qed.

Lemma vm_steps_wf n vm io : vm_wf vm -> exists vm' io', vm_steps n vm io = Some (vm', io') /\ vm_wf vm'.
Proof.
  intros H. destruct (m_steps_total n (vm, io)) as ([vm' io'] & E & Hw); [done|].
  exists vm', io'. by rewrite vm_steps_machine.
Qed.

Lemma vm_steps_total n vm io : vm_wf vm ->
  exists s, vm_steps n vm io = Some s /\ rtc vm_next (vm, io) s.
Proof.
  revert vm io. induction n as [|n IH]; intros vm io Hwf.
  { exists (vm, io). split; [done|apply rtc_refl]. }
  destruct (halted vm) eqn:Hh.
  { exists (vm, io). rewrite vm_steps_halted by done. split; [done|apply rtc_refl]. }
  destruct (step_total vm io Hwf) as (v & i & c & E & Hwf' & _). simpl. rewrite E. simpl.
  destruct (IH v i Hwf') as (s & Hs & Hr). exists s. split; [done|].
  eapply rtc_l; [|exact Hr]. by econstructor.
Qed.

(** A fault of the specified execution leaves everything as it was. *)
Lemma isa_exec_fault limit a io i e :
  (isa_exec limit a io i).2 = Fault e -> isa_exec limit a io i = (a, io, Fault e).
Proof.
  unfold isa_exec, isa_push, isa_sys. intros H.
  repeat (case_match; simpl in *; simplify_eq; try done).
Qed.

(** ** What a cycle that runs an instruction does *)

(** A cycle that does not fault executes some legal instruction. *)
Lemma step_ok_inv vm io vm' io' rc : vm_wf vm -> halted vm = false ->
  vm_step vm io = Some (vm', io', rc) ->
  (exists i p', instr_legal i /\ is_u16 p' /\
     instruction_decode (memory vm) (pc (cpu vm)) = inr (p', i) /\
     instruction_execute (set_pc vm p') io i = Some (vm', io', VM_OK) /\ rc = VM_OK) \/
  (exists e p', vm' = set_fault (set_pc vm p') e (pc (cpu vm)) /\ io' = io /\ rc = e /\ e <> VM_OK).
Proof.
  intros Hwf Hh Hs. pose proof (wf_mem _ Hwf) as Hm. pose proof (cpu_wf_pc _ (wf_cpu _ Hwf)) as Hp.
  destruct (instruction_decode (memory vm) (pc (cpu vm))) as [e|[p' i]] eqn:Hd.
  - assert (e <> VM_OK) as He by (by destruct (decode_error _ _ _ Hm Hp Hd) as [[-> _]|[-> _]]).
    rewrite (step_fetch_fault vm io e Hwf Hh Hd He) in Hs. simplify_eq. right.
    exists rc, (pc (cpu vm)). split_and!; try done. by destruct vm as [[] ? ? ? ? ?].
  - destruct (decode_sound (memory vm) Hm (pc (cpu vm)) p' i Hp Hd) as (Hi & _ & Hp').
    assert (is_u16 p') as Hu by (rewrite Hp'; apply u16_range). clear Hp'.
    destruct (execute_refines (set_pc vm p') io i ltac:(auto with bytevm) Hi)
      as (vm1 & io1 & rc1 & He & _ & _ & _ & Hio & Ho).
    rewrite (step_fetched _ _ _ _ Hh Hd), He in Hs. simpl in Hs.
    destruct (decide (rc1 = VM_OK)) as [->|Hne]; injection Hs as <- <- <-.
    + left. eauto 10.
    + right. exists rc1, p'. destruct (isa_exec _ _ io i) as [[a io''] o] eqn:Hx. simpl in *.
      destruct o as [| |e]; destruct Ho as [? Ho]; [done|done|].
      destruct Ho as [_ ->]. split_and!; try done. subst io1.
      pose proof (isa_exec_fault (stack_limit vm) (abs (set_pc vm p')) io i e) as G.
      simpl in G. rewrite Hx in G. by specialize (G eq_refl) as [= _ <-].
Qed.

(** ** Cycles at a known instruction *)

Lemma ram_holds_ext f g a bs : (forall x, f x = g x) -> ram_holds f a bs -> ram_holds g a bs.
Proof. intros E. revert a. induction bs as [|b bs IH]; intros a; simpl; [done|]. rewrite E. intros [? ?]. auto. Qed.

(** PC points at the encoding of [i]. *)
Definition at_instr (vm : VM) (i : Instruction) : Prop :=
  instr_legal i /\ bytes_at (memory vm) (pc (cpu vm)) (instr_bytes i).

(** The address behind an instruction. *)
Definition next_pc (vm : VM) (i : Instruction) : Z := u16 (pc (cpu vm) + zlen (instr_bytes i)).

(** A cycle at [i] executes [i], with PC already behind it. *)
Lemma step_exec vm io i : vm_wf vm -> halted vm = false -> at_instr vm i ->
  exists vm' io' rc, vm_step vm io = Some (vm', io', rc) /\ vm_wf vm' /\
    stack_limit vm' = stack_limit vm /\
    abs vm' ≡ (isa_exec (stack_limit vm) (with_pc (abs vm) (next_pc vm i)) io i).1.1 /\
    io' = (isa_exec (stack_limit vm) (with_pc (abs vm) (next_pc vm i)) io i).1.2 /\
    step_result vm vm' rc (isa_exec (stack_limit vm) (with_pc (abs vm) (next_pc vm i)) io i).2.
Proof.
  intros Hwf Hh [Hi Hb]. pose proof (wf_mem _ Hwf) as Hm.
  pose proof (cpu_wf_pc _ (wf_cpu _ Hwf)) as Hp.
  pose proof (decode_complete (memory vm) Hm (pc (cpu vm)) i Hp Hi Hb) as Hd.
  fold (next_pc vm i) in Hd.
  destruct (step_refines vm io Hwf Hh) as (vm' & io' & rc & a' & o & Hs & Hwf' & Hl & Hst & Ha & Hr).
  exists vm', io', rc. split_and!; try done.
  all: destruct Hst as [j a' io' o Hj Hbj Hx|Hno|op Hop Hno].
  all: try (exfalso; destruct (decode_error (memory vm) (pc (cpu vm)) VM_ERR_INVALID_OPCODE)
    as [[? ?]|[? ?]]; done).
  all: try (exfalso; apply (Hno (opcode i)); by destruct Hb).
  all: try (exfalso; apply (Hno i Hi); by apply ram_holds_bytes).
  all: apply ram_holds_bytes in Hbj;
    assert (j = i) as -> by (eapply (legal_encoding_unique (memory vm)); done).
  all: change ((apc (abs vm) + zlen (instr_bytes i)) mod 65536) with (next_pc vm i) in Hx;
    by rewrite Hx.
Qed.

Lemma decode_error_code vm e : vm_wf vm ->
  instruction_decode (memory vm) (pc (cpu vm)) = inl e -> e <> VM_OK.
Proof.
  intros Hwf Hd. by destruct (decode_error (memory vm) (pc (cpu vm)) e (wf_mem _ Hwf)
    (cpu_wf_pc _ (wf_cpu _ Hwf)) Hd) as [[-> _]|[-> _]].
Qed.

(** The specified cycle from a machine: the instruction at PC, or the decoder's
    error. *)
Lemma isa_step_machine vm io a' io' o : vm_wf vm ->
  isa_step (stack_limit vm) (abs vm) io a' io' o ->
  (exists i, at_instr vm i /\
     isa_exec (stack_limit vm) (with_pc (abs vm) (next_pc vm i)) io i = (a', io', o)) \/
  (exists e, instruction_decode (memory vm) (pc (cpu vm)) = inl e /\
     a' = abs vm /\ io' = io /\ o = Fault e).
Proof.
  intros Hwf Hst. pose proof (wf_mem _ Hwf) as Hm. pose proof (cpu_wf_pc _ (wf_cpu _ Hwf)) as Hp.
  destruct Hst as [i a' io' o Hi Hb Hx|Hno|op Hop Hno].
  - left. exists i. split; [|done]. split; [done|]. by apply ram_holds_bytes.
  - right. exists VM_ERR_INVALID_OPCODE. split_and!; try done.
    destruct (instruction_decode _ _) as [e|[p' i]] eqn:Hd.
    + destruct (decode_error _ _ _ Hm Hp Hd) as [[-> _]|(_ & [op Hop] & _)]; [done|].
      by destruct (Hno op).
    + destruct (decode_sound _ Hm _ _ _ Hp Hd) as (_ & [Hb _] & _). by destruct (Hno (opcode i)).
  - right. exists VM_ERR_INVALID_MODE. split_and!; try done.
    destruct (instruction_decode _ _) as [e|[p' i]] eqn:Hd.
    + destruct (decode_error _ _ _ Hm Hp Hd) as [[-> H]|(-> & _)]; [|done]. by destruct (H op).
    + destruct (decode_sound _ Hm _ _ _ Hp Hd) as (Hi & Hb & _).
      destruct (Hno i Hi). by apply ram_holds_bytes.
Qed.
