(* ===== verification/VmStack.v ===== *)
(** The stack discipline of DESIGN.md section 6.

    The live part of the descending stack, read off memory, is an abstract list
    of words ([stack_words]) of bounded capacity; PUSH, CALL, POP and RET are its
    operations and every other instruction but STORE leaves it alone. The facts
    are proved on the architecture of [Isa] and carried to the machine by
    [VmRefine]. *)

From S2P Require Import Prelude Common CLib Memory Cpu Instruction Vm VmFacts Isa VmArith VmRefine.
From S2P Require Import VmStep.
Open Scope Z_scope.

(** ** The abstract stack *)

Fixpoint words_from (ram : Z -> Z) (a : Z) (n : nat) : list Z :=
  match n with
  | O => []
  | S n => word_at ram a :: words_from ram (a + 2) n
  end.

(** SP is the next free slot: the words are those above it, up to 0xFFFE. *)
Definition stack_words (a : Arch) : list Z :=
  words_from (ram a) (asp a + 2) (Z.to_nat ((0xFFFE - asp a) / 2)).

(** How many words fit above the stack limit. *)
Definition stack_capacity (limit : Z) : Z := (0xFFFE - limit) / 2.

(** The operation of an instruction on the abstract stack. *)
Definition stack_spec (limit : Z) (op : Opcode) (pushed : Z) (s : list Z)
  : VmResult + list Z :=
  match op with
  | OP_PUSH | OP_CALL =>
      if stack_capacity limit <=? zlen s then inl VM_ERR_STACK_OVERFLOW else inr (pushed :: s)
  | OP_POP | OP_RET =>
      match s with
      | [] => inl VM_ERR_STACK_UNDERFLOW
      | _ :: s => inr s
      end
  | _ => inr s
  end.

(** The stack pointer's invariant: word-aligned with the top of memory, and never
    below the limit once something was pushed. *)
Record sp_ok (limit : Z) (a : Arch) : Prop := {
  sp_ok_even : Z.even (asp a) = true;
  sp_ok_range : 0 <= asp a <= 0xFFFE;
  sp_ok_limit : asp a = 0xFFFE \/ limit <= asp a;
}.

Lemma sp_ok_proper limit a1 a2 : a1 ≡ a2 -> sp_ok limit a2 -> sp_ok limit a1.
Proof. intros (_ & _ & E & _) [H1 H2 H3]. split; by rewrite E. Qed.

Lemma words_from_ext f g a n :
  (forall b, a <= b < a + 2 * Z.of_nat n -> word_at f b = word_at g b) ->
  words_from f a n = words_from g a n.
Proof.
  revert a. induction n as [|n IH]; intros a H; [done|]. simpl. f_equal.
  - apply H. lia.
  - apply IH. intros b Hb. apply H. lia.
Qed.

Lemma stack_words_proper a1 a2 : a1 ≡ a2 -> stack_words a1 = stack_words a2.
Proof.
  intros (_ & _ & E & _ & Hr). unfold stack_words. rewrite E. apply words_from_ext.
  intros b _. unfold word_at. by rewrite !Hr.
Qed.

Lemma length_words_from f a n : length (words_from f a n) = n.
Proof. revert a. induction n; intros; simpl; auto. Qed.

Lemma even_half z : Z.even z = true -> exists k, z = 2 * k.
Proof. intros H. apply Z.even_spec in H. exact H. Qed.

Lemma even_2 k : Z.even (2 * k) = true.
Proof. by rewrite Z.even_mul. Qed.

Lemma half_even k : 2 * k / 2 = k.
Proof. rewrite Z.mul_comm. by apply Z.div_mul. Qed.

Section discipline.
Context (limit : Z) (a : Arch) (Hl : is_u16 limit) (Ha : sp_ok limit a).

(** The depth of the stack, as a number of words. *)
Lemma stack_depth : exists n : nat,
  asp a = 0xFFFE - 2 * Z.of_nat n /\ stack_words a = words_from (ram a) (asp a + 2) n.
Proof.
  destruct Ha as [He Hr _]. destruct (even_half _ He) as [k Hk].
  exists (Z.to_nat (32767 - k)). split; [lia|]. unfold stack_words. do 2 f_equal.
  replace (0xFFFE - asp a) with (2 * (32767 - k)) by lia. apply half_even.
Qed.

Lemma capacity_test :
  (asp a - 2 <? limit) = (stack_capacity limit <=? zlen (stack_words a)).
Proof.
  destruct stack_depth as (n & Hn & ->). rewrite length_words_from.
  unfold stack_capacity. destruct (Z.ltb_spec (asp a - 2) limit), (Z.leb_spec ((65534 - limit) / 2) (Z.of_nat n));
    try done; mlia.
Qed.

Lemma stack_empty : asp a = 0xFFFE <-> stack_words a = [].
Proof.
  destruct stack_depth as (n & Hn & ->). destruct n; simpl; [|split; [lia|done]].
  split; [done|lia].
Qed.

(** Storing a word at the free slot is invisible to the words above it. *)
Lemma words_from_store v b n : asp a + 2 <= b -> b + 2 * Z.of_nat n <= 0x10000 ->
  Z.even b = true -> words_from (store_word (ram a) (asp a) v) b n = words_from (ram a) b n.
Proof.
  intros Hb Hn He. destruct Ha as [Hae Har _].
  revert b Hb Hn He. induction n as [|n IH]; intros b Hb Hn He; [done|]. simpl.
  destruct (even_half _ He) as [k ->]. rewrite IH; [| |lia|]; [|lia|by replace (2 * k + 2) with (2 * (k + 1)) by lia; rewrite even_2].
  f_equal. unfold word_at, store_word.
  rewrite !(Z.mod_small _ 65536) by lia.
  rewrite !(proj2 (Z.eqb_neq _ _)) by lia. done.
Qed.

Lemma push_spec v : is_u16 v ->
  match stack_spec limit OP_PUSH v (stack_words a) with
  | inl e => isa_push limit a v = (a, Fault e)
  | inr s => exists a', isa_push limit a v = (a', Next) /\ stack_words a' = s /\ sp_ok limit a' /\
      apc a' = apc a /\ (forall b, 0 <= b < limit + 2 -> ram a' b = ram a b)
  end.
Proof.
  intros Hv. unfold stack_spec, isa_push. rewrite <- capacity_test.
  destruct (Z.ltb_spec (asp a - 2) limit) as [|Hroom]; [done|].
  destruct stack_depth as (n & Hn & E). destruct Ha as [Hae Har _].
  destruct (even_half _ Hae) as [k Hk]. unfold is_u16 in Hl, Hv.
  eexists. split; [done|]. split_and!; simpl; try done.
  - rewrite E. unfold stack_words. simpl.
    replace (Z.to_nat ((65534 - (asp a - 2)) / 2)) with (S n).
    2:{ replace (65534 - (asp a - 2)) with (2 * Z.of_nat (S n)) by lia.
        by rewrite half_even, Nat2Z.id. }
    simpl. replace (asp a - 2 + 2) with (asp a) by lia.
    rewrite words_from_store by (try lia; rewrite Hk; replace (2 * k + 2) with (2 * (k + 1)) by lia; apply even_2).
    f_equal. unfold word_at, store_word.
    rewrite !(Z.mod_small _ 65536) by lia. rewrite !Z.eqb_refl, (proj2 (Z.eqb_neq _ _)) by lia.
    mlia.
  - split; simpl; [|lia|lia]. rewrite Hk. replace (2 * k - 2) with (2 * (k - 1)) by lia. apply even_2.
  - intros b Hb. unfold store_word.
    rewrite (Z.mod_small _ 65536), !(proj2 (Z.eqb_neq _ _)) by lia. done.
Qed.

(** What POP and RET do to the stack: the word they fetch, and the rest. *)
Lemma pop_spec : asp a <> 0xFFFE ->
  stack_words a = word_at (ram a) ((asp a + 2) mod 65536) ::
                  stack_words (with_sp a ((asp a + 2) mod 65536)) /\
  sp_ok limit (with_sp a ((asp a + 2) mod 65536)).
Proof.
  intros Hne. destruct stack_depth as (n & Hn & ->). destruct Ha as [Hae Har Hal].
  destruct n as [|n]; [lia|]. rewrite Z.mod_small by lia. split.
  - simpl. f_equal. unfold stack_words. simpl. f_equal.
    replace (65534 - (asp a + 2)) with (2 * Z.of_nat n) by lia. by rewrite half_even, Nat2Z.id.
  - destruct (even_half _ Hae) as [k Hk]. split; simpl; [|lia|lia].
    rewrite Hk. replace (2 * k + 2) with (2 * (k + 1)) by lia. apply even_2.
Qed.
End discipline.

(** ** Every instruction, on the architecture *)

(** The word an instruction would push. *)
Definition pushed_value (a : Arch) (i : Instruction) : Z :=
  match opcode i with OP_CALL => apc a | _ => src_val a (op1 i) end.

(** What became of the stack when an instruction ended in [a']. *)
Record stack_step (limit : Z) (a : Arch) (i : Instruction) (a' : Arch) (s' : list Z) : Prop := {
  ss_words : stack_words a' = s';
  ss_ok : sp_ok limit a';
  ss_protected : forall b, 0 <= b < limit + 2 -> ram a' b = ram a b;
  ss_pop : opcode i = OP_POP -> stack_words a = gpr a' (value (op1 i)) :: s';
  ss_ret : opcode i = OP_RET -> stack_words a = apc a' :: s';
}.

(** Instructions that use the stack neither as a stack nor as memory. *)
Definition stack_neutral (op : Opcode) : bool :=
  match op with
  | OP_STORE | OP_PUSH | OP_POP | OP_CALL | OP_RET => false
  | _ => true
  end.

Lemma isa_exec_neutral limit a io i : stack_neutral (opcode i) = true ->
  asp (isa_exec limit a io i).1.1 = asp a /\ ram (isa_exec limit a io i).1.1 = ram a.
Proof.
  unfold isa_exec, isa_sys.
  destruct (opcode i); intros Hs; try done; simpl; repeat case_match; simplify_eq/=; done.
Qed.

Lemma same_stack a a' : asp a' = asp a -> ram a' = ram a -> stack_words a' = stack_words a.
Proof. intros H1 H2. unfold stack_words. by rewrite H1, H2. Qed.

Lemma stack_spec_neutral limit op v s : stack_neutral op = true -> stack_spec limit op v s = inr s.
Proof. by destruct op. Qed.

Lemma isa_exec_stack limit a io i :
  is_u16 limit -> sp_ok limit a -> opcode i <> OP_STORE ->
  (opcode i = OP_PUSH \/ opcode i = OP_CALL -> is_u16 (pushed_value a i)) ->
  match stack_spec limit (opcode i) (pushed_value a i) (stack_words a) with
  | inl e => isa_exec limit a io i = (a, io, Fault e)
  | inr s => stack_step limit a i (isa_exec limit a io i).1.1 s
  end.
Proof.
  intros Hl Ha Hop Hv.
  destruct (stack_neutral (opcode i)) eqn:Hneutral.
  { rewrite stack_spec_neutral by done.
    destruct (isa_exec_neutral limit a io i Hneutral) as [H1 H2].
    split; try (intros E; by rewrite E in Hneutral).
    - by apply same_stack.
    - destruct Ha. split; by rewrite H1.
    - intros. by rewrite H2. }
  unfold isa_exec, pushed_value in *. destruct (opcode i) eqn:Eop; try done.
  - pose proof (push_spec limit a Hl Ha _ (Hv ltac:(auto))) as P.
    destruct (stack_spec _ OP_PUSH _ _) as [e|s]; [by rewrite P|].
    destruct P as (a' & -> & P1 & P2 & _ & P4). split; try done; congruence.
  - pose proof (stack_empty limit a Ha) as He. destruct (Z.eqb_spec (asp a) 0xFFFE) as [E|E].
    + apply He in E. by rewrite E.
    + destruct (pop_spec limit a Ha E) as [P1 P2]. rewrite P1. simpl.
      split; try done; try congruence; [by destruct P2|]. intros _. rewrite P1. f_equal.
      simpl. unfold upd. by rewrite Z.eqb_refl.
  - pose proof (push_spec limit a Hl Ha _ (Hv ltac:(auto))) as P.
    change (stack_spec limit OP_CALL) with (stack_spec limit OP_PUSH).
    destruct (stack_spec _ OP_PUSH _ _) as [e|s]; [by rewrite P|].
    destruct P as (a' & -> & P1 & P2 & _ & P4).
    split; simpl; try done; try congruence; by destruct P2.
  - pose proof (stack_empty limit a Ha) as He. destruct (Z.eqb_spec (asp a) 0xFFFE) as [E|E].
    + apply He in E. by rewrite E.
    + destruct (pop_spec limit a Ha E) as [P1 P2]. rewrite P1. simpl.
      split; try done; try congruence; by destruct P2.
Qed.

(** STORE moves no stack pointer, so the invariant survives it too. *)
Lemma isa_exec_sp_ok limit a io i : is_u16 limit -> sp_ok limit a ->
  (opcode i = OP_PUSH \/ opcode i = OP_CALL -> is_u16 (pushed_value a i)) ->
  sp_ok limit (isa_exec limit a io i).1.1.
Proof.
  intros Hl Ha Hv. destruct (decide (opcode i = OP_STORE)) as [E|E].
  - unfold isa_exec. rewrite E. by destruct Ha.
  - pose proof (isa_exec_stack limit a io i Hl Ha E Hv) as P.
    destruct (stack_spec _ _ _ _); [by rewrite P|apply P].
Qed.

(** ** The machine *)

Definition stack_ok (vm : VM) : Prop := sp_ok (stack_limit vm) (abs vm).

(** The words on the machine's stack, top first. *)
Definition stack_of (vm : VM) : list Z := stack_words (abs vm).

Lemma pushed_value_u16 vm i : vm_wf vm -> instr_legal i -> opcode i = OP_PUSH \/ opcode i = OP_CALL ->
  is_u16 (pushed_value (abs vm) i).
Proof.
  intros Hwf Hi Hop. unfold pushed_value. destruct Hop as [E|E]; rewrite E.
  - destruct Hi as [H1 _]. rewrite E in H1. simpl in H1.
    rewrite <- operand_val_src by done. apply operand_read_val; [done|by left].
  - apply (cpu_wf_pc _ (wf_cpu _ Hwf)).
Qed.

Lemma stack_ok_next s s' : vm_next s s' -> vm_wf s.1 -> stack_ok s.1 -> stack_ok s'.1.
Proof.
  intros [vm io vm' io' rc Hh Hst] Hwf Hs. simpl in *.
  destruct (step_ok_inv vm io vm' io' rc Hwf Hh Hst) as
    [(i & p' & Hi & Hp & _ & He & _)|(e & p' & -> & _)].
  - assert (vm_wf (set_pc vm p')) as Hwf' by auto with bytevm.
    assert (stack_ok (set_pc vm p')) as Hs' by (by destruct Hs).
    destruct (execute_refines (set_pc vm p') io i Hwf' Hi)
      as (v & j & rc' & E & _ & (_ & _ & Hl) & Ha & _).
    rewrite He in E. simplify_eq. unfold stack_ok. rewrite Hl.
    eapply sp_ok_proper; [exact Ha|]. apply isa_exec_sp_ok; [apply (wf_limit _ Hwf')|done|].
    by apply pushed_value_u16.
  - by destruct Hs.
Qed.

Lemma stack_ok_rtc s s' : rtc vm_next s s' -> vm_wf s.1 -> stack_ok s.1 -> stack_ok s'.1.
Proof.
  induction 1 as [s|s1 s2 s3 H _ IH]; intros Hwf Hs; [done|].
  apply IH; [by apply (vm_next_wf _ _ H)|by eapply stack_ok_next].
Qed.

(** The abstract stack operation of an instruction executed by the machine. *)
Lemma exec_stack vm io i : vm_wf vm -> stack_ok vm -> instr_legal i -> opcode i <> OP_STORE ->
  match stack_spec (stack_limit vm) (opcode i) (pushed_value (abs vm) i) (stack_words (abs vm)) with
  | inl e => isa_exec (stack_limit vm) (abs vm) io i = (abs vm, io, Fault e)
  | inr s => stack_step (stack_limit vm) (abs vm) i
               (isa_exec (stack_limit vm) (abs vm) io i).1.1 s
  end.
Proof.
  intros Hwf Hs Hi Hop.
  apply isa_exec_stack; [apply (wf_limit _ Hwf)|done|done|].
  by apply pushed_value_u16.
Qed.

(** ** Code and data below the stack *)

(** The opcode the next cycle executes, if it decodes. *)
Definition next_opcode (vm : VM) : option Opcode :=
  match instruction_decode (memory vm) (pc (cpu vm)) with
  | inl _ => None
  | inr (_, i) => Some (opcode i)
  end.

(** A cycle that executes no STORE. *)
Definition storeless_next (s s' : State) : Prop :=
  vm_next s s' /\ next_opcode s.1 <> Some OP_STORE.

Lemma storeless_next_memory s s' b : storeless_next s s' -> vm_wf s.1 -> stack_ok s.1 ->
  0 <= b < stack_limit s.1 + 2 -> mem_read8 (memory s'.1) b = mem_read8 (memory s.1) b.
Proof.
  intros [[vm io vm' io' rc Hh Hst] Hno] Hwf Hs Hb. simpl in *.
  destruct (step_ok_inv vm io vm' io' rc Hwf Hh Hst) as
    [(i & p' & Hi & Hp & Hd & He & _)|(e & p' & -> & _)]; [|done].
  unfold next_opcode in Hno. rewrite Hd in Hno.
  assert (vm_wf (set_pc vm p')) as Hwf' by auto with bytevm.
  assert (stack_ok (set_pc vm p')) as Hs' by (by destruct Hs).
  destruct (execute_refines (set_pc vm p') io i Hwf' Hi)
    as (v & j & rc' & E & _ & _ & (_ & _ & _ & _ & Ha) & _).
  rewrite He in E. injection E as <- <- <-.
  change (mem_read8 (memory vm') b) with (ram (abs vm') b). rewrite Ha.
  pose proof (exec_stack (set_pc vm p') io i Hwf' Hs' Hi ltac:(congruence)) as P.
  destruct (stack_spec _ _ _ _); [by rewrite P|by apply P].
Qed.

Lemma storeless_rtc_memory s s' b : rtc storeless_next s s' -> vm_wf s.1 -> stack_ok s.1 ->
  0 <= b < stack_limit s.1 + 2 -> mem_read8 (memory s'.1) b = mem_read8 (memory s.1) b.
Proof.
  induction 1 as [s|s1 s2 s3 H _ IH]; intros Hwf Hs Hb; [done|].
  pose proof H as [Hn _]. destruct (vm_next_wf _ _ Hn Hwf) as [Hwf2 Hl].
  rewrite IH; [by apply storeless_next_memory|done|by eapply stack_ok_next|by rewrite Hl].
Qed.

(** ** Calls and returns as whole cycles *)

Section cycles.
Context (vm : VM) (io : Stdio) (i : Instruction).
Context (Hwf : vm_wf vm) (Hs : stack_ok vm) (Hh : halted vm = false) (Hi : at_instr vm i).

Let a := with_pc (abs vm) (next_pc vm i).

Lemma cycle_sp_ok : sp_ok (stack_limit vm) a.
Proof. by destruct Hs. Qed.

Lemma step_call vm1 io1 : opcode i = OP_CALL -> vm_step vm io = Some (vm1, io1, VM_OK) ->
  pc (cpu vm1) = value (op1 i) /\ stack_of vm1 = next_pc vm i :: stack_of vm.
Proof.
  intros Hop Hst.
  destruct (step_exec vm io i Hwf Hh Hi) as (v & j & c & E & _ & _ & Ha & _ & Hr).
  rewrite Hst in E. injection E as <- <- <-.
  unfold isa_exec in Ha, Hr. rewrite Hop in Ha, Hr. fold a in Ha, Hr.
  pose proof (push_spec (stack_limit vm) a (wf_limit _ Hwf) cycle_sp_ok (apc a) (u16_range _)) as P.
  destruct (stack_spec _ _ _ _) as [e|s] eqn:Es.
  - rewrite P in Hr. simpl in Hr. by destruct Hr as (<- & ? & _).
  - destruct P as (a' & E & P1 & _). rewrite E in Ha. simpl in Ha.
    unfold stack_of. rewrite (stack_words_proper _ _ Ha).
    split; [by destruct Ha as (_ & ? & _)|].
    change (stack_words (with_pc a' (value (op1 i)))) with (stack_words a'). rewrite P1.
    unfold stack_spec in Es. case_match; [done|]. by injection Es as <-.
Qed.

Lemma step_ret x s : opcode i = OP_RET -> stack_of vm = x :: s ->
  exists vm', vm_step vm io = Some (vm', io, VM_OK) /\ pc (cpu vm') = x /\ stack_of vm' = s.
Proof.
  intros Hop Hx.
  destruct (step_exec vm io i Hwf Hh Hi) as (vm' & io' & c & E & _ & _ & Ha & Hio & Hr).
  unfold isa_exec in Ha, Hio, Hr. rewrite Hop in Ha, Hio, Hr. fold a in Ha, Hio, Hr.
  change (stack_of vm) with (stack_words a) in Hx.
  destruct (Z.eqb_spec (asp a) 0xFFFE) as [Ee|Ee].
  { apply (stack_empty _ _ cycle_sp_ok) in Ee. by rewrite Ee in Hx. }
  destruct (pop_spec _ _ cycle_sp_ok Ee) as [P1 _]. rewrite P1 in Hx. injection Hx as Hx1 Hx2.
  simpl in Hio, Hr. destruct Hr as (-> & _). subst io'.
  exists vm'. split_and!; [done| |].
  - destruct Ha as (_ & Hp & _). rewrite <- Hx1. exact Hp.
  - unfold stack_of. rewrite (stack_words_proper _ _ Ha). exact Hx2.
Qed.
End cycles.
