(* ===== verification/Loader.v ===== *)
(** The image loader: [include/bytevm/loader.h] and [src/loader.c].

    A raw [.bvm] file is the list of its bytes; [size] is its length. The file
    format of DESIGN.md section 10 is the predicate [image_valid], which the
    loader is proved to decide. *)

From S2P Require Import Prelude Common CLib Memory Cpu Instruction Vm VmFacts.
Open Scope Z_scope.

Definition BVM_HEADER_SIZE : Z := 16.

(** [data[i]], inside a range the caller has checked. *)
Definition byte_at (data : list Z) (i : Z) : Z := default 0 (data !! Z.to_nat i).

Definition read_u16_le (data : list Z) (i : Z) : Z :=
  u16 (Z.lor (byte_at data i) (Z.shiftl (byte_at data (i + 1)) 8)).

(** [memcmp(data, "BVM1", 4) == 0]. *)
Definition magic_ok (data : list Z) : bool :=
  (byte_at data 0 =? 66) && (byte_at data 1 =? 86) && (byte_at data 2 =? 77) &&
  (byte_at data 3 =? 49).

(** [count] bytes of the array from index [start]. *)
Definition slice (data : list Z) (start count : Z) : list Z :=
  take (Z.to_nat count) (drop (Z.to_nat start) data).

(** The copy loop: byte [i] of the blob to [(uint16_t)(addr + i)]. *)
Fixpoint copy_blob (mem : Memory) (addr i : Z) (bytes : list Z) : Memory :=
  match bytes with
  | [] => mem
  | b :: bytes => copy_blob (mem_write8 mem (u16 (addr + i)) b) addr (i + 1) bytes
  end.

Definition vm_load (vm : VM) (data : list Z) : VM * VmResult :=
  let size := zlen data in
  if size <? BVM_HEADER_SIZE then (vm, VM_ERR_BAD_BYTECODE_HEADER)
  else if negb (magic_ok data) then (vm, VM_ERR_BAD_BYTECODE_HEADER)
  else if negb (byte_at data 4 =? 1) || negb (byte_at data 5 =? 0)
  then (vm, VM_ERR_BAD_BYTECODE_HEADER)
  else
    let entry_point := read_u16_le data 6 in
    let code_size := read_u16_le data 8 in
    let code_addr := read_u16_le data 10 in
    let data_size := read_u16_le data 12 in
    let data_addr := read_u16_le data 14 in
    if size <? BVM_HEADER_SIZE + code_size + data_size then (vm, VM_ERR_BAD_BYTECODE_HEADER)
    else
      let code_end := u32 (code_addr + code_size) in
      let data_end := u32 (data_addr + data_size) in
      if (0x10000 <? code_end) || (0x10000 <? data_end) then (vm, VM_ERR_BAD_BYTECODE_HEADER)
      else if negb ((code_addr <=? entry_point) && (entry_point <? code_end))
      then (vm, VM_ERR_BAD_BYTECODE_HEADER)
      else if (code_addr <? data_end) && (data_addr <? code_end)
      then (vm, VM_ERR_BAD_BYTECODE_HEADER)
      else
        let cpu := cpu_init (cpu vm) in
        let mem := mem_init (memory vm) in
        let mem := copy_blob mem code_addr 0 (slice data BVM_HEADER_SIZE code_size) in
        let mem := copy_blob mem data_addr 0 (slice data (BVM_HEADER_SIZE + code_size) data_size) in
        let limit := if data_end <? code_end then code_end else data_end in
        (mkVM (mkCPU (r cpu) (u16 entry_point) (sp cpu) (flags cpu)) mem false VM_OK 0
              (u16 (if 0xFFFF <? limit then 0xFFFF else limit)), VM_OK).

(** ** The file format *)

Record Header : Type := mkHeader {
  h_entry : Z; h_code_size : Z; h_code_addr : Z; h_data_size : Z; h_data_addr : Z;
}.

Definition word_of (data : list Z) (i : Z) : Z := byte_at data i + 256 * byte_at data (i + 1).

Definition header_of (data : list Z) : Header :=
  mkHeader (word_of data 6) (word_of data 8) (word_of data 10) (word_of data 12) (word_of data 14).

(** Section 10: the rejection conditions, negated. *)
Record image_valid (data : list Z) : Prop := {
  iv_magic : take 6 data = [66; 86; 77; 49; 1; 0];
  iv_length : 16 + h_code_size (header_of data) + h_data_size (header_of data) <= zlen data;
  iv_header : 16 <= zlen data;
  iv_code_end : h_code_addr (header_of data) + h_code_size (header_of data) <= 0x10000;
  iv_data_end : h_data_addr (header_of data) + h_data_size (header_of data) <= 0x10000;
  iv_entry : h_code_addr (header_of data) <= h_entry (header_of data) <
             h_code_addr (header_of data) + h_code_size (header_of data);
  iv_disjoint : h_data_addr (header_of data) + h_data_size (header_of data) <= h_code_addr (header_of data) \/
                h_code_addr (header_of data) + h_code_size (header_of data) <= h_data_addr (header_of data);
}.

(** What the loaded address space holds. *)
Definition image_byte (data : list Z) (a : Z) : Z :=
  let h := header_of data in
  if (h_data_addr h <=? a) && (a <? h_data_addr h + h_data_size h) then
    byte_at data (16 + h_code_size h + (a - h_data_addr h))
  else if (h_code_addr h <=? a) && (a <? h_code_addr h + h_code_size h) then
    byte_at data (16 + (a - h_code_addr h))
  else 0.

(** The first address above both regions. *)
Definition image_end (data : list Z) : Z :=
  let h := header_of data in
  Z.max (h_code_addr h + h_code_size h) (h_data_addr h + h_data_size h).

(** ** Bytes of an image *)

Lemma byte_at_u8 data i : is_byte_list data -> is_u8 (byte_at data i).
Proof.
  intros H. unfold byte_at. destruct (data !! Z.to_nat i) as [v|] eqn:E; simpl.
  - exact (Forall_lookup_1 _ _ _ _ H E).
  - unfold is_u8. lia.
Qed.

Lemma read_u16_le_word data i : is_byte_list data ->
  read_u16_le data i = word_of data i /\ is_u16 (word_of data i).
Proof.
  intros H. unfold read_u16_le, word_of.
  pose proof (byte_at_u8 data i H) as Hl. pose proof (byte_at_u8 data (i + 1) H) as Hh.
  unfold is_u8 in *. rewrite lor_shift_add by (simpl; lia). change (2 ^ 8) with 256.
  split; [rewrite u16_id by (unfold is_u16; lia); lia|unfold is_u16; lia].
Qed.

Lemma magic_spec data : 6 <= zlen data ->
  magic_ok data && (byte_at data 4 =? 1) && (byte_at data 5 =? 0) = true <->
  take 6 data = [66; 86; 77; 49; 1; 0].
Proof.
  intros Hl. unfold magic_ok, byte_at.
  destruct data as [|a [|b [|c [|d [|e [|f l]]]]]]; simpl in Hl; try lia. simpl.
  rewrite firstn_O, !andb_true_iff, !Z.eqb_eq. split.
  - intros [[[[[-> ->] ->] ->] ->] ->]. done.
  - intros [= -> -> -> -> -> ->]. done.
Qed.

Lemma slice_length data s n : 0 <= s -> 0 <= n -> s + n <= zlen data -> zlen (slice data s n) = n.
Proof. intros. unfold slice. rewrite length_take, length_drop. lia. Qed.

Lemma slice_at data s n i : 0 <= s -> 0 <= i < n -> byte_at (slice data s n) i = byte_at data (s + i).
Proof.
  intros Hs Hi. unfold byte_at, slice. rewrite lookup_take_lt by lia. rewrite lookup_drop.
  do 2 f_equal. lia.
Qed.

Lemma slice_bytes data s n : is_byte_list data -> is_byte_list (slice data s n).
Proof. intros. by apply Forall_take, Forall_drop. Qed.

(** ** The copy loop *)

Lemma copy_blob_wf mem addr i bs : mem_wf mem -> is_byte_list bs -> mem_wf (copy_blob mem addr i bs).
Proof.
  revert mem i. induction bs as [|b bs IH]; intros mem i Hm Hb; [done|]. simpl.
  inversion Hb; subst. apply IH; auto with bytevm.
Qed.

(** A region that stays below 0x10000 is copied as it is, the rest untouched. *)
Lemma copy_blob_read mem addr i bs a : 0 <= addr -> 0 <= i -> addr + i + zlen bs <= 0x10000 ->
  mem_read8 (copy_blob mem addr i bs) a =
  if (addr + i <=? a) && (a <? addr + i + zlen bs) then byte_at bs (a - (addr + i))
  else mem_read8 mem a.
Proof.
  intros Ha. revert mem i. induction bs as [|b bs IH]; intros mem i Hi Hb.
  { simpl. rewrite Z.add_0_r. destruct (Z.leb_spec (addr + i) a), (Z.ltb_spec a (addr + i)); done || lia. }
  cbn [copy_blob length] in *. rewrite Nat2Z.inj_succ in *. rewrite IH by lia.
  rewrite mem_read8_write8, u16_id by (unfold is_u16; lia).
  destruct (Z.leb_spec (addr + (i + 1)) a), (Z.ltb_spec a (addr + (i + 1) + zlen bs)),
    (Z.leb_spec (addr + i) a), (Z.ltb_spec a (addr + i + Z.succ (zlen bs)));
    cbn [andb]; try lia;
    try case_decide; try lia; try done.
  - unfold byte_at. replace (Z.to_nat (a - (addr + i))) with (S (Z.to_nat (a - (addr + (i + 1))))) by lia.
    done.
  - subst a. rewrite Z.sub_diag. done.
Qed.

(** ** Loading *)

(** The machine a valid image loads to. *)
Definition loaded (vm : VM) (data : list Z) : VM :=
  let h := header_of data in
  let c := cpu_init (cpu vm) in
  mkVM (mkCPU (r c) (h_entry h) (sp c) (flags c))
    (copy_blob (copy_blob (mem_init (memory vm)) (h_code_addr h) 0 (slice data 16 (h_code_size h)))
       (h_data_addr h) 0 (slice data (16 + h_code_size h) (h_data_size h)))
    false VM_OK 0 (Z.min 0xFFFF (image_end data)).

Section image.
Context (data : list Z) (Hb : is_byte_list data).

Lemma header_u16 :
  is_u16 (h_entry (header_of data)) /\ is_u16 (h_code_size (header_of data)) /\
  is_u16 (h_code_addr (header_of data)) /\ is_u16 (h_data_size (header_of data)) /\
  is_u16 (h_data_addr (header_of data)).
Proof. split_and!; by apply read_u16_le_word. Qed.

(** The checks in the order of the source decide [image_valid]; a valid image
    is loaded, and any other leaves the machine as it was. *)
Lemma vm_load_cases vm :
  (image_valid data /\ vm_load vm data = (loaded vm data, VM_OK)) \/
  (~ image_valid data /\ vm_load vm data = (vm, VM_ERR_BAD_BYTECODE_HEADER)).
Proof.
  unfold vm_load, BVM_HEADER_SIZE.
  destruct (Z.ltb_spec (zlen data) 16) as [H16|H16].
  { right. split; [intros []; lia|done]. }
  pose proof (magic_spec data ltac:(lia)) as Hmagic.
  destruct (magic_ok data); simpl;
    [|right; split; [intros [M]; by apply Hmagic in M|done]].
  destruct (byte_at data 4 =? 1); simpl;
    [|right; split; [intros [M]; by apply Hmagic in M|done]].
  destruct (byte_at data 5 =? 0); simpl;
    [|right; split; [intros [M]; by apply Hmagic in M|done]].
  pose proof (proj1 Hmagic eq_refl) as M.
  rewrite !(proj1 (read_u16_le_word data _ Hb)).
  change (word_of data 6) with (h_entry (header_of data)).
  change (word_of data 8) with (h_code_size (header_of data)).
  change (word_of data 10) with (h_code_addr (header_of data)).
  change (word_of data 12) with (h_data_size (header_of data)).
  change (word_of data 14) with (h_data_addr (header_of data)).
  destruct header_u16 as (He & Hcs & Hca & Hds & Hda). unfold is_u16 in *.
  unfold loaded, image_end.
  set (h := header_of data) in *. unfold u32.
  destruct (Z.ltb_spec (zlen data) (16 + h_code_size h + h_data_size h)).
  { right. split; [intros []; subst h; lia|done]. }
  rewrite !(Z.mod_small _ 4294967296) by lia.
  destruct (Z.ltb_spec 0x10000 (h_code_addr h + h_code_size h)); cbn [negb andb orb].
  { right. split; [intros []; subst h; lia|done]. }
  destruct (Z.ltb_spec 0x10000 (h_data_addr h + h_data_size h)); cbn [negb andb orb].
  { right. split; [intros []; subst h; lia|done]. }
  destruct (Z.leb_spec (h_code_addr h) (h_entry h)); cbn [negb andb orb];
    [|right; split; [intros []; subst h; lia|done]].
  destruct (Z.ltb_spec (h_entry h) (h_code_addr h + h_code_size h)); cbn [negb andb orb];
    [|right; split; [intros []; subst h; lia|done]].
  destruct (Z.ltb_spec (h_code_addr h) (h_data_addr h + h_data_size h)),
    (Z.ltb_spec (h_data_addr h) (h_code_addr h + h_code_size h)); cbn [negb andb orb];
    try (right; split; [intros []; subst h; lia|done]).
  all: left; split; [split; fold h; try done; lia|].
  all: rewrite (u16_id (h_entry h)) by done; do 3 f_equal.
  all: match goal with |- u16 (if 0xFFFF <? ?l then _ else _) = _ => set (limit := l) end.
  all: assert (limit = Z.max (h_code_addr h + h_code_size h) (h_data_addr h + h_data_size h)) as ->
         by (subst limit; case_match; lia).
  all: rewrite u16_id; [|unfold is_u16]; case_match; lia.
Qed.

Lemma vm_load_ok vm : image_valid data -> vm_load vm data = (loaded vm data, VM_OK).
Proof. intros H. by destruct (vm_load_cases vm) as [[_ E]|[Hn _]]. Qed.

Lemma loaded_wf vm : image_valid data -> vm_wf (loaded vm data).
Proof.
  intros Hv. destruct header_u16 as (He & _). destruct Hv. unfold loaded.
  split; simpl; try done.
  - destruct (cpu_wf_init (cpu vm)). by split.
  - apply copy_blob_wf; [apply copy_blob_wf; [apply mem_wf_init|]|]; by apply slice_bytes.
  - unfold is_u16, image_end in *. pose proof header_u16 as (_ & ? & ? & _). unfold is_u16 in *. lia.
Qed.

(** Loading reads nothing of the machine it loads into. *)
Lemma loaded_indep vm1 vm2 : loaded vm1 data = loaded vm2 data.
Proof. done. Qed.

Lemma loaded_memory vm a : image_valid data -> mem_read8 (memory (loaded vm data)) a = image_byte data a.
Proof.
  intros Hv. pose proof header_u16 as (_ & Hcs & Hca & Hds & Hda). destruct Hv.
  unfold loaded, image_byte. set (h := header_of data) in *. unfold is_u16 in *. cbn [memory].
  assert (zlen (slice data 16 (h_code_size h)) = h_code_size h) as Lc by (apply slice_length; lia).
  assert (zlen (slice data (16 + h_code_size h) (h_data_size h)) = h_data_size h) as Ld
    by (apply slice_length; lia).
  rewrite !copy_blob_read by lia. rewrite Lc, Ld, !Z.add_0_r, mem_read8_init.
  destruct (Z.leb_spec (h_data_addr h) a), (Z.ltb_spec a (h_data_addr h + h_data_size h)); cbn [andb];
    try (apply slice_at; lia).
  all: destruct (Z.leb_spec (h_code_addr h) a), (Z.ltb_spec a (h_code_addr h + h_code_size h)); cbn [andb];
    try done; apply slice_at; lia.
Qed.
End image.
