(* ===== verification/VmBranch.v ===== *)
(** Branches and FLAGS: what CMP records, what each conditional jump tests, and
    which instructions touch which flag. *)

From S2P Require Import Prelude Common CLib Memory Cpu Instruction Vm VmFacts Isa VmArith VmRefine.
From S2P Require Import VmStep.
Open Scope Z_scope.

Definition is_jump (op : Opcode) : bool :=
  match op with
  | OP_JMP | OP_JZ | OP_JNZ | OP_JG | OP_JGE | OP_JL | OP_JLE | OP_JB | OP_JAE | OP_JA | OP_JBE => true
  | _ => false
  end.

(** The relation a jump names (DESIGN.md section 5). *)
Definition jump_relation (op : Opcode) (a b : Z) : bool :=
  match op with
  | OP_JZ => a =? b
  | OP_JNZ => negb (a =? b)
  | OP_JG => signed b <? signed a
  | OP_JGE => signed b <=? signed a
  | OP_JL => signed a <? signed b
  | OP_JLE => signed a <=? signed b
  | OP_JB => a <? b
  | OP_JAE => b <=? a
  | OP_JA => b <? a
  | OP_JBE => a <=? b
  | _ => true
  end.

(** The flags a comparison of [a] with [b] leaves. *)
Definition cmp_flags (a b : Z) : Flags :=
  mkFlags ((a - b) mod 65536 =? 0) (a <? b) (signed ((a - b) mod 65536) <? 0)
          (negb (fits (signed a - signed b))).

(** The three facts about a difference that the ten conditions combine. *)
Lemma cmp_zero a b : is_u16 a -> is_u16 b -> ((a - b) mod 65536 =? 0) = (a =? b).
Proof.
  unfold is_u16. intros.
  destruct (Z.eqb_spec ((a - b) mod 65536) 0), (Z.eqb_spec a b); try done; exfalso; mlia.
Qed.

Lemma cmp_less a b : is_u16 a -> is_u16 b ->
  negb (eqb (fS (cmp_flags a b)) (fO (cmp_flags a b))) = (signed a <? signed b).
Proof.
  unfold is_u16. intros. unfold cmp_flags, fits. simpl.
  assert ((b <= a /\ (a - b) mod 65536 = a - b) \/
          (a < b /\ (a - b) mod 65536 = a - b + 65536)) as [[Hc ->]|[Hc ->]] by mlia.
  all: unfold signed;
    repeat match goal with |- context [?x <? 32768] => destruct (Z.ltb_spec x 32768) end;
    repeat match goal with
      | |- context [?x <? ?y] => destruct (Z.ltb_spec x y)
      | |- context [?x <=? ?y] => destruct (Z.leb_spec x y)
      end; simpl; first [reflexivity | exfalso; lia].
Qed.

Lemma signed_inj a b : is_u16 a -> is_u16 b -> signed a = signed b -> a = b.
Proof. unfold is_u16, signed. intros. repeat case_match; lia. Qed.

Lemma signed_eqb a b : is_u16 a -> is_u16 b -> (a =? b) = (signed a =? signed b).
Proof.
  intros Ha Hb. destruct (Z.eqb_spec a b) as [->|Hne]; [by rewrite Z.eqb_refl|].
  symmetry. apply Z.eqb_neq. intros E. by apply Hne, signed_inj.
Qed.

(** Every jump condition, evaluated on the flags of a comparison, is its relation. *)
Lemma taken_relation op a b : is_u16 a -> is_u16 b -> is_jump op = true ->
  taken op (cmp_flags a b) = jump_relation op a b.
Proof.
  intros Ha Hb Hop. pose proof (cmp_less a b Ha Hb) as Hlt.
  pose proof (cmp_zero a b Ha Hb) as Hz. pose proof (signed_eqb a b Ha Hb) as Hs.
  assert (eqb (fS (cmp_flags a b)) (fO (cmp_flags a b)) = negb (signed a <? signed b)) as Hge
    by (rewrite <- Hlt; by destruct (eqb _ _)).
  destruct op; try discriminate Hop; unfold taken, jump_relation;
    rewrite ?Hge, ?Hlt; change (fZ (cmp_flags a b)) with ((a - b) mod 65536 =? 0);
    change (fC (cmp_flags a b)) with (a <? b); rewrite ?Hz, ?negb_involutive; try done.
  - rewrite Hs. destruct (Z.eqb_spec (signed a) (signed b)), (Z.ltb_spec (signed a) (signed b)),
      (Z.ltb_spec (signed b) (signed a)); simpl; done || lia.
  - destruct (Z.leb_spec (signed b) (signed a)), (Z.ltb_spec (signed a) (signed b)); simpl; done || lia.
  - rewrite Hs. destruct (Z.eqb_spec (signed a) (signed b)), (Z.ltb_spec (signed a) (signed b)),
      (Z.leb_spec (signed a) (signed b)); simpl; done || lia.
  - destruct (Z.leb_spec b a), (Z.ltb_spec a b); simpl; done || lia.
  - destruct (Z.eqb_spec a b), (Z.ltb_spec a b), (Z.ltb_spec b a); simpl; done || lia.
  - destruct (Z.eqb_spec a b), (Z.ltb_spec a b), (Z.leb_spec a b); simpl; done || lia.
Qed.

Section cycles.
Context (vm : VM) (io : Stdio) (i : Instruction).
Context (Hwf : vm_wf vm) (Hh : halted vm = false) (Hi : at_instr vm i).

Lemma cmp_cycle : opcode i = OP_CMP ->
  exists vm', vm_step vm io = Some (vm', io, VM_OK) /\ vm_wf vm' /\ halted vm' = false /\
    pc (cpu vm') = next_pc vm i /\
    (forall x, mem_read8 (memory vm') x = mem_read8 (memory vm) x) /\
    flags_of (cpu vm') = cmp_flags (operand_val vm (op1 i)) (operand_val vm (op2 i)).
Proof.
  intros Hop. destruct (step_exec vm io i Hwf Hh Hi) as (vm' & io' & c & E & Hwf' & _ & Ha & Hio & Hr).
  unfold isa_exec in Ha, Hio, Hr. rewrite Hop in Ha, Hio, Hr. simpl in Ha, Hio, Hr.
  destruct Hr as (-> & Hh' & _). subst io'. destruct Ha as (_ & Hp & _ & Hf & Hm).
  exists vm'. split_and!; try done.
  simpl in Hf. rewrite Hf. destruct Hi as [Hl _]. destruct Hl as [H1 H2].
  rewrite Hop in H1, H2. simpl in H1, H2.
  by rewrite !operand_val_src.
Qed.

Lemma jump_cycle : is_jump (opcode i) = true ->
  exists vm', vm_step vm io = Some (vm', io, VM_OK) /\
    pc (cpu vm') = if taken (opcode i) (flags_of (cpu vm)) then value (op1 i) else next_pc vm i.
Proof.
  intros Hop. destruct (step_exec vm io i Hwf Hh Hi) as (vm' & io' & c & E & _ & _ & Ha & Hio & Hr).
  assert (isa_exec (stack_limit vm) (with_pc (abs vm) (next_pc vm i)) io i =
    (if taken (opcode i) (flags_of (cpu vm)) then with_pc (with_pc (abs vm) (next_pc vm i)) (value (op1 i))
     else with_pc (abs vm) (next_pc vm i), io, Next)) as Hx
    by (unfold isa_exec; by destruct (opcode i)).
  rewrite Hx in Ha, Hio, Hr. simpl in *. destruct Hr as (-> & _). subst io'.
  exists vm'. split; [done|]. destruct Ha as (_ & Hp & _). simpl in Hp. rewrite Hp. by case_match.
Qed.
End cycles.

(** ** Which flags an instruction may change *)

(** Instructions that leave FLAGS alone, and those that keep C and O. *)
Definition keeps_flags (op : Opcode) : bool :=
  match op with
  | OP_ADD | OP_SUB | OP_MUL | OP_DIV | OP_MOD | OP_AND | OP_OR | OP_XOR | OP_NOT | OP_SHL | OP_SHR
  | OP_CMP => false
  | _ => true
  end.

Definition keeps_carry (op : Opcode) : bool :=
  match op with
  | OP_ADD | OP_SUB | OP_MUL | OP_SHL | OP_SHR | OP_CMP => false
  | _ => true
  end.

Definition keeps_overflow (op : Opcode) : bool :=
  match op with OP_ADD | OP_SUB | OP_MUL | OP_CMP => false | _ => true end.

Lemma isa_exec_flags limit a io i : let a' := (isa_exec limit a io i).1.1 in
  (keeps_flags (opcode i) = true -> afl a' = afl a) /\
  (keeps_carry (opcode i) = true -> fC (afl a') = fC (afl a)) /\
  (keeps_overflow (opcode i) = true -> fO (afl a') = fO (afl a)).
Proof.
  unfold isa_exec, isa_push, isa_sys, alu.
  destruct (opcode i); simpl; repeat case_match; simplify_eq/=; done.
Qed.
