(* ===== verification/VmSys.v ===== *)
(** READ_INT and PRINT_INT: the number syntax [read_int_from_stdin] accepts and
    the text it leaves unread. *)

From S2P Require Import Prelude Common CLib Memory Cpu Instruction Vm VmFacts Isa VmArith VmRefine.
Open Scope Z_scope.

Definition is_digit_char (c : Z) : Prop := isdigit c = true.
Definition is_space_char (c : Z) : Prop := read_int_space c = true.

(** The stream does not continue a number. *)
Definition ends_number (l : list Z) : Prop :=
  match l with [] => True | c :: _ => isdigit c = false end.

Lemma read_digits_spec ds rest h m : Forall is_digit_char ds -> ends_number rest ->
  0 <= m < 2 ^ 64 ->
  read_digits (ds ++ rest) h m =
    (h || negb (bool_decide (ds = [])), dec_value m ds mod 2 ^ 64, rest).
Proof.
  intros Hds Hr. revert h m. induction Hds as [|c ds Hc Hds IH]; intros h m Hm.
  - change (dec_value m []) with m. rewrite Z.mod_small by done.
    rewrite bool_decide_true, orb_false_r by done.
    destruct rest as [|c rest]; [done|]. simpl in *. by rewrite Hr.
  - simpl. rewrite Hc, IH by (apply Z.mod_pos_bound; lia).
    rewrite orb_true_r. simpl orb. do 2 f_equal.
    unfold dec_value. simpl fold_left.
    assert (forall x y, x mod 2 ^ 64 = y mod 2 ^ 64 ->
      fold_left (fun v c => v * 10 + (c - 48)) ds x mod 2 ^ 64 =
      fold_left (fun v c => v * 10 + (c - 48)) ds y mod 2 ^ 64) as Hcong.
    { clear. induction ds as [|d ds IH]; intros x y E; simpl; [done|]. apply IH.
      rewrite (Z.add_mod (x * 10)), (Z.add_mod (y * 10)), (Z.mul_mod x), (Z.mul_mod y), E by lia.
      done. }
    apply Hcong. rewrite Z.mod_mod, Z.add_mod_idemp_l by lia. done.
Qed.

Lemma skip_space_app ws l : Forall is_space_char ws ->
  (match l with [] => True | c :: _ => read_int_space c = false end) ->
  skip_space (ws ++ l) = l.
Proof.
  intros Hw Hl. induction Hw as [|c ws Hc Hw IH]; simpl; [|by rewrite Hc].
  destruct l as [|c l]; [done|]. simpl. by rewrite Hl.
Qed.

Lemma digit_not_space c : isdigit c = true -> read_int_space c = false /\ (c =? 45) = false.
Proof.
  intros H. apply isdigit_spec in H. unfold read_int_space.
  repeat match goal with |- context [c =? ?k] => rewrite (proj2 (Z.eqb_neq c k)) by lia end. done.
Qed.

Lemma u16_mod_2_64 x : u16 (Z.land (x mod 2 ^ 64) 0xFFFF) = u16 x.
Proof. rewrite u16_land_ffff. unfold u16. change (2 ^ 64) with 18446744073709551616. mlia. Qed.

Lemma u16_opp_u16 x : u16 (0 - u16 x) = u16 (- x).
Proof. mlia. Qed.

(** The accepted syntax: blanks, an optional minus sign and decimal digits, of any
    length; the value is taken modulo 2^16. *)
Lemma read_int_number ws neg ds rest : Forall is_space_char ws -> Forall is_digit_char ds ->
  ds <> [] -> ends_number rest ->
  read_int_from_stdin (ws ++ (if neg : bool then [45] else []) ++ ds ++ rest) =
    (u16 (if neg then - dec_value 0 ds else dec_value 0 ds), rest).
Proof.
  intros Hw Hds Hne Hr. unfold read_int_from_stdin.
  destruct ds as [|c ds]; [done|]. pose proof Hds as Hds'. inversion Hds' as [|? ? Hc ?]; subst.
  destruct (digit_not_space c Hc) as [Hs Hm].
  rewrite skip_space_app; [|done|by destruct neg].
  destruct neg; cbn [app]; rewrite ?Hm, ?Z.eqb_refl.
  all: change (c :: ds ++ rest) with ((c :: ds) ++ rest).
  all: rewrite read_digits_spec by (done || lia).
  all: rewrite bool_decide_false by done; cbn [negb orb]; rewrite u16_mod_2_64; try done.
  by rewrite u16_opp_u16.
Qed.

(** What PRINT_INT writes is such a number. *)
Lemma fmt_d_number v : is_u16 v -> exists neg ds, fmt_d (s16 v) = (if neg : bool then [45] else []) ++ ds /\
  Forall is_digit_char ds /\ ds <> [] /\ u16 (if neg then - dec_value 0 ds else dec_value 0 ds) = v.
Proof.
  intros Hv. unfold fmt_d. pose proof (s16_cases v Hv) as Hs. unfold is_u16 in Hv.
  destruct (Z.ltb_spec (s16 v) 0).
  - destruct (fmt_u_spec (- s16 v)) as (H1 & H2 & H3); [lia|].
    exists true, (fmt_u (- s16 v)). split_and!; try done. rewrite H1. mlia.
  - destruct (fmt_u_spec (s16 v)) as (H1 & H2 & H3); [lia|].
    exists false, (fmt_u (s16 v)). split_and!; try done. rewrite H1. mlia.
Qed.
