(* ===== verification/VmStreams.v ===== *)
(** The standard streams of a run: input is consumed from the front and output only
    grows, whatever the machine executes. *)

From S2P Require Import Prelude Common CLib Memory Cpu Instruction Vm VmFacts Isa VmArith VmRefine.
From S2P Require Import VmStep.
From stdpp Require Import relations.
Open Scope Z_scope.

(** What is left to read is a suffix of what was, what was written a prefix. *)
Definition io_after (io io' : Stdio) : Prop :=
  stdin io' `suffix_of` stdin io /\ stdout io `prefix_of` stdout io'.

#[export] Instance io_after_preorder : PreOrder io_after.
Proof.
  split.
  - intros io. by split.
  - intros a b c [H1 H2] [H3 H4]. split; [by trans (stdin b)|by trans (stdout b)].
Qed.

Lemma io_after_put io l : io_after io (put io l).
Proof. split; simpl; [done|by exists l]. Qed.

Lemma io_after_read io rest : rest `suffix_of` stdin io -> io_after io (mkStdio rest (stdout io)).
Proof. intros. by split. Qed.

#[export] Hint Resolve io_after_put io_after_read : bytevm.

(** Fewer characters are left to read. *)
Lemma io_after_length io io' : io_after io io' -> (length (stdin io') <= length (stdin io))%nat.
Proof. intros [[k ->] _]. rewrite length_app. lia. Qed.

Lemma skip_space_suffix l : skip_space l `suffix_of` l.
Proof. induction l as [|c l IH]; simpl; [done|]. case_match; [by apply suffix_cons_r|done]. Qed.

Lemma read_digits_suffix l h m : (read_digits l h m).2 `suffix_of` l.
Proof.
  revert h m. induction l as [|c l IH]; intros h m; simpl; [done|].
  case_match; [by apply suffix_cons_r|done].
Qed.

Lemma read_int_suffix l : (read_int_from_stdin l).2 `suffix_of` l.
Proof.
  pose proof (skip_space_suffix l) as Hs. unfold read_int_from_stdin.
  assert (Hd : forall k h m, k `suffix_of` skip_space l -> (read_digits k h m).2 `suffix_of` l)
    by (intros k h m Hk; trans k; [apply read_digits_suffix|by trans (skip_space l)]).
  destruct (skip_space l) as [|c k] eqn:E; [done|].
  destruct (c =? 45);
    [specialize (Hd k false 0 (suffix_cons_r _ _ _ (reflexivity _)))
    |specialize (Hd (c :: k) false 0 (reflexivity _))];
    destruct (read_digits _ false 0) as [[h m] rest]; simpl in *; destruct h; done.
Qed.

Lemma isa_exec_streams limit a io i : io_after io (isa_exec limit a io i).1.2.
Proof.
  unfold isa_exec, isa_push, isa_sys.
  repeat case_match; simplify_eq/=; try reflexivity; auto with bytevm.
  all: match goal with H : read_int_from_stdin ?l = (_, ?k) |- _ =>
    pose proof (read_int_suffix l) as Hs; rewrite H in Hs end; by apply io_after_read.
Qed.

Lemma vm_step_streams vm io vm' io' rc : vm_wf vm -> vm_step vm io = Some (vm', io', rc) -> io_after io io'.
Proof.
  intros Hwf Hs. destruct (halted vm) eqn:Hh.
  { unfold vm_step in Hs. rewrite Hh in Hs. simplify_eq. reflexivity. }
  destruct (step_refines vm io Hwf Hh) as (v & j & c & a' & o & E & _ & _ & Hst & _).
  simplify_eq. destruct Hst as [i a' io' o _ _ Hx| |]; [|reflexivity..].
  pose proof (isa_exec_streams (stack_limit vm)
    (with_pc (abs vm) ((apc (abs vm) + zlen (instr_bytes i)) mod 65536)) io i) as H.
  by rewrite Hx in H.
Qed.

Lemma vm_steps_streams n vm io vm' io' : vm_wf vm -> vm_steps n vm io = Some (vm', io') -> io_after io io'.
Proof.
  revert vm io. induction n as [|n IH]; intros vm io Hwf Hs; simpl in Hs; [simplify_eq; reflexivity|].
  destruct (step_total vm io Hwf) as (v & j & c & E & Hv & _). rewrite E in Hs. simpl in Hs.
  transitivity j; [exact (vm_step_streams vm io v j c Hwf E)|exact (IH v j Hv Hs)].
Qed.

(** ** Output does not matter

    What has been written before has no influence on the machine: executions that start
    with the same input and related output keep it so, for any relation of outputs that
    the same text may be appended to. *)

Section outputs.
Context (R : list Z -> list Z -> Prop) (HR : forall a b t, R a b -> R (a ++ t) (b ++ t)).

Definition alike (io io' : Stdio) : Prop := stdin io = stdin io' /\ R (stdout io) (stdout io').

(** The same machine and result with streams alike, or undefined behaviour in both. *)
Definition same_step (x y : option (VM * Stdio * VmResult)) : Prop :=
  option_Forall2 (fun a b => a.1.1 = b.1.1 /\ alike a.1.2 b.1.2 /\ a.2 = b.2) x y.

Definition same_state (a b : VM * Stdio) : Prop := a.1 = b.1 /\ alike a.2 b.2.

Lemma alike_put io io' t : alike io io' -> alike (put io t) (put io' t).
Proof. intros [H1 H2]. split; [done|by apply HR]. Qed.

Lemma same_step_Some vm io io' rc : alike io io' -> same_step (Some (vm, io, rc)) (Some (vm, io', rc)).
Proof. by constructor. Qed.

Lemma same_step_no_io x io io' : alike io io' -> same_step (no_io io x) (no_io io' x).
Proof. intros Hio. destruct x as [[vm rc]|]; [by apply same_step_Some|constructor]. Qed.

Lemma execute_alike vm io io' i : alike io io' ->
  same_step (instruction_execute vm io i) (instruction_execute vm io' i).
Proof.
  intros Hio. unfold instruction_execute.
  destruct (opcode i); try (by apply same_step_Some); try (by apply same_step_no_io).
  unfold exec_sys. rewrite (proj1 Hio).
  assert (Hput : forall t, same_step (r0 ← get_r vm 0; Some (vm, put io (t r0), VM_OK))
    (r0 ← get_r vm 0; Some (vm, put io' (t r0), VM_OK))).
  { intros t. destruct (get_r vm 0); [apply same_step_Some; by apply alike_put|constructor]. }
  repeat case_match; try (by apply same_step_Some).
  - destruct (set_r vm 0 _); [|constructor]. apply same_step_Some. by destruct Hio.
  - apply (Hput (fun r0 => [u8 (Z.land r0 0xFF)])).
  - apply (Hput (fun r0 => fmt_d (s16 r0))).
Qed.

Lemma vm_step_alike vm io io' : alike io io' -> same_step (vm_step vm io) (vm_step vm io').
Proof.
  intros Hio. unfold vm_step. destruct (halted vm); [by apply same_step_Some|].
  assert (Hx : same_step
    (match instruction_decode (memory vm) (pc (cpu vm)) with
     | inl e => Some (vm, io, e) | inr (p, i) => instruction_execute (set_pc vm p) io i end)
    (match instruction_decode (memory vm) (pc (cpu vm)) with
     | inl e => Some (vm, io', e) | inr (p, i) => instruction_execute (set_pc vm p) io' i end)).
  { destruct (instruction_decode _ _) as [e|[p i]]; [by apply same_step_Some|by apply execute_alike]. }
  destruct Hx as [[[v j] rc] [[v' j'] rc'] (Ev & Ej & Er)|]; [|constructor]. cbn in *. subst v' rc'.
  case_decide; by apply same_step_Some.
Qed.

Lemma vm_steps_alike n vm io io' : alike io io' ->
  option_Forall2 same_state (vm_steps n vm io) (vm_steps n vm io').
Proof.
  revert vm io io'. induction n as [|n IH]; intros vm io io' Hio; simpl; [by constructor|].
  destruct (vm_step_alike vm io io' Hio) as [[[v j] rc] [[v' j'] rc'] (Ev & Ej & Er)|]; [|constructor].
  cbn in *. subst v'. by apply IH.
Qed.
End outputs.

(** The machine depends on the input only. *)
Lemma vm_steps_input n vm io io' vm' j : stdin io = stdin io' -> vm_steps n vm io = Some (vm', j) ->
  exists j', vm_steps n vm io' = Some (vm', j') /\ stdin j = stdin j'.
Proof.
  intros Hin E. destruct (vm_steps_alike (fun _ _ => True) ltac:(done) n vm io io') as [[v i] [v' i'] [Ev [Ei _]]|];
    [by split| |done]. cbn in Ev, Ei. simplify_eq. by exists i'.
Qed.
