(* ===== verification/VmDemo.v ===== *)
(** Concrete machines: small hand-assembled programs booted through the loader,
    at which the theorems are instantiated. *)

From S2P Require Import Prelude Common CLib Memory Cpu Instruction Vm VmFacts Isa VmArith VmRefine.
From S2P Require Import VmStep VmStack Loader.
Open Scope Z_scope.

(** A header for [code] at [addr] with [entry = addr], and no data. *)
Definition code_image (addr : Z) (code : list Z) : list Z :=
  [66; 86; 77; 49; 1; 0; addr mod 256; addr / 256; zlen code mod 256; zlen code / 256;
   addr mod 256; addr / 256; 0; 0; 0; 0] ++ code.

Definition blank : VM := vm_init (mkVM (mkCPU [] 0 0 0) (mkMemory ∅) false VM_OK 0 0).

Definition boot (addr : Z) (code : list Z) : VM := (vm_load blank (code_image addr code)).1.

Definition quiet : Stdio := mkStdio [] [].

Lemma image_valid_load data : is_byte_list data -> (vm_load blank data).2 = VM_OK -> image_valid data.
Proof.
  intros Hb H. destruct (vm_load_cases data Hb blank) as [[? _]|[_ E]]; [done|].
  by rewrite E in H.
Qed.

Lemma load_wf data : is_byte_list data -> (vm_load blank data).2 = VM_OK ->
  vm_wf (vm_load blank data).1.
Proof.
  intros Hb H. pose proof (image_valid_load data Hb H) as Hv.
  rewrite vm_load_ok by done. by apply loaded_wf.
Qed.

Lemma boot_wf addr code : is_byte_list (code_image addr code) ->
  (vm_load blank (code_image addr code)).2 = VM_OK -> vm_wf (boot addr code).
Proof. apply load_wf. Qed.

(** A machine that was just loaded has an empty stack. *)
Lemma loaded_stack_ok vm data : stack_ok (loaded vm data).
Proof. split; simpl; [done|unfold CPU_INITIAL_SP; lia|by left]. Qed.

Lemma boot_stack_ok addr code : is_byte_list (code_image addr code) ->
  (vm_load blank (code_image addr code)).2 = VM_OK -> stack_ok (boot addr code).
Proof.
  intros Hb H. unfold boot. rewrite vm_load_ok by (done || by apply image_valid_load).
  apply loaded_stack_ok.
Qed.

#[export] Instance operand_wf_dec op : Decision (operand_wf op).
Proof. unfold operand_wf. destruct (mode op); apply _. Defined.

#[export] Instance table_legal_dec i : Decision (table_legal i).
Proof.
  destruct (decide (operand_wf (op1 i) /\ operand_wf (op2 i) /\
    mode_is_legal (mode (op1 i)) (op1_modes (OPCODE_TABLE (opcode_value (opcode i)))) = true /\
    mode_is_legal (mode (op2 i)) (op2_modes (OPCODE_TABLE (opcode_value (opcode i)))) = true))
    as [H|H]; [left|right]; [split; tauto|intros []; tauto].
Defined.

#[export] Instance instr_legal_dec i : Decision (instr_legal i).
Proof. destruct (decide (table_legal i)) as [H|H]; [left|right]; by rewrite <- legal_table. Defined.

#[export] Instance at_instr_dec vm i : Decision (at_instr vm i).
Proof. unfold at_instr. apply _. Defined.
