(* ===== verification/VmProps.v ===== *)
(** The theorems about the machine: what [vm_step] implements, that runs are
    safe, the stack contract, branches, faults and the loader's guarantees. *)

From S2P Require Import Prelude Common CLib Memory Cpu Instruction Vm VmFacts Isa VmArith VmRefine.
From S2P Require Import VmStep VmStack VmBranch VmSys Loader VmDemo.
From stdpp Require Import relations.
Open Scope Z_scope.

(** ** The instruction cycle *)

(** C1: One cycle of a running, well-formed machine always has a result, keeps the
    machine well formed, and is a step of the architecture: it executes the legal
    instruction encoded at PC, or faults as section 9 says, and records exactly
    that outcome in the result code, [halted], [last_error] and [error_pc]. *)
Theorem vm_step_refines vm io : vm_wf vm -> halted vm = false ->
  exists vm' io' rc a' o, vm_step vm io = Some (vm', io', rc) /\ vm_wf vm' /\
    isa_step (stack_limit vm) (abs vm) io a' io' o /\ abs vm' ≡ a' /\
    step_result vm vm' rc o.
Proof.
  intros Hwf Hh.
  destruct (step_refines vm io Hwf Hh) as (vm' & io' & rc & a' & o & ? & ? & _ & ? & ? & ?).
  eauto 12.
Qed.

(** MOV R1, 7; HALT at address 0. *)
Definition demo_mov : VM := boot 0 [1; 0x12; 1; 7; 0; 0xFF; 0].

Lemma demo_mov_wf : vm_wf demo_mov.
Proof. apply boot_wf; [by_decide|reflexivity]. Qed.

Lemma vm_step_refines_witness :
  exists vm' io' rc a' o, vm_step demo_mov quiet = Some (vm', io', rc) /\ vm_wf vm' /\
    isa_step (stack_limit demo_mov) (abs demo_mov) quiet a' io' o /\ abs vm' ≡ a' /\
    step_result demo_mov vm' rc o.
Proof. apply (vm_step_refines demo_mov quiet); [apply demo_mov_wf|reflexivity]. Defined.

(** C14: Conversely every outcome the architecture allows from a machine is the one
    the cycle produces: the specification is deterministic on machine states and
    [vm_step] misses none of its behaviours. *)
Theorem vm_step_complete vm io a' io' o : vm_wf vm -> halted vm = false ->
  isa_step (stack_limit vm) (abs vm) io a' io' o ->
  exists vm' rc, vm_step vm io = Some (vm', io', rc) /\ abs vm' ≡ a' /\ step_result vm vm' rc o.
Proof.
  intros Hwf Hh Hst.
  destruct (isa_step_machine vm io a' io' o Hwf Hst) as [(i & Hi & Hx)|(e & Hd & -> & -> & ->)].
  - destruct (step_exec vm io i Hwf Hh Hi) as (vm' & io1 & rc & Hs & _ & _ & Ha & Hio & Hr).
    rewrite Hx in Ha, Hio, Hr. simpl in *. subst. eauto.
  - exists (set_fault vm e (pc (cpu vm))), e.
    pose proof (decode_error_code vm e Hwf Hd).
    by rewrite (step_fetch_fault vm io e Hwf Hh Hd).
Qed.

Lemma vm_step_complete_witness :
  exists vm' rc, vm_step demo_mov quiet = Some (vm', quiet, rc) /\
    abs vm' ≡ with_gpr (with_pc (abs demo_mov) 5) 1 7 /\ step_result demo_mov vm' rc Next.
Proof.
  apply (vm_step_complete demo_mov quiet (with_gpr (with_pc (abs demo_mov) 5) 1 7) quiet Next);
    [apply demo_mov_wf|reflexivity|].
  apply (isa_step_exec _ _ _ (mkInstr OP_MOV (mkOperand MODE_REG 1) (mkOperand MODE_IMM16 7)));
    [by_decide|by vm_compute|reflexivity].
Defined.

(** ** Runs *)

(** C15: From any valid image, any number of cycles on any input has a result (no
    undefined behaviour is reachable), and every state on the way is well formed,
    keeps the stack limit the loader chose, and has a word-aligned stack pointer
    that never descends below the limit. *)
Theorem loaded_run_safe data io n : is_byte_list data -> image_valid data ->
  exists vm' io', vm_steps n (vm_load blank data).1 io = Some (vm', io') /\ vm_wf vm' /\
    stack_limit vm' = Z.min 0xFFFF (image_end data) /\
    Z.even (sp (cpu vm')) = true /\ sp (cpu vm') <= 0xFFFE /\
    (sp (cpu vm') = 0xFFFE \/ stack_limit vm' <= sp (cpu vm')).
Proof.
  intros Hb Hv. rewrite vm_load_ok by done. simpl.
  pose proof (loaded_wf data Hb blank Hv) as Hwf.
  destruct (vm_steps_total n (loaded blank data) io Hwf) as ([vm' io'] & Hs & Hr).
  destruct (rtc_next_wf _ _ Hr Hwf) as [Hwf' Hl].
  destruct (stack_ok_rtc _ _ Hr Hwf (loaded_stack_ok _ _)) as [H1 H2 H3].
  exists vm', io'. split_and!; try done. apply H2.
Qed.

Lemma loaded_run_safe_witness :
  exists vm' io', vm_steps 5 (vm_load blank (code_image 0 [0x0F; 0x20; 1; 0; 0xFF; 0])).1 quiet =
      Some (vm', io') /\ vm_wf vm' /\ stack_limit vm' = Z.min 0xFFFF 6 /\
    Z.even (sp (cpu vm')) = true /\ sp (cpu vm') <= 0xFFFE /\
    (sp (cpu vm') = 0xFFFE \/ stack_limit vm' <= sp (cpu vm')).
Proof.
  apply (loaded_run_safe (code_image 0 [0x0F; 0x20; 1; 0; 0xFF; 0]) quiet 5); [by_decide|].
  apply image_valid_load; [by_decide|reflexivity].
Defined.

(** A halted machine stays as it is: after a fault or HALT every further cycle
    returns the recorded result and changes neither machine nor streams. *)
Theorem halted_forever vm io vm' io' rc n : vm_wf vm -> halted vm = false ->
  vm_step vm io = Some (vm', io', rc) -> halted vm' = true ->
  vm_steps n vm' io' = Some (vm', io') /\ vm_step vm' io' = Some (vm', io', rc).
Proof.
  intros Hwf Hh Hs Hh'. split; [by apply vm_steps_halted|].
  destruct (step_refines vm io Hwf Hh) as (v & j & c & a' & o & E & _ & _ & _ & _ & Hr).
  rewrite Hs in E. injection E as <- <- <-.
  unfold vm_step. rewrite Hh'. do 2 f_equal.
  destruct o as [| |e]; simpl in Hr; destruct_and!; congruence.
Qed.

Lemma halted_forever_witness :
  vm_steps 9 (set_fault (boot 0 [0x20; 0]) VM_ERR_INVALID_OPCODE 0) quiet =
    Some (set_fault (boot 0 [0x20; 0]) VM_ERR_INVALID_OPCODE 0, quiet) /\
  vm_step (set_fault (boot 0 [0x20; 0]) VM_ERR_INVALID_OPCODE 0) quiet =
    Some (set_fault (boot 0 [0x20; 0]) VM_ERR_INVALID_OPCODE 0, quiet, VM_ERR_INVALID_OPCODE).
Proof.
  apply (halted_forever (boot 0 [0x20; 0]) quiet); [|reflexivity..].
  apply boot_wf; [by_decide|reflexivity].
Defined.

(** C30: A fault commits nothing: registers, SP, FLAGS, memory and both streams are as
    before the cycle, the result code is the recorded error, and [error_pc] is the
    address of the faulting instruction, not PC's advanced value. *)
Theorem fault_commits_nothing vm io vm' io' rc : vm_wf vm -> halted vm = false ->
  vm_step vm io = Some (vm', io', rc) -> rc <> VM_OK ->
  r (cpu vm') = r (cpu vm) /\ sp (cpu vm') = sp (cpu vm) /\ flags (cpu vm') = flags (cpu vm) /\
  memory vm' = memory vm /\ io' = io /\ halted vm' = true /\ last_error vm' = rc /\
  error_pc vm' = pc (cpu vm).
Proof.
  intros Hwf Hh Hs Hrc.
  destruct (step_ok_inv vm io vm' io' rc Hwf Hh Hs) as
    [(i & p' & _ & _ & _ & _ & ->)|(e & p' & -> & -> & -> & _)]; done.
Qed.

(** DIV R0, R1 with R1 = 0. *)
Definition demo_div : VM := boot 0x100 [5; 0x11; 0; 1].

Lemma demo_div_wf : vm_wf demo_div.
Proof. apply boot_wf; [by_decide|reflexivity]. Qed.

Lemma fault_commits_nothing_witness :
  r (cpu demo_div) = r (cpu demo_div) /\ 0xFFFE = 0xFFFE /\ 0 = 0 /\
  memory demo_div = memory demo_div /\ quiet = quiet /\ true = true /\
  VM_ERR_DIV_BY_ZERO = VM_ERR_DIV_BY_ZERO /\ 0x100 = 0x100.
Proof.
  apply (fault_commits_nothing demo_div quiet
    (set_fault (set_pc demo_div 0x104) VM_ERR_DIV_BY_ZERO 0x100) quiet VM_ERR_DIV_BY_ZERO);
    [apply demo_div_wf|reflexivity|by vm_compute|done].
Defined.

(** ** The stack *)

(** C12: The machine's stack refines a bounded abstract stack of words: PUSH and CALL
    push (CALL the return address) or overflow exactly when the capacity above
    the stack limit is used up, POP and RET deliver the top word or underflow
    exactly when it is empty, a refused operation changes nothing, and no other
    instruction but STORE disturbs it. *)
Theorem stack_refines vm io i : vm_wf vm -> stack_ok vm -> instr_legal i -> opcode i <> OP_STORE ->
  exists vm' io' rc, instruction_execute vm io i = Some (vm', io', rc) /\
    match stack_spec (stack_limit vm) (opcode i) (pushed_value (abs vm) i) (stack_of vm) with
    | inl e => rc = e /\ vm' = vm
    | inr s => stack_of vm' = s /\ stack_ok vm' /\
        (opcode i = OP_POP -> stack_of vm = reg vm' (value (op1 i)) :: s) /\
        (opcode i = OP_RET -> stack_of vm = pc (cpu vm') :: s)
    end.
Proof.
  intros Hwf Hs Hi Hop.
  destruct (execute_refines vm io i Hwf Hi) as (vm' & io' & rc & He & _ & Hc & Ha & _ & Ho).
  exists vm', io', rc. split; [done|].
  pose proof (exec_stack vm io i Hwf Hs Hi Hop) as P.
  unfold stack_of. destruct (stack_spec _ _ _ _) as [e|s] eqn:E.
  - rewrite P in Ho. simpl in Ho. destruct Ho as (-> & _ & ->). done.
  - destruct P as [P1 P2 _ P3 P4]. destruct Hc as (_ & _ & Hl).
    split_and!.
    + by rewrite (stack_words_proper _ _ Ha).
    + unfold stack_ok. rewrite Hl. by eapply sp_ok_proper.
    + intros Ep. rewrite (P3 Ep). f_equal. symmetry. apply Ha.
      destruct Hi as [H1 _]. rewrite Ep in H1. apply H1.
    + intros Er. rewrite (P4 Er). f_equal. symmetry. apply Ha.
Qed.

(** PUSH 5 on a machine with nothing on its stack. *)
(** SYS with a code. *)
Definition sys_instr (code : Z) : Instruction :=
  mkInstr OP_SYS (mkOperand MODE_IMM8 code) (mkOperand MODE_NONE 0).

Definition push5 : Instruction := mkInstr OP_PUSH (mkOperand MODE_IMM16 5) (mkOperand MODE_NONE 0).

Lemma stack_refines_witness :
  exists vm' io' rc, instruction_execute demo_div quiet push5 = Some (vm', io', rc) /\
    (stack_of vm' = [5] /\ stack_ok vm' /\
     (OP_PUSH = OP_POP -> stack_of demo_div = reg vm' 5 :: [5]) /\
     (OP_PUSH = OP_RET -> stack_of demo_div = pc (cpu vm') :: [5])).
Proof.
  apply (stack_refines demo_div quiet push5); [apply demo_div_wf| |by_decide|done].
  apply boot_stack_ok; [by_decide|reflexivity].
Defined.

(** C31: A return goes back to its call: if a CALL that did not overflow is followed,
    after any run whatever, by a RET at which the stack is again as the CALL left
    it, then the RET continues at the instruction behind the CALL, and the stack is
    as it was before the CALL. *)
Theorem ret_returns_to_call vm io i vm1 io1 vm2 io2 :
  vm_wf vm -> stack_ok vm -> halted vm = false -> at_instr vm i -> opcode i = OP_CALL ->
  vm_step vm io = Some (vm1, io1, VM_OK) ->
  vm_wf vm2 -> stack_ok vm2 -> halted vm2 = false -> stack_of vm2 = stack_of vm1 ->
  at_instr vm2 (mkInstr OP_RET (mkOperand MODE_NONE 0) (mkOperand MODE_NONE 0)) ->
  pc (cpu vm1) = value (op1 i) /\
  exists vm3, vm_step vm2 io2 = Some (vm3, io2, VM_OK) /\ pc (cpu vm3) = next_pc vm i /\
              stack_of vm3 = stack_of vm.
Proof.
  intros Hwf Hs Hh Hi Hop Hst Hwf2 Hs2 Hh2 Heq Hret.
  destruct (step_call vm io i Hwf Hs Hh Hi vm1 io1 Hop Hst) as [Hpc Hpush].
  rewrite Hpush in Heq. split; [done|].
  destruct (step_ret vm2 io2 _ Hwf2 Hs2 Hh2 Hret _ _ eq_refl Heq) as (vm3 & ? & ? & ?). eauto.
Qed.

(** CALL 0x0206 with a RET there, at address 0x200. *)
Definition demo_call : VM := boot 0x200 [0x1D; 0x30; 6; 2; 0xFF; 0; 0x1E; 0].

Lemma demo_call_wf : vm_wf demo_call.
Proof. apply boot_wf; [by_decide|reflexivity]. Qed.

Definition machine_after (vm : VM) : VM :=
  match vm_step vm quiet with Some (vm', _, _) => vm' | None => vm end.

Lemma machine_after_wf vm : vm_wf vm -> stack_ok vm -> halted vm = false ->
  vm_wf (machine_after vm) /\ stack_ok (machine_after vm).
Proof.
  intros Hwf Hs Hh. destruct (step_total vm quiet Hwf) as (v & j & c & E & Hwf' & _).
  unfold machine_after. rewrite E. split; [done|].
  apply (stack_ok_next (vm, quiet) (v, j)); [by econstructor|done..].
Qed.

Lemma ret_returns_to_call_witness :
  pc (cpu (machine_after demo_call)) = 0x206 /\
  exists vm3, vm_step (machine_after demo_call) quiet = Some (vm3, quiet, VM_OK) /\
    pc (cpu vm3) = 0x204 /\ stack_of vm3 = stack_of demo_call.
Proof.
  pose proof demo_call_wf as Hwf.
  assert (stack_ok demo_call) as Hs by (apply boot_stack_ok; [by_decide|reflexivity]).
  destruct (machine_after_wf demo_call Hwf Hs eq_refl).
  apply (ret_returns_to_call demo_call quiet
    (mkInstr OP_CALL (mkOperand MODE_MEM_DIRECT 0x206) (mkOperand MODE_NONE 0))
    (machine_after demo_call) quiet (machine_after demo_call) quiet);
    try done; try by_decide; try by vm_compute.
Defined.

(** C32: The stack cannot overwrite the program: however long a loaded image runs, as
    long as it executes no STORE, every byte of its code and data regions stays as
    the image has it - even for a region that ends at 0x10000, above which there is
    no limit an address could express. *)
Theorem stack_spares_program data io s a : is_byte_list data -> image_valid data ->
  rtc storeless_next ((vm_load blank data).1, io) s -> 0 <= a < image_end data ->
  mem_read8 (memory s.1) a = image_byte data a.
Proof.
  intros Hb Hv Hr Ha. rewrite vm_load_ok in Hr by done.
  rewrite (storeless_rtc_memory _ _ a Hr).
  - by apply loaded_memory.
  - by apply loaded_wf.
  - apply loaded_stack_ok.
  - simpl. destruct Hv. unfold image_end in *. lia.
Qed.

(** PUSH 1 at the very top of memory. *)
Definition top_image : list Z := code_image 0xFFFC [0x0F; 0x20; 1; 0].

Lemma stack_spares_program_witness :
  mem_read8 (memory (machine_after (vm_load blank top_image).1)) 0xFFFE = 1.
Proof.
  apply (stack_spares_program top_image quiet (machine_after (vm_load blank top_image).1, quiet) 0xFFFE);
    [by_decide|apply image_valid_load; [by_decide|reflexivity]| |vm_compute; split; congruence].
  apply rtc_once. split; [|by vm_compute].
  eapply (vm_next_step _ _ _ _ VM_ERR_STACK_OVERFLOW); [reflexivity|vm_compute; reflexivity].
Defined.

(** ** Comparison and branches *)

(** C21: A CMP followed by a conditional jump is a branch on the relation the mnemonic
    names - signed for JG, JGE, JL and JLE, unsigned for JA, JAE, JB and JBE - over
    all 2^32 pairs of words, overflowing differences included. *)
Theorem cmp_jump_branches vm io c j : vm_wf vm -> halted vm = false ->
  instr_legal c -> instr_legal j -> opcode c = OP_CMP -> is_jump (opcode j) = true ->
  bytes_at (memory vm) (pc (cpu vm)) (instr_bytes c ++ instr_bytes j) ->
  exists vm', vm_steps 2 vm io = Some (vm', io) /\
    pc (cpu vm') =
      if jump_relation (opcode j) (operand_val vm (op1 c)) (operand_val vm (op2 c))
      then value (op1 j)
      else u16 (pc (cpu vm) + zlen (instr_bytes c) + zlen (instr_bytes j)).
Proof.
  intros Hwf Hh Hc Hj Oc Oj Hb.
  apply bytes_at_app in Hb as [Hbc Hbj]; [|apply (cpu_wf_pc _ (wf_cpu _ Hwf))].
  destruct (cmp_cycle vm io c Hwf Hh (conj Hc Hbc) Oc) as (vm1 & Hs1 & Hwf1 & Hh1 & Hp1 & Hm1 & Hf1).
  assert (at_instr vm1 j) as Hat.
  { split; [done|]. rewrite Hp1. apply ram_holds_bytes.
    eapply ram_holds_ext; [|by apply ram_holds_bytes]. intros x. symmetry. apply Hm1. }
  destruct (jump_cycle vm1 io j Hwf1 Hh1 Hat Oj) as (vm2 & Hs2 & Hp2).
  exists vm2. simpl. rewrite Hs1. simpl. rewrite Hs2. split; [done|].
  destruct Hc as [S1 S2]. rewrite Oc in S1, S2.
  rewrite Hp2, Hf1, taken_relation by (done || by apply operand_read_val; [|left]).
  unfold next_pc. rewrite Hp1. unfold next_pc. by rewrite u16_add_l.
Qed.

(** CMP R0, 0x8000 (0 against -32768) and JG 0x40. *)
Definition demo_branch : VM := boot 0 [0x11; 0x12; 0; 0; 0x80; 0x15; 0x30; 0x40; 0].

Lemma cmp_jump_branches_witness :
  exists vm', vm_steps 2 demo_branch quiet = Some (vm', quiet) /\ pc (cpu vm') = 0x40.
Proof.
  apply (cmp_jump_branches demo_branch quiet
    (mkInstr OP_CMP (mkOperand MODE_REG 0) (mkOperand MODE_IMM16 0x8000))
    (mkInstr OP_JG (mkOperand MODE_MEM_DIRECT 0x40) (mkOperand MODE_NONE 0)));
    try done; try by_decide.
  apply boot_wf; [by_decide|reflexivity].
Defined.

(** C39: FLAGS is written only where section 8 says: Z, C, S and O survive every
    instruction that is neither an ALU operation nor CMP; C survives DIV, MOD and
    the bitwise operations; O survives those and the shifts. *)
Theorem flags_frame vm io i : vm_wf vm -> instr_legal i ->
  exists vm' io' rc, instruction_execute vm io i = Some (vm', io', rc) /\
    (keeps_flags (opcode i) = true -> flags_of (cpu vm') = flags_of (cpu vm)) /\
    (keeps_carry (opcode i) = true ->
       cpu_get_flag (cpu vm') CPU_FLAG_C = cpu_get_flag (cpu vm) CPU_FLAG_C) /\
    (keeps_overflow (opcode i) = true ->
       cpu_get_flag (cpu vm') CPU_FLAG_O = cpu_get_flag (cpu vm) CPU_FLAG_O).
Proof.
  intros Hwf Hi.
  destruct (execute_refines vm io i Hwf Hi) as (vm' & io' & rc & He & _ & _ & Ha & _).
  exists vm', io', rc. split; [done|]. destruct Ha as (_ & _ & _ & Hf & _).
  destruct (isa_exec_flags (stack_limit vm) (abs vm) io i) as (H1 & H2 & H3).
  change (flags_of (cpu vm')) with (afl (abs vm')).
  change (cpu_get_flag (cpu vm') CPU_FLAG_C) with (fC (afl (abs vm'))).
  change (cpu_get_flag (cpu vm') CPU_FLAG_O) with (fO (afl (abs vm'))).
  rewrite Hf. auto.
Qed.

Lemma flags_frame_witness :
  exists vm' io' rc, instruction_execute demo_div quiet push5 = Some (vm', io', rc) /\
    (true = true -> flags_of (cpu vm') = flags_of (cpu demo_div)) /\
    (true = true -> cpu_get_flag (cpu vm') CPU_FLAG_C = cpu_get_flag (cpu demo_div) CPU_FLAG_C) /\
    (true = true -> cpu_get_flag (cpu vm') CPU_FLAG_O = cpu_get_flag (cpu demo_div) CPU_FLAG_O).
Proof. apply (flags_frame demo_div quiet push5); [apply demo_div_wf|by_decide]. Defined.

(** ** The decoder *)

(** C13: Decoding at an address succeeds exactly when memory holds the encoding of a
    instruction there whose operands are of the shapes section 7.3 gives its opcode; it
    then returns that instruction, the only one with this encoding, and the address
    behind it, wrapping at 0xFFFF. *)
Theorem decode_iff_encoded mem p p' i : mem_wf mem -> is_u16 p ->
  instruction_decode mem p = inr (p', i) <->
  instr_legal i /\ bytes_at mem p (instr_bytes i) /\ p' = u16 (p + zlen (instr_bytes i)).
Proof.
  intros Hm Hp. split; [by apply decode_sound|].
  intros (Hi & Hb & ->). by apply decode_complete.
Qed.

Lemma decode_iff_encoded_witness :
  instruction_decode (memory demo_mov) 0 =
    inr (5, mkInstr OP_MOV (mkOperand MODE_REG 1) (mkOperand MODE_IMM16 7)) <->
  instr_legal (mkInstr OP_MOV (mkOperand MODE_REG 1) (mkOperand MODE_IMM16 7)) /\
  bytes_at (memory demo_mov) 0 [1; 0x12; 1; 7; 0] /\ 5 = u16 (0 + 5).
Proof.
  apply (decode_iff_encoded (memory demo_mov) 0 5
    (mkInstr OP_MOV (mkOperand MODE_REG 1) (mkOperand MODE_IMM16 7)));
    [apply demo_mov_wf|by_decide].
Defined.

(** A failed decode names the reason: the byte is no opcode, or it is one but no
    legal instruction is encoded there (illegal mode, register above 7). *)
Theorem decode_error_reason mem p e : mem_wf mem -> is_u16 p ->
  instruction_decode mem p = inl e <->
  (e = VM_ERR_INVALID_OPCODE /\ forall op, mem_read8 mem p <> opcode_value op) \/
  (e = VM_ERR_INVALID_MODE /\ (exists op, mem_read8 mem p = opcode_value op) /\
   forall i, instr_legal i -> ~ bytes_at mem p (instr_bytes i)).
Proof.
  intros Hm Hp. split; [by apply decode_error|]. intros H.
  destruct (instruction_decode mem p) as [e'|[p' i]] eqn:Hd.
  - f_equal. destruct (decode_error mem p e' Hm Hp Hd) as [[-> H']|(-> & [op' Hop'] & _)];
      destruct H as [[-> H]|(-> & [op Hop] & _)]; try done; [by destruct (H' op)|by destruct (H op')].
  - exfalso. destruct (decode_sound mem Hm p p' i Hp Hd) as (Hi & Hb & _).
    destruct H as [[_ H]|(_ & _ & H)]; [|by destruct (H i)].
    destruct Hb as [Hb _]. by destruct (H (opcode i)).
Qed.

Lemma decode_error_reason_witness :
  instruction_decode (memory demo_mov) 7 = inl VM_ERR_INVALID_MODE <->
  (VM_ERR_INVALID_MODE = VM_ERR_INVALID_OPCODE /\
   forall op, mem_read8 (memory demo_mov) 7 <> opcode_value op) \/
  (VM_ERR_INVALID_MODE = VM_ERR_INVALID_MODE /\
   (exists op, mem_read8 (memory demo_mov) 7 = opcode_value op) /\
   forall i, instr_legal i -> ~ bytes_at (memory demo_mov) 7 (instr_bytes i)).
Proof. apply decode_error_reason; [apply demo_mov_wf|by_decide]. Defined.

(** The mode masks and register-range checks of the decoder admit exactly the
    operands of the normative table of section 7.3. *)
Theorem legality_table_is_normative i : table_legal i <-> instr_legal i.
Proof. apply legal_table. Qed.

(** ** System calls *)

(** C40: PRINT_INT and READ_INT are inverse: the text one prints for R0, read back in
    front of anything that does not continue the number, restores R0's value and
    leaves exactly the rest of the stream, whatever the sign. *)
Theorem print_read_int vm1 io1 vm2 out2 rest : vm_wf vm1 -> vm_wf vm2 -> ends_number rest ->
  exists text vm', exec_sys vm1 io1 (sys_instr 1) = Some (vm1, put io1 text, VM_OK) /\
    exec_sys vm2 (mkStdio (text ++ rest) out2) (sys_instr 3) =
      Some (vm', mkStdio rest out2, VM_OK) /\ reg vm' 0 = reg vm1 0.
Proof.
  intros Hwf1 Hwf2 Hr. pose proof (reg_u16 vm1 Hwf1 0) as Hv.
  destruct (fmt_d_number (reg vm1 0) Hv) as (neg & ds & Ht & Hds & Hne & Hval).
  exists (fmt_d (s16 (reg vm1 0))), (put_r vm2 0 (reg vm1 0)). unfold exec_sys, sys_instr.
  cbn [value op1]. rewrite get_r_reg by (done || lia). split; [done|].
  pose proof (read_int_number [] neg ds rest (Forall_nil_2 _) Hds Hne Hr) as Hn.
  cbn [app] in Hn. rewrite app_assoc, <- Ht in Hn. cbn [stdin stdout]. rewrite Hn, Hval.
  rewrite set_r_put by (done || lia). split; [done|]. rewrite reg_put_r by (done || lia). done.
Qed.

Lemma print_read_int_witness :
  exists text vm', exec_sys demo_div quiet (sys_instr 1) = Some (demo_div, put quiet text, VM_OK) /\
    exec_sys demo_mov (mkStdio (text ++ [10]) []) (sys_instr 3) =
      Some (vm', mkStdio [10] [], VM_OK) /\ reg vm' 0 = reg demo_div 0.
Proof.
  apply (print_read_int demo_div quiet demo_mov [] [10]);
    [apply demo_div_wf|apply demo_mov_wf|reflexivity].
Defined.

(** READ_INT skips blanks, accepts a minus sign and any number of digits, takes the
    value modulo 2^16 and leaves the first character behind the number unread. *)
Theorem read_int_value ws neg ds rest : Forall is_space_char ws -> Forall is_digit_char ds ->
  ds <> [] -> ends_number rest ->
  read_int_from_stdin (ws ++ (if neg : bool then [45] else []) ++ ds ++ rest) =
    (u16 (if neg then - dec_value 0 ds else dec_value 0 ds), rest).
Proof. apply read_int_number. Qed.

Lemma read_int_value_witness : read_int_from_stdin (str "  -70000x") = (61072, str "x").
Proof.
  apply (read_int_value (str "  ") true (str "70000") (str "x"));
    [by repeat constructor|by repeat constructor|done|reflexivity].
Defined.

(** ** The loader *)



(** C22: A valid image loads to one well-formed machine, whatever was in the machine
    before: memory is the code and data at their addresses and zero elsewhere, PC
    is the entry point, registers and FLAGS are zero, the stack is empty, and the
    stack limit is the end of the higher region, clamped to 0xFFFF. *)
Theorem vm_load_state vm data : is_byte_list data -> image_valid data ->
  exists vm', vm_load vm data = (vm', VM_OK) /\ (forall vm2, vm_load vm2 data = (vm', VM_OK)) /\
    vm_wf vm' /\ (forall a, mem_read8 (memory vm') a = image_byte data a) /\
    r (cpu vm') = replicate 8 0 /\ pc (cpu vm') = h_entry (header_of data) /\
    sp (cpu vm') = 0xFFFE /\ flags (cpu vm') = 0 /\ halted vm' = false /\
    stack_of vm' = [] /\ stack_limit vm' = Z.min 0xFFFF (image_end data).
Proof.
  intros Hb Hv. exists (loaded vm data).
  split_and!; try done.
  - by apply vm_load_ok.
  - intros vm2. rewrite vm_load_ok by done. done.
  - by apply loaded_wf.
  - intros a. by apply loaded_memory.
Qed.

Lemma vm_load_state_witness :
  exists vm', vm_load demo_mov top_image = (vm', VM_OK) /\
    (forall vm2, vm_load vm2 top_image = (vm', VM_OK)) /\
    vm_wf vm' /\ (forall a, mem_read8 (memory vm') a = image_byte top_image a) /\
    r (cpu vm') = replicate 8 0 /\ pc (cpu vm') = 0xFFFC /\
    sp (cpu vm') = 0xFFFE /\ flags (cpu vm') = 0 /\ halted vm' = false /\
    stack_of vm' = [] /\ stack_limit vm' = Z.min 0xFFFF 0x10000.
Proof.
  apply (vm_load_state demo_mov top_image); [by_decide|].
  apply image_valid_load; [by_decide|reflexivity].
Defined.

(** A program whose code or data ends at the very top of memory has no room for a
    stack: its first PUSH overflows instead of writing over the region. *)
Theorem top_region_has_no_stack vm data io i : is_byte_list data -> image_valid data ->
  0xFFFD <= image_end data -> instr_legal i -> opcode i = OP_PUSH \/ opcode i = OP_CALL ->
  instruction_execute (vm_load vm data).1 io i =
    Some ((vm_load vm data).1, io, VM_ERR_STACK_OVERFLOW).
Proof.
  intros Hb Hv He Hi Hop. rewrite vm_load_ok by done. simpl fst.
  pose proof (loaded_wf data Hb vm Hv) as Hwf.
  destruct (execute_refines (loaded vm data) io i Hwf Hi) as (vm' & io' & rc & E & _ & _ & _ & Hio & Ho).
  pose proof (exec_stack (loaded vm data) io i Hwf (loaded_stack_ok _ _) Hi
    ltac:(destruct Hop; congruence)) as P.
  assert (forall v, stack_spec (stack_limit (loaded vm data)) (opcode i) v
    (stack_words (abs (loaded vm data))) = inl VM_ERR_STACK_OVERFLOW) as Hf.
  { intros v. change (stack_words (abs (loaded vm data))) with (@nil Z).
    unfold stack_spec, stack_capacity, loaded. cbn [stack_limit].
    destruct (Z.leb_spec ((65534 - Z.min 65535 (image_end data)) / 2) (zlen (@nil Z)));
      [by destruct Hop as [-> | ->]|]. cbn [length] in *. mlia. }
  rewrite Hf in P. rewrite P in Hio, Ho. simpl in Hio, Ho. destruct Ho as (-> & _ & ->).
  by subst io'.
Qed.

Lemma top_region_has_no_stack_witness :
  instruction_execute (vm_load demo_mov top_image).1 quiet push5 =
    Some ((vm_load demo_mov top_image).1, quiet, VM_ERR_STACK_OVERFLOW).
Proof.
  apply (top_region_has_no_stack demo_mov top_image quiet push5);
    [by_decide|apply image_valid_load; [by_decide|reflexivity]|vm_compute; congruence|by_decide|by left].
Defined.
