(* ===== verification/VmHalt.v ===== *)
(** Programs that must halt.

    A certificate for termination is a list of instruction addresses with a rank for
    each: control that is at one of them goes to one of smaller rank, as a check of the
    code alone can see ([descends]). Code with a certificate halts within as many
    cycles as the rank of its entry point, whatever it reads; since it has no STORE, and
    the stack stays out of the loaded regions, the code checked is the code executed. *)

From S2P Require Import Prelude Machine Common CLib Memory Cpu Instruction Vm VmFacts Isa VmArith.
From S2P Require Import VmRefine VmStep VmStack Loader VmDemo.
Open Scope Z_scope.

(** Where control can be after an instruction that neither halts nor faults. A
    certificate can contain no RET, which goes where the stack says, and no STORE, which
    could change the code. *)
Definition successors (next : Z) (i : Instruction) : option (list Z) :=
  match opcode i with
  | OP_HALT => Some []
  | OP_STORE | OP_RET => None
  | OP_JMP | OP_CALL => Some [value (op1 i)]
  | OP_JZ | OP_JNZ | OP_JG | OP_JGE | OP_JL | OP_JLE | OP_JB | OP_JAE | OP_JA | OP_JBE =>
      Some [value (op1 i); next]
  | _ => Some [next]
  end.

(** The instruction at [p] ends below [limit] and its successors are addresses of the
    certificate with a smaller rank. *)
Definition descends_at (mem : Memory) (limit : Z) (starts : list Z) (rank : Z -> nat) (p : Z) : bool :=
  match instruction_decode mem p with
  | inl _ => false
  | inr (next, i) =>
      (p <? next) && (next <=? limit) &&
      match successors next i with
      | Some qs => forallb (fun q => existsb (Z.eqb q) starts && Nat.ltb (rank q) (rank p)) qs
      | None => false
      end
  end.

Definition descends (mem : Memory) (limit : Z) (starts : list Z) (rank : Z -> nat) : bool :=
  forallb (descends_at mem limit starts rank) starts.

(** The addresses of the instructions from [pc] up to [hi], one behind the other. *)
Fixpoint sweep (fuel : nat) (mem : Memory) (pc hi : Z) : list Z :=
  match fuel with
  | O => []
  | S fuel =>
      if pc <? hi then
        match instruction_decode mem pc with
        | inl _ => [pc]
        | inr (next, _) => pc :: sweep fuel mem next hi
        end
      else []
  end.

(** ** The code checked is the code executed *)

Lemma bytes_at_agree m1 m2 p bs limit : 0 <= p -> p + zlen bs <= limit -> limit <= 0xFFFF ->
  (forall b, 0 <= b < limit -> mem_read8 m2 b = mem_read8 m1 b) ->
  bytes_at m1 p bs -> bytes_at m2 p bs.
Proof.
  intros Hp Hl H16 Hm. revert p Hp Hl. induction bs as [|b bs IH]; intros p Hp Hl; simpl in *; [done|].
  intros [Hb Hr]. split; [by rewrite Hm by lia|].
  destruct bs as [|c bs]; [done|]. cbn [length] in *.
  rewrite u16_id in * by (unfold is_u16; lia). apply IH; [lia..|done].
Qed.

Lemma decode_agrees m1 m2 p next i limit : mem_wf m1 -> mem_wf m2 -> is_u16 p ->
  instruction_decode m1 p = inr (next, i) -> p < next <= limit -> limit <= 0xFFFF ->
  (forall b, 0 <= b < limit -> mem_read8 m2 b = mem_read8 m1 b) ->
  instruction_decode m2 p = inr (next, i).
Proof.
  intros Hm1 Hm2 Hp Hd Hn H16 Hm. destruct (decode_sound m1 Hm1 p next i Hp Hd) as (Hi & Hb & En).
  pose proof (instr_bytes_length i) as Hlen.
  assert (next = p + zlen (instr_bytes i)) as Hnext by (unfold is_u16 in Hp; mlia).
  rewrite En. apply decode_complete; [done..|]. unfold is_u16 in Hp.
  by eapply (bytes_at_agree m1 m2 p _ limit); [lia..|done|].
Qed.

(** ** Control flow *)

Lemma exec_successors limit a io i qs a' io' : successors (apc a) i = Some qs ->
  isa_exec limit a io i = (a', io', Next) -> In (apc a') qs.
Proof.
  unfold successors, isa_exec, isa_push, isa_sys. intros Hs He.
  destruct (opcode i); simplify_eq; repeat case_match; simplify_eq/=; auto.
Qed.

Section certificate.
Context (m0 : Memory) (limit : Z) (starts : list Z) (rank : Z -> nat).
Context (Hm0 : mem_wf m0) (H16 : limit <= 0xFFFF) (Hd : descends m0 limit starts rank = true).

(** A running machine at an address of the certificate, its code as it was. *)
Record on_track (vm : VM) : Prop := {
  ot_wf : vm_wf vm;
  ot_stack : stack_ok vm;
  ot_limit : stack_limit vm = limit;
  ot_code : forall b, 0 <= b < limit -> mem_read8 (memory vm) b = mem_read8 m0 b;
  ot_start : In (pc (cpu vm)) starts;
}.

Lemma on_track_next vm io : on_track vm -> halted vm = false ->
  exists vm' io' rc, vm_step vm io = Some (vm', io', rc) /\
    (halted vm' = true \/ on_track vm' /\ (rank (pc (cpu vm')) < rank (pc (cpu vm)))%nat).
Proof.
  intros [Hwf Hs Hl Hc Hin] Hh. pose proof (cpu_wf_pc _ (wf_cpu _ Hwf)) as Hp.
  assert (Hat : descends_at m0 limit starts rank (pc (cpu vm)) = true)
    by (unfold descends in Hd; rewrite forallb_forall in Hd; auto).
  unfold descends_at in Hat. destruct (instruction_decode m0 (pc (cpu vm))) as [|[next i]] eqn:E; [done|].
  apply andb_true_iff in Hat as [[H1%Z.ltb_lt H2%Z.leb_le]%andb_true_iff Hq].
  destruct (successors next i) as [qs|] eqn:Eq; [|done].
  pose proof (decode_agrees _ _ _ _ _ _ Hm0 (wf_mem _ Hwf) Hp E (conj H1 H2) H16 Hc) as Ed.
  destruct (decode_sound _ (wf_mem _ Hwf) _ _ _ Hp Ed) as (Hi & Hb & En).
  destruct (step_exec vm io i Hwf Hh (conj Hi Hb)) as (vm' & io' & rc & Es & Hwf' & Hl' & Ha & _ & Hr).
  exists vm', io', rc. split; [done|]. unfold next_pc in *. rewrite <- En in *.
  destruct (isa_exec _ (with_pc (abs vm) next) io i) as [[a' io2] o] eqn:Ex. cbn [fst snd] in *.
  destruct o as [| |e]; [|left; apply Hr..]. right.
  assert (Hn : vm_next (vm, io) (vm', io')) by by econstructor.
  assert (Epc : pc (cpu vm') = apc a') by apply Ha.
  assert (Hin' : In (pc (cpu vm')) qs)
    by (rewrite Epc; exact (exec_successors _ (with_pc (abs vm) next) _ _ _ _ _ Eq Ex)).
  rewrite forallb_forall in Hq. specialize (Hq _ Hin').
  apply andb_true_iff in Hq as [(q & Hq & <-%Z.eqb_eq)%existsb_exists Hrank%Nat.ltb_lt].
  split; [|done]. split; [done|by apply (stack_ok_next _ _ Hn)|congruence| |done].
  intros b Hb'. rewrite <- Hc by done. apply (storeless_next_memory (vm, io) (vm', io')); [|done|done|cbn; lia].
  split; [done|]. unfold next_opcode. cbn [fst]. rewrite Ed. intros [= Eo]. unfold successors in Eq. by rewrite Eo in Eq.
Qed.

Lemma on_track_halts n vm io : on_track vm -> (rank (pc (cpu vm)) < n)%nat ->
  exists vm' io', vm_steps n vm io = Some (vm', io') /\ halted vm' = true.
Proof.
  revert vm io. induction n as [|n IH]; intros vm io Ht Hn; [lia|].
  destruct (halted vm) eqn:Hh; [exists vm, io; by rewrite vm_steps_halted|].
  destruct (on_track_next vm io Ht Hh) as (vm' & io' & rc & Es & [Hh'|[Ht' Hr]]); simpl; rewrite Es; simpl.
  - exists vm', io'. by rewrite vm_steps_halted.
  - apply IH; [done|lia].
Qed.
End certificate.

(** C16: Code with a certificate halts, on every input: if a list of instruction addresses,
    the entry point's among them, has no RET and no STORE at any of them, and a rank on
    them falls along every jump, call and fall-through of the loaded code, then HALT,
    SYS EXIT or a fault ends the run within as many cycles as the rank of the entry point
    and one more. *)
Theorem certified_code_halts data vm io starts rank : is_byte_list data -> image_valid data ->
  In (h_entry (header_of data)) starts ->
  descends (memory (vm_load vm data).1) (stack_limit (vm_load vm data).1) starts rank = true ->
  exists vm' io', vm_steps (S (rank (h_entry (header_of data)))) (vm_load vm data).1 io = Some (vm', io') /\
    halted vm' = true.
Proof.
  intros Hb Hv Hin. rewrite vm_load_ok by done. cbn [fst]. intros Hd.
  pose proof (loaded_wf data Hb vm Hv) as Hwf. pose proof (wf_limit _ Hwf) as [_ H16].
  apply (on_track_halts (memory (loaded vm data)) (stack_limit (loaded vm data)) starts rank);
    [apply (wf_mem _ Hwf)|lia|done| |simpl; lia].
  by split; [|apply loaded_stack_ok| | |].
Qed.

(** SYS READ_INT; CMP R0, 10; JG 17; ADD R0, 1; (17) SYS PRINT_INT; PUSH R0; CALL 29; NOP;
    (29) HALT, loaded at 0. *)
Definition branch_image : list Z :=
  code_image 0 [31; 80; 3; 17; 18; 0; 10; 0; 21; 48; 17; 0; 2; 18; 0; 1; 0; 31; 80; 1; 15; 16; 0;
                29; 48; 29; 0; 0; 0; 255; 0].

Definition branch_starts : list Z := sweep 31 (memory (vm_load blank branch_image).1) 0 31.

(** How far the code reaches behind an address. *)
Definition bytes_left (p : Z) : nat := Z.to_nat (31 - p).

Lemma certified_code_halts_witness :
  exists vm' io', vm_steps 32 (vm_load blank branch_image).1 (mkStdio (str "7") []) = Some (vm', io') /\
    halted vm' = true.
Proof.
  apply (certified_code_halts branch_image blank (mkStdio (str "7") []) branch_starts bytes_left);
    [by_decide|apply image_valid_load; [by_decide|reflexivity]|vm_compute; tauto|vm_compute; reflexivity].
Defined.
