(* ===== verification/Symtab.v ===== *)
(** The label table: [src/assembler/symtab.h] and [src/assembler/symtab.c].

    [symbols] is the growable array's first [count] entries, in definition
    order; a name is the list of its bytes. The array's capacity and the ownership
    of the name strings are in [AsmHeap]. *)

From S2P Require Import Prelude.
Open Scope Z_scope.

Record Symbol : Type := mkSymbol { name : list Z; address : Z }.

Record SymbolTable : Type := mkSymbolTable { symbols : list Symbol }.

Definition symtab_init : SymbolTable := mkSymbolTable [].

(** The scan of [symtab_lookup]; [strcmp(...) == 0] is equality of the names. *)
Fixpoint symbols_find (l : list Symbol) (n : list Z) : option Z :=
  match l with
  | [] => None
  | s :: l => if decide (name s = n) then Some (address s) else symbols_find l n
  end.

Definition symtab_lookup (table : SymbolTable) (n : list Z) : option Z :=
  symbols_find (symbols table) n.

(** [None] when it returns false: the name is already defined. *)
Definition symtab_define (table : SymbolTable) (n : list Z) (addr : Z) : option SymbolTable :=
  match symtab_lookup table n with
  | Some _ => None
  | None => Some (mkSymbolTable (symbols table ++ [mkSymbol n addr]))
  end.

(** ** The table as a finite map *)

Definition symtab_map (table : SymbolTable) : gmap (list Z) Z :=
  list_to_map (map (fun s => (name s, address s)) (symbols table)).

Lemma symtab_lookup_map table n : symtab_lookup table n = symtab_map table !! n.
Proof.
  unfold symtab_lookup, symtab_map. induction (symbols table) as [|s l IH]; simpl.
  - by rewrite lookup_empty.
  - case_decide as E.
    + subst. by rewrite lookup_insert_eq.
    + by rewrite lookup_insert_ne.
Qed.

Lemma symbols_find_app l n s :
  symbols_find (l ++ [s]) n =
  match symbols_find l n with
  | Some a => Some a
  | None => if decide (name s = n) then Some (address s) else None
  end.
Proof. induction l as [|t l IH]; simpl; [done|]. by destruct (decide (name t = n)). Qed.

Lemma symtab_define_map table n addr table' : symtab_define table n addr = Some table' ->
  symtab_map table !! n = None /\ symtab_map table' = <[n := addr]> (symtab_map table).
Proof.
  unfold symtab_define. destruct (symtab_lookup table n) as [|] eqn:E; [done|]. intros [= <-].
  rewrite symtab_lookup_map in E. split; [done|]. apply map_eq. intros m.
  rewrite <- symtab_lookup_map. unfold symtab_lookup. cbn [symbols]. rewrite symbols_find_app.
  change (symbols_find (symbols table) m) with (symtab_lookup table m).
  rewrite symtab_lookup_map. cbn [name address].
  case_decide as Hm.
  - subst. by rewrite E, lookup_insert_eq.
  - rewrite lookup_insert_ne by done. by destruct (symtab_map table !! m).
Qed.

(** Definitions only ever add names. *)
Lemma symtab_define_mono table n addr table' m a : symtab_define table n addr = Some table' ->
  symtab_lookup table m = Some a -> symtab_lookup table' m = Some a.
Proof.
  intros Hd Hm. destruct (symtab_define_map _ _ _ _ Hd) as [Hn E].
  rewrite symtab_lookup_map in *. rewrite E, lookup_insert_ne; [done|congruence].
Qed.

Lemma symtab_define_lookup table n addr table' : symtab_define table n addr = Some table' ->
  symtab_lookup table' n = Some addr.
Proof.
  intros Hd. destruct (symtab_define_map _ _ _ _ Hd) as [Hn E].
  by rewrite symtab_lookup_map, E, lookup_insert_eq.
Qed.
