(* ===== verification/Lexer.v ===== *)
(** The assembler's lexer: [src/assembler/token.h], [src/assembler/lexer.h] and
    [src/assembler/lexer.c].

    The source is the list of its bytes up to the terminating NUL, so the end of
    the list is the character ['\0'] of the C code. [lex_iter] is one iteration of
    the main loop and [lex_loop] the loop, with fuel; [LexFacts] shows that the
    fuel [lex] passes is enough. A number literal whose value leaves [int64_t] is
    undefined behaviour. *)

From S2P Require Import Prelude CLib.
Open Scope Z_scope.

Inductive TokenType : Type :=
| TOK_EOF | TOK_NEWLINE | TOK_IDENT | TOK_DIRECTIVE | TOK_NUMBER | TOK_STRING
| TOK_COMMA | TOK_COLON | TOK_LBRACKET | TOK_RBRACKET.

#[export] Instance TokenType_eq_dec : EqDecision TokenType.
Proof. solve_decision. Defined.

(** A token; the fields its type does not use are the zeros of [Token tok = {0}]. *)
Record Token : Type := mkToken {
  type : TokenType;
  line : Z;
  text : list Z;
  num_value : Z;
  str_value : list Z;
}.

Definition simple_token (t : TokenType) (ln : Z) : Token := mkToken t ln [] 0 [].
Definition text_token (t : TokenType) (ln : Z) (s : list Z) : Token := mkToken t ln s 0 [].
Definition number_token (ln v : Z) : Token := mkToken TOK_NUMBER ln [] v [].
Definition string_token (ln : Z) (s : list Z) : Token := mkToken TOK_STRING ln [] 0 s.

Definition set_error {A} (ln : Z) (msg : list Z) : res A := Err ln (clip 256 msg).

(** The longest prefix of characters of a class, and what follows. *)
Fixpoint span (f : Z -> bool) (p : list Z) : list Z * list Z :=
  match p with
  | c :: p' => if f c then let '(s, r) := span f p' in (c :: s, r) else ([], p)
  | [] => ([], [])
  end.

(** A comment runs to the end of the line. *)
Fixpoint skip_comment (p : list Z) : list Z :=
  match p with
  | c :: p' => if c =? 10 then p else skip_comment p'
  | [] => []
  end.

(** ** String literals

    Entered behind the opening quote with the bytes so far; returns the bytes and
    the source behind the closing quote. *)
Definition BAD_ESCAPE : list Z :=
  str "unrecognized escape sequence in string literal (supported: \n \r \t \\ \" ++ [34] ++
  str " \0 \xNN)".

Fixpoint lex_string (ln : Z) (p buf : list Z) : res (list Z * list Z) :=
  match p with
  | [] => set_error ln (str "unterminated string literal")
  | c :: p =>
      if c =? 10 then set_error ln (str "unterminated string literal")
      else if c =? 34 then Ok (buf, p)
      else if c =? 92 then
        match p with
        | [] => set_error ln BAD_ESCAPE
        | e :: p =>
            if e =? 110 then lex_string ln p (buf ++ [10])
            else if e =? 114 then lex_string ln p (buf ++ [13])
            else if e =? 116 then lex_string ln p (buf ++ [9])
            else if e =? 92 then lex_string ln p (buf ++ [92])
            else if e =? 34 then lex_string ln p (buf ++ [34])
            else if e =? 48 then lex_string ln p (buf ++ [0])
            else if e =? 120 then
              match p with
              | h1 :: h2 :: p =>
                  if negb (isxdigit h1) || negb (isxdigit h2)
                  then set_error ln (str "\x escape needs exactly two hex digits")
                  else lex_string ln p (buf ++ [u8 (hex_value 0 [h1; h2])])
              | _ => set_error ln (str "\x escape needs exactly two hex digits")
              end
            else set_error ln BAD_ESCAPE
        end
      else lex_string ln p (buf ++ [c])
  end.

(** ** Number literals: the digit loops, on [int64_t] *)

Definition INT64_MAX : Z := 9223372036854775807.

Fixpoint lex_hex (p : list Z) (value : Z) : res (Z * list Z) :=
  match p with
  | c :: p' =>
      if isxdigit c then
        let value := value * 16 + hex_val c in
        if INT64_MAX <? value then UB else lex_hex p' value
      else Ok (value, p)
  | [] => Ok (value, [])
  end.

Fixpoint lex_dec (p : list Z) (value : Z) : res (Z * list Z) :=
  match p with
  | c :: p' =>
      if isdigit c then
        let value := value * 10 + (c - 48) in
        if INT64_MAX <? value then UB else lex_dec p' value
      else Ok (value, p)
  | [] => Ok (value, [])
  end.

Definition starts_with (f : Z -> bool) (p : list Z) : bool :=
  match p with c :: _ => f c | [] => false end.

(** [p[0] == '0' && (p[1] == 'x' || p[1] == 'X')]: the source behind the prefix. *)
Definition hex_prefix (p : list Z) : option (list Z) :=
  match p with
  | c :: x :: p' => if (c =? 48) && ((x =? 120) || (x =? 88)) then Some p' else None
  | _ => None
  end.

Definition lex_magnitude (ln : Z) (p : list Z) : res (Z * list Z) :=
  match hex_prefix p with
  | Some p' =>
      if negb (starts_with isxdigit p')
      then set_error ln (str "expected hex digits after '0x'")
      else lex_hex p' 0
  | None => lex_dec p 0
  end.

Definition lex_number (ln : Z) (p : list Z) : res (Z * list Z) :=
  let '(negative, p) :=
    match p with
    | c :: p' => if c =? 45 then (true, p') else (false, p)
    | [] => (false, [])
    end in
  if negb (starts_with isdigit p) then set_error ln (str "expected a digit after '-'")
  else
    '(value, p) ← lex_magnitude ln p;
    Ok (if negative : bool then - value else value, p).

(** ** The main loop *)

Definition ident_start (c : Z) : bool := isalpha c || (c =? 95).
Definition ident_char (c : Z) : bool := isalnum c || (c =? 95).

(** One iteration at the non-empty source [c :: p]: the tokens pushed (at most
    one), the rest of the source and the new line number. *)
Definition lex_iter (c : Z) (p : list Z) (ln : Z) : res (list Token * list Z * Z) :=
  if (c =? 32) || (c =? 9) || (c =? 13) then Ok ([], p, ln)
  else if c =? 59 then Ok ([], skip_comment (c :: p), ln)
  else if c =? 10 then Ok ([simple_token TOK_NEWLINE ln], p, ln + 1)
  else if c =? 44 then Ok ([simple_token TOK_COMMA ln], p, ln)
  else if c =? 58 then Ok ([simple_token TOK_COLON ln], p, ln)
  else if c =? 91 then Ok ([simple_token TOK_LBRACKET ln], p, ln)
  else if c =? 93 then Ok ([simple_token TOK_RBRACKET ln], p, ln)
  else if c =? 46 then
    let '(s, q) := span isalpha p in
    if decide (s = []) then set_error ln (str "'.' must be followed by a directive name")
    else Ok ([text_token TOK_DIRECTIVE ln s], q, ln)
  else if c =? 34 then
    '(s, q) ← lex_string ln p [];
    Ok ([string_token ln s], q, ln)
  else if (c =? 45) || isdigit c then
    '(v, q) ← lex_number ln (c :: p);
    Ok ([number_token ln v], q, ln)
  else if ident_start c then
    let '(s, q) := span ident_char (c :: p) in
    Ok ([text_token TOK_IDENT ln s], q, ln)
  else set_error ln (clip 64 (str "unexpected character '" ++ [c] ++ str "'")).

(** [None]: out of fuel. *)
Fixpoint lex_loop (fuel : nat) (p : list Z) (ln : Z) (out : list Token)
  : option (res (list Token)) :=
  match p with
  | [] => Some (Ok (out ++ [simple_token TOK_EOF ln]))
  | c :: p =>
      match fuel with
      | O => None
      | S fuel =>
          match lex_iter c p ln with
          | Ok (toks, q, ln') => lex_loop fuel q ln' (out ++ toks)
          | Err l m => Some (Err l m)
          | UB => Some UB
          end
      end
  end.

(** Every iteration consumes a character, so the source's length is enough fuel. *)
Definition lex (source : list Z) : res (list Token) :=
  default UB (lex_loop (length source) source 1 []).
