(* ===== verification/LexFacts.v ===== *)
(** Facts about the lexer: its loop always ends within its fuel, the shape of the
    token list, and how each class of token is read. *)

From S2P Require Import Prelude CLib Lexer.
Open Scope Z_scope.

(** ** Progress *)

Lemma span_length f p : (length (span f p).1 + length (span f p).2 = length p)%nat.
Proof.
  induction p as [|c p IH]; simpl; [done|]. destruct (f c); [|done].
  destruct (span f p) as [s r]. simpl in *. lia.
Qed.

Lemma skip_comment_length p : (length (skip_comment p) <= length p)%nat.
Proof. induction p as [|c p IH]; simpl; [lia|]. case_match; simpl; lia. Qed.

(** A tail that is at most as long. *)
Lemma lex_string_length ln n p buf s q : (length p <= n)%nat ->
  lex_string ln p buf = Ok (s, q) -> (length q <= length p)%nat.
Proof.
  revert p buf. induction n as [|n IH]; intros p buf Hn H.
  { destruct p; simpl in Hn; [done|lia]. }
  destruct p as [|c p]; [done|]. simpl in H, Hn. unfold set_error in H.
  repeat (case_match; simplify_eq/=; try done; try lia);
    match goal with H : lex_string _ _ _ = _ |- _ => apply IH in H; simpl in *; lia end.
Qed.

Lemma lex_hex_length p v v' q : lex_hex p v = Ok (v', q) -> (length q <= length p)%nat.
Proof.
  revert v. induction p as [|c p IH]; intros v H; simpl in H; simplify_eq/=; [done|].
  repeat case_match; simplify_eq; simpl; [|lia]. apply IH in H. lia.
Qed.

Lemma lex_dec_length p v v' q : lex_dec p v = Ok (v', q) -> (length q <= length p)%nat.
Proof.
  revert v. induction p as [|c p IH]; intros v H; simpl in H; simplify_eq/=; [done|].
  repeat case_match; simplify_eq; simpl; [|lia]. apply IH in H. lia.
Qed.

(** A number literal consumes at least its first digit. *)
Lemma lex_dec_progress p v v' q : starts_with isdigit p = true -> lex_dec p v = Ok (v', q) ->
  (length q < length p)%nat.
Proof.
  destruct p as [|c p]; simpl; [done|]. intros ->. case_match; [done|].
  intros G. apply lex_dec_length in G. lia.
Qed.

Lemma lex_magnitude_length ln p v q : starts_with isdigit p = true ->
  lex_magnitude ln p = Ok (v, q) -> (length q < length p)%nat.
Proof.
  intros Hd. unfold lex_magnitude. destruct (hex_prefix p) as [p'|] eqn:E.
  - destruct p as [|a [|b p]]; simpl in *; [done..|]. case_match; [|done]. injection E as <-.
    case_match; [done|]. intros G. apply lex_hex_length in G. lia.
  - by apply lex_dec_progress.
Qed.

Lemma lex_number_length ln c p v q : (c =? 45) || isdigit c = true ->
  lex_number ln (c :: p) = Ok (v, q) -> (length q <= length p)%nat.
Proof.
  intros Hc. unfold lex_number. destruct (c =? 45) eqn:Em.
  - destruct (starts_with isdigit p) eqn:Ed; [|done]. simpl.
    destruct (lex_magnitude ln p) as [[m r]| |] eqn:E; [|done..]. intros [= <- <-].
    apply lex_magnitude_length in E; [lia|done].
  - destruct (starts_with isdigit (c :: p)) eqn:Ed; [|done]. simpl negb. cbv iota.
    destruct (lex_magnitude ln (c :: p)) as [[m r]| |] eqn:E; [|done..]. intros [= <- <-].
    apply lex_magnitude_length in E; [simpl in E; lia|done].
Qed.

Lemma lex_iter_length c p ln toks q ln' :
  lex_iter c p ln = Ok (toks, q, ln') -> (length q <= length p)%nat.
Proof.
  unfold lex_iter, set_error. intros H.
  case_match; [by simplify_eq|]. case_match.
  { assert (c = 59) as -> by lia. simplify_eq/=. apply skip_comment_length. }
  do 5 (case_match; [by simplify_eq|]). case_match.
  { pose proof (span_length isalpha p) as Hs. destruct (span isalpha p) as [s r].
    case_decide; simplify_eq/=. lia. }
  case_match.
  { destruct (lex_string ln p []) as [[s r]| |] eqn:E; simplify_eq/=.
    by eapply lex_string_length. }
  case_match.
  { destruct (lex_number ln (c :: p)) as [[v r]| |] eqn:E; simplify_eq/=.
    by eapply lex_number_length. }
  case_match; [|done].
  pose proof (span_length ident_char p) as Hs. simpl in H. unfold ident_char at 1 in H.
  destruct (isalnum c || (c =? 95)) eqn:Ec.
  - destruct (span ident_char p) as [s r]. simplify_eq/=. lia.
  - exfalso. apply orb_false_iff in Ec as [E1 E2]. apply orb_false_iff in E1 as [E1 _].
    match goal with G : ident_start c = true |- _ => unfold ident_start in G; by rewrite E1, E2 in G end.
Qed.

(** ** The loop *)

Lemma lex_loop_mono fuel fuel' p ln out r : (fuel <= fuel')%nat ->
  lex_loop fuel p ln out = Some r -> lex_loop fuel' p ln out = Some r.
Proof.
  revert fuel' p ln out. induction fuel as [|fuel IH]; intros fuel' p ln out Hf H.
  - destruct p; [|done]. by destruct fuel'.
  - destruct p as [|c p]; [by destruct fuel'|]. destruct fuel' as [|fuel']; [lia|]. simpl in *.
    destruct (lex_iter c p ln) as [[[toks q] ln']| |]; [|done..]. apply IH; [lia|done].
Qed.

Lemma lex_loop_enough fuel p ln out : (length p <= fuel)%nat ->
  exists r, lex_loop fuel p ln out = Some r.
Proof.
  revert p ln out. induction fuel as [|fuel IH]; intros p ln out Hf.
  - destruct p; simpl in Hf; [by eexists|lia].
  - destruct p as [|c p]; [by eexists|]. simpl in *.
    destruct (lex_iter c p ln) as [[[toks q] ln']| |] eqn:E; [|by eexists..].
    apply IH. apply lex_iter_length in E. lia.
Qed.

(** [lexes p ln toks q ln']: from the source [p] on line [ln] the lexer pushes
    [toks] and arrives at [q] on line [ln']. *)
Inductive lexes : list Z -> Z -> list Token -> list Z -> Z -> Prop :=
| lexes_refl p ln : lexes p ln [] p ln
| lexes_step c p ln toks q ln' toks' q' ln'' :
    lex_iter c p ln = Ok (toks, q, ln') -> lexes q ln' toks' q' ln'' ->
    lexes (c :: p) ln (toks ++ toks') q' ln''.

Lemma lexes_trans p ln t1 q ln' t2 r ln'' :
  lexes p ln t1 q ln' -> lexes q ln' t2 r ln'' -> lexes p ln (t1 ++ t2) r ln''.
Proof.
  induction 1 as [|c p ln toks q ln1 toks' q' ln2 Hi _ IH]; intros H2; [done|].
  rewrite <- app_assoc. eapply lexes_step; [exact Hi|by apply IH].
Qed.

Lemma lexes_one c p ln toks q ln' :
  lex_iter c p ln = Ok (toks, q, ln') -> lexes (c :: p) ln toks q ln'.
Proof. intros H. rewrite <- (app_nil_r toks). eapply lexes_step; [exact H|apply lexes_refl]. Qed.

Lemma lexes_loop p ln toks q ln' out fuel : lexes p ln toks q ln' -> (length p <= fuel)%nat ->
  exists fuel', (length q <= fuel')%nat /\ lex_loop fuel p ln out = lex_loop fuel' q ln' (out ++ toks).
Proof.
  intros H. revert out fuel. induction H as [|c p ln toks q ln' toks' q' ln'' Hi _ IH]; intros out fuel Hf.
  - exists fuel. by rewrite app_nil_r.
  - destruct fuel as [|fuel]; simpl in Hf; [lia|]. pose proof (lex_iter_length _ _ _ _ _ _ Hi).
    destruct (IH (out ++ toks) fuel) as (fuel' & Hq & E); [lia|].
    exists fuel'. split; [done|]. simpl. by rewrite Hi, E, app_assoc.
Qed.

(** The lexer's result is the run of [lexes] that reaches the end or the error. *)
Lemma lex_lexes source toks ln : lexes source 1 toks [] ln ->
  lex source = Ok (toks ++ [simple_token TOK_EOF ln]).
Proof.
  intros H. destruct (lexes_loop _ _ _ _ _ [] (length source) H ltac:(lia)) as (fuel' & _ & E).
  unfold lex. rewrite E. by destruct fuel'.
Qed.

Lemma lex_loop_Ok fuel p ln out toks : lex_loop fuel p ln out = Some (Ok toks) ->
  exists body ln', toks = out ++ body ++ [simple_token TOK_EOF ln'] /\ lexes p ln body [] ln'.
Proof.
  revert p ln out. induction fuel as [|fuel IH]; intros p ln out H.
  - destruct p; simpl in H; [|done]. injection H as <-. exists [], ln. split; [done|apply lexes_refl].
  - destruct p as [|c p]; simpl in H; [injection H as <-; exists [], ln; split; [done|apply lexes_refl]|].
    destruct (lex_iter c p ln) as [[[t q] ln']| |] eqn:E; [|done..].
    destruct (IH _ _ _ H) as (body & ln'' & -> & Hl). exists (t ++ body), ln''.
    rewrite <- !app_assoc. split; [done|]. by eapply lexes_step.
Qed.

Lemma lex_Ok source toks : lex source = Ok toks ->
  exists body ln, toks = body ++ [simple_token TOK_EOF ln] /\ lexes source 1 body [] ln.
Proof.
  unfold lex. destruct (lex_loop_enough (length source) source 1 [] ltac:(lia)) as [r E].
  rewrite E. simpl. intros ->. apply lex_loop_Ok in E as (body & ln & -> & Hl). eauto.
Qed.

(** ** Reading one lexeme

    Each lemma reads a lexeme in front of a source that does not continue it. *)

Definition ends_word (q : list Z) : Prop :=
  match q with [] => True | c :: _ => ident_char c = false end.

Lemma span_app f s q : Forall (fun c => f c = true) s ->
  match q with [] => True | c :: _ => f c = false end -> span f (s ++ q) = (s, q).
Proof.
  induction 1 as [|c s Hc Hs IH]; intros Hq; simpl.
  - destruct q as [|c q]; [done|]. simpl. by rewrite Hq.
  - by rewrite Hc, IH.
Qed.

(** Character classes as ranges, for [lia]. *)
Ltac chars :=
  unfold ident_start, ident_char, isalnum, isalpha, isupper, islower, isdigit, isxdigit in *; lia.

Lemma lexes_blank c p ln : c = 32 \/ c = 9 \/ c = 13 -> lexes (c :: p) ln [] p ln.
Proof. intros H. apply lexes_one. by destruct H as [->|[->| ->]]. Qed.

Lemma lexes_punct c t p ln :
  In (c, t) [(44, TOK_COMMA); (58, TOK_COLON); (91, TOK_LBRACKET); (93, TOK_RBRACKET)] ->
  lexes (c :: p) ln [simple_token t ln] p ln.
Proof. intros H. apply lexes_one. by destruct H as [[= <- <-]|[[= <- <-]|[[= <- <-]|[[= <- <-]|[]]]]]. Qed.

Lemma lexes_newline p ln : lexes (10 :: p) ln [simple_token TOK_NEWLINE ln] p (ln + 1).
Proof. by apply lexes_one. Qed.

Lemma skip_comment_app s q : Forall (fun c => c <> 10) s -> skip_comment (s ++ 10 :: q) = 10 :: q.
Proof.
  induction 1 as [|c s Hc _ IH]; simpl; [done|]. by rewrite (proj2 (Z.eqb_neq c 10)).
Qed.

Lemma lexes_comment s q ln : Forall (fun c => c <> 10) s -> lexes (59 :: s ++ 10 :: q) ln [] (10 :: q) ln.
Proof.
  intros H. apply lexes_one. unfold lex_iter. simpl. by rewrite skip_comment_app.
Qed.

Lemma lexes_ident c s q ln : ident_start c = true -> Forall (fun c => ident_char c = true) s ->
  ends_word q -> lexes (c :: s ++ q) ln [text_token TOK_IDENT ln (c :: s)] q ln.
Proof.
  intros Hc Hs Hq. apply lexes_one. unfold lex_iter.
  assert (ident_char c = true) as Hc' by chars.
  rewrite !(proj2 (Z.eqb_neq c _)) by chars. simpl.
  assert (isdigit c = false) as -> by chars. rewrite Hc. simpl. rewrite Hc'.
  by rewrite span_app.
Qed.

Lemma lexes_directive s q ln : Forall (fun c => isalpha c = true) s -> s <> [] ->
  match q with [] => True | c :: _ => isalpha c = false end ->
  lexes (46 :: s ++ q) ln [text_token TOK_DIRECTIVE ln s] q ln.
Proof.
  intros Hs Hne Hq. apply lexes_one. unfold lex_iter. simpl. rewrite span_app by done.
  by rewrite decide_False.
Qed.

(** ** Numbers *)

Lemma dec_value_mono v ds : 0 <= v -> Forall (fun c => isdigit c = true) ds -> v <= dec_value v ds.
Proof.
  intros Hv Hds. revert v Hv. induction Hds as [|c ds Hc Hds IH]; intros v Hv; simpl; [lia|].
  apply isdigit_spec in Hc. unfold dec_value in *. simpl.
  etransitivity; [|apply IH; lia]. lia.
Qed.

Lemma lex_dec_app ds q v : Forall (fun c => isdigit c = true) ds ->
  match q with [] => True | c :: _ => isdigit c = false end ->
  0 <= v -> dec_value v ds <= INT64_MAX -> lex_dec (ds ++ q) v = Ok (dec_value v ds, q).
Proof.
  intros Hds Hq. revert v. induction Hds as [|c ds Hc Hds IH]; intros v Hv Hmax; simpl.
  - destruct q as [|c q]; [done|]. simpl. by rewrite Hq.
  - rewrite Hc. pose proof (proj1 (isdigit_spec c) Hc).
    change (dec_value v (c :: ds)) with (dec_value (v * 10 + (c - 48)) ds) in *.
    pose proof (dec_value_mono (v * 10 + (c - 48)) ds ltac:(lia) Hds).
    rewrite (proj2 (Z.ltb_ge _ _)) by lia. apply IH; lia.
Qed.

Lemma hex_val_range c : isxdigit c = true -> 0 <= hex_val c < 16.
Proof. unfold hex_val, tolower, isupper, isxdigit, isdigit. intros H. repeat case_match; lia. Qed.

Lemma hex_value_mono v ds : 0 <= v -> Forall (fun c => isxdigit c = true) ds -> v <= hex_value v ds.
Proof.
  intros Hv Hds. revert v Hv. induction Hds as [|c ds Hc Hds IH]; intros v Hv; simpl; [lia|].
  pose proof (hex_val_range c Hc). unfold hex_value in *. simpl.
  etransitivity; [|apply IH; lia]. lia.
Qed.

Lemma lex_hex_app ds q v : Forall (fun c => isxdigit c = true) ds ->
  match q with [] => True | c :: _ => isxdigit c = false end ->
  0 <= v -> hex_value v ds <= INT64_MAX -> lex_hex (ds ++ q) v = Ok (hex_value v ds, q).
Proof.
  intros Hds Hq. revert v. induction Hds as [|c ds Hc Hds IH]; intros v Hv Hmax; simpl.
  - destruct q as [|c q]; [done|]. simpl. by rewrite Hq.
  - rewrite Hc. pose proof (hex_val_range c Hc).
    change (hex_value v (c :: ds)) with (hex_value (v * 16 + hex_val c) ds) in *.
    pose proof (hex_value_mono (v * 16 + hex_val c) ds ltac:(lia) Hds).
    rewrite (proj2 (Z.ltb_ge _ _)) by lia. apply IH; lia.
Qed.

(** The branch of [lex_iter] that numbers take. *)
Lemma lex_iter_number c p ln : (c =? 45) || isdigit c = true ->
  lex_iter c p ln = ('(v, q) ← lex_number ln (c :: p); Ok ([number_token ln v], q, ln)).
Proof.
  intros H. unfold lex_iter. destruct (c =? 45) eqn:E.
  - apply Z.eqb_eq in E as ->. done.
  - rewrite !(proj2 (Z.eqb_neq c _)) by chars. simpl in H. by rewrite H.
Qed.

Lemma hex_prefix_dec ds q : Forall (fun c => isdigit c = true) ds -> ends_word q ->
  hex_prefix (ds ++ q) = None.
Proof.
  intros Hds Hq. destruct Hds as [|c ds Hc Hds]; simpl.
  - destruct q as [|c [|x q]]; simpl; [done..|]. simpl in Hq.
    assert ((c =? 48) = false) as -> by chars. done.
  - destruct Hds as [|x ds Hx Hds]; simpl.
    + destruct q as [|x q]; [done|]. simpl in Hq.
      assert (((x =? 120) || (x =? 88)) = false) as -> by chars. by rewrite andb_false_r.
    + assert (((x =? 120) || (x =? 88)) = false) as -> by chars. by rewrite andb_false_r.
Qed.

Lemma ends_word_digit q : ends_word q -> match q with [] => True | c :: _ => isdigit c = false end.
Proof. destruct q; [done|]. simpl. intros. chars. Qed.

(** The magnitude of a decimal literal, and of a hexadecimal one. *)
Lemma lex_magnitude_dec ln ds q : Forall (fun c => isdigit c = true) ds -> ds <> [] -> ends_word q ->
  dec_value 0 ds <= INT64_MAX -> lex_magnitude ln (ds ++ q) = Ok (dec_value 0 ds, q).
Proof.
  intros Hds Hne Hq Hmax. unfold lex_magnitude. rewrite hex_prefix_dec by done.
  apply lex_dec_app; [done|by apply ends_word_digit|lia|done].
Qed.

Lemma starts_app f ds q : Forall (fun c => f c = true) ds -> ds <> [] -> starts_with f (ds ++ q) = true.
Proof. by destruct 1. Qed.

Lemma lexes_dec (neg : bool) ds q ln : Forall (fun c => isdigit c = true) ds -> ds <> [] ->
  ends_word q -> dec_value 0 ds <= INT64_MAX ->
  lexes ((if neg then [45] else []) ++ ds ++ q) ln
    [number_token ln (if neg then - dec_value 0 ds else dec_value 0 ds)] q ln.
Proof.
  intros Hds Hne Hq Hmax.
  pose proof (lex_magnitude_dec ln ds q Hds Hne Hq Hmax) as Hm.
  pose proof (starts_app isdigit ds q Hds Hne) as Hs.
  destruct neg; simpl.
  - apply lexes_one. rewrite lex_iter_number by done. unfold lex_number.
    rewrite Z.eqb_refl, Hs, Hm. done.
  - destruct ds as [|c ds]; [done|]. simpl in *. apply lexes_one.
    rewrite lex_iter_number by (rewrite Hs; apply orb_true_r). unfold lex_number.
    rewrite (proj2 (Z.eqb_neq c 45)) by chars. simpl. by rewrite Hs, Hm.
Qed.

Lemma lexes_hex ds q ln : Forall (fun c => isxdigit c = true) ds -> ds <> [] ->
  match q with [] => True | c :: _ => isxdigit c = false end -> hex_value 0 ds <= INT64_MAX ->
  lexes (48 :: 120 :: ds ++ q) ln [number_token ln (hex_value 0 ds)] q ln.
Proof.
  intros Hds Hne Hq Hmax. apply lexes_one. rewrite lex_iter_number by done.
  unfold lex_number, lex_magnitude. simpl. rewrite (starts_app _ ds q) by done. simpl.
  by rewrite lex_hex_app by (done || lia).
Qed.

(** ** Strings *)

(** How a byte is written inside a string literal. *)
Definition escape (b : Z) : list Z :=
  if b =? 10 then [92; 110] else if b =? 34 then [92; 34] else if b =? 92 then [92; 92]
  else if b =? 0 then [92; 48] else [b].

Lemma lex_string_escape ln s q buf :
  lex_string ln (flat_map escape s ++ 34 :: q) buf = Ok (buf ++ s, q).
Proof.
  revert buf. induction s as [|b s IH]; intros buf; simpl.
  { by rewrite app_nil_r. }
  unfold escape.
  destruct (Z.eqb_spec b 10) as [->|]; [simpl; rewrite IH; by rewrite <- app_assoc|].
  destruct (Z.eqb_spec b 34) as [->|]; [simpl; rewrite IH; by rewrite <- app_assoc|].
  destruct (Z.eqb_spec b 92) as [->|]; [simpl; rewrite IH; by rewrite <- app_assoc|].
  destruct (Z.eqb_spec b 0) as [->|]; [simpl; rewrite IH; by rewrite <- app_assoc|].
  simpl. rewrite !(proj2 (Z.eqb_neq b _)) by done. rewrite IH. by rewrite <- app_assoc.
Qed.

Lemma lexes_string s q ln : lexes (34 :: flat_map escape s ++ 34 :: q) ln [string_token ln s] q ln.
Proof. apply lexes_one. unfold lex_iter. simpl. by rewrite lex_string_escape. Qed.

(** ** Whole token lists *)

(** The tokens the lexer makes, other than the final [TOK_EOF]: each class with the
    lexemes it allows. A token carries the line it starts on. *)
Inductive token_ok (ln : Z) : Token -> Prop :=
| tok_punct t : In t [TOK_NEWLINE; TOK_COMMA; TOK_COLON; TOK_LBRACKET; TOK_RBRACKET] ->
    token_ok ln (simple_token t ln)
| tok_ident c s : ident_start c = true -> Forall (fun c => ident_char c = true) s ->
    token_ok ln (text_token TOK_IDENT ln (c :: s))
| tok_directive s : s <> [] -> Forall (fun c => isalpha c = true) s ->
    token_ok ln (text_token TOK_DIRECTIVE ln s)
| tok_number v : - INT64_MAX <= v <= INT64_MAX -> token_ok ln (number_token ln v)
| tok_string s : token_ok ln (string_token ln s).

(** Only a newline starts a new line. *)
Inductive tokens_ok : Z -> list Token -> Z -> Prop :=
| toks_nil ln : tokens_ok ln [] ln
| toks_cons ln t toks ln' : token_ok ln t ->
    tokens_ok (if decide (type t = TOK_NEWLINE) then ln + 1 else ln) toks ln' ->
    tokens_ok ln (t :: toks) ln'.

Definition render_token (t : Token) : list Z :=
  match type t with
  | TOK_EOF => []
  | TOK_NEWLINE => [10]
  | TOK_IDENT => text t
  | TOK_DIRECTIVE => 46 :: text t
  | TOK_NUMBER => fmt_d (num_value t)
  | TOK_STRING => 34 :: flat_map escape (str_value t) ++ [34]
  | TOK_COMMA => [44]
  | TOK_COLON => [58]
  | TOK_LBRACKET => [91]
  | TOK_RBRACKET => [93]
  end.

(** The tokens as source text, a blank behind each. *)
Definition render (toks : list Token) : list Z := flat_map (fun t => render_token t ++ [32]) toks.

Lemma lexes_token ln t q : token_ok ln t ->
  lexes (render_token t ++ 32 :: q) ln [t] (32 :: q)
    (if decide (type t = TOK_NEWLINE) then ln + 1 else ln).
Proof.
  intros H. destruct H as [t H|c s Hc Hs|s Hne Hs|v Hv|s].
  - destruct H as [<-|H]; [by apply lexes_newline|].
    destruct H as [<-|[<-|[<-|[<-|[]]]]]; simpl; apply lexes_punct; simpl; tauto.
  - by apply lexes_ident.
  - by apply lexes_directive.
  - unfold render_token, number_token, fmt_d. simpl.
    destruct (Z.ltb_spec v 0).
    + destruct (fmt_u_spec (- v)) as (H1 & H2 & H3); [lia|].
      replace v with (- dec_value 0 (fmt_u (- v))) at 2 by lia.
      by apply (lexes_dec true); [..|lia].
    + destruct (fmt_u_spec v) as (H1 & H2 & H3); [lia|].
      replace v with (dec_value 0 (fmt_u v)) at 2 by lia.
      by apply (lexes_dec false); [..|lia].
  - simpl. rewrite <- app_assoc. apply lexes_string.
Qed.

Lemma lexes_render ln toks ln' : tokens_ok ln toks ln' -> lexes (render toks) ln toks [] ln'.
Proof.
  induction 1 as [ln|ln t toks ln' Ht _ IH]; [apply lexes_refl|].
  simpl. rewrite <- app_assoc. cbn [app].
  change (t :: toks) with ([t] ++ ([] ++ toks)).
  eapply lexes_trans; [by apply lexes_token|].
  eapply lexes_trans; [|exact IH]. apply lexes_blank. tauto.
Qed.

(** Every token list the lexer returns is of that shape. *)
Lemma span_Forall f p : Forall (fun c => f c = true) (span f p).1.
Proof.
  induction p as [|c p IH]; simpl; [constructor|]. destruct (f c) eqn:E; [|constructor].
  destruct (span f p). by constructor.
Qed.

Lemma lex_dec_range p v v' q : 0 <= v <= INT64_MAX -> lex_dec p v = Ok (v', q) -> 0 <= v' <= INT64_MAX.
Proof.
  revert v. induction p as [|c p IH]; intros v Hv H; simpl in H; [by simplify_eq|].
  destruct (isdigit c) eqn:E; [|by simplify_eq]. apply isdigit_spec in E.
  destruct (Z.ltb_spec INT64_MAX (v * 10 + (c - 48))); [done|]. eapply IH; [|exact H]. lia.
Qed.

Lemma lex_hex_range p v v' q : 0 <= v <= INT64_MAX -> lex_hex p v = Ok (v', q) -> 0 <= v' <= INT64_MAX.
Proof.
  revert v. induction p as [|c p IH]; intros v Hv H; simpl in H; [by simplify_eq|].
  destruct (isxdigit c) eqn:E; [|by simplify_eq]. pose proof (hex_val_range c E).
  destruct (Z.ltb_spec INT64_MAX (v * 16 + hex_val c)); [done|]. eapply IH; [|exact H]. lia.
Qed.

Lemma lex_number_range ln p v q : lex_number ln p = Ok (v, q) -> - INT64_MAX <= v <= INT64_MAX.
Proof.
  unfold lex_number. intros H.
  destruct (match p with [] => _ | _ => _ end) as [neg p']. case_match; [done|].
  destruct (lex_magnitude ln p') as [[m r]| |] eqn:E; [|done..]. simplify_eq/=.
  assert (0 <= m <= INT64_MAX).
  { unfold lex_magnitude in E. case_match; [case_match; [done|]|].
    - eapply lex_hex_range; [|exact E]. unfold INT64_MAX. lia.
    - eapply lex_dec_range; [|exact E]. unfold INT64_MAX. lia. }
  destruct neg; lia.
Qed.

Lemma lex_iter_tokens c p ln toks q ln' : lex_iter c p ln = Ok (toks, q, ln') -> tokens_ok ln toks ln'.
Proof.
  assert (forall t, token_ok ln t -> type t <> TOK_NEWLINE -> tokens_ok ln [t] ln) as Hone.
  { intros t Ht Hn. econstructor; [done|]. rewrite decide_False by done. constructor. }
  assert (forall t, In t [TOK_NEWLINE; TOK_COMMA; TOK_COLON; TOK_LBRACKET; TOK_RBRACKET] ->
    t <> TOK_NEWLINE -> tokens_ok ln [simple_token t ln] ln) as Hpunct.
  { intros t Hin Hn. apply Hone; [by constructor|done]. }
  unfold lex_iter, set_error. intros H.
  do 2 (case_match; [simplify_eq; constructor|]).
  case_match.
  { simplify_eq. econstructor; [constructor; simpl; tauto|]. simpl. constructor. }
  do 4 (case_match; [simplify_eq; apply Hpunct; simpl; tauto || done|]).
  case_match.
  { pose proof (span_Forall isalpha p) as Hs. destruct (span isalpha p) as [s r].
    case_decide; simplify_eq/=. apply Hone; [by constructor|done]. }
  case_match.
  { destruct (lex_string ln p []) as [[s r]| |]; simplify_eq/=. apply Hone; [constructor|done]. }
  case_match.
  { destruct (lex_number ln (c :: p)) as [[v r]| |] eqn:E; simplify_eq/=.
    apply Hone; [constructor; by eapply lex_number_range|done]. }
  case_match; [|done].
  pose proof (span_Forall ident_char p) as Hs. simpl in H.
  assert (ident_char c = true) as Ec by chars. rewrite Ec in H.
  destruct (span ident_char p) as [s r]. simplify_eq/=. apply Hone; [by constructor|done].
Qed.

Lemma tokens_ok_app l1 t1 l2 t2 l3 : tokens_ok l1 t1 l2 -> tokens_ok l2 t2 l3 -> tokens_ok l1 (t1 ++ t2) l3.
Proof. induction 1 as [|ln t toks ln' Ht _ IH]; intros H2; [done|]. econstructor; [done|by apply IH]. Qed.

Lemma lexes_tokens p ln toks q ln' : lexes p ln toks q ln' -> tokens_ok ln toks ln'.
Proof.
  induction 1 as [|c p ln toks q ln1 toks' q' ln2 Hi _ IH]; [constructor|].
  eapply tokens_ok_app; [by eapply lex_iter_tokens|exact IH].
Qed.

Lemma tokens_ok_no_eof ln toks ln' : tokens_ok ln toks ln' -> Forall (fun t => type t <> TOK_EOF) toks.
Proof.
  induction 1 as [|ln t toks ln' Ht _ IH]; constructor; [|done].
  destruct Ht as [t H| | | |]; try done. by destruct H as [<-|[<-|[<-|[<-|[<-|[]]]]]].
Qed.
