(* ===== verification/Parser.v ===== *)
(** The two-pass assembler core: [src/assembler/parser.h] and
    [src/assembler/parser.c].

    Pass 1 ([build_statements]) parses the token list into statements, assigning
    addresses and collecting labels; pass 2 ([emit_statement]) resolves labels and
    writes bytes into the two 64 KB section buffers. The first error ends either
    pass, which the C code expresses with [had_error] and boolean results and the
    model with the [res] monad ([Err] carries the line and message). A write
    outside a section buffer is undefined behaviour. *)

From S2P Require Import Prelude CLib Memory Instruction Symtab Lexer.
Open Scope Z_scope.

(** ** Statements *)

Inductive OperandKind : Type :=
| OPKIND_NONE
| OPKIND_REG (reg_index : Z)
| OPKIND_REG_INDIRECT (reg_index : Z)
| OPKIND_NUMBER (number : Z)
| OPKIND_MEM_NUMBER (number : Z)
| OPKIND_LABEL (label : list Z)
| OPKIND_MEM_LABEL (label : list Z).

Record ParsedOperand : Type := mkPOp { op_kind : OperandKind; op_line : Z }.

(** [ParsedOperand op = {0}]. *)
Definition no_operand : ParsedOperand := mkPOp OPKIND_NONE 0.

(** The tagged union of a statement: the kind with the fields it uses. *)
Inductive StmtKind : Type :=
| STMT_LABEL (label_name : list Z)
| STMT_INSTRUCTION (opcode : Opcode) (operand_count : Z) (op1 op2 : ParsedOperand)
    (op1_mode op2_mode : AddrMode)
| STMT_ORG
| STMT_DATA_SECTION
| STMT_STRING (string_bytes : list Z)
| STMT_WORD (word_operand : ParsedOperand)
| STMT_BYTE (byte_operand : ParsedOperand).

Record Statement : Type := mkStmt {
  kind : StmtKind;
  st_line : Z;
  in_data : bool;
  st_address : Z;
  encoded_size : Z;
}.

(** ** Mnemonics, registers, system calls *)

Definition MNEMONICS : list (list Z * Opcode) :=
  [(str "NOP", OP_NOP); (str "MOV", OP_MOV); (str "ADD", OP_ADD); (str "SUB", OP_SUB);
   (str "MUL", OP_MUL); (str "DIV", OP_DIV); (str "MOD", OP_MOD); (str "AND", OP_AND);
   (str "OR", OP_OR); (str "XOR", OP_XOR); (str "NOT", OP_NOT); (str "SHL", OP_SHL);
   (str "SHR", OP_SHR); (str "LOAD", OP_LOAD); (str "STORE", OP_STORE); (str "PUSH", OP_PUSH);
   (str "POP", OP_POP); (str "CMP", OP_CMP); (str "JMP", OP_JMP); (str "JZ", OP_JZ);
   (str "JNZ", OP_JNZ); (str "JG", OP_JG); (str "JGE", OP_JGE); (str "JL", OP_JL);
   (str "JLE", OP_JLE); (str "JB", OP_JB); (str "JAE", OP_JAE); (str "JA", OP_JA);
   (str "JBE", OP_JBE); (str "CALL", OP_CALL); (str "RET", OP_RET); (str "SYS", OP_SYS);
   (str "HALT", OP_HALT)].

Definition SYSCALLS : list (list Z * Z) :=
  [(str "PRINT_INT", 0x01); (str "PRINT_CHAR", 0x02); (str "READ_INT", 0x03); (str "EXIT", 0x04)].

Fixpoint ident_equals (ident keyword : list Z) : bool :=
  match ident, keyword with
  | c :: ident, k :: keyword => (tolower c =? tolower k) && ident_equals ident keyword
  | [], [] => true
  | _, _ => false
  end.

(** The first table entry whose name matches. *)
Fixpoint table_find {A} (table : list (list Z * A)) (ident : list Z) : option A :=
  match table with
  | [] => None
  | (n, a) :: table => if ident_equals ident n then Some a else table_find table ident
  end.

Definition lookup_mnemonic (ident : list Z) : option Opcode := table_find MNEMONICS ident.

Definition try_syscall_name (ident : list Z) : option Z := table_find SYSCALLS ident.

(** The digit loop of [try_parse_register]: the value and the rest of the
    identifier where the loop stopped. *)
Fixpoint register_digits (digits : list Z) (value : Z) : Z * list Z :=
  match digits with
  | c :: digits' =>
      if isdigit c then
        let value := value * 10 + (c - 48) in
        if 999 <? value then (value, digits') else register_digits digits' value
      else (value, digits)
  | [] => (value, [])
  end.

Definition try_parse_register (ident : list Z) : option Z :=
  match ident with
  | c :: digits =>
      if negb (c =? 82) && negb (c =? 114) then None
      else if negb (starts_with isdigit digits) then None
      else
        let '(value, rest) := register_digits digits 0 in
        if decide (rest = []) then Some value else None
  | [] => None
  end.

(** ** Parser state

    The position in the token list, as the current token and those after it; the
    list always ends in a [TOK_EOF], which [advance] does not pass. *)
Record Parser : Type := mkParser { cur : Token; rest : list Token }.

Definition advance (ps : Parser) : Parser :=
  match rest ps with
  | [] => ps
  | t :: r => mkParser t r
  end.

(** [fail] on a parser without an error so far: [vsnprintf] into [char error[256]]. *)
Definition fail {A} (ln : Z) (msg : list Z) : res A := Err ln (clip 256 msg).

Record SectionState : Type := mkSec {
  sec_in_data : bool;
  data_seen : bool;
  code_cursor : Z;
  data_cursor : Z;
  code_started : bool;
  data_started : bool;
  code_start_addr : Z;
  data_start_addr : Z;
}.

Definition sec_init : SectionState := mkSec false false 0 0 false false 0 0.

Definition active_cursor (sec : SectionState) : Z :=
  if sec_in_data sec then data_cursor sec else code_cursor sec.

Definition set_active_cursor (sec : SectionState) (v : Z) : SectionState :=
  if sec_in_data sec then
    mkSec (sec_in_data sec) (data_seen sec) (code_cursor sec) v (code_started sec)
      (data_started sec) (code_start_addr sec) (data_start_addr sec)
  else
    mkSec (sec_in_data sec) (data_seen sec) v (data_cursor sec) (code_started sec)
      (data_started sec) (code_start_addr sec) (data_start_addr sec).

Definition note_section_start (sec : SectionState) (in_data : bool) (address : Z) : SectionState :=
  if in_data then
    if negb (data_started sec) then
      mkSec (sec_in_data sec) (data_seen sec) (code_cursor sec) (data_cursor sec)
        (code_started sec) true (code_start_addr sec) address
    else sec
  else
    if negb (code_started sec) then
      mkSec (sec_in_data sec) (data_seen sec) (code_cursor sec) (data_cursor sec)
        true (data_started sec) address (data_start_addr sec)
    else sec.

(** ** Operands *)

Definition parse_operand (ps : Parser) (context_opcode : Opcode) : res (ParsedOperand * Parser) :=
  let ln := line (cur ps) in
  if decide (type (cur ps) = TOK_LBRACKET) then
    let ps := advance ps in
    '(k, ps) ←
      (if decide (type (cur ps) = TOK_IDENT) then
         match try_parse_register (text (cur ps)) with
         | Some reg_index => Ok (OPKIND_REG_INDIRECT reg_index, advance ps)
         | None => Ok (OPKIND_MEM_LABEL (text (cur ps)), advance ps)
         end
       else if decide (type (cur ps) = TOK_NUMBER) then
         Ok (OPKIND_MEM_NUMBER (num_value (cur ps)), advance ps)
       else fail (line (cur ps)) (str "expected a register, number, or label inside '['"));
    if decide (type (cur ps) = TOK_RBRACKET) then Ok (mkPOp k ln, advance ps)
    else fail (line (cur ps)) (str "expected ']'")
  else if decide (type (cur ps) = TOK_IDENT) then
    match try_parse_register (text (cur ps)) with
    | Some reg_index => Ok (mkPOp (OPKIND_REG reg_index) ln, advance ps)
    | None =>
        match (if decide (context_opcode = OP_SYS) then try_syscall_name (text (cur ps)) else None) with
        | Some code => Ok (mkPOp (OPKIND_NUMBER code) ln, advance ps)
        | None => Ok (mkPOp (OPKIND_LABEL (text (cur ps))) ln, advance ps)
        end
    end
  else if decide (type (cur ps) = TOK_NUMBER) then
    Ok (mkPOp (OPKIND_NUMBER (num_value (cur ps))) ln, advance ps)
  else fail (line (cur ps)) (str "expected an operand (register, number, label, or '[...]')").

(** A message written with [snprintf] into [char errbuf[128]]. *)
Definition errbuf (msg : list Z) : list Z := clip 128 msg.

Definition has_mode (mask : Z) (m : AddrMode) : bool := negb (Z.land mask (MODE_BIT m) =? 0).

Definition out_of_range_register (reg_index : Z) : list Z :=
  errbuf (str "register index R" ++ fmt_d reg_index ++ str " is out of range (must be R0-R7)").

(** The addressing mode, or the message left in [err]. *)
Definition resolve_operand_mode (op : ParsedOperand) (legal_mask : Z) : list Z + AddrMode :=
  match op_kind op with
  | OPKIND_REG reg_index =>
      if negb (has_mode legal_mask MODE_REG) then
        inl (errbuf (str "a register is not a legal operand here"))
      else if (reg_index <? 0) || (7 <? reg_index) then inl (out_of_range_register reg_index)
      else inr MODE_REG
  | OPKIND_REG_INDIRECT reg_index =>
      if negb (has_mode legal_mask MODE_REG_INDIRECT) then
        inl (errbuf (str "a register-indirect [Rn] operand is not legal here"))
      else if (reg_index <? 0) || (7 <? reg_index) then inl (out_of_range_register reg_index)
      else inr MODE_REG_INDIRECT
  | OPKIND_MEM_NUMBER _ | OPKIND_MEM_LABEL _ =>
      if negb (has_mode legal_mask MODE_MEM_DIRECT) then
        inl (errbuf (str "a [address] operand is not legal here"))
      else inr MODE_MEM_DIRECT
  | OPKIND_NUMBER _ | OPKIND_LABEL _ =>
      let mem_and_indirect := u8 (Z.lor (Z.shiftl 1 3) (Z.shiftl 1 4)) in
      if legal_mask =? mem_and_indirect then
        inl (errbuf (str "this operand must be a memory reference in brackets, e.g. [addr] or [Rn]"))
      else if has_mode legal_mask MODE_IMM16 then inr MODE_IMM16
      else if has_mode legal_mask MODE_MEM_DIRECT then inr MODE_MEM_DIRECT
      else if has_mode legal_mask MODE_IMM8 then inr MODE_IMM8
      else inl (errbuf (str "no immediate or address form of this operand is legal here"))
  | OPKIND_NONE => inl (errbuf (str "internal error: unresolved operand kind"))
  end.

Definition mode_byte_size (m : AddrMode) : Z :=
  match m with
  | MODE_NONE => 0
  | MODE_REG | MODE_REG_INDIRECT | MODE_IMM8 => 1
  | MODE_IMM16 | MODE_MEM_DIRECT => 2
  | MODE_RESERVED _ => 0
  end.

(** ** Pass 1: statements, addresses and labels *)

Definition ends_line (t : Token) : bool :=
  match type t with TOK_NEWLINE | TOK_EOF => true | _ => false end.

(** The operands of an instruction: their number, and the two. *)
Definition parse_operands (ps : Parser) (opcode : Opcode)
  : res (Z * ParsedOperand * ParsedOperand * Parser) :=
  if ends_line (cur ps) then Ok (0, no_operand, no_operand, ps)
  else
    '(op1, ps) ← parse_operand ps opcode;
    if decide (type (cur ps) = TOK_COMMA) then
      '(op2, ps) ← parse_operand (advance ps) opcode;
      Ok (2, op1, op2, ps)
    else Ok (1, op1, no_operand, ps).

(** The two operand masks of an opcode ([instruction_opcode_modes] into two
    variables initialised to 0). *)
Definition opcode_masks (opcode : Opcode) : Z * Z :=
  default (0, 0) (instruction_opcode_modes opcode).

Definition expected_operands (op1_modes op2_modes : Z) : Z :=
  let modes_none := u8 (Z.shiftl 1 0) in
  if op1_modes =? modes_none then 0 else if op2_modes =? modes_none then 1 else 2.

(** [if (wanted) resolve_operand_mode(...) else MODE_NONE]. *)
Definition operand_mode (wanted : bool) (op : ParsedOperand) (modes : Z) : res AddrMode :=
  if wanted then
    match resolve_operand_mode op modes with
    | inl msg => fail (op_line op) msg
    | inr m => Ok m
    end
  else Ok MODE_NONE.

(** Appending a statement that occupies [size] bytes at the active cursor. *)
Definition place (stmts : list Statement) (sec : SectionState) (k : StmtKind) (ln size : Z)
  : list Statement * SectionState :=
  let st := mkStmt k ln (sec_in_data sec) (active_cursor sec) size in
  let sec := note_section_start sec (in_data st) (st_address st) in
  let sec := set_active_cursor sec (u16 (active_cursor sec + size)) in
  (stmts ++ [st], sec).

Definition parse_instruction_statement (ps : Parser) (stmts : list Statement) (sec : SectionState)
  (opcode : Opcode) (ln : Z) : res (Parser * list Statement * SectionState) :=
  '(operand_count, op1, op2, ps) ← parse_operands ps opcode;
  let '(op1_modes, op2_modes) := opcode_masks opcode in
  let expected_count := expected_operands op1_modes op2_modes in
  if negb (operand_count =? expected_count) then
    fail ln (str "expected " ++ fmt_d expected_count ++ str " operand(s), got " ++ fmt_d operand_count)
  else
    op1_mode ← operand_mode (1 <=? expected_count) op1 op1_modes;
    op2_mode ← operand_mode (2 <=? expected_count) op2 op2_modes;
    let size := 2 + mode_byte_size op1_mode + mode_byte_size op2_mode in
    let '(stmts, sec) :=
      place stmts sec (STMT_INSTRUCTION opcode operand_count op1 op2 op1_mode op2_mode) ln size in
    Ok (ps, stmts, sec).

Definition parse_org (ps : Parser) (stmts : list Statement) (sec : SectionState) (ln : Z)
  : res (Parser * list Statement * SectionState) :=
  if negb (bool_decide (type (cur ps) = TOK_NUMBER)) then fail ln (str ".org requires a numeric address")
  else
    let value := num_value (cur ps) in
    let ps := advance ps in
    if (value <? 0) || (0xFFFF <? value) then
      fail ln (str ".org value " ++ fmt_d value ++ str " is out of range (must be 0-65535)")
    else if u16 value <? active_cursor sec then
      fail ln (str ".org would move the address counter backward (currently at 0x" ++
               fmt_04X (active_cursor sec) ++ str ", requested 0x" ++ fmt_04X value ++ str ")")
    else
      Ok (ps, stmts ++ [mkStmt STMT_ORG ln false 0 0], set_active_cursor sec (u16 value)).

Definition parse_data (ps : Parser) (stmts : list Statement) (sec : SectionState) (ln : Z)
  : res (Parser * list Statement * SectionState) :=
  if data_seen sec then fail ln (str ".data may only appear once")
  else
    let sec := mkSec true true (code_cursor sec) (code_cursor sec) (code_started sec)
                 (data_started sec) (code_start_addr sec) (data_start_addr sec) in
    Ok (ps, stmts ++ [mkStmt STMT_DATA_SECTION ln false 0 0], sec).

Definition parse_string (ps : Parser) (stmts : list Statement) (sec : SectionState) (ln : Z)
  : res (Parser * list Statement * SectionState) :=
  if negb (bool_decide (type (cur ps) = TOK_STRING)) then
    fail ln (str ".string requires a quoted string literal")
  else
    let bytes := str_value (cur ps) in
    let '(stmts, sec) := place stmts sec (STMT_STRING bytes) ln (zlen bytes + 1) in
    Ok (advance ps, stmts, sec).

Definition is_number_or_label (op : ParsedOperand) : bool :=
  match op_kind op with OPKIND_NUMBER _ | OPKIND_LABEL _ => true | _ => false end.

Definition is_number (op : ParsedOperand) : bool :=
  match op_kind op with OPKIND_NUMBER _ => true | _ => false end.

Definition parse_word (ps : Parser) (stmts : list Statement) (sec : SectionState) (ln : Z)
  : res (Parser * list Statement * SectionState) :=
  '(operand, ps) ← parse_operand ps OP_NOP;
  if negb (is_number_or_label operand) then fail ln (str ".word requires a number or a label")
  else
    let '(stmts, sec) := place stmts sec (STMT_WORD operand) ln 2 in
    Ok (ps, stmts, sec).

Definition parse_byte (ps : Parser) (stmts : list Statement) (sec : SectionState) (ln : Z)
  : res (Parser * list Statement * SectionState) :=
  '(operand, ps) ← parse_operand ps OP_NOP;
  if negb (is_number operand) then fail ln (str ".byte requires a plain number (0-255)")
  else
    let '(stmts, sec) := place stmts sec (STMT_BYTE operand) ln 1 in
    Ok (ps, stmts, sec).

Definition parse_directive_statement (ps : Parser) (stmts : list Statement) (sec : SectionState)
  (directive_name : list Z) (ln : Z) : res (Parser * list Statement * SectionState) :=
  let ps := advance ps in
  if ident_equals directive_name (str "org") then parse_org ps stmts sec ln
  else if ident_equals directive_name (str "data") then parse_data ps stmts sec ln
  else if ident_equals directive_name (str "string") then parse_string ps stmts sec ln
  else if ident_equals directive_name (str "word") then parse_word ps stmts sec ln
  else if ident_equals directive_name (str "byte") then parse_byte ps stmts sec ln
  else fail ln (str "unknown directive '." ++ directive_name ++ str "'").

(** What pass 1 carries along. *)
Definition Pass1 : Type := Parser * list Statement * SymbolTable * SectionState.

(** The statement behind an optional label. *)
Definition parse_statement (ps : Parser) (stmts : list Statement) (symtab : SymbolTable)
  (sec : SectionState) : res Pass1 :=
  if decide (type (cur ps) = TOK_DIRECTIVE) then
    '(ps, stmts, sec) ← parse_directive_statement ps stmts sec (text (cur ps)) (line (cur ps));
    Ok (ps, stmts, symtab, sec)
  else if decide (type (cur ps) = TOK_IDENT) then
    let ln := line (cur ps) in
    let mnemonic := text (cur ps) in
    match lookup_mnemonic mnemonic with
    | None => fail ln (str "unknown mnemonic '" ++ mnemonic ++ str "'")
    | Some opcode =>
        '(ps, stmts, sec) ← parse_instruction_statement (advance ps) stmts sec opcode ln;
        Ok (ps, stmts, symtab, sec)
    end
  else fail (line (cur ps)) (str "expected a label, directive, or instruction").

Definition parse_line (ps : Parser) (stmts : list Statement) (symtab : SymbolTable)
  (sec : SectionState) : res Pass1 :=
  if decide (type (cur ps) = TOK_IDENT /\ type (cur (advance ps)) = TOK_COLON) then
    let name := text (cur ps) in
    let name_line := line (cur ps) in
    let ps := advance (advance ps) in
    let addr := active_cursor sec in
    match symtab_define symtab name addr with
    | None => fail name_line (str "label '" ++ name ++ str "' is already defined")
    | Some symtab =>
        let stmts := stmts ++ [mkStmt (STMT_LABEL name) name_line false addr 0] in
        if ends_line (cur ps) then Ok (ps, stmts, symtab, sec)
        else parse_statement ps stmts symtab sec
    end
  else parse_statement ps stmts symtab sec.

(** The loop over lines; [None] is out of fuel. *)
Fixpoint build_loop (fuel : nat) (ps : Parser) (stmts : list Statement) (symtab : SymbolTable)
  (sec : SectionState) : option (res Pass1) :=
  if decide (type (cur ps) = TOK_EOF) then Some (Ok (ps, stmts, symtab, sec))
  else
    match fuel with
    | O => None
    | S fuel =>
        if decide (type (cur ps) = TOK_NEWLINE) then build_loop fuel (advance ps) stmts symtab sec
        else
          match parse_line ps stmts symtab sec with
          | Ok (ps, stmts, symtab, sec) =>
              if decide (type (cur ps) = TOK_NEWLINE) then
                build_loop fuel (advance ps) stmts symtab sec
              else if negb (bool_decide (type (cur ps) = TOK_EOF)) then
                Some (fail (line (cur ps)) (str "expected end of line"))
              else build_loop fuel ps stmts symtab sec
          | Err l m => Some (Err l m)
          | UB => Some UB
          end
    end.

Definition build_statements (ps : Parser) : res Pass1 :=
  '(ps, stmts, symtab, sec) ←
    default UB (build_loop (S (length (rest ps))) ps [] symtab_init sec_init);
  if negb (code_started sec) then
    fail (line (cur ps)) (str "program contains no instructions or code-section data")
  else Ok (ps, stmts, symtab, sec).

(** ** Pass 2: resolving labels and emitting bytes *)

(** [target[i] = value] on [uint8_t target[65536]]. *)
Definition buf_write (target : Memory) (i value : Z) : res Memory :=
  if (0 <=? i) && (i <? 65536) then Ok (mem_write8 target i value) else UB.

(** [memcpy(&target[i], bytes, len)]. *)
Fixpoint buf_copy (target : Memory) (i : Z) (bytes : list Z) : res Memory :=
  match bytes with
  | [] => Ok target
  | b :: bytes => target ← buf_write target i b; buf_copy target (i + 1) bytes
  end.

(** [set_result_error]: into [char error[256]]. *)
Definition set_result_error {A} (ln : Z) (msg : list Z) : res A := Err ln (clip 256 msg).

(** The value of an operand, or the message left in [err]. *)
Definition resolve_value (op : ParsedOperand) (symtab : SymbolTable) : list Z + Z :=
  match op_kind op with
  | OPKIND_REG reg_index | OPKIND_REG_INDIRECT reg_index => inr reg_index
  | OPKIND_NUMBER number | OPKIND_MEM_NUMBER number => inr number
  | OPKIND_LABEL label | OPKIND_MEM_LABEL label =>
      match symtab_lookup symtab label with
      | Some addr => inr addr
      | None => inl (errbuf (str "undefined label '" ++ label ++ str "'"))
      end
  | OPKIND_NONE => inr 0
  end.

(** [None] when the value is in range, else the message left in [err]. *)
Definition range_check (m : AddrMode) (value : Z) : option (list Z) :=
  match m with
  | MODE_IMM16 | MODE_MEM_DIRECT =>
      if (value <? -32768) || (65535 <? value) then
        Some (errbuf (str "immediate value " ++ fmt_d value ++ str " is out of range (-32768 to 65535)"))
      else None
  | MODE_IMM8 =>
      if (value <? 0) || (255 <? value) then
        Some (errbuf (str "immediate value " ++ fmt_d value ++ str " is out of range (0 to 255)"))
      else None
  | MODE_REG | MODE_REG_INDIRECT | MODE_NONE => None
  | MODE_RESERVED _ => None
  end.

(** The buffer and the advanced [*addr]. *)
Definition emit_operand_bytes (target : Memory) (addr : Z) (m : AddrMode) (value : Z)
  : res (Memory * Z) :=
  match m with
  | MODE_NONE => Ok (target, addr)
  | MODE_REG | MODE_REG_INDIRECT | MODE_IMM8 =>
      target ← buf_write target addr (u8 value);
      Ok (target, u16 (addr + 1))
  | MODE_IMM16 | MODE_MEM_DIRECT =>
      let v16 := u16 value in
      target ← buf_write target addr (u8 (Z.land v16 0xFF));
      target ← buf_write target (addr + 1) (u8 (Z.shiftr v16 8));
      Ok (target, u16 (addr + 2))
  | MODE_RESERVED _ => Ok (target, addr)
  end.

(** [if (wanted) { resolve_value(...); range_check(...) }] of one operand. *)
Definition operand_value (wanted : bool) (op : ParsedOperand) (m : AddrMode) (symtab : SymbolTable)
  : res Z :=
  if wanted then
    match resolve_value op symtab with
    | inl msg => set_result_error (op_line op) msg
    | inr v =>
        match range_check m v with
        | Some msg => set_result_error (op_line op) msg
        | None => Ok v
        end
    end
  else Ok 0.

Definition emit_instruction (st : Statement) (symtab : SymbolTable) (target : Memory)
  (opcode : Opcode) (operand_count : Z) (op1 op2 : ParsedOperand) (op1_mode op2_mode : AddrMode)
  : res Memory :=
  v1 ← operand_value (1 <=? operand_count) op1 op1_mode symtab;
  v2 ← operand_value (2 <=? operand_count) op2 op2_mode symtab;
  let addr := st_address st in
  target ← buf_write target addr (u8 (opcode_value opcode));
  target ← buf_write target (addr + 1)
    (u8 (Z.lor (Z.shiftl (mode_value op1_mode) 4) (mode_value op2_mode)));
  let addr := u16 (addr + 2) in
  '(target, addr) ← emit_operand_bytes target addr op1_mode v1;
  '(target, addr) ← emit_operand_bytes target addr op2_mode v2;
  Ok target.

(** The bytes a statement writes into its section's buffer. *)
Definition emit_into (st : Statement) (symtab : SymbolTable) (target : Memory) : res Memory :=
  match kind st with
  | STMT_LABEL _ | STMT_ORG | STMT_DATA_SECTION => Ok target
  | STMT_STRING bytes =>
      target ← buf_copy target (st_address st) bytes;
      buf_write target (st_address st + zlen bytes) 0
  | STMT_WORD operand =>
      match resolve_value operand symtab with
      | inl msg => set_result_error (st_line st) msg
      | inr value =>
          let v16 := u16 value in
          target ← buf_write target (st_address st) (u8 (Z.land v16 0xFF));
          buf_write target (st_address st + 1) (u8 (Z.shiftr v16 8))
      end
  | STMT_BYTE operand =>
      let value := match op_kind operand with OPKIND_NUMBER n => n | _ => 0 end in
      if (value <? 0) || (255 <? value) then
        set_result_error (st_line st)
          (str ".byte value " ++ fmt_d value ++ str " is out of range (0-255)")
      else buf_write target (st_address st) (u8 value)
  | STMT_INSTRUCTION opcode operand_count op1 op2 op1_mode op2_mode =>
      emit_instruction st symtab target opcode operand_count op1 op2 op1_mode op2_mode
  end.

Record ParseResult : Type := mkResult {
  code : Memory;
  code_addr : Z;
  code_size : Z;
  data : Memory;
  data_addr : Z;
  data_size : Z;
  entry_point : Z;
}.

(** The section buffers being filled. *)
Record Buffers : Type := mkBuf { buf_code : Memory; buf_data : Memory }.

Definition emit_statement (st : Statement) (symtab : SymbolTable) (b : Buffers) : res Buffers :=
  if in_data st then
    target ← emit_into st symtab (buf_data b); Ok (mkBuf (buf_code b) target)
  else
    target ← emit_into st symtab (buf_code b); Ok (mkBuf target (buf_data b)).

Fixpoint emit_statements (stmts : list Statement) (symtab : SymbolTable) (b : Buffers) : res Buffers :=
  match stmts with
  | [] => Ok b
  | st :: stmts => b ← emit_statement st symtab b; emit_statements stmts symtab b
  end.

Definition empty_buffer : Memory := mkMemory ∅.

(** ** Top level *)

Definition assemble_tokens (tokens : list Token) : res ParseResult :=
  match tokens with
  | [] => UB
  | t :: tokens =>
      '(ps, stmts, symtab, sec) ← build_statements (mkParser t tokens);
      b ← emit_statements stmts symtab (mkBuf empty_buffer empty_buffer);
      Ok (mkResult (buf_code b) (code_start_addr sec) (u16 (code_cursor sec - code_start_addr sec))
            (buf_data b) (data_start_addr sec)
            (if data_started sec then u16 (data_cursor sec - data_start_addr sec) else 0)
            (code_start_addr sec))
  end.
