(* ===== verification/Syntax.v ===== *)
(** The assembly language, specified: a grammar on tokens, a static semantics and a
    meaning.

    The grammar is three relations, for operands, lines and programs, and derives a
    list of [Item]s. [lay_items] assigns addresses to items and labels with unbounded
    counters, and [spec_image] writes the image. Nothing here refers to how
    [parser.c] goes about it.

    What is a register is a parameter of the grammar. Section 11 of [docs/DESIGN.md] has
    any number of digits; the language as it is implemented stops at four, and takes a
    [.word] out of range modulo 2^16 besides, which section 11 makes an error. The
    relations without a parameter, and [spec_assemble], are the language as implemented:
    [SyntaxFacts] and [AsmSpec] prove that the assembler is an implementation of it, and
    the theorems about errors, types and meaning are about it. [Section11] has the
    language of the document, and where the two differ. *)

From S2P Require Import Prelude CLib Memory Instruction Lexer Parser.
Open Scope Z_scope.

(** ** Words

    Mnemonics, directives and system calls are words in any case; a register is an R
    with a decimal number (its range is checked with the operand). *)

Definition same_word (a b : list Z) : Prop := map tolower a = map tolower b.

#[export] Instance same_word_dec a b : Decision (same_word a b).
Proof. unfold same_word. apply _. Defined.

Definition names {A} (table : list (list Z * A)) (w : list Z) (a : A) : Prop :=
  exists n, In (n, a) table /\ same_word w n.

(** The registers of section 11. *)
Definition register_11 (w : list Z) (n : Z) : Prop :=
  exists c ds, w = c :: ds /\ (c = 82 \/ c = 114) /\ ds <> [] /\
    Forall (fun d => isdigit d = true) ds /\ dec_value 0 ds = n.

(** As implemented: of four digits at most, apart from leading zeros. *)
Definition register_word (w : list Z) (n : Z) : Prop :=
  exists c ds, w = c :: ds /\ (c = 82 \/ c = 114) /\ ds <> [] /\
    Forall (fun d => isdigit d = true) ds /\ dec_value 0 ds = n /\ n <= 9999.

(** ** Abstract syntax *)

Inductive Item : Type :=
| I_label (name : list Z) (ln : Z)
| I_instr (op : Opcode) (operands : list ParsedOperand) (ln : Z)
| I_org (v ln : Z)
| I_data (ln : Z)
| I_string (bytes : list Z) (ln : Z)
| I_word (operand : ParsedOperand) (ln : Z)
| I_byte (operand : ParsedOperand) (ln : Z).

Definition item_line (it : Item) : Z :=
  match it with
  | I_label _ ln | I_instr _ _ ln | I_org _ ln | I_data ln | I_string _ ln | I_word _ ln
  | I_byte _ ln => ln
  end.

(** ** Grammar *)

Definition directive (t : Token) (d : list Z) : Prop := type t = TOK_DIRECTIVE /\ same_word (text t) d.

Section grammar.
Context (reg : list Z -> Z -> Prop).

Definition not_register_of (w : list Z) : Prop := forall n, ~ reg w n.

(** An operand; [sys] is whether system call names are words of this position. *)
Inductive operand_syntax_of (sys : Prop) : list Token -> ParsedOperand -> Prop :=
| os_register t n : type t = TOK_IDENT -> reg (text t) n ->
    operand_syntax_of sys [t] (mkPOp (OPKIND_REG n) (line t))
| os_syscall t c : type t = TOK_IDENT -> not_register_of (text t) -> sys -> names SYSCALLS (text t) c ->
    operand_syntax_of sys [t] (mkPOp (OPKIND_NUMBER c) (line t))
| os_label t : type t = TOK_IDENT -> not_register_of (text t) ->
    (sys -> forall c, ~ names SYSCALLS (text t) c) ->
    operand_syntax_of sys [t] (mkPOp (OPKIND_LABEL (text t)) (line t))
| os_number t : type t = TOK_NUMBER ->
    operand_syntax_of sys [t] (mkPOp (OPKIND_NUMBER (num_value t)) (line t))
| os_indirect l t r n : type l = TOK_LBRACKET -> type t = TOK_IDENT -> type r = TOK_RBRACKET ->
    reg (text t) n ->
    operand_syntax_of sys [l; t; r] (mkPOp (OPKIND_REG_INDIRECT n) (line l))
| os_mem_label l t r : type l = TOK_LBRACKET -> type t = TOK_IDENT -> type r = TOK_RBRACKET ->
    not_register_of (text t) ->
    operand_syntax_of sys [l; t; r] (mkPOp (OPKIND_MEM_LABEL (text t)) (line l))
| os_mem_number l t r : type l = TOK_LBRACKET -> type t = TOK_NUMBER -> type r = TOK_RBRACKET ->
    operand_syntax_of sys [l; t; r] (mkPOp (OPKIND_MEM_NUMBER (num_value t)) (line l)).

(** None, one, or two operands with a comma. *)
Inductive operands_syntax_of (sys : Prop) : list Token -> list ParsedOperand -> Prop :=
| oss_none : operands_syntax_of sys [] []
| oss_one ts o : operand_syntax_of sys ts o -> operands_syntax_of sys ts [o]
| oss_two ts1 o1 c ts2 o2 : operand_syntax_of sys ts1 o1 -> type c = TOK_COMMA ->
    operand_syntax_of sys ts2 o2 -> operands_syntax_of sys (ts1 ++ c :: ts2) [o1; o2].

Inductive item_syntax_of : list Token -> Item -> Prop :=
| is_instr t op ts os : type t = TOK_IDENT -> names MNEMONICS (text t) op ->
    operands_syntax_of (op = OP_SYS) ts os -> item_syntax_of (t :: ts) (I_instr op os (line t))
| is_org t n : directive t (str "org") -> type n = TOK_NUMBER ->
    item_syntax_of [t; n] (I_org (num_value n) (line t))
| is_data t : directive t (str "data") -> item_syntax_of [t] (I_data (line t))
| is_string t s : directive t (str "string") -> type s = TOK_STRING ->
    item_syntax_of [t; s] (I_string (str_value s) (line t))
| is_word t ts o : directive t (str "word") -> operand_syntax_of False ts o -> is_number_or_label o = true ->
    item_syntax_of (t :: ts) (I_word o (line t))
| is_byte t ts o : directive t (str "byte") -> operand_syntax_of False ts o -> is_number o = true ->
    item_syntax_of (t :: ts) (I_byte o (line t)).

(** A line: nothing, a label, an item, or a label and an item. *)
Inductive line_syntax_of : list Token -> list Item -> Prop :=
| ls_empty : line_syntax_of [] []
| ls_label t c : type t = TOK_IDENT -> type c = TOK_COLON ->
    line_syntax_of [t; c] [I_label (text t) (line t)]
| ls_item ts it : item_syntax_of ts it -> line_syntax_of ts [it]
| ls_both t c ts it : type t = TOK_IDENT -> type c = TOK_COLON -> item_syntax_of ts it ->
    line_syntax_of (t :: c :: ts) [I_label (text t) (line t); it].

Inductive program_syntax_of : list Token -> list Item -> Prop :=
| ps_last ts items e : line_syntax_of ts items -> type e = TOK_EOF -> program_syntax_of (ts ++ [e]) items
| ps_line ts items n rest items' : line_syntax_of ts items -> type n = TOK_NEWLINE ->
    program_syntax_of rest items' -> program_syntax_of (ts ++ n :: rest) (items ++ items').
End grammar.

(** The grammar as implemented. *)
Abbreviation not_register := (not_register_of register_word).
Abbreviation operand_syntax := (operand_syntax_of register_word).
Abbreviation operands_syntax := (operands_syntax_of register_word).
Abbreviation item_syntax := (item_syntax_of register_word).
Abbreviation line_syntax := (line_syntax_of register_word).
Abbreviation program_syntax := (program_syntax_of register_word).

(** ** Static semantics *)

(** The addressing mode of an operand at a position with the given legal modes
    (sections 7.3 and 11.1): brackets and registers say it themselves; a bare number
    or label is an immediate word if that is legal, else an address unless the
    position also takes [[Rn]], else an immediate byte. *)
Definition operand_form (mask : Z) (k : OperandKind) : option AddrMode :=
  let legal m := mode_is_legal m mask in
  match k with
  | OPKIND_REG n => if legal MODE_REG && (0 <=? n) && (n <=? 7) then Some MODE_REG else None
  | OPKIND_REG_INDIRECT n =>
      if legal MODE_REG_INDIRECT && (0 <=? n) && (n <=? 7) then Some MODE_REG_INDIRECT else None
  | OPKIND_MEM_NUMBER _ | OPKIND_MEM_LABEL _ =>
      if legal MODE_MEM_DIRECT then Some MODE_MEM_DIRECT else None
  | OPKIND_NUMBER _ | OPKIND_LABEL _ =>
      if legal MODE_IMM16 then Some MODE_IMM16
      else if legal MODE_MEM_DIRECT then
        if legal MODE_REG_INDIRECT then None else Some MODE_MEM_DIRECT
      else if legal MODE_IMM8 then Some MODE_IMM8 else None
  | OPKIND_NONE => None
  end.

(** The modes of an instruction's operands, as many as the opcode takes. *)
Definition instr_form (op : Opcode) (os : list ParsedOperand) : option (AddrMode * AddrMode) :=
  let '(k1, k2) := opcode_masks op in
  match os with
  | [] => if (k1 =? MODES_NONE) && (k2 =? MODES_NONE) then Some (MODE_NONE, MODE_NONE) else None
  | [o1] =>
      if negb (k1 =? MODES_NONE) && (k2 =? MODES_NONE) then
        m1 ← operand_form k1 (op_kind o1); Some (m1, MODE_NONE)
      else None
  | [o1; o2] =>
      if negb (k1 =? MODES_NONE) && negb (k2 =? MODES_NONE) then
        m1 ← operand_form k1 (op_kind o1); m2 ← operand_form k2 (op_kind o2); Some (m1, m2)
      else None
  | _ => None
  end.

Definition mode_len (m : AddrMode) : Z := zlen (operand_bytes (mkOperand m 0)).

(** The bytes an item occupies; [None] when it is not well formed. *)
Definition item_len (it : Item) : option Z :=
  match it with
  | I_instr op os _ => '(m1, m2) ← instr_form op os; Some (2 + mode_len m1 + mode_len m2)
  | I_string bytes _ => Some (zlen bytes + 1)
  | I_word _ _ => Some 2
  | I_byte _ _ => Some 1
  | I_label _ _ | I_org _ _ | I_data _ => None
  end.

(** ** Layout *)

(** An item with its section (data or code) and address. *)
Record Placed : Type := mkPlaced { pl_data : bool; pl_addr : Z; pl_item : Item }.

Record Layout : Type := mkLayout {
  ly_data : bool;
  ly_code_next : Z;
  ly_data_next : Z;
  ly_labels : gmap (list Z) Z;
  ly_placed : list Placed;
}.

Definition ly_start : Layout := mkLayout false 0 0 ∅ [].

(** The address counter of the current section. *)
Definition ly_next (l : Layout) : Z := if ly_data l then ly_data_next l else ly_code_next l.

Definition ly_move (l : Layout) (v : Z) : Layout :=
  if ly_data l then mkLayout true (ly_code_next l) v (ly_labels l) (ly_placed l)
  else mkLayout false v (ly_data_next l) (ly_labels l) (ly_placed l).

(** A label is new; the counter only moves forward, inside 16 bits; the data section is
    entered once and starts where the code ends; an item ends below the top address. *)
Definition lay_item (it : Item) (l : Layout) : option Layout :=
  match it with
  | I_label n _ =>
      match ly_labels l !! n with
      | Some _ => None
      | None => Some (mkLayout (ly_data l) (ly_code_next l) (ly_data_next l)
                        (<[n := ly_next l]> (ly_labels l)) (ly_placed l))
      end
  | I_org v _ => if (ly_next l <=? v) && (v <=? 0xFFFF) then Some (ly_move l v) else None
  | I_data _ =>
      if ly_data l then None
      else Some (mkLayout true (ly_code_next l) (ly_code_next l) (ly_labels l) (ly_placed l))
  | _ =>
      n ← item_len it;
      if ly_next l + n <=? 0xFFFF then
        let l' := ly_move l (ly_next l + n) in
        Some (mkLayout (ly_data l') (ly_code_next l') (ly_data_next l') (ly_labels l')
                (ly_placed l ++ [mkPlaced (ly_data l) (ly_next l) it]))
      else None
  end.

Fixpoint lay_items (items : list Item) (l : Layout) : option Layout :=
  match items with
  | [] => Some l
  | it :: items => l ← lay_item it l; lay_items items l
  end.

(** ** Meaning *)

Definition kind_value (labels : gmap (list Z) Z) (k : OperandKind) : option Z :=
  match k with
  | OPKIND_REG n | OPKIND_REG_INDIRECT n | OPKIND_NUMBER n | OPKIND_MEM_NUMBER n => Some n
  | OPKIND_LABEL s | OPKIND_MEM_LABEL s => labels !! s
  | OPKIND_NONE => None
  end.

(** The immediate ranges of section 11.4. *)
Definition value_fits (m : AddrMode) (v : Z) : bool :=
  match m with
  | MODE_IMM16 | MODE_MEM_DIRECT => (-32768 <=? v) && (v <=? 65535)
  | MODE_IMM8 => (0 <=? v) && (v <=? 255)
  | _ => true
  end.

Definition operand_code (labels : gmap (list Z) Z) (m : AddrMode) (o : ParsedOperand) : option Operand :=
  v ← kind_value labels (op_kind o);
  if value_fits m v then
    Some (mkOperand m (match m with MODE_IMM16 | MODE_MEM_DIRECT => v mod 65536 | _ => v end))
  else None.

Definition NO_OPERAND : Operand := mkOperand MODE_NONE 0.

Definition instr_code (labels : gmap (list Z) Z) (op : Opcode) (os : list ParsedOperand)
  : option Instruction :=
  '(m1, m2) ← instr_form op os;
  match os with
  | [] => Some (mkInstr op NO_OPERAND NO_OPERAND)
  | [o1] => c1 ← operand_code labels m1 o1; Some (mkInstr op c1 NO_OPERAND)
  | o1 :: o2 :: _ =>
      c1 ← operand_code labels m1 o1; c2 ← operand_code labels m2 o2; Some (mkInstr op c1 c2)
  end.

(** The bytes of an item. A word is taken modulo 2^16, which section 11.4 does not
    grant it but [.word] has always done. *)
Definition item_bytes (labels : gmap (list Z) Z) (it : Item) : option (list Z) :=
  match it with
  | I_instr op os _ => i ← instr_code labels op os; Some (instr_bytes i)
  | I_string bytes _ => Some (bytes ++ [0])
  | I_word o _ => v ← kind_value labels (op_kind o); Some [v mod 65536 mod 256; v mod 65536 / 256]
  | I_byte o _ =>
      v ← kind_value labels (op_kind o); if (0 <=? v) && (v <=? 255) then Some [v] else None
  | I_label _ _ | I_org _ _ | I_data _ => Some []
  end.

(** The bytes from [lo] up to [hi]: each placed item's at its address, zeros between. *)
Fixpoint blob (labels : gmap (list Z) Z) (lo : Z) (items : list Placed) (hi : Z) : option (list Z) :=
  match items with
  | [] => Some (replicate (Z.to_nat (hi - lo)) 0)
  | p :: items =>
      bs ← item_bytes labels (pl_item p);
      rest ← blob labels (pl_addr p + zlen bs) items hi;
      Some (replicate (Z.to_nat (pl_addr p - lo)) 0 ++ bs ++ rest)
  end.

Definition section_items (d : bool) (l : Layout) : list Placed :=
  List.filter (fun p => eqb (pl_data p) d) (ly_placed l).

Definition word_le (v : Z) : list Z := [v mod 256; v / 256].

(** The image of section 10: both sections, each from its first item to its counter,
    entered at the first item of the code. A program without code has none. *)
Definition spec_image (l : Layout) : option (list Z) :=
  match section_items false l with
  | [] => None
  | p :: _ =>
      let ca := pl_addr p in
      let '(da, dn) :=
        match section_items true l with
        | [] => (0, 0)
        | q :: _ => (pl_addr q, ly_data_next l)
        end in
      cb ← blob (ly_labels l) ca (section_items false l) (ly_code_next l);
      db ← blob (ly_labels l) da (section_items true l) dn;
      Some (str "BVM1" ++ [1; 0] ++ word_le ca ++ word_le (ly_code_next l - ca) ++ word_le ca ++
            word_le (dn - da) ++ word_le da ++ cb ++ db)
  end.

Definition spec_assemble (items : list Item) : option (list Z) :=
  l ← lay_items items ly_start; spec_image l.
