(* ===== verification/Assembler.v ===== *)
(** The assembler's public interface: [include/bytevm/assembler.h] and
    [src/assembler.c]. *)

From S2P Require Import Prelude CLib Memory Instruction Symtab Lexer Parser.
Open Scope Z_scope.

(** [result.error]: [snprintf(error, 256, "line %d: %.200s", ...)]. *)
Definition format_error (ln : Z) (msg : list Z) : list Z :=
  clip 256 (str "line " ++ fmt_d ln ++ str ": " ++ take 200 msg).

Definition write_u16_le (value : Z) : list Z := [u8 (Z.land value 0xFF); u8 (Z.shiftr value 8)].

(** [memcpy] of [count] bytes from index [start] of a 64 KB buffer. *)
Fixpoint buf_read (b : Memory) (start : Z) (count : nat) : res (list Z) :=
  match count with
  | O => Ok []
  | S count =>
      if (0 <=? start) && (start <? 65536) then
        bytes ← buf_read b (start + 1) count; Ok (mem_read8 b start :: bytes)
      else UB
  end.

(** The image, or the error line with the formatted message. *)
Definition assemble (source : list Z) : res (list Z) :=
  match (tokens ← lex source; assemble_tokens tokens) with
  | Ok parsed =>
      code_bytes ← buf_read (code parsed) (code_addr parsed) (Z.to_nat (code_size parsed));
      data_bytes ← buf_read (data parsed) (data_addr parsed) (Z.to_nat (data_size parsed));
      Ok ([66; 86; 77; 49; 1; 0] ++ write_u16_le (entry_point parsed) ++
          write_u16_le (code_size parsed) ++ write_u16_le (code_addr parsed) ++
          write_u16_le (data_size parsed) ++ write_u16_le (data_addr parsed) ++
          code_bytes ++ data_bytes)
  | Err ln msg => Err ln (format_error ln msg)
  | UB => UB
  end.
