(* ===== verification/AsmFacts.v ===== *)
(** Pass 1 and pass 2 of the assembler.

    Every run of pass 1 is a sequence of [pass1_step]s: it defines a label, moves
    the address counter, enters the data section or places a statement. The layout
    of the sections is proved by induction over those steps; pass 2 then writes
    each placed statement's bytes, undisturbed by the others. *)

From S2P Require Import Prelude CLib Memory Instruction Symtab Lexer Parser.
From stdpp Require Import relations.
Open Scope Z_scope.

(** ** The parser only moves forward *)

(** The tokens from the current one on. *)
Definition toks (ps : Parser) : list Token := cur ps :: rest ps.

Lemma advance_suffix ps : toks (advance ps) `suffix_of` toks ps.
Proof.
  unfold advance, toks. destruct (rest ps) as [|t l] eqn:E; [by rewrite E|].
  simpl. by apply suffix_cons_r.
Qed.

Lemma advance_suffix_of ps ps0 : toks ps `suffix_of` toks ps0 -> toks (advance ps) `suffix_of` toks ps0.
Proof. intros H. etransitivity; [apply advance_suffix|exact H]. Qed.

#[local] Hint Resolve advance_suffix advance_suffix_of : bytevm.

Lemma parse_operand_suffix ps op o ps' : parse_operand ps op = Ok (o, ps') ->
  toks ps' `suffix_of` toks ps.
Proof.
  unfold parse_operand. intros H. case_decide.
  - apply res_bind_Ok in H as ([k ps1] & Hk & H). case_decide; [|discriminate].
    injection H as _ <-. apply advance_suffix_of. repeat case_match; simplify_eq; auto with bytevm.
  - repeat (case_match; try discriminate); simplify_eq; auto with bytevm.
Qed.

Lemma parse_operands_suffix ps op n o1 o2 ps' : parse_operands ps op = Ok (n, o1, o2, ps') ->
  toks ps' `suffix_of` toks ps.
Proof.
  unfold parse_operands. intros H. case_match; [by simplify_eq|].
  apply res_bind_Ok in H as ([k ps1] & H1 & H). apply parse_operand_suffix in H1.
  case_decide; [|by simplify_eq]. apply res_bind_Ok in H as ([k2 ps2] & Hq & H).
  apply parse_operand_suffix in Hq. simplify_eq. etransitivity; [exact Hq|]. auto with bytevm.
Qed.

Lemma parse_instruction_suffix ps stmts sec op ln ps' stmts' sec' :
  parse_instruction_statement ps stmts sec op ln = Ok (ps', stmts', sec') ->
  toks ps' `suffix_of` toks ps.
Proof.
  unfold parse_instruction_statement. intros H.
  apply res_bind_Ok in H as ([[[n o1] o2] ps1] & H1 & H). apply parse_operands_suffix in H1.
  destruct (opcode_masks op) as [m1s m2s]. case_match; [discriminate|].
  apply res_bind_Ok in H as (m1 & _ & H). apply res_bind_Ok in H as (m2 & _ & H).
  unfold place in H. by injection H as <- <- <-.
Qed.

Lemma parse_directive_suffix ps stmts sec n ln ps' stmts' sec' :
  parse_directive_statement ps stmts sec n ln = Ok (ps', stmts', sec') ->
  toks ps' `suffix_of` toks ps.
Proof.
  unfold parse_directive_statement, parse_org, parse_data, parse_string, parse_word, parse_byte, place.
  intros H. repeat (case_match; try discriminate); simplify_eq; auto with bytevm.
  all: apply res_bind_Ok in H as ([o ps1] & Hp & H); apply parse_operand_suffix in Hp.
  all: case_match; [discriminate|]; injection H as <- <- <-;
    etransitivity; [exact Hp|auto with bytevm].
Qed.

Lemma parse_statement_suffix ps stmts symtab sec ps' stmts' symtab' sec' :
  parse_statement ps stmts symtab sec = Ok (ps', stmts', symtab', sec') ->
  toks ps' `suffix_of` toks ps.
Proof.
  unfold parse_statement. intros H. case_decide.
  - apply res_bind_Ok in H as ([[ps1 st1] sec1] & Hp & H). injection H as <- <- <- <-.
    by eapply parse_directive_suffix.
  - case_decide; [|discriminate]. case_match; [|discriminate].
    apply res_bind_Ok in H as ([[ps1 st1] sec1] & Hp & H). injection H as <- <- <- <-.
    etransitivity; [by eapply parse_instruction_suffix|auto with bytevm].
Qed.

Lemma parse_line_suffix ps stmts symtab sec ps' stmts' symtab' sec' :
  parse_line ps stmts symtab sec = Ok (ps', stmts', symtab', sec') ->
  toks ps' `suffix_of` toks ps.
Proof.
  unfold parse_line. intros H. case_decide; [|by eapply parse_statement_suffix].
  destruct (symtab_define _ _ _) as [symtab1|]; [|discriminate]. case_match.
  - injection H as <- <- <- <-. auto with bytevm.
  - etransitivity; [by eapply parse_statement_suffix|auto with bytevm].
Qed.

(** The bytes of string tokens are bytes; so they are along the way. *)
Definition token_bytes (ts : list Token) : Prop := Forall (fun t => is_byte_list (str_value t)) ts.

Lemma token_bytes_suffix ps ps' : toks ps' `suffix_of` toks ps -> token_bytes (toks ps) ->
  token_bytes (toks ps').
Proof. intros [l E] H. unfold token_bytes in *. rewrite E in H. by apply Forall_app in H as [_ H]. Qed.

(** ** What pass 1 does, step by step *)

Definition P1State : Type := list Statement * SymbolTable * SectionState.

(** The statements [place] appends, with the size the source computes for them and
    the checks they passed. *)
Inductive placeable : StmtKind -> Z -> Prop :=
| pl_string bytes : is_byte_list bytes -> placeable (STMT_STRING bytes) (zlen bytes + 1)
| pl_word op : is_number_or_label op = true -> placeable (STMT_WORD op) 2
| pl_byte op : is_number op = true -> placeable (STMT_BYTE op) 1
| pl_instr op n o1 o2 m1 m2 :
    n = expected_operands (opcode_masks op).1 (opcode_masks op).2 ->
    operand_mode (1 <=? n) o1 (opcode_masks op).1 = Ok m1 ->
    operand_mode (2 <=? n) o2 (opcode_masks op).2 = Ok m2 ->
    placeable (STMT_INSTRUCTION op n o1 o2 m1 m2) (2 + mode_byte_size m1 + mode_byte_size m2).

Inductive pass1_step : P1State -> P1State -> Prop :=
| p1_label stmts symtab sec name ln symtab' :
    symtab_define symtab name (active_cursor sec) = Some symtab' ->
    pass1_step (stmts, symtab, sec)
      (stmts ++ [mkStmt (STMT_LABEL name) ln false (active_cursor sec) 0], symtab', sec)
| p1_org stmts symtab sec ln v : is_u16 v -> active_cursor sec <= v ->
    pass1_step (stmts, symtab, sec) (stmts ++ [mkStmt STMT_ORG ln false 0 0], symtab, set_active_cursor sec v)
| p1_data stmts symtab sec ln : data_seen sec = false ->
    pass1_step (stmts, symtab, sec)
      (stmts ++ [mkStmt STMT_DATA_SECTION ln false 0 0], symtab,
       mkSec true true (code_cursor sec) (code_cursor sec) (code_started sec)
         (data_started sec) (code_start_addr sec) (data_start_addr sec))
| p1_place stmts symtab sec k ln size : placeable k size ->
    pass1_step (stmts, symtab, sec)
      ((place stmts sec k ln size).1, symtab, (place stmts sec k ln size).2).

Definition pass1_start : P1State := ([], symtab_init, sec_init).

Lemma parse_instruction_steps ps stmts symtab sec op ln ps' stmts' sec' :
  parse_instruction_statement ps stmts sec op ln = Ok (ps', stmts', sec') ->
  pass1_step (stmts, symtab, sec) (stmts', symtab, sec').
Proof.
  unfold parse_instruction_statement. intros H.
  apply res_bind_Ok in H as ([[[n o1] o2] ps1] & _ & H).
  destruct (opcode_masks op) as [m1s m2s] eqn:Em. case_match; [discriminate|].
  apply res_bind_Ok in H as (m1 & H1 & H). apply res_bind_Ok in H as (m2 & H2 & H).
  unfold place in H. simpl in H. injection H as <- <- <-.
  assert (n = expected_operands m1s m2s) as -> by lia.
  apply (p1_place stmts symtab sec (STMT_INSTRUCTION op _ o1 o2 m1 m2) ln).
  constructor; rewrite Em; simpl; done.
Qed.

Lemma parse_directive_steps ps stmts symtab sec n ln ps' stmts' sec' : token_bytes (toks ps) ->
  parse_directive_statement ps stmts sec n ln = Ok (ps', stmts', sec') ->
  pass1_step (stmts, symtab, sec) (stmts', symtab, sec').
Proof.
  intros Hb. unfold parse_directive_statement. intros H.
  case_match; [unfold parse_org in H|case_match; [unfold parse_data in H|
    case_match; [unfold parse_string in H|case_match; [unfold parse_word in H|
    case_match; [unfold parse_byte in H|discriminate]]]]].
  - case_match; [discriminate|]. case_match; [discriminate|]. case_match; [discriminate|].
    injection H as <- <- <-. apply p1_org; [apply u16_range|lia].
  - case_match; [discriminate|]. injection H as <- <- <-. by apply p1_data.
  - case_match; [discriminate|]. unfold place in H. injection H as <- <- <-.
    apply (p1_place stmts symtab sec (STMT_STRING _) ln). constructor.
    apply (token_bytes_suffix _ _ (advance_suffix ps)) in Hb. by inversion Hb.
  - apply res_bind_Ok in H as ([o ps1] & _ & H). destruct (is_number_or_label o) eqn:E; [|discriminate].
    unfold place in H. injection H as <- <- <-.
    by apply (p1_place stmts symtab sec (STMT_WORD o) ln); constructor.
  - apply res_bind_Ok in H as ([o ps1] & _ & H). destruct (is_number o) eqn:E; [|discriminate].
    unfold place in H. injection H as <- <- <-.
    by apply (p1_place stmts symtab sec (STMT_BYTE o) ln); constructor.
Qed.

Lemma parse_statement_steps ps stmts symtab sec ps' stmts' symtab' sec' : token_bytes (toks ps) ->
  parse_statement ps stmts symtab sec = Ok (ps', stmts', symtab', sec') ->
  pass1_step (stmts, symtab, sec) (stmts', symtab', sec').
Proof.
  intros Hb. unfold parse_statement. intros H. case_decide.
  - apply res_bind_Ok in H as ([[ps1 st1] sec1] & Hp & H). injection H as <- <- <- <-.
    by eapply parse_directive_steps.
  - case_decide; [|discriminate]. case_match; [|discriminate].
    apply res_bind_Ok in H as ([[ps1 st1] sec1] & Hp & H). injection H as <- <- <- <-.
    by eapply parse_instruction_steps.
Qed.

Lemma parse_line_steps ps stmts symtab sec ps' stmts' symtab' sec' : token_bytes (toks ps) ->
  parse_line ps stmts symtab sec = Ok (ps', stmts', symtab', sec') ->
  rtc pass1_step (stmts, symtab, sec) (stmts', symtab', sec').
Proof.
  intros Hb. unfold parse_line. intros H. case_decide.
  - destruct (symtab_define _ _ _) as [symtab1|] eqn:E; [|discriminate].
    eapply rtc_l; [by apply p1_label|]. case_match.
    + injection H as <- <- <- <-. apply rtc_refl.
    + apply rtc_once. eapply parse_statement_steps; [|exact H].
      eapply token_bytes_suffix; [|exact Hb]. auto with bytevm.
  - apply rtc_once. by eapply parse_statement_steps.
Qed.

Lemma build_loop_steps fuel ps stmts symtab sec ps' stmts' symtab' sec' : token_bytes (toks ps) ->
  build_loop fuel ps stmts symtab sec = Some (Ok (ps', stmts', symtab', sec')) ->
  rtc pass1_step (stmts, symtab, sec) (stmts', symtab', sec').
Proof.
  revert ps stmts symtab sec. induction fuel as [|fuel IH]; intros ps stmts symtab sec Hb H; simpl in H.
  - case_decide; [|done]. simplify_eq. apply rtc_refl.
  - case_decide; [simplify_eq; apply rtc_refl|]. case_decide.
    { eapply IH; [|exact H]. eapply token_bytes_suffix; [|exact Hb]. auto with bytevm. }
    destruct (parse_line ps stmts symtab sec) as [[[[ps1 st1] tab1] sec1]| |] eqn:E; [|done..].
    etransitivity; [by eapply parse_line_steps|]. apply parse_line_suffix in E.
    case_decide.
    + eapply IH; [|exact H]. eapply token_bytes_suffix; [|exact Hb]. auto with bytevm.
    + case_match; [done|]. eapply IH; [|exact H]. by eapply token_bytes_suffix.
Qed.

Lemma build_statements_steps ps ps' stmts symtab sec : token_bytes (toks ps) ->
  build_statements ps = Ok (ps', stmts, symtab, sec) ->
  rtc pass1_step pass1_start (stmts, symtab, sec) /\ code_started sec = true.
Proof.
  intros Hb. unfold build_statements. intros H. apply res_bind_Ok in H as ([[[ps1 st1] tab1] sec1] & H1 & H).
  destruct (code_started sec1) eqn:E; [|discriminate]. injection H as <- <- <- <-.
  split; [|done].
  destruct (build_loop _ _ _ _ _) as [r|] eqn:Eb; simpl in H1; [|discriminate].
  subst r. by eapply build_loop_steps.
Qed.

(** ** Layout *)

(** The statements that occupy bytes. *)
Definition emits (st : Statement) : bool :=
  match kind st with STMT_LABEL _ | STMT_ORG | STMT_DATA_SECTION => false | _ => true end.

(** The statements of one section that occupy bytes. *)
Definition in_section (d : bool) (st : Statement) : bool := emits st && eqb (in_data st) d.

Definition section (d : bool) (stmts : list Statement) : list Statement :=
  List.filter (in_section d) stmts.

Definition st_end (st : Statement) : Z := st_address st + encoded_size st.

(** A statement that ends below the top of the address space, so that the 16-bit
    address counter behind it has not wrapped. *)
Definition st_fits (st : Statement) : Prop := st_end st <= 0xFFFF.

(** Regions in increasing order within [lo, hi). *)
Fixpoint chain (lo : Z) (l : list Statement) (hi : Z) : Prop :=
  match l with
  | [] => lo <= hi
  | st :: l => lo <= st_address st /\ 0 < encoded_size st /\ chain (st_end st) l hi
  end.

Lemma chain_le lo l hi : chain lo l hi -> lo <= hi.
Proof.
  revert lo. induction l as [|st l IH]; intros lo; simpl; [done|]. intros (H1 & H2 & H3).
  apply IH in H3. unfold st_end in *. lia.
Qed.

Lemma chain_weaken lo l hi hi' : chain lo l hi -> hi <= hi' -> chain lo l hi'.
Proof.
  revert lo. induction l as [|st l IH]; intros lo; simpl; [lia|].
  intros (H1 & H2 & H3) Hh. eauto.
Qed.

Lemma chain_snoc lo l hi st : chain lo l hi -> hi <= st_address st -> 0 < encoded_size st ->
  chain lo (l ++ [st]) (st_end st).
Proof.
  revert lo. induction l as [|s l IH]; intros lo; simpl.
  - intros. split_and!; lia.
  - intros (H1 & H2 & H3) Ha Hs. auto.
Qed.

Lemma chain_app lo l1 l2 hi : chain lo (l1 ++ l2) hi -> exists mid, chain lo l1 mid /\ chain mid l2 hi.
Proof.
  revert lo. induction l1 as [|s l1 IH]; intros lo; simpl.
  - intros H. exists lo. split; [lia|done].
  - intros (H1 & H2 & H3). destruct (IH _ H3) as (mid & ? & ?). eauto.
Qed.

Lemma chain_bounds lo l hi st : chain lo l hi -> In st l ->
  lo <= st_address st /\ 0 < encoded_size st /\ st_end st <= hi.
Proof.
  revert lo. induction l as [|s l IH]; intros lo; simpl; [done|].
  intros (H1 & H2 & H3) [->|Hin].
  - split_and!; try done. by eapply chain_le.
  - destruct (IH _ H3 Hin) as (? & ? & ?). unfold st_end in *. split_and!; lia.
Qed.

Lemma placeable_size k size : placeable k size -> 0 < size.
Proof.
  destruct 1; try lia.
  assert (forall m, 0 <= mode_byte_size m) as H' by (intros []; simpl; lia).
  pose proof (H' m1). pose proof (H' m2). lia.
Qed.

(** The invariant of pass 1, as long as no statement reached the end of memory. *)
Record layout (s : P1State) : Prop := {
  lo_code : chain (if code_started s.2 then code_start_addr s.2 else 0) (section false s.1.1) (code_cursor s.2);
  lo_data : chain (if data_started s.2 then data_start_addr s.2 else 0) (section true s.1.1) (data_cursor s.2);
  lo_code_start : code_started s.2 = negb (bool_decide (section false s.1.1 = []));
  lo_data_start : data_started s.2 = negb (bool_decide (section true s.1.1 = []));
  lo_code_head : forall st l, section false s.1.1 = st :: l -> code_start_addr s.2 = st_address st;
  lo_data_head : forall st l, section true s.1.1 = st :: l -> data_start_addr s.2 = st_address st;
  lo_u16 : is_u16 (code_cursor s.2) /\ is_u16 (data_cursor s.2) /\
           is_u16 (code_start_addr s.2) /\ is_u16 (data_start_addr s.2);
  lo_mode : sec_in_data s.2 = data_seen s.2;
  lo_no_data : data_seen s.2 = false -> section true s.1.1 = [] /\ data_cursor s.2 = 0;
  lo_above : data_started s.2 = true -> code_cursor s.2 <= data_start_addr s.2;
  lo_cursor_above : data_seen s.2 = true -> code_cursor s.2 <= data_cursor s.2;
  lo_data_zero : data_started s.2 = false -> data_start_addr s.2 = 0;
  lo_wf : Forall (fun st => emits st = true -> placeable (kind st) (encoded_size st)) s.1.1;
}.

Lemma section_app d l1 l2 : section d (l1 ++ l2) = section d l1 ++ section d l2.
Proof. apply List.filter_app. Qed.

Lemma layout_start : layout pass1_start.
Proof.
  by split; simpl; try lia.
Qed.

Lemma placeable_emits k size : placeable k size ->
  forall ln d a s, emits (mkStmt k ln d a s) = true.
Proof. by destruct 1. Qed.

(** A statement without bytes changes no section. *)
Lemma section_silent d l st : emits st = false -> section d (l ++ [st]) = section d l.
Proof. intros H. rewrite section_app. simpl. unfold in_section. rewrite H. by rewrite app_nil_r. Qed.

Lemma Forall_silent l st : emits st = false ->
  Forall (fun st => emits st = true -> placeable (kind st) (encoded_size st)) l ->
  Forall (fun st => emits st = true -> placeable (kind st) (encoded_size st)) (l ++ [st]).
Proof. intros H Hl. apply Forall_app. split; [done|]. constructor; [congruence|done]. Qed.

(** [layout] only looks at the sections, so silent statements keep it. *)
Lemma layout_silent l st symtab symtab' sec : emits st = false ->
  layout (l, symtab, sec) -> layout (l ++ [st], symtab', sec).
Proof.
  intros Hs H. destruct H; split; simpl in *; rewrite ?(section_silent _ _ _ Hs); auto.
  by apply Forall_silent.
Qed.

Lemma no_data_started s : layout s -> data_seen s.2 = false -> data_started s.2 = false.
Proof. intros H Hd. rewrite (lo_data_start _ H). by destruct (lo_no_data _ H Hd) as [-> _]. Qed.

Lemma layout_org l symtab sec v : is_u16 v -> active_cursor sec <= v ->
  layout (l, symtab, sec) -> layout (l, symtab, set_active_cursor sec v).
Proof.
  intros Hv Hc H. pose proof (no_data_started _ H) as Hnd.
  destruct H as [C D CS DS CH DH (U1 & U2 & U3 & U4) M ND AB CA DZ WF]; simpl in *.
  unfold active_cursor, set_active_cursor in *.
  destruct (sec_in_data sec) eqn:Em; split; simpl; auto; try congruence.
  - by eapply chain_weaken.
  - intros Hs. specialize (CA Hs). lia.
  - by eapply chain_weaken.
  - intros Hs. rewrite Hnd in Hs; congruence.
Qed.

Lemma layout_data l symtab sec : data_seen sec = false -> layout (l, symtab, sec) ->
  layout (l, symtab, mkSec true true (code_cursor sec) (code_cursor sec) (code_started sec)
                       (data_started sec) (code_start_addr sec) (data_start_addr sec)).
Proof.
  intros Hd H. pose proof (no_data_started _ H Hd) as Hnd.
  destruct H as [C D CS DS CH DH (U1 & U2 & U3 & U4) M ND AB CA DZ WF]; simpl in *.
  destruct (ND Hd) as [E _].
  split; simpl; auto; try congruence.
  - rewrite Hnd, E. simpl. unfold is_u16 in *. lia.
  - intros _. lia.
Qed.

(** The section grows by the placed statement; its counter moves behind it. *)
Lemma section_place d l st : emits st = true ->
  section d (l ++ [st]) = if eqb (in_data st) d then section d l ++ [st] else section d l.
Proof.
  intros H. rewrite section_app. simpl. unfold in_section. rewrite H. simpl.
  destruct (eqb _ _); [done|by rewrite app_nil_r].
Qed.

Lemma app_not_nil {A} (l : list A) x : negb (bool_decide (l ++ [x] = [])) = true.
Proof. by destruct l. Qed.

(** The first statement of a section, before and after one is appended. *)
Lemma started_head (l : list Statement) (b : bool) a x :
  b = negb (bool_decide (l = [])) -> (forall s l', l = s :: l' -> a = st_address s) ->
  forall s l', l ++ [x] = s :: l' -> (if b then a else st_address x) = st_address s.
Proof.
  intros -> H s l' E. destruct l as [|s0 l0]; simpl in *; [congruence|].
  injection E as <- _. by eapply H.
Qed.

Lemma started_chain (l : list Statement) (b : bool) a x hi :
  b = negb (bool_decide (l = [])) -> chain (if b then a else 0) l hi -> hi = st_address x ->
  0 <= st_address x -> 0 < encoded_size x ->
  chain (if b then a else st_address x) (l ++ [x]) (st_end x).
Proof.
  intros Eb Hc -> H0 Hs. destruct b.
  - apply (chain_snoc _ _ (st_address x)); [done|lia|done].
  - destruct l; [|done]. simpl. unfold st_end. lia.
Qed.

Lemma place_eq l sec k ln size : let st := mkStmt k ln (sec_in_data sec) (active_cursor sec) size in
  place l sec k ln size =
  (l ++ [st], set_active_cursor (note_section_start sec (sec_in_data sec) (active_cursor sec))
                (u16 (active_cursor sec + size))).
Proof.
  unfold place, note_section_start, active_cursor. simpl.
  destruct (sec_in_data sec) eqn:E1, (data_started sec) eqn:E2, (code_started sec) eqn:E3;
    simpl; rewrite ?E1; done.
Qed.

(** The counter behind a statement that fits. *)
Lemma cursor_behind c st : st_fits st -> is_u16 c -> 0 < encoded_size st -> c = st_address st ->
  u16 (c + encoded_size st) = st_end st /\ is_u16 (st_end st).
Proof.
  unfold st_fits, st_end. intros H Hc Hs ->. rewrite u16_id; unfold is_u16 in *; lia.
Qed.

Lemma layout_place l symtab sec k ln size : placeable k size ->
  Forall (fun st => emits st = true -> st_fits st) (place l sec k ln size).1 ->
  layout (l, symtab, sec) -> layout ((place l sec k ln size).1, symtab, (place l sec k ln size).2).
Proof.
  intros Hk Hf H. pose proof (no_data_started _ H) as Hnd.
  pose proof (placeable_size _ _ Hk) as Hpos. rewrite place_eq in *.
  destruct H as [C D CS DS CH DH (U1 & U2 & U3 & U4) M ND AB CA DZ WF]; cbn [fst snd] in *.
  unfold note_section_start, set_active_cursor, active_cursor in *.
  destruct (sec_in_data sec) eqn:Em.
  - set (st := mkStmt k ln true (data_cursor sec) size) in *.
    assert (emits st = true) as He by (by apply (placeable_emits k size)).
    apply Forall_app in Hf as [_ Hf]. inversion Hf as [|? ? Hfit _]; subst. specialize (Hfit He).
    destruct (cursor_behind (data_cursor sec) st Hfit U2 Hpos eq_refl) as [Eu Hend].
    change (encoded_size st) with size in Eu.
    pose proof (started_chain _ _ _ st _ DS D eq_refl (proj1 U2) Hpos) as Hch.
    pose proof (started_head _ _ (data_start_addr sec) st DS DH) as Hhd.
    pose proof (section_place false l st He) as S0. pose proof (section_place true l st He) as S1.
    assert (WF' : Forall (fun st => emits st = true -> placeable (kind st) (encoded_size st)) (l ++ [st]))
      by (apply Forall_app; split; [done|by constructor]).
    change (in_data st) with true in S0, S1. cbn [eqb] in S0, S1.
    specialize (CA (eq_sym M)). change (st_address st) with (data_cursor sec) in *.
    destruct (data_started sec) eqn:Ed; cbn [negb sec_in_data]; rewrite ?Em; split; cbn [fst snd code_cursor data_cursor
      code_started data_started code_start_addr data_start_addr sec_in_data data_seen] in *;
      rewrite ?S0, ?S1, ?Eu, ?app_not_nil, ?Em, ?Ed; auto; try congruence.
    all: intros; unfold st_end, st; simpl; lia.
  - set (st := mkStmt k ln false (code_cursor sec) size) in *.
    assert (emits st = true) as He by (by apply (placeable_emits k size)).
    apply Forall_app in Hf as [_ Hf]. inversion Hf as [|? ? Hfit _]; subst. specialize (Hfit He).
    destruct (cursor_behind (code_cursor sec) st Hfit U1 Hpos eq_refl) as [Eu Hend].
    change (encoded_size st) with size in Eu.
    pose proof (started_chain _ _ _ st _ CS C eq_refl (proj1 U1) Hpos) as Hch.
    pose proof (started_head _ _ (code_start_addr sec) st CS CH) as Hhd.
    pose proof (section_place false l st He) as S0. pose proof (section_place true l st He) as S1.
    assert (WF' : Forall (fun st => emits st = true -> placeable (kind st) (encoded_size st)) (l ++ [st]))
      by (apply Forall_app; split; [done|by constructor]).
    change (in_data st) with false in S0, S1. cbn [eqb] in S0, S1.
    specialize (Hnd (eq_sym M)). change (st_address st) with (code_cursor sec) in *.
    destruct (code_started sec) eqn:Ec; cbn [negb sec_in_data]; rewrite ?Em; split; cbn [fst snd code_cursor data_cursor
      code_started data_started code_start_addr data_start_addr sec_in_data data_seen] in *;
      rewrite ?S0, ?S1, ?Eu, ?app_not_nil, ?Em, ?Ec; auto; try congruence.
Qed.

Lemma step_prefix s s' : pass1_step s s' -> exists x, s'.1.1 = s.1.1 ++ [x].
Proof. destruct 1; rewrite ?place_eq; simpl; eauto. Qed.

Lemma steps_prefix s s' : rtc pass1_step s s' -> exists l, s'.1.1 = s.1.1 ++ l.
Proof.
  induction 1 as [s|s1 s2 s3 H _ [l IH]]; [exists []; by rewrite app_nil_r|].
  destruct (step_prefix _ _ H) as [x E]. exists ([x] ++ l). by rewrite IH, E, <- app_assoc.
Qed.

Definition all_fit (stmts : list Statement) : Prop :=
  Forall (fun st => emits st = true -> st_fits st) stmts.

Lemma step_layout s s' : pass1_step s s' -> all_fit s'.1.1 -> layout s -> layout s'.
Proof.
  destruct 1 as [stmts symtab sec name ln symtab' Hd|stmts symtab sec ln v Hv Hc
    |stmts symtab sec ln Hd|stmts symtab sec k ln size Hk]; intros Hf H.
  - by eapply layout_silent.
  - eapply layout_silent; [done|]. by apply layout_org.
  - eapply layout_silent; [done|]. by apply layout_data.
  - by apply layout_place.
Qed.

Lemma steps_layout s s' : rtc pass1_step s s' -> all_fit s'.1.1 -> layout s -> layout s'.
Proof.
  induction 1 as [s|s1 s2 s3 H Hr IH]; intros Hf Hl; [done|]. apply IH; [done|].
  eapply step_layout; [exact H| |done].
  destruct (steps_prefix _ _ Hr) as [l E]. unfold all_fit in Hf. rewrite E in Hf.
  by apply Forall_app in Hf as [Hf _].
Qed.

(** ** Labels *)

Definition is_label (st : Statement) : Prop := exists n, kind st = STMT_LABEL n.

(** The table holds exactly the labels defined so far. *)
Definition labels_recorded (s : P1State) : Prop := forall n a,
  symtab_lookup s.1.2 n = Some a <->
  exists st, In st s.1.1 /\ kind st = STMT_LABEL n /\ st_address st = a.

Lemma labels_recorded_silent l symtab sec sec' st : (forall n, kind st <> STMT_LABEL n) ->
  labels_recorded (l, symtab, sec) -> labels_recorded (l ++ [st], symtab, sec').
Proof.
  intros Hk H n a. rewrite (H n a). simpl. split; intros (s & Hin & Hs & Ha).
  - exists s. rewrite in_app_iff. auto.
  - exists s. rewrite in_app_iff in Hin. destruct Hin as [Hin|[<-|[]]]; [done|by destruct (Hk n)].
Qed.

Lemma placeable_not_label k size n : placeable k size -> k <> STMT_LABEL n.
Proof. by destruct 1. Qed.

Lemma step_labels s s' : pass1_step s s' -> labels_recorded s -> labels_recorded s'.
Proof.
  destruct 1 as [stmts symtab sec name ln symtab' Hd|stmts symtab sec ln v Hv Hc
    |stmts symtab sec ln Hd|stmts symtab sec k ln size Hk]; intros H.
  - intros n a. destruct (symtab_define_map _ _ _ _ Hd) as [Hno E].
    specialize (H n a). simpl in *. rewrite symtab_lookup_map in *. rewrite E.
    destruct (decide (name = n)) as [->|Hn].
    + rewrite lookup_insert_eq. split.
      * intros [= <-]. eexists. rewrite in_app_iff. split; [right; by left|done].
      * intros (s & Hin & Hs & Ha). rewrite in_app_iff in Hin. destruct Hin as [Hin|[<-|[]]].
        -- rewrite Hno in H. destruct H as [_ H]. discriminate H. eauto.
        -- simpl in Ha. congruence.
    + rewrite lookup_insert_ne by done. rewrite H. split; intros (s & Hin & Hs & Ha).
      * exists s. rewrite in_app_iff. auto.
      * exists s. rewrite in_app_iff in Hin. destruct Hin as [Hin|[<-|[]]]; [done|].
        simpl in Hs. congruence.
  - by apply (labels_recorded_silent _ _ sec).
  - by apply (labels_recorded_silent _ _ sec).
  - rewrite place_eq. apply (labels_recorded_silent _ _ sec); [|done].
    intros n. by eapply placeable_not_label.
Qed.

(** Labels at the end of the list carry the current address; a label in front of a
    statement with bytes, with only labels in between, carries that statement's. *)
Definition labels_pending (l : list Statement) (c : Z) : Prop :=
  forall l1 lb ls, l = l1 ++ lb :: ls -> Forall is_label (lb :: ls) -> st_address lb = c.

Definition labels_point (l : list Statement) : Prop :=
  forall l1 lb ls st l2, l = l1 ++ lb :: ls ++ st :: l2 -> Forall is_label (lb :: ls) ->
    emits st = true -> st_address lb = st_address st.

Lemma snoc_cases {A} (l l1 : list A) x y l2 : l ++ [x] = l1 ++ y :: l2 ->
  (l2 = [] /\ x = y /\ l = l1) \/ (exists l3, l2 = l3 ++ [x] /\ l = l1 ++ y :: l3).
Proof.
  intros H. destruct l2 as [|z l2' _] using rev_ind.
  - left. apply app_inj_tail in H as [-> ->]. done.
  - right. exists l2'. rewrite app_comm_cons, app_assoc in H. apply app_inj_tail in H as [-> ->].
    done.
Qed.

Lemma labels_point_snoc l c x : labels_pending l c -> labels_point l ->
  (emits x = true -> st_address x = c) -> labels_point (l ++ [x]).
Proof.
  intros Hp Hl Hx l1 lb ls st l2 E Hlab He.
  rewrite app_comm_cons, app_assoc in E.
  apply snoc_cases in E as [(-> & -> & E)|(l3 & -> & E)].
  - rewrite Hx by done. by eapply Hp.
  - eapply (Hl l1 lb ls st l3); [|done..]. by rewrite E, app_comm_cons, app_assoc.
Qed.

Lemma labels_pending_silent l x c : ~ is_label x -> labels_pending (l ++ [x]) c.
Proof.
  intros Hx l1 lb ls E Hlab. exfalso. apply snoc_cases in E as [(-> & -> & _)|(l3 & -> & _)].
  - by inversion Hlab.
  - rewrite app_comm_cons, Forall_app in Hlab. destruct Hlab as [_ Hlab]. by inversion Hlab.
Qed.

Lemma labels_pending_label l x c : labels_pending l c -> st_address x = c -> labels_pending (l ++ [x]) c.
Proof.
  intros Hp Hx l1 lb ls E Hlab. apply snoc_cases in E as [(-> & -> & _)|(l3 & -> & ->)]; [done|].
  rewrite app_comm_cons, Forall_app in Hlab. destruct Hlab as [Hlab _]. by eapply Hp.
Qed.

Lemma step_pending s s' : pass1_step s s' ->
  labels_pending s.1.1 (active_cursor s.2) /\ labels_point s.1.1 ->
  labels_pending s'.1.1 (active_cursor s'.2) /\ labels_point s'.1.1.
Proof.
  intros Hs [H1 H2].
  destruct Hs as [stmts symtab sec name ln symtab' Hd|stmts symtab sec ln v Hv Hc
    |stmts symtab sec ln Hd|stmts symtab sec k ln size Hk]; rewrite ?place_eq; cbn [fst snd] in *.
  - split; [by apply labels_pending_label|]. by eapply labels_point_snoc.
  - split; [apply labels_pending_silent; by intros [? ?]|by eapply labels_point_snoc].
  - split; [apply labels_pending_silent; by intros [? ?]|by eapply labels_point_snoc].
  - split; [|by eapply labels_point_snoc].
    apply labels_pending_silent. intros [n E]. simpl in E. by eapply placeable_not_label.
Qed.

Lemma pass1_labels s : rtc pass1_step pass1_start s -> labels_recorded s /\ labels_point s.1.1.
Proof.
  intros H. split.
  - assert (labels_recorded pass1_start) as H0 by (intros n a; split; [done|by intros (? & [] & _)]).
    revert H0. induction H; auto. eauto using step_labels.
  - assert (labels_pending pass1_start.1.1 (active_cursor pass1_start.2) /\
            labels_point pass1_start.1.1) as H0.
    { split; [intros [] ? ? ?; done|intros [] ? ? ? ? ?; done]. }
    revert H0. induction H as [|s1 s2 s3 Hs _ IH]; intros H0; [apply H0|].
    apply IH. by eapply step_pending.
Qed.
