(* ===== verification/EmitFacts.v ===== *)
(** Pass 2 writes the bytes of [stmt_bytes], which for an instruction are the
    encoding of the resolved instruction, at the statement's address. *)

From S2P Require Import Prelude CLib Memory Instruction Symtab Lexer Parser AsmFacts.
Open Scope Z_scope.

(** ** Writing a run of bytes *)

Lemma buf_copy_app t i l1 l2 : buf_copy t i (l1 ++ l2) = (t ← buf_copy t i l1; buf_copy t (i + zlen l1) l2).
Proof.
  revert t i. induction l1 as [|b l1 IH]; intros t i; simpl.
  - by rewrite Z.add_0_r.
  - destruct (buf_write t i b) as [t'| |]; simpl; [|done..]. rewrite IH.
    destruct (buf_copy t' (i + 1) l1); simpl; [|done..]. f_equal. lia.
Qed.

Lemma buf_copy_spec t i bs : 0 <= i -> i + zlen bs <= 65536 -> exists t', buf_copy t i bs = Ok t' /\
  (forall a, mem_read8 t' a =
     if (i <=? a) && (a <? i + zlen bs) then default 0 (bs !! Z.to_nat (a - i)) else mem_read8 t a) /\
  (mem_wf t -> is_byte_list bs -> mem_wf t').
Proof.
  revert t i. induction bs as [|b bs IH]; intros t i Hi Hl; simpl in *.
  - exists t. split_and!; [done| |done]. intros a.
    cbn [length]. change (Z.of_nat 0) with 0. by assert (((i <=? a) && (a <? i + 0)) = false) as -> by lia.
  - unfold buf_write. rewrite (proj2 (Z.leb_le 0 i)), (proj2 (Z.ltb_lt i 65536)) by lia. simpl.
    destruct (IH (mem_write8 t i b) (i + 1)) as (t' & E & H & Hw); [lia..|].
    exists t'. split_and!; [done| |].
    + intros a. rewrite H, mem_read8_write8.
      destruct (Z.leb_spec (i + 1) a), (Z.ltb_spec a (i + 1 + zlen bs)), (Z.leb_spec i a),
        (Z.ltb_spec a (i + Z.of_nat (S (length bs)))); cbn [andb]; try lia;
        try (case_decide; try lia; try done).
      * by replace (Z.to_nat (a - i)) with (S (Z.to_nat (a - (i + 1)))) by lia.
      * subst a. by rewrite Z.sub_diag.
    + intros Ht Hb. inversion Hb; subst. apply Hw; [by apply mem_wf_write8|done].
Qed.

(** ** The bytes of a statement *)

(** The operand field an operand of value [v] is encoded with. *)
Definition encoded (m : AddrMode) (v : Z) : Operand :=
  mkOperand m (match m with MODE_IMM16 | MODE_MEM_DIRECT => u16 v | _ => v end).

Definition resolved (symtab : SymbolTable) (op : Opcode) (n : Z) (o1 o2 : ParsedOperand)
  (m1 m2 : AddrMode) : res Instruction :=
  v1 ← operand_value (1 <=? n) o1 m1 symtab;
  v2 ← operand_value (2 <=? n) o2 m2 symtab;
  Ok (mkInstr op (encoded m1 v1) (encoded m2 v2)).

Definition stmt_bytes (symtab : SymbolTable) (st : Statement) : res (list Z) :=
  match kind st with
  | STMT_LABEL _ | STMT_ORG | STMT_DATA_SECTION => Ok []
  | STMT_STRING bytes => Ok (bytes ++ [0])
  | STMT_WORD operand =>
      match resolve_value operand symtab with
      | inl msg => set_result_error (st_line st) msg
      | inr v => Ok [u16 v mod 256; u16 v / 256]
      end
  | STMT_BYTE operand =>
      match op_kind operand with
      | OPKIND_NUMBER v =>
          if (v <? 0) || (255 <? v) then
            set_result_error (st_line st)
              (str ".byte value " ++ fmt_d v ++ str " is out of range (0-255)")
          else Ok [v]
      | _ => Ok [0]
      end
  | STMT_INSTRUCTION op n o1 o2 m1 m2 =>
      i ← resolved symtab op n o1 o2 m1 m2; Ok (instr_bytes i)
  end.

(** ** Resolved instructions are legal *)

Lemma has_mode_legal mask m : mode_reserved m = false -> has_mode mask m = true ->
  mode_is_legal m mask = true.
Proof.
  intros Hr H. unfold mode_is_legal. unfold has_mode in H. rewrite H.
  assert (mode_is_known m = true) as -> by (by destruct m). done.
Qed.

(** What a resolved operand mode guarantees: legality, and a register in range. *)
Lemma resolve_mode_spec o mask m : resolve_operand_mode o mask = inr m ->
  mode_is_legal m mask = true /\ mode_reserved m = false /\ m <> MODE_NONE /\
  (m = MODE_REG \/ m = MODE_REG_INDIRECT ->
   forall symtab v, resolve_value o symtab = inr v -> 0 <= v <= 7).
Proof.
  unfold resolve_operand_mode. intros H. unfold resolve_value.
  destruct (op_kind o); [done|..]; repeat (case_match; try done); simplify_eq.
  all: split_and!; try done; try (apply has_mode_legal; [done|by apply negb_false_iff]).
  all: try (by intros [? | ?]).
  all: try (intros _ _ ? ?; simplify_eq; lia).
Qed.

Lemma operand_mode_spec b o mask m n symtab v : operand_mode b o mask = Ok m ->
  operand_value b o m symtab = Ok v -> (b = false -> mask = n) -> n = MODES_NONE ->
  operand_wf (encoded m v) /\ mode_is_legal m mask = true /\ mode_reserved m = false.
Proof.
  unfold operand_mode, operand_value. intros Hm Hv Hb ->. destruct b.
  - destruct (resolve_operand_mode o mask) as [|m'] eqn:E; [done|]. injection Hm as ->.
    destruct (resolve_mode_spec _ _ _ E) as (Hl & Hr & Hne & Hreg).
    split_and!; [|done..].
    destruct (resolve_value o symtab) as [|w] eqn:Ew; [done|].
    destruct (range_check m w) as [|] eqn:Erc; [done|]. injection Hv as <-.
    unfold operand_wf, encoded. simpl. destruct m; simpl in *; try done.
    + apply (Hreg (or_introl eq_refl) _ _ Ew).
    + apply u16_range.
    + apply u16_range.
    + apply (Hreg (or_intror eq_refl) _ _ Ew).
    + unfold is_u8. case_match; [done|]. lia.
  - injection Hm as <-. injection Hv as <-. rewrite (Hb eq_refl). done.
Qed.

Lemma opcode_masks_table op : opcode_masks op =
  (op1_modes (OPCODE_TABLE (opcode_value op)), op2_modes (OPCODE_TABLE (opcode_value op))).
Proof. by destruct op. Qed.

(** No instruction takes a second operand without a first. *)
Lemma masks_none op : (opcode_masks op).1 = MODES_NONE -> (opcode_masks op).2 = MODES_NONE.
Proof. destruct op; vm_compute; congruence. Qed.

Lemma expected_one a b : (1 <=? expected_operands a b) = false -> a = MODES_NONE.
Proof.
  unfold expected_operands. change (u8 (Z.shiftl 1 0)) with MODES_NONE.
  by destruct (Z.eqb_spec a MODES_NONE), (Z.eqb_spec b MODES_NONE).
Qed.

Lemma expected_two a b : (a = MODES_NONE -> b = MODES_NONE) ->
  (2 <=? expected_operands a b) = false -> b = MODES_NONE.
Proof.
  unfold expected_operands. change (u8 (Z.shiftl 1 0)) with MODES_NONE. intros Hab.
  destruct (Z.eqb_spec a MODES_NONE), (Z.eqb_spec b MODES_NONE); auto; done.
Qed.

(** The resolved instruction of a placed statement is legal, and as long as the
    size pass 1 computed for it. *)
Lemma operand_bytes_size m v : zlen (operand_bytes (encoded m v)) = mode_byte_size m.
Proof. by destruct m. Qed.

Lemma resolved_legal op n o1 o2 m1 m2 size symtab i :
  placeable (STMT_INSTRUCTION op n o1 o2 m1 m2) size ->
  resolved symtab op n o1 o2 m1 m2 = Ok i ->
  instr_legal i /\ opcode i = op /\ zlen (instr_bytes i) = size.
Proof.
  intros Hp H. inversion Hp as [| | |? ? ? ? ? ? Hn H1 H2]; subst.
  unfold resolved in H. apply res_bind_Ok in H as (v1 & Hv1 & H).
  apply res_bind_Ok in H as (v2 & Hv2 & H). injection H as <-.
  destruct (operand_mode_spec _ _ _ _ MODES_NONE _ _ H1 Hv1 (expected_one _ _) eq_refl) as (W1 & L1 & _).
  destruct (operand_mode_spec _ _ _ _ MODES_NONE _ _ H2 Hv2
    (expected_two _ _ (masks_none op)) eq_refl) as (W2 & L2 & _).
  rewrite opcode_masks_table in L1, L2. simpl in L1, L2.
  split; [by apply legal_table|split; [done|]].
  unfold instr_bytes. cbn [op1 op2 opcode]. cbn [length]. rewrite length_app.
  rewrite <- (operand_bytes_size m1 v1), <- (operand_bytes_size m2 v2). lia.
Qed.

(** ** Emission is writing the statement's bytes *)

Lemma u8_low v : u8 (Z.land (u16 v) 0xFF) = u16 v mod 256.
Proof. apply u8_land_255. Qed.

Lemma u8_high v : u8 (Z.shiftr (u16 v) 8) = u16 v / 256.
Proof. apply u8_shiftr_8, u16_range. Qed.

Lemma buf_copy_one t i b : buf_copy t i [b] = buf_write t i b.
Proof. simpl. by destruct (buf_write t i b). Qed.

Lemma emit_operand_copy t addr m v : mode_reserved m = false ->
  operand_wf (encoded m v) -> 0 <= addr -> addr + mode_byte_size m <= 0xFFFF ->
  emit_operand_bytes t addr m v =
    (t ← buf_copy t addr (operand_bytes (encoded m v)); Ok (t, addr + mode_byte_size m)).
Proof.
  intros Hr Hwf Ha Hs. unfold operand_wf, encoded in Hwf. simpl in Hwf.
  destruct m; simpl in *; try done.
  all: rewrite ?u8_low, ?u8_high, ?Z.add_0_r, ?u16_id by (unfold is_u16 in *; lia); try done.
  all: try rewrite u8_id by (unfold is_u8 in *; lia).
  all: by destruct (buf_write t addr _) as [t1| |]; simpl;
    try destruct (buf_write t1 (addr + 1) _).
Qed.

Lemma mode_byte_lor m1 m2 : mode_reserved m1 = false -> mode_reserved m2 = false ->
  u8 (Z.lor (Z.shiftl (mode_value m1) 4) (mode_value m2)) = 16 * mode_value m1 + mode_value m2.
Proof. by destruct m1, m2. Qed.

(** Every statement that fits is emitted by copying its bytes to its address, or
    fails with the error of resolving it. *)
Lemma emit_into_copy symtab st t : placeable (kind st) (encoded_size st) -> st_fits st ->
  0 <= st_address st ->
  emit_into st symtab t = (bs ← stmt_bytes symtab st; buf_copy t (st_address st) bs).
Proof.
  intros Hp Hf Ha. unfold emit_into, stmt_bytes, st_fits, st_end in *.
  destruct (kind st) as [n|op n o1 o2 m1 m2| | |bytes|operand|operand] eqn:Ek; try by inversion Hp.
  - unfold emit_instruction, resolved.
    remember (encoded_size st) as size eqn:Esz.
    inversion Hp as [| | |? ? ? ? ? ? Hn H1 H2]; subst.
    destruct (operand_value (1 <=? _) o1 m1 symtab) as [v1| |] eqn:V1; simpl; [|done..].
    destruct (operand_value (2 <=? _) o2 m2 symtab) as [v2| |] eqn:V2; simpl; [|done..].
    destruct (operand_mode_spec _ _ _ _ MODES_NONE _ _ H1 V1 (expected_one _ _) eq_refl) as (W1 & _ & R1).
    destruct (operand_mode_spec _ _ _ _ MODES_NONE _ _ H2 V2
      (expected_two _ _ (masks_none op)) eq_refl) as (W2 & _ & R2).
    assert (forall m, 0 <= mode_byte_size m) as Hnn by (intros []; simpl; lia).
    pose proof (Hnn m1). pose proof (Hnn m2).
    rewrite (u8_id (opcode_value op)) by apply opcode_value_u8.
    rewrite mode_byte_lor, (u16_id (st_address st + 2)) by (done || unfold is_u16; lia).
    destruct (buf_write t (st_address st) _) as [t1| |]; simpl; [|done..].
    destruct (buf_write t1 (st_address st + 1) _) as [t2| |]; simpl; [|done..].
    replace (st_address st + 1 + 1) with (st_address st + 2) by lia.
    rewrite emit_operand_copy by (done || lia). rewrite buf_copy_app, operand_bytes_size.
    destruct (buf_copy t2 _ _) as [t3| |]; simpl; [|done..].
    rewrite emit_operand_copy by (done || lia). by destruct (buf_copy t3 _ _).
  - inversion Hp; subst. cbn [mbind res_bind]. rewrite buf_copy_app.
    destruct (buf_copy t _ bytes) as [t1| |]; cbn [mbind res_bind]; [|done..].
    by rewrite buf_copy_one.
  - destruct (resolve_value operand symtab) as [|v]; simpl; [done|]. rewrite u8_low, u8_high.
    destruct (buf_write t _ _) as [t1| |]; simpl; [|done..]. by destruct (buf_write t1 _ _).
  - inversion Hp as [| |? Hn|]; subst. unfold is_number in Hn.
    destruct (op_kind operand); try done. case_match; [done|]. simpl.
    rewrite u8_id by (unfold is_u8; lia). by destruct (buf_write t _ _).
Qed.

Lemma operand_bytes_u8 o : operand_wf o -> is_byte_list (operand_bytes o).
Proof.
  unfold operand_wf, operand_bytes. destruct o as [m v]. simpl.
  destruct m; simpl; intros; repeat constructor; unfold is_u8, is_u16 in *; mlia.
Qed.

Lemma instr_bytes_u8 i : instr_legal i -> is_byte_list (instr_bytes i).
Proof.
  intros [W1 W2]%legal_operands. unfold instr_bytes. constructor; [apply opcode_value_u8|constructor].
  - pose proof (mode_value_bound _ (operand_wf_not_reserved _ W1)).
    pose proof (mode_value_bound _ (operand_wf_not_reserved _ W2)). unfold mode_byte, is_u8. lia.
  - apply Forall_app. split; by apply operand_bytes_u8.
Qed.

(** The bytes are as many as pass 1 counted, and bytes. *)
Lemma stmt_bytes_spec symtab st bs : placeable (kind st) (encoded_size st) ->
  stmt_bytes symtab st = Ok bs -> zlen bs = encoded_size st /\ is_byte_list bs.
Proof.
  unfold stmt_bytes. intros Hp H.
  destruct (kind st) as [n|op n o1 o2 m1 m2| | |bytes|operand|operand] eqn:Ek; try by inversion Hp.
  - apply res_bind_Ok in H as (i & Hi & H). injection H as <-.
    destruct (resolved_legal _ _ _ _ _ _ _ _ _ Hp Hi) as (Hl & _ & Hs).
    split; [done|by apply instr_bytes_u8].
  - injection H as <-. inversion Hp; subst. rewrite length_app. simpl. split; [lia|].
    apply Forall_app. split; [done|]. repeat constructor; unfold is_u8; lia.
  - destruct (resolve_value operand symtab) as [|v]; [done|]. injection H as <-.
    inversion Hp; subst. split; [done|]. pose proof (u16_range v).
    repeat constructor; unfold is_u8, is_u16 in *; mlia.
  - inversion Hp as [| |? Hn|]; subst. unfold is_number in Hn.
    destruct (op_kind operand) as [| | |v| | |]; try done. case_match; [done|].
    injection H as <-. split; [done|]. repeat constructor; unfold is_u8; lia.
Qed.

(** ** All statements *)

Definition buf (d : bool) (b : Buffers) : Memory := if d then buf_data b else buf_code b.

Definition set_buf (d : bool) (b : Buffers) (m : Memory) : Buffers :=
  if d then mkBuf (buf_code b) m else mkBuf m (buf_data b).

Lemma buf_set d d' b m : buf d (set_buf d' b m) = if eqb d' d then m else buf d b.
Proof. by destruct d, d'. Qed.

Lemma emit_statement_buf st symtab b : emit_statement st symtab b =
  (m ← emit_into st symtab (buf (in_data st) b); Ok (set_buf (in_data st) b m)).
Proof. unfold emit_statement. by destruct (in_data st). Qed.

(** The statements of a program that passed pass 1 without a wrap. *)
Definition emittable (stmts : list Statement) : Prop :=
  Forall (fun st => emits st = true ->
    placeable (kind st) (encoded_size st) /\ st_fits st /\ 0 <= st_address st) stmts.

Lemma emit_silent st symtab b : emits st = false -> emit_statement st symtab b = Ok b.
Proof.
  intros H. rewrite emit_statement_buf. unfold emits, emit_into in *.
  destruct b. by destruct (kind st), (in_data st).
Qed.

(** One statement: its bytes appear, nothing else changes. *)
Lemma emit_one symtab st b : emits st = true -> placeable (kind st) (encoded_size st) -> st_fits st ->
  0 <= st_address st ->
  match stmt_bytes symtab st with
  | Ok bs => exists b', emit_statement st symtab b = Ok b' /\
      (forall d a, mem_read8 (buf d b') a =
         if eqb (in_data st) d && ((st_address st <=? a) && (a <? st_end st))
         then default 0 (bs !! Z.to_nat (a - st_address st)) else mem_read8 (buf d b) a) /\
      (forall d, mem_wf (buf d b) -> mem_wf (buf d b'))
  | Err l m => emit_statement st symtab b = Err l m
  | UB => False
  end.
Proof.
  intros He Hp Hf Ha. rewrite emit_statement_buf, emit_into_copy by done.
  destruct (stmt_bytes symtab st) as [bs|l m|] eqn:E.
  - destruct (stmt_bytes_spec _ _ _ Hp E) as [Hs Hb]. unfold st_fits, st_end in *.
    destruct (buf_copy_spec (buf (in_data st) b) (st_address st) bs) as (t' & Et & Hr & Hw); [lia..|].
    cbn [mbind res_bind]. rewrite Et. cbn [mbind res_bind]. eexists. split; [done|]. split.
    + intros d a. rewrite buf_set. destruct (eqb (in_data st) d) eqn:Ed; cbn [andb]; [|done].
      apply eqb_prop in Ed as <-. rewrite Hr, Hs. done.
    + intros d Hd. rewrite buf_set. destruct (eqb (in_data st) d) eqn:Ed; [|done].
      apply eqb_prop in Ed as <-. auto.
  - done.
  - unfold stmt_bytes in E. destruct (kind st) eqn:Ek; try done.
    + unfold resolved, operand_value, set_result_error in E. by repeat case_match.
    + by case_match.
    + by repeat case_match.
Qed.

(** Where the bytes of [st] are in the section buffers. *)
Definition holds_stmt (symtab : SymbolTable) (b : Buffers) (st : Statement) : Prop :=
  exists bs, stmt_bytes symtab st = Ok bs /\
    forall k, (k < length bs)%nat -> mem_read8 (buf (in_data st) b) (st_address st + Z.of_nat k) =
                                     default 0 (bs !! k).

Lemma emit_all symtab stmts b lo hi : emittable stmts ->
  (forall d, chain (lo d) (section d stmts) (hi d)) ->
  match emit_statements stmts symtab b with
  | Ok b' => Forall (fun st => emits st = true -> holds_stmt symtab b' st) stmts /\
      (forall d a, a < lo d -> mem_read8 (buf d b') a = mem_read8 (buf d b) a) /\
      (forall d, mem_wf (buf d b) -> mem_wf (buf d b'))
  | Err _ _ => True
  | UB => False
  end.
Proof.
  intros He. revert b lo. induction He as [|st stmts Hst He IH]; intros b lo Hc; [by split|].
  cbn [emit_statements]. destruct (emits st) eqn:Es.
  2:{ rewrite emit_silent by done. cbn [mbind res_bind].
      specialize (IH b lo). destruct (emit_statements stmts symtab b) as [b'| |]; [|done|].
      - destruct IH as (H1 & H2 & H3).
        { intros d. specialize (Hc d). simpl in Hc. unfold in_section in Hc. by rewrite Es in Hc. }
        split; [constructor; [congruence|done]|done].
      - apply IH. intros d. specialize (Hc d). simpl in Hc. unfold in_section in Hc. by rewrite Es in Hc. }
  destruct (Hst eq_refl) as (Hp & Hf & Ha).
  set (lo' := fun d => if eqb (in_data st) d then st_end st else lo d).
  assert (Hle : forall d, eqb (in_data st) d = true -> lo d <= st_address st /\ lo d <= st_end st).
  { intros d Ed. specialize (Hc d). simpl in Hc. unfold in_section in Hc. rewrite Es, Ed in Hc.
    destruct Hc as (? & ? & ?). unfold st_end in *. lia. }
  assert (Hc' : forall d, chain (lo' d) (section d stmts) (hi d)).
  { intros d. specialize (Hc d). simpl in Hc. unfold in_section in Hc. unfold lo'. rewrite Es in Hc.
    cbn [andb] in Hc. destruct (eqb (in_data st) d); [apply Hc|done]. }
  pose proof (emit_one symtab st b Es Hp Hf Ha) as H1.
  destruct (stmt_bytes symtab st) as [bs|l m|] eqn:Eb; [|by rewrite H1|done].
  destruct H1 as (b1 & -> & Hr & Hw). cbn [mbind res_bind].
  destruct (stmt_bytes_spec _ _ _ Hp Eb) as [Hs _].
  specialize (IH b1 lo' Hc'). destruct (emit_statements stmts symtab b1) as [b'| |]; [|done..].
  destruct IH as (I1 & I2 & I3). split_and!.
  - constructor; [|done]. intros _. exists bs. split; [done|]. intros k Hk.
    rewrite I2 by (unfold lo'; rewrite eqb_reflx; unfold st_end; lia).
    rewrite Hr, eqb_reflx. unfold st_end. cbn [andb].
    assert (((st_address st <=? st_address st + Z.of_nat k) &&
             (st_address st + Z.of_nat k <? st_address st + encoded_size st)) = true) as -> by lia.
    do 2 f_equal. lia.
  - intros d a Hlt. rewrite I2.
    + rewrite Hr. destruct (eqb (in_data st) d) eqn:Ed; [|done]. specialize (Hle d Ed).
      assert (((st_address st <=? a) && (a <? st_end st)) = false) as -> by lia. done.
    + unfold lo'. destruct (eqb (in_data st) d) eqn:Ed; [|done]. specialize (Hle d Ed). lia.
  - intros d Hd. auto.
Qed.

(** Pass 2 fails only where a statement has no bytes. *)
Lemma emit_ok symtab stmts b : emittable stmts ->
  Forall (fun st => emits st = true -> exists bs, stmt_bytes symtab st = Ok bs) stmts ->
  exists b', emit_statements stmts symtab b = Ok b'.
Proof.
  intros He. revert b. induction He as [|st stmts Hst _ IH]; intros b Hs; [by eexists|].
  apply Forall_cons in Hs as [H1 H2]. cbn [emit_statements]. destruct (emits st) eqn:Es.
  - destruct (Hst eq_refl) as (Hp & Hf & Ha). destruct (H1 eq_refl) as [bs Eb].
    pose proof (emit_one symtab st b Es Hp Hf Ha) as H. rewrite Eb in H.
    destruct H as (b' & -> & _). cbn [mbind res_bind]. by apply IH.
  - rewrite emit_silent by done. cbn [mbind res_bind]. by apply IH.
Qed.
