(* ===== verification/AsmCorrect.v ===== *)
(** The assembler end to end: tokens are bytes, pass 1 never gets stuck, and the
    image of a program whose statements fit below 0xFFFF loads to a machine whose
    memory holds every statement's bytes at its address. *)

From S2P Require Import Prelude Common CLib Memory Cpu Instruction Vm VmFacts Loader Symtab Lexer.
From S2P Require Import LexFacts Parser Assembler AsmFacts EmitFacts.
From stdpp Require Import relations.
Open Scope Z_scope.

(** ** Tokens of a byte string *)

Lemma lex_string_bytes n ln p b s q : (length p <= n)%nat -> is_byte_list p -> is_byte_list b ->
  lex_string ln p b = Ok (s, q) -> is_byte_list s /\ is_byte_list q.
Proof.
  revert p b. induction n as [|n IH]; intros p b Hn Hp Hb H.
  { destruct p; simpl in Hn; [done|lia]. }
  destruct p as [|c p]; [done|]. simpl in H, Hn. unfold set_error in H.
  assert (forall x, is_u8 x -> is_byte_list (b ++ [x])) as Hsnoc.
  { intros x Hx. apply Forall_app. split; [done|by constructor]. }
  inversion Hp as [|? ? Hc Hp']; subst.
  case_match; [done|]. case_match; [by simplify_eq|]. case_match.
  - destruct p as [|e p]; [done|]. simpl in Hn. inversion Hp' as [|? ? He Hp'']; subst.
    do 6 (case_match;
      [refine (IH p _ ltac:(lia) Hp'' (Hsnoc _ _) H); unfold is_u8; lia|]).
    case_match; [|done]. destruct p as [|h1 [|h2 p]]; [done..|]. simpl in Hn.
    case_match; [done|]. inversion Hp'' as [|? ? ? Hp3]; subst. inversion Hp3; subst.
    refine (IH p _ ltac:(lia) _ (Hsnoc _ (u8_range _)) H). done.
  - exact (IH p _ ltac:(lia) Hp' (Hsnoc _ Hc) H).
Qed.

Lemma span_bytes f p : is_byte_list p -> is_byte_list (span f p).2.
Proof.
  induction 1 as [|c p Hc Hp IH]; simpl; [constructor|]. destruct (f c); [|by constructor].
  by destruct (span f p).
Qed.

Lemma skip_comment_bytes p : is_byte_list p -> is_byte_list (skip_comment p).
Proof. induction 1; simpl; [constructor|]. case_match; [by constructor|done]. Qed.

Lemma lex_hex_bytes p v v' q : is_byte_list p -> lex_hex p v = Ok (v', q) -> is_byte_list q.
Proof.
  intros Hp. revert v. induction Hp as [|c p Hc Hp IH]; intros v H; simpl in H; simplify_eq; [constructor|].
  repeat (case_match; try done); simplify_eq; eauto. by constructor.
Qed.

Lemma lex_dec_bytes p v v' q : is_byte_list p -> lex_dec p v = Ok (v', q) -> is_byte_list q.
Proof.
  intros Hp. revert v. induction Hp as [|c p Hc Hp IH]; intros v H; simpl in H; simplify_eq; [constructor|].
  repeat (case_match; try done); simplify_eq; eauto. by constructor.
Qed.

Lemma lex_number_bytes ln p v q : is_byte_list p -> lex_number ln p = Ok (v, q) -> is_byte_list q.
Proof.
  intros Hp. unfold lex_number. intros H.
  destruct (match p with [] => _ | _ => _ end) as [neg p'] eqn:E.
  assert (is_byte_list p') as Hp'.
  { destruct Hp as [|c p Hc Hp]; [by simplify_eq|].
    destruct (c =? 45); simplify_eq; [done|by constructor]. }
  case_match; [done|]. destruct (lex_magnitude ln p') as [[m r]| |] eqn:Em; [|done..].
  simplify_eq/=. unfold lex_magnitude in Em. destruct (hex_prefix p') as [p2|] eqn:E2.
  - case_match; [done|]. eapply lex_hex_bytes; [|exact Em].
    destruct Hp' as [|a p' Ha Hp']; [done|]. destruct Hp' as [|x p' Hx Hp']; [done|].
    simpl in E2. case_match; simplify_eq. done.
  - by eapply lex_dec_bytes.
Qed.

Lemma lex_iter_bytes c p ln ts q ln' : is_byte_list (c :: p) ->
  lex_iter c p ln = Ok (ts, q, ln') -> token_bytes ts /\ is_byte_list q.
Proof.
  intros Hp H. inversion Hp as [|? ? Hc Hp']; subst.
  assert (forall t, str_value t = [] -> token_bytes [t]) as Hone.
  { intros t E. constructor; [rewrite E; constructor|constructor]. }
  unfold lex_iter, set_error in H.
  case_match; [simplify_eq; split; [constructor|done]|].
  case_match; [simplify_eq; split; [constructor|by apply (skip_comment_bytes (c :: p))]|].
  do 5 (case_match; [simplify_eq; by split; [apply Hone|]|]).
  case_match.
  { pose proof (span_bytes isalpha p Hp') as Hs. destruct (span isalpha p) as [s r].
    case_decide; simplify_eq/=. by split; [apply Hone|]. }
  case_match.
  { destruct (lex_string ln p []) as [[s r]| |] eqn:E; simplify_eq/=.
    destruct (lex_string_bytes (length p) _ _ _ _ _ (le_n _) Hp' (Forall_nil_2 _) E).
    split; [|done]. constructor; [done|constructor]. }
  case_match.
  { destruct (lex_number ln (c :: p)) as [[v r]| |] eqn:E; simplify_eq/=.
    apply lex_number_bytes in E; [|done]. by split; [apply Hone|]. }
  case_match; [|done].
  pose proof (span_bytes ident_char (c :: p) Hp) as Hs. destruct (span ident_char (c :: p)) as [s r].
  simplify_eq/=. by split; [apply Hone|].
Qed.

Lemma lexes_bytes p ln ts q ln' : lexes p ln ts q ln' -> is_byte_list p -> token_bytes ts.
Proof.
  induction 1 as [|c p ln ts q ln1 ts' q' ln2 Hi _ IH]; intros Hp; [constructor|].
  destruct (lex_iter_bytes _ _ _ _ _ _ Hp Hi) as [H1 H2]. apply Forall_app. split; [done|].
  by apply IH.
Qed.

(** ** Pass 1 never gets stuck *)

Definition ends_in_eof (ts : list Token) : Prop := exists l t, ts = l ++ [t] /\ type t = TOK_EOF.

Lemma ends_in_eof_suffix ps ps' : toks ps' `suffix_of` toks ps -> ends_in_eof (toks ps) ->
  ends_in_eof (toks ps').
Proof.
  intros [k E] (l & t & El & Ht). unfold toks in *.
  destruct (rest ps') as [|u r] using rev_ind.
  - exists [], (cur ps'). split; [done|]. rewrite El in E.
    apply app_inj_tail in E as [_ ->]. done.
  - exists (cur ps' :: r), u. split; [done|]. rewrite El, app_comm_cons, app_assoc in E.
    apply app_inj_tail in E as [_ ->]. done.
Qed.

(** Before the end of the list, advancing moves. *)
Lemma advance_progress ps : ends_in_eof (toks ps) -> type (cur ps) <> TOK_EOF ->
  S (length (rest (advance ps))) = length (rest ps).
Proof.
  intros (l & t & E & Ht) Hne. unfold toks, advance in *. destruct (rest ps) as [|u r] eqn:Er.
  - destruct l as [|? l]; [injection E as E; congruence|]. by destruct l.
  - done.
Qed.

Lemma suffix_rest_length ps ps' : toks ps' `suffix_of` toks ps -> (length (rest ps') <= length (rest ps))%nat.
Proof. intros [k E]. apply (f_equal length) in E. rewrite length_app in E. unfold toks in E. simpl in E. lia. Qed.

Lemma parse_operand_no_UB ps op : parse_operand ps op <> UB.
Proof. unfold parse_operand, fail. repeat case_match; simpl; repeat case_match; done. Qed.

Lemma operand_mode_no_UB b o m : operand_mode b o m <> UB.
Proof. unfold operand_mode, fail. by repeat case_match. Qed.

Lemma bind_no_UB {A B} (m : res A) (f : A -> res B) : m <> UB -> (forall a, m = Ok a -> f a <> UB) ->
  (m ≫= f) <> UB.
Proof. destruct m; simpl; auto. Qed.

Lemma parse_line_no_UB ps stmts symtab sec : parse_line ps stmts symtab sec <> UB.
Proof.
  assert (forall ps, parse_statement ps stmts symtab sec <> UB /\
    forall st2 tab2, parse_statement ps st2 tab2 sec <> UB) as H.
  { assert (forall ps st2 tab2, parse_statement ps st2 tab2 sec <> UB) as H; [|auto].
    intros ps0 st2 tab2. unfold parse_statement. case_decide.
    - apply bind_no_UB; [|by intros [[? ?] ?]].
      unfold parse_directive_statement, parse_org, parse_data, parse_string, parse_word, parse_byte, fail.
      repeat case_match; try done; apply bind_no_UB; try apply parse_operand_no_UB;
        intros [? ?] _; by repeat case_match.
    - case_decide; [|done]. case_match; [|done]. apply bind_no_UB; [|by intros [[? ?] ?]].
      unfold parse_instruction_statement. apply bind_no_UB.
      + unfold parse_operands. case_match; [done|]. apply bind_no_UB; [apply parse_operand_no_UB|].
        intros [? ?] _. case_decide; [|done]. apply bind_no_UB; [apply parse_operand_no_UB|].
        by intros [? ?] _.
      + intros [[[n o1] o2] p] _. destruct (opcode_masks _). case_match; [done|].
        apply bind_no_UB; [apply operand_mode_no_UB|]. intros m1 _.
        apply bind_no_UB; [apply operand_mode_no_UB|]. done. }
  unfold parse_line. case_decide; [|apply H]. case_match; [|done]. case_match; [done|]. apply H.
Qed.

Lemma build_loop_enough fuel ps stmts symtab sec : ends_in_eof (toks ps) ->
  (length (rest ps) < fuel)%nat ->
  exists r, build_loop fuel ps stmts symtab sec = Some r /\ r <> UB.
Proof.
  revert ps stmts symtab sec. induction fuel as [|fuel IH]; intros ps stmts symtab sec He Hf; [lia|].
  simpl. case_decide; [by eexists|]. case_decide as Hnl.
  - apply IH; [by eapply ends_in_eof_suffix; [apply advance_suffix|]|].
    pose proof (advance_progress ps He ltac:(congruence)). lia.
  - pose proof (parse_line_no_UB ps stmts symtab sec) as Hub.
    destruct (parse_line ps stmts symtab sec) as [[[[ps1 st1] tab1] sec1]| |] eqn:E; [|by eexists|done].
    apply parse_line_suffix in E. pose proof (ends_in_eof_suffix _ _ E He) as He1.
    pose proof (suffix_rest_length _ _ E).
    case_decide as Hnl1.
    + apply IH; [by eapply ends_in_eof_suffix; [apply advance_suffix|]|].
      pose proof (advance_progress ps1 He1 ltac:(congruence)). lia.
    + destruct (negb (bool_decide (type (cur ps1) = TOK_EOF))) eqn:Eeof; [by eexists|].
      apply negb_false_iff, bool_decide_eq_true in Eeof.
      destruct fuel; simpl; rewrite decide_True by done; by eexists.
Qed.

Lemma build_statements_no_UB ps : ends_in_eof (toks ps) -> build_statements ps <> UB.
Proof.
  intros He. unfold build_statements.
  destruct (build_loop_enough (S (length (rest ps))) ps [] symtab_init sec_init He ltac:(lia))
    as (r & -> & Hr). simpl. apply bind_no_UB; [done|]. intros [[[? ?] ?] ?] _. by case_match.
Qed.

(** ** The result of both passes *)

(** The statements and labels of a source. *)
Definition pass1 (source : list Z) : res (list Statement * SymbolTable * SectionState) :=
  tokens ← lex source;
  match tokens with
  | [] => UB
  | t :: tokens => '(_, stmts, symtab, sec) ← build_statements (mkParser t tokens); Ok (stmts, symtab, sec)
  end.

Lemma lex_tokens source tokens : is_byte_list source -> lex source = Ok tokens ->
  exists t ts, tokens = t :: ts /\ ends_in_eof (t :: ts) /\ token_bytes (t :: ts).
Proof.
  intros Hb H. apply lex_Ok in H as (body & ln & -> & Hl).
  assert (token_bytes (body ++ [simple_token TOK_EOF ln])) as Ht.
  { apply Forall_app. split; [by eapply lexes_bytes|]. repeat constructor. }
  assert (ends_in_eof (body ++ [simple_token TOK_EOF ln])) as He by (by exists body, (simple_token TOK_EOF ln)).
  destruct body as [|t body]; simpl in *; eauto.
Qed.

Lemma pass1_spec source stmts symtab sec : is_byte_list source ->
  pass1 source = Ok (stmts, symtab, sec) ->
  rtc pass1_step pass1_start (stmts, symtab, sec) /\ code_started sec = true.
Proof.
  intros Hb H. unfold pass1 in H. apply res_bind_Ok in H as (tokens & Hl & H).
  destruct (lex_tokens _ _ Hb Hl) as (t & ts & -> & _ & Ht).
  apply res_bind_Ok in H as ([[[ps st1] tab1] sec1] & Hp & H). injection H as <- <- <-.
  eapply build_statements_steps; [|exact Hp]. exact Ht.
Qed.

(** Pass 2 on top: the parse result of a source. *)
Lemma assemble_parsed source : assemble source =
  match (tokens ← lex source; assemble_tokens tokens) with
  | Ok parsed =>
      code_bytes ← buf_read (code parsed) (code_addr parsed) (Z.to_nat (code_size parsed));
      data_bytes ← buf_read (data parsed) (data_addr parsed) (Z.to_nat (data_size parsed));
      Ok ([66; 86; 77; 49; 1; 0] ++ write_u16_le (entry_point parsed) ++
          write_u16_le (code_size parsed) ++ write_u16_le (code_addr parsed) ++
          write_u16_le (data_size parsed) ++ write_u16_le (data_addr parsed) ++
          code_bytes ++ data_bytes)
  | Err ln msg => Err ln (format_error ln msg)
  | UB => UB
  end.
Proof. done. Qed.

Lemma tokens_parsed source : (tokens ← lex source; assemble_tokens tokens) =
  ('(stmts, symtab, sec) ← pass1 source;
   b ← emit_statements stmts symtab (mkBuf empty_buffer empty_buffer);
   Ok (mkResult (buf_code b) (code_start_addr sec) (u16 (code_cursor sec - code_start_addr sec))
         (buf_data b) (data_start_addr sec)
         (if data_started sec then u16 (data_cursor sec - data_start_addr sec) else 0)
         (code_start_addr sec))).
Proof.
  unfold pass1. destruct (lex source) as [[|t ts]| |]; simpl; [done| |done|done].
  by destruct (build_statements (mkParser t ts)) as [[[[ps st1] tab1] sec1]| |].
Qed.

Lemma buf_read_spec b start n : 0 <= start -> start + Z.of_nat n <= 65536 ->
  exists bs, buf_read b start n = Ok bs /\ length bs = n /\
    (forall k, (k < n)%nat -> default 0 (bs !! k) = mem_read8 b (start + Z.of_nat k)) /\
    (mem_wf b -> is_byte_list bs).
Proof.
  revert start. induction n as [|n IH]; intros start Hs Hn; simpl.
  - exists []. split_and!; try done; [lia|constructor].
  - rewrite (proj2 (Z.leb_le 0 start)), (proj2 (Z.ltb_lt start 65536)) by lia. simpl.
    destruct (IH (start + 1)) as (bs & -> & Hl & Hr & Hw); [lia..|]. simpl.
    eexists. split_and!; [done|simpl; lia| |].
    + intros [|k] Hk; simpl; [by rewrite Z.add_0_r|]. rewrite Hr by lia. f_equal. lia.
    + intros Hb. constructor; [by apply mem_read8_u8|by apply Hw].
Qed.

(** The emittable statements of a run of pass 1 that fits. *)
Lemma layout_emittable s : layout s -> all_fit s.1.1 -> emittable s.1.1.
Proof.
  intros Hl Hf. pose proof (lo_wf _ Hl) as Hwf. apply List.Forall_forall. intros st Hin He.
  unfold all_fit in Hf. rewrite List.Forall_forall in Hf, Hwf. split_and!; [auto..|].
  assert (In st (section (in_data st) s.1.1)) as Hs.
  { unfold section. apply filter_In. split; [done|]. unfold in_section. by rewrite He, eqb_reflx. }
  destruct (lo_u16 _ Hl) as (_ & _ & Uc & Ud). unfold is_u16 in *.
  destruct (in_data st).
  - pose proof (chain_bounds _ _ _ st (lo_data _ Hl) Hs). destruct (data_started s.2); lia.
  - pose proof (chain_bounds _ _ _ st (lo_code _ Hl) Hs). destruct (code_started s.2); lia.
Qed.

(** The sections' bounds as functions of the section. *)
Definition sec_lo (sec : SectionState) (d : bool) : Z :=
  if d then (if data_started sec then data_start_addr sec else 0)
  else (if code_started sec then code_start_addr sec else 0).
Definition sec_hi (sec : SectionState) (d : bool) : Z :=
  if d then data_cursor sec else code_cursor sec.

Lemma layout_chain s d : layout s -> chain (sec_lo s.2 d) (section d s.1.1) (sec_hi s.2 d).
Proof. intros H. destruct d; [exact (lo_data _ H)|exact (lo_code _ H)]. Qed.

Section program.
Context (source : list Z) (stmts : list Statement) (symtab : SymbolTable) (sec : SectionState).
Context (Hb : is_byte_list source) (Hp : pass1 source = Ok (stmts, symtab, sec)).
Context (Hf : all_fit stmts).

Lemma program_layout : layout (stmts, symtab, sec).
Proof.
  destruct (pass1_spec _ _ _ _ Hb Hp) as [Hr _].
  apply (steps_layout _ _ Hr Hf layout_start).
Qed.

(** Pass 2 either reports an error or fills the buffers with every statement. *)
Lemma program_buffers :
  match emit_statements stmts symtab (mkBuf empty_buffer empty_buffer) with
  | Ok b => Forall (fun st => emits st = true -> holds_stmt symtab b st) stmts /\
      (forall d, mem_wf (buf d b))
  | Err _ _ => True
  | UB => False
  end.
Proof.
  pose proof program_layout as Hl.
  pose proof (emit_all symtab stmts (mkBuf empty_buffer empty_buffer) (sec_lo sec) (sec_hi sec)
    (layout_emittable _ Hl Hf) (fun d => layout_chain _ d Hl)) as H.
  destruct (emit_statements _ _ _) as [b| |]; [|done..]. destruct H as (H1 & _ & H3).
  split; [done|]. intros d. apply H3. destruct d; apply (mem_wf_init empty_buffer).
Qed.
End program.

(** ** The image *)

(** A word as two header bytes. *)
Lemma write_u16_word v rest : is_u16 v -> write_u16_le v ++ rest = v mod 256 :: v / 256 :: rest.
Proof. intros H. unfold write_u16_le. by rewrite u8_land_255, u8_shiftr_8. Qed.

Definition image_of (entry cs ca ds da : Z) (body : list Z) : list Z :=
  [66; 86; 77; 49; 1; 0] ++ write_u16_le entry ++ write_u16_le cs ++ write_u16_le ca ++
  write_u16_le ds ++ write_u16_le da ++ body.

Section image_of.
Context (entry cs ca ds da : Z) (body : list Z).
Context (He : is_u16 entry) (Hcs : is_u16 cs) (Hca : is_u16 ca) (Hds : is_u16 ds) (Hda : is_u16 da).

Lemma image_of_list : image_of entry cs ca ds da body =
  [66; 86; 77; 49; 1; 0; entry mod 256; entry / 256; cs mod 256; cs / 256; ca mod 256; ca / 256;
   ds mod 256; ds / 256; da mod 256; da / 256] ++ body.
Proof. unfold image_of. by rewrite !write_u16_word. Qed.

Lemma image_of_header : header_of (image_of entry cs ca ds da body) = mkHeader entry cs ca ds da.
Proof.
  rewrite image_of_list. unfold header_of, word_of, byte_at. simpl.
  f_equal; mlia.
Qed.

Lemma image_of_length : zlen (image_of entry cs ca ds da body) = 16 + zlen body.
Proof. rewrite image_of_list, length_app. simpl. lia. Qed.

Lemma image_of_byte i : 0 <= i -> byte_at (image_of entry cs ca ds da body) (16 + i) = byte_at body i.
Proof.
  intros Hi. rewrite image_of_list. unfold byte_at.
  rewrite lookup_app_r by (simpl; lia). simpl length. do 2 f_equal. lia.
Qed.

Lemma image_of_bytes : is_byte_list body -> is_byte_list (image_of entry cs ca ds da body).
Proof.
  intros H. rewrite image_of_list. apply Forall_app. split; [|done].
  repeat constructor; unfold is_u8, is_u16 in *; mlia.
Qed.

(** The checks of the loader, on the header's numbers. *)
Lemma image_of_valid : cs + ds = zlen body -> ca + cs <= 0x10000 -> da + ds <= 0x10000 ->
  ca <= entry < ca + cs -> da + ds <= ca \/ ca + cs <= da ->
  image_valid (image_of entry cs ca ds da body).
Proof.
  intros Hl H1 H2 H3 H4.
  split; rewrite ?image_of_header, ?image_of_length; simpl; try done; unfold is_u16 in *; try lia.
Qed.
End image_of.

Section loaded.
Context (source : list Z) (stmts : list Statement) (symtab : SymbolTable) (sec : SectionState).
Context (Hb : is_byte_list source) (Hp : pass1 source = Ok (stmts, symtab, sec)).
Context (Hf : all_fit stmts).

Let Hl := program_layout source stmts symtab sec Hb Hp Hf.

(** The numbers of the header. *)
Let ca := code_start_addr sec.
Let cs := code_cursor sec - code_start_addr sec.
Let da := data_start_addr sec.
Let ds := if data_started sec then data_cursor sec - data_start_addr sec else 0.

Lemma section_numbers : is_u16 ca /\ is_u16 cs /\ is_u16 da /\ is_u16 ds /\ 0 < cs /\
  ca + cs <= 0xFFFF /\ da + ds <= 0xFFFF /\ (da + ds <= ca \/ ca + cs <= da) /\
  u16 (code_cursor sec - code_start_addr sec) = cs /\
  (if data_started sec then u16 (data_cursor sec - data_start_addr sec) else 0) = ds.
Proof.
  destruct (pass1_spec _ _ _ _ Hb Hp) as [_ Hcs].
  destruct (lo_u16 _ Hl) as (Uc & Ud & Ua & Uda). pose proof (lo_code _ Hl) as C. pose proof (lo_data _ Hl) as D.
  pose proof (lo_code_start _ Hl) as CS. pose proof (lo_above _ Hl) as AB.
  pose proof (lo_data_zero _ Hl) as DZ. cbn [fst snd] in *. rewrite Hcs in C, CS.
  destruct (section false stmts) as [|st l]; [done|]. cbn [chain] in C.
  destruct C as (C1 & C2 & C3). apply chain_le in C3. unfold st_end in C3.
  unfold is_u16, ca, cs, da, ds in *.
  destruct (data_started sec); cbn [negb] in *.
  - specialize (AB eq_refl). apply chain_le in D.
    rewrite !u16_id by (unfold is_u16; lia). lia.
  - specialize (DZ eq_refl). rewrite !u16_id by (unfold is_u16; lia). lia.
Qed.

(** A statement's bytes inside its section's blob. *)
Lemma stmt_in_section st : In st stmts -> emits st = true ->
  if in_data st then data_started sec = true /\ da <= st_address st /\ st_end st <= da + ds
  else ca <= st_address st /\ st_end st <= ca + cs.
Proof.
  intros Hin He.
  assert (In st (section (in_data st) stmts)) as Hs.
  { unfold section. apply filter_In. split; [done|]. unfold in_section. by rewrite He, eqb_reflx. }
  destruct (pass1_spec _ _ _ _ Hb Hp) as [_ Hcs].
  destruct (in_data st).
  - pose proof (lo_data_start _ Hl) as DS. pose proof (chain_bounds _ _ _ st (lo_data _ Hl) Hs) as B.
    cbn [fst snd] in *. unfold ds, da in *.
    destruct (section true stmts); [done|]. rewrite DS in *. simpl in *. lia.
  - pose proof (chain_bounds _ _ _ st (lo_code _ Hl) Hs) as B.
    cbn [fst snd] in *. rewrite Hcs in B. unfold ca, cs. lia.
Qed.

(** What [assemble] returns: an error, or the image of the two filled sections. *)
Lemma assemble_image :
  match assemble source with
  | Ok image => exists b cb db,
      emit_statements stmts symtab (mkBuf empty_buffer empty_buffer) = Ok b /\
      buf_read (buf_code b) ca (Z.to_nat cs) = Ok cb /\ buf_read (buf_data b) da (Z.to_nat ds) = Ok db /\
      image = image_of ca cs ca ds da (cb ++ db)
  | Err _ _ => True
  | UB => False
  end.
Proof.
  destruct section_numbers as (Ua & Uc & Uda & Uds & Hpos & B1 & B2 & _ & Ec & Ed).
  unfold is_u16 in *. rewrite assemble_parsed, tokens_parsed, Hp. cbn [mbind res_bind].
  pose proof (program_buffers source stmts symtab sec Hb Hp Hf) as Hbuf.
  destruct (emit_statements _ _ _) as [b| |] eqn:Eb; cbn [mbind res_bind]; [|done..].
  rewrite Ec, Ed. cbn [code code_addr code_size data data_addr data_size entry_point].
  fold ca da.
  destruct (buf_read_spec (buf_code b) ca (Z.to_nat cs)) as (cb & E1 & _); [lia..|].
  destruct (buf_read_spec (buf_data b) da (Z.to_nat ds)) as (db & E2 & _); [lia..|].
  rewrite E1. cbn [mbind res_bind]. rewrite E2. cbn [mbind res_bind]. exists b, cb, db. done.
Qed.

(** The address space of a loaded image is the regions of the two buffers, over zeros. *)
Lemma assembled_memory image : assemble source = Ok image ->
  exists b, emit_statements stmts symtab (mkBuf empty_buffer empty_buffer) = Ok b /\
    image_valid image /\ is_byte_list image /\ header_of image = mkHeader ca cs ca ds da /\
    forall vm x, mem_read8 (memory (loaded vm image)) x =
      if (da <=? x) && (x <? da + ds) then mem_read8 (buf_data b) x
      else if (ca <=? x) && (x <? ca + cs) then mem_read8 (buf_code b) x else 0.
Proof.
  intros Hi. pose proof assemble_image as H. rewrite Hi in H.
  destruct H as (b & cb & db & Eb & E1 & E2 & ->). exists b. split; [done|].
  destruct section_numbers as (Ua & Uc & Uda & Uds & Hpos & B1 & B2 & Hdis & _).
  pose proof (program_buffers source stmts symtab sec Hb Hp Hf) as Hbuf. rewrite Eb in Hbuf.
  destruct Hbuf as [_ Hwf]. pose proof Ua as Ua'. pose proof Uc as Uc'. pose proof Uda as Uda'.
  pose proof Uds as Uds'. unfold is_u16 in Ua', Uc', Uda', Uds'.
  destruct (buf_read_spec (buf_code b) ca (Z.to_nat cs)) as (cb' & E1' & L1 & R1 & W1); [lia..|].
  destruct (buf_read_spec (buf_data b) da (Z.to_nat ds)) as (db' & E2' & L2 & R2 & W2); [lia..|].
  rewrite E1 in E1'. injection E1' as <-. rewrite E2 in E2'. injection E2' as <-.
  assert (is_byte_list (image_of ca cs ca ds da (cb ++ db))) as Hbytes.
  { apply image_of_bytes; try done. apply Forall_app. split; [apply W1, (Hwf false)|apply W2, (Hwf true)]. }
  assert (image_valid (image_of ca cs ca ds da (cb ++ db))) as Hv.
  { apply image_of_valid; try done; try lia. rewrite length_app. lia. }
  split_and!; [done|done|by rewrite image_of_header|]. intros vm x.
  rewrite loaded_memory by done. unfold image_byte. rewrite image_of_header by done.
  cbn [h_data_addr h_data_size h_code_addr h_code_size].
  destruct ((da <=? x) && (x <? da + ds)) eqn:Ed; [|destruct ((ca <=? x) && (x <? ca + cs)) eqn:Ec; [|done]].
  - rewrite <- Z.add_assoc, image_of_byte by (done || lia). unfold byte_at.
    replace (Z.to_nat (cs + (x - da))) with (length cb + Z.to_nat (x - da))%nat by lia.
    rewrite lookup_app_r by lia. rewrite Nat.add_comm, Nat.add_sub, R2 by lia. f_equal. lia.
  - rewrite image_of_byte by (done || lia). unfold byte_at.
    rewrite lookup_app_l by lia. rewrite R1 by lia. f_equal. lia.
Qed.

Lemma stmt_bytes_at image st : assemble source = Ok image -> In st stmts -> emits st = true ->
  image_valid image /\ is_byte_list image /\ header_of image = mkHeader ca cs ca ds da /\
  exists bs, stmt_bytes symtab st = Ok bs /\
    forall vm, bytes_at (memory (loaded vm image)) (st_address st) bs.
Proof.
  intros Hi Hin He. destruct (assembled_memory image Hi) as (b & Eb & Hv & Hbytes & Hh & Hm).
  destruct section_numbers as (Ua & _ & Uda & _ & _ & B1 & B2 & Hdis & _). unfold is_u16 in *.
  pose proof (program_buffers source stmts symtab sec Hb Hp Hf) as Hbuf. rewrite Eb in Hbuf.
  destruct Hbuf as [Hholds _]. split_and!; [done..|].
  rewrite List.Forall_forall in Hholds. destruct (Hholds st Hin He) as (bs & Ebs & Hr).
  exists bs. split; [done|]. intros vm.
  pose proof (layout_emittable _ Hl Hf) as Hem. unfold emittable in Hem. rewrite List.Forall_forall in Hem.
  destruct (Hem st Hin He) as (Hpl & Hfit & Hnn).
  destruct (stmt_bytes_spec _ _ _ Hpl Ebs) as [Hsz _].
  pose proof (stmt_in_section st Hin He) as Hsec. unfold st_fits, st_end in *.
  apply bytes_at_intro; [lia|lia|]. intros k Hk. rewrite Hm, <- (Hr k Hk).
  destruct (in_data st); cbn [buf].
  - destruct Hsec as (_ & H1 & H2).
    by assert (((da <=? st_address st + Z.of_nat k) && (st_address st + Z.of_nat k <? da + ds)) = true) as -> by lia.
  - destruct Hsec as [H1 H2].
    assert (((da <=? st_address st + Z.of_nat k) && (st_address st + Z.of_nat k <? da + ds)) = false) as -> by lia.
    by assert (((ca <=? st_address st + Z.of_nat k) && (st_address st + Z.of_nat k <? ca + cs)) = true) as -> by lia.
Qed.

(** With no statement at all there would be no code, so an image always comes with
    the facts above. *)
Lemma assembled_valid image : assemble source = Ok image -> image_valid image /\ is_byte_list image.
Proof.
  intros Hi. destruct (pass1_spec _ _ _ _ Hb Hp) as [_ Hcs].
  pose proof (lo_code_start _ Hl) as CS. cbn [fst snd] in CS. rewrite Hcs in CS.
  destruct (section false stmts) as [|st l] eqn:E; [done|].
  assert (In st (section false stmts)) as Hin by (rewrite E; by left).
  unfold section in Hin. apply filter_In in Hin as [Hin Hs]. unfold in_section in Hs.
  apply andb_true_iff in Hs as [He _].
  destruct (stmt_bytes_at image st Hi Hin He) as (? & ? & _). done.
Qed.

Lemma assembled_entry image vm : assemble source = Ok image -> pc (cpu (loaded vm image)) = ca.
Proof.
  intros Hi. pose proof assemble_image as H. rewrite Hi in H.
  destruct H as (b & cb & db & _ & _ & _ & ->).
  destruct section_numbers as (Ua & Uc & Uda & Uds & _).
  unfold loaded. rewrite image_of_header by done. done.
Qed.
End loaded.
