(* ===== verification/AsmProps.v ===== *)
(** The theorems about the assembler: the lexer reads back what tokens print as, the
    passes are safe, labels denote the statements behind them, and an assembled
    image loads and decodes to the program that was written. *)

From S2P Require Import Prelude Common CLib Memory Cpu Instruction Vm VmFacts Loader Symtab Lexer.
From S2P Require Import LexFacts Parser Assembler AsmFacts EmitFacts AsmCorrect VmDemo.
From stdpp Require Import relations.
Open Scope Z_scope.

(** A program: a loop that counts R1 down from 3, then HALT; one word of data. *)
Definition demo_source : list Z :=
  str "  MOV R1, 3 ; count" ++ [10] ++ str "loop: SUB R1, 1" ++ [10] ++ str " JNZ loop" ++ [10] ++
  str " LOAD R2, [value]" ++ [10] ++ str " HALT" ++ [10] ++ str ".data" ++ [10] ++
  str "value: .word loop" ++ [10].

Definition demo_pass1 : list Statement * SymbolTable * SectionState :=
  match pass1 demo_source with Ok s => s | _ => ([], symtab_init, sec_init) end.

Definition demo_image : list Z := match assemble demo_source with Ok i => i | _ => [] end.

#[export] Instance all_fit_dec stmts : Decision (all_fit stmts).
Proof. unfold all_fit. apply Forall_dec. intros st. unfold st_fits. apply _. Defined.

(** ** The lexer *)

(** C24: Printing tokens and lexing the text gives the same tokens back, line numbers
    included, closed by the end-of-file token; this covers identifiers, directives,
    every 64-bit number and string literals with any bytes. *)
Theorem lex_render toks ln : tokens_ok 1 toks ln ->
  lex (render toks) = Ok (toks ++ [simple_token TOK_EOF ln]).
Proof. intros H. apply lex_lexes. by apply lexes_render. Qed.

Lemma lex_render_witness :
  lex (render [text_token TOK_IDENT 1 (str "x1"); number_token 1 (-5); simple_token TOK_NEWLINE 1;
               string_token 2 [10; 0; 34; 255]]) =
  Ok ([text_token TOK_IDENT 1 (str "x1"); number_token 1 (-5); simple_token TOK_NEWLINE 1;
       string_token 2 [10; 0; 34; 255]] ++ [simple_token TOK_EOF 2]).
Proof.
  apply (lex_render [text_token TOK_IDENT 1 (str "x1"); number_token 1 (-5);
    simple_token TOK_NEWLINE 1; string_token 2 [10; 0; 34; 255]] 2).
  repeat (econstructor; [econstructor; try reflexivity; try (simpl; tauto); try by repeat constructor;
    unfold INT64_MAX; lia|]). constructor.
Defined.

(** C38: The main loop ends within one round per character on every source, and what it
    returns is a list of well-formed tokens on consecutively numbered lines, closed
    by the only end-of-file token. *)
Theorem lex_total source :
  exists r, lex_loop (length source) source 1 [] = Some r /\ lex source = r /\
    forall toks, r = Ok toks -> exists body ln,
      toks = body ++ [simple_token TOK_EOF ln] /\ tokens_ok 1 body ln /\
      Forall (fun t => type t <> TOK_EOF) body.
Proof.
  destruct (lex_loop_enough (length source) source 1 [] (le_n _)) as [r E].
  exists r. split_and!; [done|unfold lex; by rewrite E|].
  intros toks ->. apply lex_loop_Ok in E as (body & ln & -> & Hl).
  exists body, ln. apply lexes_tokens in Hl. split_and!; [done|done|by apply tokens_ok_no_eof in Hl].
Qed.

(** ** The symbol table *)

(** The label table is a finite map under insert-if-absent: lookup reads it, a
    definition adds exactly its binding, and it is refused exactly for a name that
    is already bound. *)
Theorem symtab_refines_map table n addr :
  symtab_lookup table n = symtab_map table !! n /\
  match symtab_define table n addr with
  | Some table' => symtab_map table !! n = None /\ symtab_map table' = <[n := addr]> (symtab_map table)
  | None => exists a, symtab_map table !! n = Some a
  end.
Proof.
  split; [apply symtab_lookup_map|]. destruct (symtab_define table n addr) as [table'|] eqn:E.
  - by apply symtab_define_map.
  - unfold symtab_define in E. rewrite symtab_lookup_map in E.
    destruct (symtab_map table !! n); [by eexists|done].
Qed.

(** ** The passes *)

(** C17: After pass 1 the table binds exactly the labels the source defines, and a label
    is bound to the address of the next statement that occupies bytes when only
    labels stand between them. *)
Theorem labels_denote_statements source stmts symtab sec : is_byte_list source ->
  pass1 source = Ok (stmts, symtab, sec) ->
  (forall n a, symtab_lookup symtab n = Some a <->
     exists st, In st stmts /\ kind st = STMT_LABEL n /\ st_address st = a) /\
  (forall l1 lb ls st l2, stmts = l1 ++ lb :: ls ++ st :: l2 -> Forall is_label (lb :: ls) ->
     emits st = true -> st_address lb = st_address st).
Proof.
  intros Hb Hp. destruct (pass1_spec _ _ _ _ Hb Hp) as [Hr _].
  destruct (pass1_labels _ Hr) as [H1 H2]. split; [exact H1|exact H2].
Qed.

Lemma labels_denote_statements_witness :
  symtab_lookup demo_pass1.1.2 (str "loop") = Some 5 <->
  exists st, In st demo_pass1.1.1 /\ kind st = STMT_LABEL (str "loop") /\ st_address st = 5.
Proof.
  apply (labels_denote_statements demo_source demo_pass1.1.1 demo_pass1.1.2 demo_pass1.2);
    [by_decide|vm_compute; reflexivity].
Defined.

(** Assembling is safe: a byte source whose literals fit 64 bits and whose
    statements all end below the top of the address space never makes the assembler
    touch memory outside its buffers - it returns an image or reports an error. *)
Theorem assemble_safe source : is_byte_list source -> lex source <> UB ->
  (forall stmts symtab sec, pass1 source = Ok (stmts, symtab, sec) -> all_fit stmts) ->
  assemble source <> UB.
Proof.
  intros Hb Hl Hf. destruct (pass1 source) as [[[stmts symtab] sec]| |] eqn:Hp.
  - pose proof (assemble_image source stmts symtab sec Hb Hp (Hf _ _ _ eq_refl)) as H.
    by destruct (assemble source).
  - rewrite assemble_parsed, tokens_parsed, Hp. done.
  - exfalso. unfold pass1 in Hp. destruct (lex source) as [tokens| |] eqn:El; [|done..].
    destruct (lex_tokens _ _ Hb El) as (t & ts & -> & He & _). simpl in Hp.
    pose proof (build_statements_no_UB (mkParser t ts) He) as Hn.
    by destruct (build_statements (mkParser t ts)) as [[[[? ?] ?] ?]| |].
Qed.

Lemma assemble_safe_witness : assemble demo_source <> UB.
Proof.
  apply (assemble_safe demo_source); [by_decide|by vm_compute|].
  intros stmts symtab sec H.
  change stmts with (match Ok (stmts, symtab, sec) with Ok s => s.1.1 | _ => [] end).
  rewrite <- H. by_decide.
Defined.

(** C11: The image of a source whose statements end below the top of memory, at 0xFFFF or
    before, loads, execution starts at the first statement of the code section, and
    memory holds the bytes of every statement - instructions encoded with their labels
    resolved, strings, words and bytes - at the address pass 1 gave it. *)
Theorem assembled_image_loads source stmts symtab sec image vm : is_byte_list source ->
  pass1 source = Ok (stmts, symtab, sec) -> all_fit stmts -> assemble source = Ok image ->
  exists vm', vm_load vm image = (vm', VM_OK) /\ vm_wf vm' /\
    pc (cpu vm') = code_start_addr sec /\
    forall st, In st stmts -> emits st = true ->
      exists bs, stmt_bytes symtab st = Ok bs /\ bytes_at (memory vm') (st_address st) bs.
Proof.
  intros Hb Hp Hf Hi.
  destruct (assembled_valid source stmts symtab sec Hb Hp Hf image Hi) as [Hv Hbytes].
  exists (loaded vm image). split_and!.
  - by apply vm_load_ok.
  - by apply loaded_wf.
  - by apply (assembled_entry source stmts symtab sec Hb Hp Hf image).
  - intros st Hin He.
    destruct (stmt_bytes_at source stmts symtab sec Hb Hp Hf image st Hi Hin He)
      as (_ & _ & _ & bs & Ebs & H). eauto.
Qed.

Lemma demo_pass1_eq : pass1 demo_source = Ok (demo_pass1.1.1, demo_pass1.1.2, demo_pass1.2).
Proof. vm_compute. reflexivity. Qed.

Lemma assembled_image_loads_witness :
  exists vm', vm_load blank demo_image = (vm', VM_OK) /\ vm_wf vm' /\ pc (cpu vm') = 0 /\
    forall st, In st demo_pass1.1.1 -> emits st = true ->
      exists bs, stmt_bytes demo_pass1.1.2 st = Ok bs /\ bytes_at (memory vm') (st_address st) bs.
Proof.
  apply (assembled_image_loads demo_source demo_pass1.1.1 demo_pass1.1.2 demo_pass1.2 demo_image blank);
    [by_decide|exact demo_pass1_eq|by_decide|vm_compute; reflexivity].
Defined.

(** C6: When the statements of an assembled source end below the top of memory, at 0xFFFF
    or before, every instruction statement decodes, in the loaded machine and at its
    address, to the instruction the source wrote: its opcode, the addressing modes of
    its syntax, and its operands' values with labels replaced by their addresses; the
    decoder continues at the next statement. *)
Theorem assembled_instruction_decodes source stmts symtab sec image vm st op n o1 o2 m1 m2 :
  is_byte_list source -> pass1 source = Ok (stmts, symtab, sec) -> all_fit stmts ->
  assemble source = Ok image -> In st stmts -> kind st = STMT_INSTRUCTION op n o1 o2 m1 m2 ->
  exists i, resolved symtab op n o1 o2 m1 m2 = Ok i /\ opcode i = op /\
    instruction_decode (memory (loaded vm image)) (st_address st) = inr (st_end st, i).
Proof.
  intros Hb Hp Hf Hi Hin Hk.
  assert (emits st = true) as He by (unfold emits; by rewrite Hk).
  destruct (stmt_bytes_at source stmts symtab sec Hb Hp Hf image st Hi Hin He)
    as (Hv & Hbytes & _ & bs & Ebs & H).
  pose proof (program_layout source stmts symtab sec Hb Hp Hf) as Hl.
  pose proof (layout_emittable _ Hl Hf) as Hem. unfold emittable in Hem. rewrite List.Forall_forall in Hem.
  destruct (Hem st Hin He) as (Hpl & Hfit & Hnn). unfold st_fits, st_end in *.
  pose proof (placeable_size _ _ Hpl) as Hpos. rewrite Hk in Hpl.
  unfold stmt_bytes in Ebs. rewrite Hk in Ebs. apply res_bind_Ok in Ebs as (i & Ei & [= <-]).
  destruct (resolved_legal _ _ _ _ _ _ _ _ _ Hpl Ei) as (Hleg & Hop & Hsz).
  exists i. split_and!; [done|done|].
  rewrite (decode_complete _ (wf_mem _ (loaded_wf _ Hbytes vm Hv)) (st_address st) i); [|unfold is_u16; lia|done|apply H].
  rewrite Hsz, u16_id by (unfold is_u16; lia). done.
Qed.

Lemma assembled_instruction_decodes_witness :
  exists i, resolved demo_pass1.1.2 OP_JNZ 1 (mkPOp (OPKIND_LABEL (str "loop")) 3) no_operand
      MODE_MEM_DIRECT MODE_NONE = Ok i /\ opcode i = OP_JNZ /\
    instruction_decode (memory (loaded blank demo_image)) 10 = inr (14, i).
Proof.
  apply (assembled_instruction_decodes demo_source demo_pass1.1.1 demo_pass1.1.2 demo_pass1.2 demo_image
    blank (mkStmt (STMT_INSTRUCTION OP_JNZ 1 (mkPOp (OPKIND_LABEL (str "loop")) 3) no_operand
      MODE_MEM_DIRECT MODE_NONE) 3 false 10 4)); [by_decide|exact demo_pass1_eq|by_decide|
    vm_compute; reflexivity|vm_compute; tauto|reflexivity].
Defined.

(** ** Divergences *)

(** An instruction at the last address makes pass 2 write behind its 64 KB buffer. *)
Lemma emission_past_buffer : assemble (str ".org 0xFFFF" ++ [10] ++ str "MOV R0, 1" ++ [10]) = UB.
Proof. vm_compute. reflexivity. Qed.

(** The address counter wraps silently at the top of memory: the section's size
    wraps with it, and the image is sliced from behind the buffer. *)
Lemma counter_wraps : assemble (str ".org 0xFFFE" ++ [10] ++ str "NOP" ++ [10] ++ str "HALT" ++ [10]) = UB.
Proof. vm_compute. reflexivity. Qed.

(** A section that ends at 0x10000 has the size its wrapped counter gives it: none, and
    the image is not one the loader takes. *)
Lemma wrapped_code_rejected :
  let image := str "BVM1" ++ [1; 0; 0; 0; 0; 0; 0; 0; 0; 0; 0; 0] in
  assemble (str "NOP" ++ [10] ++ str ".org 0xFFFE" ++ [10] ++ str "NOP" ++ [10]) = Ok image /\
  (vm_load blank image).2 <> VM_OK.
Proof. split; [vm_compute; reflexivity|by vm_compute]. Qed.

(** A literal above 2^63 - 1 overflows the lexer's [int64_t]. *)
Lemma literal_overflows : lex (str "MOV R0, 9223372036854775808") = UB.
Proof. vm_compute. reflexivity. Qed.

(** A [.word] operand of any size is accepted and truncated, although [.byte] and
    the instruction immediates are range-checked. *)
Lemma word_truncates :
  match assemble (str "HALT" ++ [10] ++ str ".data" ++ [10] ++ str ".word 65537" ++ [10]) with
  | Ok image => drop 16 image = [0xFF; 0; 1; 0] | _ => False
  end.
Proof. vm_compute. reflexivity. Qed.

(** A register number of five or more digits is not a register token but a label. *)
Lemma long_register_is_label :
  try_parse_register (str "R1234") = Some 1234 /\ try_parse_register (str "R12345") = None.
Proof. by vm_compute. Qed.
