(* ===== verification/Disassembler.v ===== *)
(** The disassembler: [include/bytevm/disassembler.h] and [src/disassembler.c].

    The growable [Out] buffer is the text written so far; [out_printf] formats
    through a 256-byte array and copies as many bytes as the format produced, so a
    longer piece would read past it - undefined behaviour, which [DisFacts] rules
    out. *)

From S2P Require Import Prelude CLib Memory Instruction Loader.
Open Scope Z_scope.

Definition out_printf (o piece : list Z) : res (list Z) :=
  if zlen piece <? 256 then Ok (o ++ piece) else UB.

Definition mnemonic_for (op : Opcode) : list Z :=
  match op with
  | OP_NOP => str "NOP" | OP_MOV => str "MOV" | OP_ADD => str "ADD" | OP_SUB => str "SUB"
  | OP_MUL => str "MUL" | OP_DIV => str "DIV" | OP_MOD => str "MOD" | OP_AND => str "AND"
  | OP_OR => str "OR" | OP_XOR => str "XOR" | OP_NOT => str "NOT" | OP_SHL => str "SHL"
  | OP_SHR => str "SHR" | OP_LOAD => str "LOAD" | OP_STORE => str "STORE" | OP_PUSH => str "PUSH"
  | OP_POP => str "POP" | OP_CMP => str "CMP" | OP_JMP => str "JMP" | OP_JZ => str "JZ"
  | OP_JNZ => str "JNZ" | OP_JG => str "JG" | OP_JGE => str "JGE" | OP_JL => str "JL"
  | OP_JLE => str "JLE" | OP_JB => str "JB" | OP_JAE => str "JAE" | OP_JA => str "JA"
  | OP_JBE => str "JBE" | OP_CALL => str "CALL" | OP_RET => str "RET" | OP_SYS => str "SYS"
  | OP_HALT => str "HALT"
  end.

Definition syscall_name_for (code : Z) : option (list Z) :=
  match code with
  | 0x01 => Some (str "PRINT_INT")
  | 0x02 => Some (str "PRINT_CHAR")
  | 0x03 => Some (str "READ_INT")
  | 0x04 => Some (str "EXIT")
  | _ => None
  end.

Definition format_operand (o : list Z) (opcode : Opcode) (op : Operand) (legal_mask : Z)
  : res (list Z) :=
  match mode op with
  | MODE_NONE => Ok o
  | MODE_REG => out_printf o (str "R" ++ fmt_u (value op))
  | MODE_REG_INDIRECT => out_printf o (str "[R" ++ fmt_u (value op) ++ str "]")
  | MODE_IMM16 => out_printf o (fmt_u (value op))
  | MODE_IMM8 =>
      match (if decide (opcode = OP_SYS) then syscall_name_for (value op) else None) with
      | Some name => out_printf o name
      | None => out_printf o (fmt_u (value op))
      end
  | MODE_MEM_DIRECT =>
      let indirect_also_legal := negb (Z.land legal_mask (u8 (Z.shiftl 1 4)) =? 0) in
      if indirect_also_legal then out_printf o (str "[0x" ++ fmt_04X (value op) ++ str "]")
      else out_printf o (str "0x" ++ fmt_04X (value op))
  | MODE_RESERVED _ => Ok o
  end.

Definition format_instruction (o : list Z) (instr : Instruction) : res (list Z) :=
  let '(op1_modes, op2_modes) := default (0, 0) (instruction_opcode_modes (opcode instr)) in
  o ← out_printf o (mnemonic_for (opcode instr));
  if decide (mode (op1 instr) = MODE_NONE) then Ok o
  else
    o ← out_printf o (str " ");
    o ← format_operand o (opcode instr) (op1 instr) op1_modes;
    if decide (mode (op2 instr) = MODE_NONE) then Ok o
    else
      o ← out_printf o (str ", ");
      format_operand o (opcode instr) (op2 instr) op2_modes.

(** [disassemble_one]: the text in [buf], [*next_addr] and the boolean result. *)
Definition disassemble_one (mem : Memory) (addr : Z) (buf_size : nat)
  : res (list Z * Z * bool) :=
  match instruction_decode mem addr with
  | inl _ =>
      Ok (clip buf_size (str ".byte 0x" ++ fmt_02X (mem_read8 mem addr)), u16 (addr + 1), false)
  | inr (next, instr) =>
      o ← format_instruction [] instr;
      Ok (clip buf_size o, next, true)
  end.

(** The code loop from [pc] up to [end]; [None] is out of fuel. *)
Fixpoint dis_loop (fuel : nat) (mem : Memory) (pc end_ : Z) (o : list Z)
  : option (res (list Z)) :=
  if negb (pc <? end_) then Some (Ok o)
  else
    match fuel with
    | O => None
    | S fuel =>
        let r := instruction_decode mem pc in
        match r with
        | inr (next, instr) =>
            if negb ((end_ <? next) || (next <=? pc)) then
              match (o ← out_printf o (str "    ");
                     o ← format_instruction o instr;
                     out_printf o [10]) with
              | Ok o => dis_loop fuel mem next end_ o
              | Err l m => Some (Err l m)
              | UB => Some UB
              end
            else
              match out_printf o (str "    .byte 0x" ++ fmt_02X (mem_read8 mem pc) ++ [10]) with
              | Ok o => dis_loop fuel mem (u16 (pc + 1)) end_ o
              | Err l m => Some (Err l m)
              | UB => Some UB
              end
        | inl _ =>
            match out_printf o (str "    .byte 0x" ++ fmt_02X (mem_read8 mem pc) ++ [10]) with
            | Ok o => dis_loop fuel mem (u16 (pc + 1)) end_ o
            | Err l m => Some (Err l m)
            | UB => Some UB
            end
        end
    end.

(** The data loop: one [.byte] line per byte of the data blob. *)
Fixpoint dis_data (bytes : list Z) (o : list Z) : res (list Z) :=
  match bytes with
  | [] => Ok o
  | b :: bytes => o ← out_printf o (str "    .byte 0x" ++ fmt_02X b ++ [10]); dis_data bytes o
  end.

(** A failure reported in [out->error]; it has no line. *)
Definition dis_error {A} (msg : list Z) : res A := Err 0 (clip 256 msg).

(** The memory the decoder runs against: the code blob at its address. *)
Definition dis_memory (image : list Z) (code_addr code_size : Z) : Memory :=
  copy_blob (mem_init (mkMemory ∅)) code_addr 0 (slice image BVM_HEADER_SIZE code_size).

Definition disassemble (image : list Z) : res (list Z) :=
  let image_size := zlen image in
  if (image_size <? BVM_HEADER_SIZE) || negb (magic_ok image) || negb (byte_at image 4 =? 1) ||
     negb (byte_at image 5 =? 0)
  then dis_error (str "not a valid BVM1 image")
  else
    let entry_point := read_u16_le image 6 in
    let code_size := read_u16_le image 8 in
    let code_addr := read_u16_le image 10 in
    let data_size := read_u16_le image 12 in
    let data_addr := read_u16_le image 14 in
    if image_size <? BVM_HEADER_SIZE + code_size + data_size then
      dis_error (str "image is shorter than its header claims")
    else if negb (entry_point =? code_addr) then
      dis_error (str "entry_point (0x" ++ fmt_04X entry_point ++ str ") differs from code_addr (0x" ++
                 fmt_04X code_addr ++ str "); no .asm form of this exists")
    else
      let mem := dis_memory image code_addr code_size in
      o ← out_printf [] (str "; disassembled from a .bvm image" ++ [10]);
      o ← out_printf o (str "; code: " ++ fmt_u code_size ++ str " bytes at 0x" ++ fmt_04X code_addr);
      o ← (if 0 <? data_size then
             out_printf o (str ", data: " ++ fmt_u data_size ++ str " bytes at 0x" ++ fmt_04X data_addr)
           else Ok o);
      o ← out_printf o [10; 10];
      o ← (if negb (code_addr =? 0) then out_printf o (str ".org 0x" ++ fmt_04X code_addr ++ [10])
           else Ok o);
      let end_ := u16 (code_addr + code_size) in
      o ← default UB (dis_loop (Z.to_nat end_) mem code_addr end_ o);
      if 0 <? data_size then
        o ← out_printf o ([10] ++ str ".data" ++ [10]);
        o ← (if negb (data_addr =? end_) then out_printf o (str ".org 0x" ++ fmt_04X data_addr ++ [10])
             else Ok o);
        dis_data (slice image (BVM_HEADER_SIZE + code_size) data_size) o
      else Ok o.
