(* ===== verification/DisFacts.v ===== *)
(** Facts about the disassembler: every piece of text fits its 256-byte array, the
    code loop ends, and its output is one line per [Item] of a tiling of the code
    region by instructions and single bytes. *)

From S2P Require Import Prelude Common CLib Memory Cpu Instruction Vm Loader Disassembler.
Open Scope Z_scope.

(** ** Lengths *)

Lemma dec_digits_length fuel n acc : (length (dec_digits fuel n acc) <= fuel + length acc)%nat.
Proof.
  revert n acc. induction fuel as [|fuel IH]; intros n acc; simpl; [lia|].
  case_match; simpl; [lia|]. etransitivity; [apply IH|]. simpl. lia.
Qed.

Lemma fmt_u_length n : is_u16 n -> zlen (fmt_u n) <= 17.
Proof.
  intros H. unfold fmt_u.
  pose proof (dec_digits_length (S (Z.to_nat (Z.log2 n))) n []) as Hd. cbn [length] in Hd.
  assert (Z.log2 n <= 15).
  { destruct (Z.eq_dec n 0) as [->|Hn]; [simpl; lia|]. unfold is_u16 in H.
    apply Z.lt_succ_r, Z.log2_lt_pow2; change (2 ^ Z.succ 15) with 65536; lia. }
  pose proof (Z.log2_nonneg n). lia.
Qed.

Lemma out_printf_ok o piece : zlen piece < 256 -> out_printf o piece = Ok (o ++ piece).
Proof. intros H. unfold out_printf. by rewrite (proj2 (Z.ltb_lt _ _) H). Qed.

(** ** The text of an instruction *)

Definition operand_text (op : Opcode) (o : Operand) (mask : Z) : list Z :=
  match mode o with
  | MODE_REG => str "R" ++ fmt_u (value o)
  | MODE_REG_INDIRECT => str "[R" ++ fmt_u (value o) ++ str "]"
  | MODE_IMM16 => fmt_u (value o)
  | MODE_IMM8 => default (fmt_u (value o)) (if decide (op = OP_SYS) then syscall_name_for (value o) else None)
  | MODE_MEM_DIRECT =>
      if negb (Z.land mask 16 =? 0) then str "[0x" ++ fmt_04X (value o) ++ str "]"
      else str "0x" ++ fmt_04X (value o)
  | MODE_NONE | MODE_RESERVED _ => []
  end.

Definition op_mask1 (i : Instruction) : Z := op1_modes (OPCODE_TABLE (opcode_value (opcode i))).
Definition op_mask2 (i : Instruction) : Z := op2_modes (OPCODE_TABLE (opcode_value (opcode i))).

Definition instr_text (i : Instruction) : list Z :=
  mnemonic_for (opcode i) ++
  (if decide (mode (op1 i) = MODE_NONE) then []
   else str " " ++ operand_text (opcode i) (op1 i) (op_mask1 i) ++
     (if decide (mode (op2 i) = MODE_NONE) then []
      else str ", " ++ operand_text (opcode i) (op2 i) (op_mask2 i))).

Lemma syscall_name_length c n : syscall_name_for c = Some n -> zlen n <= 10.
Proof.
  unfold syscall_name_for. intros H.
  repeat (case_match; try done); simplify_eq; by vm_compute.
Qed.

Lemma operand_wf_u16 o : operand_wf o -> is_u16 (value o).
Proof.
  unfold operand_wf, is_u16, is_u8. destruct (mode o); try lia.
Qed.

Lemma format_operand_text o op a mask : operand_wf a ->
  format_operand o op a mask = Ok (o ++ operand_text op a mask).
Proof.
  intros Hw. pose proof (fmt_u_length _ (operand_wf_u16 _ Hw)) as Hl.
  unfold format_operand, operand_text. change (u8 (Z.shiftl 1 4)) with 16.
  destruct (mode a) eqn:Em.
  - by rewrite app_nil_r.
  - apply out_printf_ok. rewrite length_app. simpl. lia.
  - apply out_printf_ok. lia.
  - case_match; apply out_printf_ok; vm_compute; done.
  - apply out_printf_ok. rewrite !length_app. simpl. lia.
  - destruct (if decide (op = OP_SYS) then _ else _) as [n|] eqn:En; simpl.
    + apply out_printf_ok. case_decide; [|done]. apply syscall_name_length in En. lia.
    + apply out_printf_ok. lia.
  - by rewrite app_nil_r.
Qed.

Lemma mnemonic_length op : zlen (mnemonic_for op) <= 5.
Proof. by destruct op; vm_compute. Qed.

Lemma instruction_masks i :
  default (0, 0) (instruction_opcode_modes (opcode i)) = (op_mask1 i, op_mask2 i).
Proof. unfold op_mask1, op_mask2. by destruct (opcode i). Qed.

(** Formatting never overruns the array and appends exactly the text. *)
Lemma format_instruction_text o i : instr_legal i ->
  format_instruction o i = Ok (o ++ instr_text i).
Proof.
  intros [W1 W2]%legal_operands. unfold format_instruction, instr_text. rewrite instruction_masks.
  pose proof (mnemonic_length (opcode i)).
  rewrite out_printf_ok by lia. cbn [mbind res_bind]. case_decide; [by rewrite app_nil_r|].
  rewrite out_printf_ok by done. cbn [mbind res_bind].
  rewrite format_operand_text by done. cbn [mbind res_bind]. case_decide.
  - by rewrite app_nil_r, <- !app_assoc.
  - rewrite out_printf_ok by done. cbn [mbind res_bind].
    rewrite format_operand_text by done. by rewrite <- !app_assoc.
Qed.

Lemma operand_text_length op a mask : operand_wf a -> zlen (operand_text op a mask) <= 20.
Proof.
  intros Hw. pose proof (fmt_u_length _ (operand_wf_u16 _ Hw)) as Hl. unfold operand_text.
  destruct (mode a); rewrite ?length_app; simpl; try lia.
  - by case_match; vm_compute.
  - case_decide; simpl; [|lia]. destruct (syscall_name_for _) as [n|] eqn:E; simpl; [|lia].
    apply syscall_name_length in E. lia.
Qed.

Lemma instr_text_length i : instr_legal i -> zlen (instr_text i) <= 48.
Proof.
  intros [W1 W2]%legal_operands. unfold instr_text. pose proof (mnemonic_length (opcode i)).
  pose proof (operand_text_length (opcode i) (op1 i) (op_mask1 i) W1).
  pose proof (operand_text_length (opcode i) (op2 i) (op_mask2 i) W2).
  repeat case_decide; rewrite ?length_app; simpl in *; lia.
Qed.

(** [disassemble_one] always has a result: the text of the instruction at the
    address and the address behind it, or a byte directive. *)
Lemma disassemble_one_spec mem a size : mem_wf mem -> is_u16 a ->
  exists text next b, disassemble_one mem a size = Ok (clip size text, next, b) /\ is_u16 next /\
    match instruction_decode mem a with
    | inr (next', i) => text = instr_text i /\ next = next' /\ b = true
    | inl _ => text = str ".byte 0x" ++ fmt_02X (mem_read8 mem a) /\ next = u16 (a + 1) /\ b = false
    end.
Proof.
  intros Hm Ha. unfold disassemble_one.
  destruct (instruction_decode mem a) as [e|[next i]] eqn:Hd.
  - eexists _, _, _. split; [done|]. split; [apply u16_range|done].
  - destruct (decode_sound mem Hm a next i Ha Hd) as (Hi & _ & ->).
    rewrite format_instruction_text by done. cbn [mbind res_bind app].
    eexists _, _, _. split; [done|]. split; [apply u16_range|done].
Qed.

(** ** The code loop *)

(** A line of the disassembly. *)
Inductive Item : Type := Item_instr (i : Instruction) | Item_byte (b : Z).

Definition item_text (it : Item) : list Z :=
  match it with
  | Item_instr i => str "    " ++ instr_text i ++ [10]
  | Item_byte b => str "    .byte 0x" ++ fmt_02X b ++ [10]
  end.

Definition item_bytes (it : Item) : list Z :=
  match it with Item_instr i => instr_bytes i | Item_byte b => [b] end.

Definition item_ok (it : Item) : Prop :=
  match it with Item_instr i => instr_legal i | Item_byte b => is_u8 b end.

(** No legal instruction is encoded at [pc] within the region. *)
Definition no_instr (mem : Memory) (end_ pc : Z) : Prop :=
  forall i, instr_legal i -> bytes_at mem pc (instr_bytes i) -> end_ < pc + zlen (instr_bytes i).

(** The items cover [pc, end) one behind the other, each as memory has it; a byte
    stands alone only where no instruction could. *)
Inductive tiles (mem : Memory) (end_ : Z) : Z -> list Item -> Prop :=
| tiles_end pc : pc = end_ -> tiles mem end_ pc []
| tiles_item pc it items :
    item_ok it -> bytes_at mem pc (item_bytes it) ->
    (if it is Item_byte _ then no_instr mem end_ pc else True) -> pc + zlen (item_bytes it) <= end_ ->
    tiles mem end_ (pc + zlen (item_bytes it)) items -> tiles mem end_ pc (it :: items).

Definition lines (items : list Item) : list Z := flat_map item_text items.

Lemma lines_cons it items : lines (it :: items) = item_text it ++ lines items.
Proof. done. Qed.

Lemma byte_line o b : out_printf o (str "    .byte 0x" ++ fmt_02X b ++ [10]) = Ok (o ++ item_text (Item_byte b)).
Proof. apply out_printf_ok. vm_compute. done. Qed.

Lemma instr_line o i : instr_legal i ->
  (o ← out_printf o (str "    "); o ← format_instruction o i; out_printf o [10]) =
  Ok (o ++ item_text (Item_instr i)).
Proof.
  intros Hi. rewrite out_printf_ok by done. cbn [mbind res_bind].
  rewrite format_instruction_text by done. cbn [mbind res_bind].
  rewrite out_printf_ok by done. unfold item_text. by rewrite <- !app_assoc.
Qed.

(** The loop ends within one round per address and prints a tiling. *)
Lemma dis_loop_tiles fuel mem pc end_ o : mem_wf mem -> 0 <= pc <= end_ -> end_ <= 0xFFFF ->
  end_ - pc <= Z.of_nat fuel ->
  exists items, tiles mem end_ pc items /\ dis_loop fuel mem pc end_ o = Some (Ok (o ++ lines items)).
Proof.
  intros Hm. revert pc o. induction fuel as [|fuel IH]; intros pc o Hpc He Hf.
  { exists []. split; [constructor; lia|]. simpl. rewrite (proj2 (Z.ltb_ge pc end_)) by lia.
    by rewrite app_nil_r. }
  cbn [dis_loop]. destruct (Z.ltb_spec pc end_) as [Hlt|Hge]; cbn [negb].
  2:{ exists []. split; [constructor; lia|]. by rewrite app_nil_r. }
  assert (is_u16 pc) as Hu by (unfold is_u16; lia).
  assert (Hbyte : no_instr mem end_ pc -> exists items, tiles mem end_ pc items /\
    dis_loop fuel mem (u16 (pc + 1)) end_ (o ++ item_text (Item_byte (mem_read8 mem pc))) =
      Some (Ok (o ++ lines items))).
  { intros Hno. rewrite u16_id by (unfold is_u16; lia).
    destruct (IH (pc + 1) (o ++ item_text (Item_byte (mem_read8 mem pc)))) as (items & Ht & E); [lia..|].
    exists (Item_byte (mem_read8 mem pc) :: items). split.
    - constructor; simpl; [by apply mem_read8_u8|done|done|lia|done].
    - by rewrite E, lines_cons, app_assoc. }
  destruct (instruction_decode mem pc) as [e|[next i]] eqn:Hd.
  { rewrite byte_line. apply Hbyte. intros i Hi Hb.
    by rewrite (decode_complete mem Hm pc i Hu Hi Hb) in Hd. }
  destruct (decode_sound mem Hm pc next i Hu Hd) as (Hi & Hb & ->).
  pose proof (instr_bytes_length i) as Hlen.
  destruct (negb ((end_ <? _) || (_ <=? pc))) eqn:Ec.
  2:{ rewrite byte_line. apply Hbyte. intros j Hj Hbj.
      rewrite (legal_encoding_unique mem pc j i) by done.
      apply negb_false_iff, orb_true_iff in Ec as [E%Z.ltb_lt|E%Z.leb_le]; mlia. }
  apply negb_true_iff, orb_false_iff in Ec as [E1 E2]. apply Z.ltb_ge in E1. apply Z.leb_gt in E2.
  assert (u16 (pc + zlen (instr_bytes i)) = pc + zlen (instr_bytes i)) as En by mlia.
  rewrite En in *. rewrite instr_line by done.
  destruct (IH (pc + zlen (instr_bytes i)) (o ++ item_text (Item_instr i))) as (items & Ht & E); [lia..|].
  exists (Item_instr i :: items). split.
  - constructor; cbn [item_ok item_bytes]; [done|done|done|lia|done].
  - by rewrite E, lines_cons, app_assoc.
Qed.

Lemma dis_data_lines bytes o : dis_data bytes o = Ok (o ++ lines (map Item_byte bytes)).
Proof.
  revert o. induction bytes as [|b bytes IH]; intros o.
  - simpl. by rewrite app_nil_r.
  - cbn [dis_data]. rewrite byte_line. cbn [mbind res_bind]. rewrite IH.
    by rewrite map_cons, lines_cons, app_assoc.
Qed.

(** ** A whole image *)

(** What [disassemble] checks: the magic number and version, the length, and that the
    entry point is the first byte of the code. Of the conditions of section 10 it leaves
    out those on the regions: the code's size, its end and the data's, and that the two
    do not overlap. *)
Record dis_ready (image : list Z) : Prop := {
  dr_magic : take 6 image = [66; 86; 77; 49; 1; 0];
  dr_header : 16 <= zlen image;
  dr_length : 16 + h_code_size (header_of image) + h_data_size (header_of image) <= zlen image;
  dr_entry : h_entry (header_of image) = h_code_addr (header_of image);
}.

(** The two comment lines and the origin. *)
Definition dis_prologue (h : Header) : list Z :=
  str "; disassembled from a .bvm image" ++ [10] ++
  str "; code: " ++ fmt_u (h_code_size h) ++ str " bytes at 0x" ++ fmt_04X (h_code_addr h) ++
  (if 0 <? h_data_size h then
     str ", data: " ++ fmt_u (h_data_size h) ++ str " bytes at 0x" ++ fmt_04X (h_data_addr h)
   else []) ++ [10; 10] ++
  (if negb (h_code_addr h =? 0) then str ".org 0x" ++ fmt_04X (h_code_addr h) ++ [10] else []).

Definition code_end (h : Header) : Z := u16 (h_code_addr h + h_code_size h).

(** The data section: its origin, unless it follows the code, and its bytes. *)
Definition dis_epilogue (h : Header) (data : list Z) : list Z :=
  if 0 <? h_data_size h then
    [10] ++ str ".data" ++ [10] ++
    (if negb (h_data_addr h =? code_end h) then str ".org 0x" ++ fmt_04X (h_data_addr h) ++ [10] else []) ++
    lines (map Item_byte data)
  else [].

Definition image_code_memory (image : list Z) : Memory :=
  dis_memory image (h_code_addr (header_of image)) (h_code_size (header_of image)).

Definition image_data (image : list Z) : list Z :=
  slice image (16 + h_code_size (header_of image)) (h_data_size (header_of image)).

Lemma image_code_memory_wf image : is_byte_list image -> mem_wf (image_code_memory image).
Proof. intros Hb. apply copy_blob_wf; [apply mem_wf_init|by apply slice_bytes]. Qed.

Lemma fmt_u_piece n k : is_u16 n -> k <= 200 -> zlen (fmt_u n) + k < 256.
Proof. intros H ?. apply fmt_u_length in H. lia. Qed.

(** The code loop over the region of a header: it ends where the region does, and a
    region that reaches 0x10000 is taken for an empty one. *)
Lemma dis_code h mem o : mem_wf mem -> is_u16 (h_code_size h) -> is_u16 (h_code_addr h) ->
  exists items,
    default UB (dis_loop (Z.to_nat (code_end h)) mem (h_code_addr h) (code_end h) o) = Ok (o ++ lines items) /\
    if h_code_addr h + h_code_size h <=? 0xFFFF
    then tiles mem (code_end h) (h_code_addr h) items else items = [].
Proof.
  intros Hm Hcs Hca. unfold code_end. destruct (Z.leb_spec (h_code_addr h + h_code_size h) 0xFFFF).
  - rewrite u16_id by (unfold is_u16 in *; lia). unfold is_u16 in *.
    destruct (dis_loop_tiles (Z.to_nat (h_code_addr h + h_code_size h)) mem (h_code_addr h)
      (h_code_addr h + h_code_size h) o Hm) as (items & Ht & ->); [lia..|].
    by exists items.
  - exists []. split; [|done]. cbn [lines flat_map]. rewrite app_nil_r.
    assert (u16 (h_code_addr h + h_code_size h) <= h_code_addr h) by mlia.
    destruct (Z.to_nat _); cbn [dis_loop]; by rewrite (proj2 (Z.ltb_ge _ _)) by done.
Qed.

(** The pieces [disassemble] writes, in order. *)
Lemma dis_pieces h mem data : mem_wf mem ->
  is_u16 (h_code_size h) -> is_u16 (h_code_addr h) -> is_u16 (h_data_size h) ->
  exists items,
  (o ← out_printf [] (str "; disassembled from a .bvm image" ++ [10]);
   o ← out_printf o (str "; code: " ++ fmt_u (h_code_size h) ++ str " bytes at 0x" ++
                     fmt_04X (h_code_addr h));
   o ← (if 0 <? h_data_size h then
          out_printf o (str ", data: " ++ fmt_u (h_data_size h) ++ str " bytes at 0x" ++
                        fmt_04X (h_data_addr h))
        else Ok o);
   o ← out_printf o [10; 10];
   o ← (if negb (h_code_addr h =? 0) then out_printf o (str ".org 0x" ++ fmt_04X (h_code_addr h) ++ [10])
        else Ok o);
   o ← default UB (dis_loop (Z.to_nat (code_end h)) mem (h_code_addr h) (code_end h) o);
   if 0 <? h_data_size h then
     o ← out_printf o ([10] ++ str ".data" ++ [10]);
     o ← (if negb (h_data_addr h =? code_end h) then
            out_printf o (str ".org 0x" ++ fmt_04X (h_data_addr h) ++ [10])
          else Ok o);
     dis_data data o
   else Ok o) = Ok (dis_prologue h ++ lines items ++ dis_epilogue h data) /\
  if h_code_addr h + h_code_size h <=? 0xFFFF
  then tiles mem (code_end h) (h_code_addr h) items else items = [].
Proof.
  intros Hm Hcs Hca Hds. unfold dis_prologue, dis_epilogue.
  pose proof (fmt_u_piece _ 100 Hcs) as L1. pose proof (fmt_u_piece _ 100 Hds) as L2.
  assert (Hloop : forall o, exists items,
    default UB (dis_loop (Z.to_nat (code_end h)) mem (h_code_addr h) (code_end h) o) = Ok (o ++ lines items) /\
    if h_code_addr h + h_code_size h <=? 0xFFFF
    then tiles mem (code_end h) (h_code_addr h) items else items = []) by (intros; by apply dis_code).
  rewrite out_printf_ok by done. cbn [mbind res_bind app].
  rewrite out_printf_ok by (rewrite !length_app; simpl; lia). cbn [mbind res_bind].
  destruct (0 <? h_data_size h).
  all: try (rewrite out_printf_ok by (rewrite !length_app; simpl; lia)); cbn [mbind res_bind].
  all: rewrite out_printf_ok by done; cbn [mbind res_bind].
  all: destruct (negb (h_code_addr h =? 0)).
  all: try (rewrite out_printf_ok by done); cbn [mbind res_bind].
  all: match goal with |- context [dis_loop _ _ _ _ ?o] => destruct (Hloop o) as (items & E & Hi) end.
  all: exists items; split; [|exact Hi]; rewrite E; cbn [mbind res_bind].
  all: try (rewrite out_printf_ok by done; cbn [mbind res_bind]).
  all: try (destruct (negb (h_data_addr h =? code_end h));
    [rewrite out_printf_ok by done|]; cbn [mbind res_bind]; rewrite dis_data_lines).
  all: f_equal; repeat (rewrite <- ?app_assoc; cbn [app]); rewrite ?app_nil_r; done.
Qed.

(** Every image is either disassembled - prologue, tiled code, data - or refused,
    and the refusals are the missing requirements. *)
Lemma disassemble_cases image : is_byte_list image ->
  (dis_ready image /\ exists items,
     disassemble image = Ok (dis_prologue (header_of image) ++ lines items ++
                             dis_epilogue (header_of image) (image_data image)) /\
     if h_code_addr (header_of image) + h_code_size (header_of image) <=? 0xFFFF
     then tiles (image_code_memory image) (code_end (header_of image)) (h_code_addr (header_of image)) items
     else items = []) \/
  (~ dis_ready image /\ exists msg, disassemble image = Err 0 msg).
Proof.
  intros Hb. unfold disassemble, BVM_HEADER_SIZE.
  destruct (Z.ltb_spec (zlen image) 16) as [H16|H16].
  { right. split; [intros []; lia|by eexists]. }
  pose proof (magic_spec image ltac:(lia)) as Hmagic.
  destruct (magic_ok image); simpl orb;
    [|right; split; [intros [M]; by apply Hmagic in M|by eexists]].
  destruct (byte_at image 4 =? 1); simpl orb;
    [|right; split; [intros [M]; by apply Hmagic in M|by eexists]].
  destruct (byte_at image 5 =? 0); simpl orb;
    [|right; split; [intros [M]; by apply Hmagic in M|by eexists]].
  pose proof (proj1 Hmagic eq_refl) as M.
  rewrite !(proj1 (read_u16_le_word image _ Hb)).
  change (word_of image 6) with (h_entry (header_of image)).
  change (word_of image 8) with (h_code_size (header_of image)).
  change (word_of image 10) with (h_code_addr (header_of image)).
  change (word_of image 12) with (h_data_size (header_of image)).
  change (word_of image 14) with (h_data_addr (header_of image)).
  destruct (header_u16 image Hb) as (He & Hcs & Hca & Hds & Hda).
  change (slice image (16 + h_code_size (header_of image)) (h_data_size (header_of image)))
    with (image_data image).
  change (dis_memory image (h_code_addr (header_of image)) (h_code_size (header_of image)))
    with (image_code_memory image).
  pose proof (image_code_memory_wf image Hb) as Hm.
  destruct (Z.ltb_spec (zlen image) (16 + h_code_size (header_of image) + h_data_size (header_of image))).
  { right. split; [intros []; lia|by eexists]. }
  destruct (Z.eqb_spec (h_entry (header_of image)) (h_code_addr (header_of image)));
    [|right; split; [by intros []|by eexists]]. cbn [negb].
  left. split; [by split|].
  set (h := header_of image) in *. set (mem := image_code_memory image) in *.
  change (u16 (h_code_addr h + h_code_size h)) with (code_end h).
  destruct (dis_pieces h mem (image_data image)) as (items & E & Hi); try done.
  exists items. split; [exact E|exact Hi].
Qed.

(** ** The tiled bytes *)

Lemma bytes_at_inj mem pc l1 l2 : bytes_at mem pc l1 -> bytes_at mem pc l2 -> length l1 = length l2 -> l1 = l2.
Proof.
  revert pc l2. induction l1 as [|a l1 IH]; intros pc [|b l2] H1 H2 Hl; try done.
  destruct H1 as [<- H1], H2 as [<- H2]. f_equal. injection Hl as Hl. eauto.
Qed.

Lemma tiles_bytes mem end_ pc items : 0 <= pc -> end_ <= 0xFFFF -> tiles mem end_ pc items ->
  bytes_at mem pc (flat_map item_bytes items) /\ pc + zlen (flat_map item_bytes items) = end_.
Proof.
  intros Hpc He. induction 1 as [pc ->|pc it items Hok Hb Hn Hle Ht IH]; simpl; [split; [done|lia]|].
  destruct IH as [IH1 IH2]; [lia|]. split; [|rewrite length_app; lia].
  apply bytes_at_app; [unfold is_u16; lia|]. rewrite u16_id by (unfold is_u16; lia). done.
Qed.

Lemma image_code_bytes image : is_byte_list image -> dis_ready image ->
  h_code_addr (header_of image) + h_code_size (header_of image) <= 0xFFFF ->
  bytes_at (image_code_memory image) (h_code_addr (header_of image))
    (slice image 16 (h_code_size (header_of image))) /\
  zlen (slice image 16 (h_code_size (header_of image))) = h_code_size (header_of image).
Proof.
  intros Hb Hr He. destruct (header_u16 image Hb) as (_ & Hcs & Hca & Hds & _).
  destruct Hr as [_ H16 Hlen _]. unfold is_u16 in *.
  assert (zlen (slice image 16 (h_code_size (header_of image))) = h_code_size (header_of image)) as Hl
    by (apply slice_length; lia).
  split; [|done]. apply bytes_at_intro; [lia|lia|]. intros k Hk.
  unfold image_code_memory, dis_memory, BVM_HEADER_SIZE. rewrite copy_blob_read by lia.
  rewrite Z.add_0_r, (proj2 (Z.leb_le _ _)), (proj2 (Z.ltb_lt _ _)) by lia. cbn [andb].
  unfold byte_at. by replace (Z.to_nat _) with k by lia.
Qed.

(** The items' encodings are the code of the image. *)
Lemma tiles_code image items : is_byte_list image -> dis_ready image ->
  h_code_addr (header_of image) + h_code_size (header_of image) <= 0xFFFF ->
  tiles (image_code_memory image) (h_code_addr (header_of image) + h_code_size (header_of image))
    (h_code_addr (header_of image)) items ->
  flat_map item_bytes items = slice image 16 (h_code_size (header_of image)).
Proof.
  intros Hb Hr He Ht. destruct (image_code_bytes image Hb Hr He) as [Hc Hl].
  destruct (header_u16 image Hb) as (_ & _ & Hca & _). unfold is_u16 in *.
  destruct (tiles_bytes _ _ (h_code_addr (header_of image)) items ltac:(lia) He Ht) as [Hi Hz].
  eapply bytes_at_inj; [exact Hi|exact Hc|lia].
Qed.
