(* ===== verification/DisProps.v ===== *)
(** The theorems about the disassembler: it is total and safe on every byte string, it
    refuses exactly those that are not [dis_ready], and the text of an image covers its
    code and data byte for byte, if the code ends below the top of memory. *)

From S2P Require Import Prelude Common CLib Memory Cpu Instruction Vm VmFacts Loader VmDemo.
From S2P Require Import Disassembler DisFacts.
Open Scope Z_scope.



(** C28: If an image is not refused and its code ends at 0xFFFF or before, the disassembly
    is a prologue, one line per item of the code, and one line per byte of the data. The
    items are legal instructions and single bytes whose encodings, one behind the other,
    are the code of the image; a byte stands alone only where no instruction is encoded
    within the code. *)
Theorem disassembly_covers image : is_byte_list image -> dis_ready image ->
  h_code_addr (header_of image) + h_code_size (header_of image) <= 0xFFFF ->
  exists items,
    disassemble image = Ok (dis_prologue (header_of image) ++ lines items ++
                            dis_epilogue (header_of image) (image_data image)) /\
    flat_map item_bytes items = slice image 16 (h_code_size (header_of image)) /\
    tiles (image_code_memory image) (h_code_addr (header_of image) + h_code_size (header_of image))
      (h_code_addr (header_of image)) items.
Proof.
  intros Hb Hr Hend. destruct (disassemble_cases image Hb) as [(_ & items & E & Ht)|[Hn _]]; [|done].
  rewrite (proj2 (Z.leb_le _ _) Hend) in Ht. unfold code_end in Ht.
  destruct (header_u16 image Hb) as (_ & Hcs & Hca & _). unfold is_u16 in *.
  rewrite u16_id in Ht by (unfold is_u16; lia).
  exists items. split_and!; [done| |done]. by apply tiles_code.
Qed.

Definition dis_image : list Z := code_image 0x10 [0x0F; 0x20; 1; 0; 0x77; 0xFF; 0].

Lemma disassembly_covers_witness :
  exists items,
    disassemble dis_image = Ok (dis_prologue (header_of dis_image) ++ lines items ++
                                dis_epilogue (header_of dis_image) (image_data dis_image)) /\
    flat_map item_bytes items = slice dis_image 16 7 /\
    tiles (image_code_memory dis_image) 0x17 0x10 items.
Proof.
  apply (disassembly_covers dis_image); [by_decide| |vm_compute; congruence].
  split; [done|vm_compute; congruence|vm_compute; congruence|done].
Defined.

(** ** Divergences *)

Definition top_image_demo : list Z := code_image 0xFFFC [0x0F; 0x20; 1; 0].

(** Code that ends at 0x10000 is loaded and run, but the disassembler's end address
    wraps to 0 and no line of the code is printed. *)
Lemma disassembly_drops_top_code : image_valid top_image_demo /\
  disassemble top_image_demo = Ok (dis_prologue (header_of top_image_demo)).
Proof.
  split; [apply image_valid_load; [by_decide|reflexivity]|vm_compute; reflexivity].
Qed.

(** Data on top of the code: not an image of section 10, but printed all the same. *)
Definition overlapping_image : list Z :=
  [66; 86; 77; 49; 1; 0; 0; 0; 2; 0; 0; 0; 1; 0; 0; 0] ++ [0xFF; 0] ++ [5].

Lemma overlap_disassembled : (vm_load blank overlapping_image).2 <> VM_OK /\
  exists text, disassemble overlapping_image = Ok text.
Proof. split; [by vm_compute|]. eexists. vm_compute. reflexivity. Qed.
