(* ===== verification/Debugger.v ===== *)
(** The command-line debugger: [include/bytevm/debugger.h] and [src/debugger.c].

    [Debugger] is the session with the machine it borrows. The command functions
    write to the stream [out] and the machine to [stdout]; as in [main], which
    passes [stdin] and [stdout], both are the one [Stdio], so that the order of the
    program's own output and the debugger's is kept. [None] is undefined behaviour
    of the machine, as in [Vm]. *)

From S2P Require Import Prelude Common CLib Memory Cpu Instruction Vm Loader Disassembler.
Open Scope Z_scope.

Definition CONTINUE_STEP_LIMIT : Z := 10000000.
Definition DEBUGGER_MAX_BREAKPOINTS : Z := 64.

(** [breakpoints] holds the first [breakpoint_count] entries of the array. *)
Record Debugger : Type := mkDbg {
  dvm : VM;
  image : list Z;
  breakpoints : list Z;
  quit_requested : bool;
}.

Definition debugger_init (vm : VM) (img : list Z) : Debugger := mkDbg vm img [] false.

Definition set_dvm (dbg : Debugger) (vm : VM) : Debugger :=
  mkDbg vm (image dbg) (breakpoints dbg) (quit_requested dbg).
Definition set_breakpoints (dbg : Debugger) (l : list Z) : Debugger :=
  mkDbg (dvm dbg) (image dbg) l (quit_requested dbg).

Definition has_breakpoint (dbg : Debugger) (addr : Z) : bool :=
  existsb (fun b => b =? addr) (breakpoints dbg).

(** ** Arguments *)

(** [strtol(s, &end, base)] for the bases 10 and 16: the value, clamped to [long],
    and the unparsed rest ([s] itself when no digit was found). *)
Fixpoint drop_while (f : Z -> bool) (s : list Z) : list Z :=
  match s with
  | c :: s' => if f c then drop_while f s' else s
  | [] => []
  end.

Fixpoint take_while (f : Z -> bool) (s : list Z) : list Z :=
  match s with
  | c :: s' => if f c then c :: take_while f s' else []
  | [] => []
  end.

Definition strtol_prefix (base : Z) (s : list Z) : list Z :=
  match s with
  | z :: x :: d :: s' =>
      if (base =? 16) && (z =? 48) && ((x =? 120) || (x =? 88)) && isxdigit d then d :: s' else s
  | _ => s
  end.

Definition strtol (s : list Z) (base : Z) : Z * list Z :=
  let p := drop_while isspace s in
  let '(neg, p) :=
    match p with
    | c :: p' => if c =? 45 then (true, p') else if c =? 43 then (false, p') else (false, p)
    | [] => (false, [])
    end in
  let p := strtol_prefix base p in
  let is_digit := if base =? 16 then isxdigit else isdigit in
  let ds := take_while is_digit p in
  let magnitude := if base =? 16 then hex_value 0 ds else dec_value 0 ds in
  if decide (ds = []) then (0, s)
  else (Z.max (- 2 ^ 63) (Z.min (2 ^ 63 - 1) (if neg : bool then - magnitude else magnitude)),
        drop_while is_digit p).

(** The argument, [None] for [NULL]; [None] when it returns false. *)
Definition parse_number (s : option (list Z)) : option Z :=
  match s with
  | None | Some [] => None
  | Some s =>
      let base := match s with
                  | z :: x :: _ => if (z =? 48) && ((x =? 120) || (x =? 88)) then 16 else 10
                  | _ => 10
                  end in
      let '(v, end_) := strtol s base in
      if bool_decide (end_ = s) || negb (bool_decide (end_ = [])) || (v <? 0) || (0xFFFF <? v)
      then None
      else Some v
  end.

(** ** Commands *)

Definition nl : list Z := [10].

(** [fprintf(out, ...)]. *)
Definition say (io : Stdio) (text : list Z) : Stdio := put io text.

Fixpoint register_lines (i : Z) (regs : list Z) : list Z :=
  match regs with
  | [] => []
  | v :: regs =>
      str "R" ++ fmt_d i ++ str "=0x" ++ fmt_04X v ++
      (if (i =? 3) || (i =? 7) then nl else str "  ") ++ register_lines (i + 1) regs
  end.

Definition flag_char (cpu : CPU) (bit : CpuFlagBit) (c : Z) : Z :=
  if cpu_get_flag cpu bit then c else 45.

Definition cmd_registers (dbg : Debugger) (io : Stdio) : Stdio :=
  let c := cpu (dvm dbg) in
  let io := say io (register_lines 0 (r c)) in
  let io := say io
    (str "PC=0x" ++ fmt_04X (pc c) ++ str "  SP=0x" ++ fmt_04X (sp c) ++ str "  FLAGS=0x" ++
     fmt_04X (flags c) ++ str " [" ++
     [flag_char c CPU_FLAG_Z 90; flag_char c CPU_FLAG_C 67; flag_char c CPU_FLAG_S 83;
      flag_char c CPU_FLAG_O 79] ++ str "]" ++ nl) in
  if halted (dvm dbg) then say io (str "halted: " ++ vm_result_str (last_error (dvm dbg)) ++ nl)
  else io.

(** The text [disassemble_one] leaves in [char text[128]], and the next address. *)
Definition instruction_text (mem : Memory) (addr : Z) : option (list Z * Z) :=
  match disassemble_one mem addr 128 with
  | Ok (text, next, _) => Some (text, next)
  | _ => None
  end.

Definition report_stop (dbg : Debugger) (io : Stdio) : option Stdio :=
  let vm := dvm dbg in
  if halted vm then
    if negb (bool_decide (last_error vm = VM_OK)) then
      Some (say io (str "halted: " ++ vm_result_str (last_error vm) ++ str " at PC=0x" ++
                    fmt_04X (error_pc vm) ++ nl))
    else Some (say io (str "halted" ++ nl))
  else
    '(text, _) ← instruction_text (memory vm) (pc (cpu vm));
    Some (say io (str "PC=0x" ++ fmt_04X (pc (cpu vm)) ++ str ": " ++ text ++ nl)).

(** The counted loop of [step]: it stops early on a halted machine. *)
Fixpoint step_loop (n : nat) (vm : VM) (io : Stdio) : option (VM * Stdio) :=
  match n with
  | O => Some (vm, io)
  | S n =>
      if halted vm then Some (vm, io)
      else '(vm, io, _) ← vm_step vm io; step_loop n vm io
  end.

Definition cmd_step (dbg : Debugger) (arg : option (list Z)) (io : Stdio)
  : option (Debugger * Stdio) :=
  match (match arg with None => Some 1 | Some _ => parse_number arg end) with
  | None => Some (dbg, say io (str "error: step takes a count" ++ nl))
  | Some n =>
      '(vm, io) ← step_loop (Z.to_nat n) (dvm dbg) io;
      let dbg := set_dvm dbg vm in
      io ← report_stop dbg io;
      Some (dbg, io)
  end.

(** How the loop of [continue] was left: by the halted machine, at a breakpoint, or
    in undefined behaviour. *)
Inductive ContinueExit : Type :=
| Exit_halted (vm : VM) (io : Stdio)
| Exit_breakpoint (vm : VM) (io : Stdio)
| Exit_UB.

(** One round of the loop body; [inl] goes on. *)
Definition continue_round (dbg : Debugger) (s : VM * Stdio) : VM * Stdio + ContinueExit :=
  let '(vm, io) := s in
  if halted vm then inr (Exit_halted vm io)
  else if has_breakpoint dbg (pc (cpu vm)) then inr (Exit_breakpoint vm io)
  else match vm_step vm io with
       | Some (vm, io, _) => inl (vm, io)
       | None => inr Exit_UB
       end.

Definition cmd_continue (dbg : Debugger) (io : Stdio) : option (Debugger * Stdio) :=
  if halted (dvm dbg) then Some (dbg, say io (str "halted" ++ nl))
  else
    '(vm, io, _) ← vm_step (dvm dbg) io;
    match iter_until (Z.to_pos (CONTINUE_STEP_LIMIT - 1)) (continue_round dbg) (vm, io) with
    | inr Exit_UB => None
    | inr (Exit_breakpoint vm io) =>
        let dbg := set_dvm dbg vm in
        let io := say io (str "breakpoint at 0x" ++ fmt_04X (pc (cpu vm)) ++ nl) in
        io ← report_stop dbg io;
        Some (dbg, io)
    | inr (Exit_halted vm io) =>
        let dbg := set_dvm dbg vm in
        io ← report_stop dbg io;
        Some (dbg, io)
    | inl (vm, io) =>
        let dbg := set_dvm dbg vm in
        let io :=
          if negb (halted vm) then
            say io (str "step limit (" ++ fmt_d CONTINUE_STEP_LIMIT ++
                    str ") reached without halting" ++ nl)
          else io in
        io ← report_stop dbg io;
        Some (dbg, io)
    end.

Definition cmd_break (dbg : Debugger) (arg : option (list Z)) (io : Stdio) : Debugger * Stdio :=
  match parse_number arg with
  | None => (dbg, say io (str "error: break takes an address" ++ nl))
  | Some addr =>
      if has_breakpoint dbg (u16 addr) then
        (dbg, say io (str "breakpoint at 0x" ++ fmt_04X addr ++ str " already set" ++ nl))
      else if zlen (breakpoints dbg) =? DEBUGGER_MAX_BREAKPOINTS then
        (dbg, say io (str "error: too many breakpoints (max " ++ fmt_d DEBUGGER_MAX_BREAKPOINTS ++
                      str ")" ++ nl))
      else
        (set_breakpoints dbg (breakpoints dbg ++ [u16 addr]),
         say io (str "breakpoint set at 0x" ++ fmt_04X addr ++ nl))
  end.

(** [breakpoints[i] = breakpoints[count - 1]; count--] at the first [i] that holds
    the address; [None] when there is none. *)
Fixpoint find_index (l : list Z) (addr : Z) : option nat :=
  match l with
  | [] => None
  | b :: l => if b =? addr then Some O else S <$> find_index l addr
  end.

Definition remove_breakpoint (l : list Z) (addr : Z) : option (list Z) :=
  i ← find_index l addr;
  last ← l !! (length l - 1)%nat;
  Some (take (length l - 1) (<[i := last]> l)).

Definition cmd_delete (dbg : Debugger) (arg : option (list Z)) (io : Stdio) : Debugger * Stdio :=
  match parse_number arg with
  | None => (dbg, say io (str "error: delete takes an address" ++ nl))
  | Some addr =>
      match remove_breakpoint (breakpoints dbg) (u16 addr) with
      | Some l => (set_breakpoints dbg l,
                   say io (str "breakpoint at 0x" ++ fmt_04X addr ++ str " removed" ++ nl))
      | None => (dbg, say io (str "error: no breakpoint at 0x" ++ fmt_04X addr ++ nl))
      end
  end.

(** One line of [hex_dump]: the bytes at [addr + i + j] for [j] from 0. *)
Definition hex_line (mem : Memory) (addr i : Z) (n : nat) : list Z :=
  str "0x" ++ fmt_04X (u16 (addr + i)) ++ str ":" ++
  flat_map (fun j => str " " ++ fmt_02X (mem_read8 mem (u16 (addr + i + Z.of_nat j)))) (seq 0 n) ++ nl.

(** The lines of the outer loop; [lines] is the number of rounds it makes. *)
Fixpoint hex_lines (lines : nat) (mem : Memory) (addr i count : Z) : list Z :=
  match lines with
  | O => []
  | S lines =>
      if i <? count then
        hex_line mem addr i (Z.to_nat (Z.min 16 (count - i))) ++
        hex_lines lines mem addr (i + 16) count
      else []
  end.

Definition hex_dump (mem : Memory) (addr count : Z) : list Z :=
  hex_lines (Z.to_nat ((count + 15) / 16)) mem addr 0 count.

(** An optional count argument: the default when it is absent. *)
Definition optional_number (arg : option (list Z)) (dflt : Z) : option Z :=
  match arg with None => Some dflt | Some _ => parse_number arg end.

Definition cmd_memory (dbg : Debugger) (addr_arg count_arg : option (list Z)) (io : Stdio) : Stdio :=
  let usage := str "error: memory takes an address and an optional byte count" ++ nl in
  match parse_number addr_arg with
  | None => say io usage
  | Some addr =>
      match optional_number count_arg 16 with
      | None => say io usage
      | Some count =>
          if count <=? 0 then say io (str "error: count must be positive" ++ nl)
          else say io (hex_dump (memory (dvm dbg)) (u16 addr) count)
      end
  end.

Definition cmd_stack (dbg : Debugger) (io : Stdio) : Stdio :=
  let sp := sp (cpu (dvm dbg)) in
  if sp =? CPU_INITIAL_SP then say io (str "stack is empty (SP=0x" ++ fmt_04X sp ++ str ")" ++ nl)
  else
    let count := 0xFFFF - sp + 1 in
    let io := say io (str "stack (SP=0x" ++ fmt_04X sp ++ str ", " ++ fmt_d (count - 2) ++
                      str " bytes live):" ++ nl) in
    say io (hex_dump (memory (dvm dbg)) (u16 (sp + 2)) (count - 2)).

Fixpoint disassemble_lines (n : nat) (vm : VM) (pc_ : Z) : option (list Z) :=
  match n with
  | O => Some []
  | S n =>
      '(text, next) ← instruction_text (memory vm) pc_;
      rest ← disassemble_lines n vm next;
      Some ((if pc_ =? pc (cpu vm) then str ">" else str " ") ++ str "0x" ++ fmt_04X pc_ ++
            str ": " ++ text ++ nl ++ rest)
  end.

Definition cmd_disassemble (dbg : Debugger) (addr_arg count_arg : option (list Z)) (io : Stdio)
  : option Stdio :=
  let usage := str "error: disassemble takes an address and an optional instruction count" ++ nl in
  match optional_number addr_arg (pc (cpu (dvm dbg))) with
  | None => Some (say io usage)
  | Some addr =>
      match optional_number count_arg 8 with
      | None => Some (say io usage)
      | Some count =>
          if count <=? 0 then Some (say io (str "error: count must be positive" ++ nl))
          else
            text ← disassemble_lines (Z.to_nat count) (dvm dbg) (u16 addr);
            Some (say io text)
      end
  end.

Definition cmd_reset (dbg : Debugger) (io : Stdio) : Debugger * Stdio :=
  let '(vm, res) := vm_load (dvm dbg) (image dbg) in
  let dbg := set_dvm dbg vm in
  if negb (bool_decide (res = VM_OK)) then
    (dbg, say io (str "error: reload failed: " ++ vm_result_str res ++ nl))
  else
    (dbg, say io (str "reset; PC=0x" ++ fmt_04X (pc (cpu (dvm dbg))) ++ str ", " ++
                  fmt_u (zlen (breakpoints dbg)) ++ str " breakpoint(s) kept" ++ nl)).

(** ** Dispatch *)

(** The delimiters of [strtok]. *)
Definition is_delim (c : Z) : bool := (c =? 32) || (c =? 9) || (c =? 13) || (c =? 10).

(** One [strtok] call: the token, if any, and what the next call continues with. *)
Definition strtok (s : list Z) : option (list Z) * list Z :=
  let s := drop_while is_delim s in
  match take_while (fun c => negb (is_delim c)) s with
  | [] => (None, [])
  | tok => (Some tok, drop 1 (drop_while (fun c => negb (is_delim c)) s))
  end.

Definition HELP : list Z :=
  str "registers          print R0-R7, PC, SP, FLAGS" ++ nl ++
  str "step [n]           execute n instructions (default 1)" ++ nl ++
  str "continue           run until a breakpoint or HALT" ++ nl ++
  str "break <addr>       set a breakpoint" ++ nl ++
  str "delete <addr>      remove a breakpoint" ++ nl ++
  str "memory <addr> [n]  hex-dump n bytes (default 16)" ++ nl ++
  str "stack              dump the live stack" ++ nl ++
  str "disassemble [addr] [n]  disassemble n instructions (default: at PC, 8)" ++ nl ++
  str "reset              reload the program and reset CPU state" ++ nl ++
  str "quit               exit" ++ nl.

(** [strcmp(cmd, a) == 0 || strcmp(cmd, b) == 0]. *)
Definition is_cmd (cmd : list Z) (a b : string) : bool :=
  bool_decide (cmd = str a) || bool_decide (cmd = str b).

Definition debugger_execute (dbg : Debugger) (line : list Z) (io : Stdio)
  : option (Debugger * Stdio * bool) :=
  let buf := clip 256 line in
  let '(cmd, buf) := strtok buf in
  match cmd with
  | None => Some (dbg, io, negb (quit_requested dbg))
  | Some cmd =>
      let '(arg1, buf) := strtok buf in
      let '(arg2, buf) := strtok buf in
      if is_cmd cmd "registers" "r" then Some (dbg, cmd_registers dbg io, true)
      else if is_cmd cmd "step" "s" then '(dbg, io) ← cmd_step dbg arg1 io; Some (dbg, io, true)
      else if is_cmd cmd "continue" "c" then '(dbg, io) ← cmd_continue dbg io; Some (dbg, io, true)
      else if is_cmd cmd "break" "b" then let '(dbg, io) := cmd_break dbg arg1 io in Some (dbg, io, true)
      else if is_cmd cmd "delete" "d" then let '(dbg, io) := cmd_delete dbg arg1 io in Some (dbg, io, true)
      else if is_cmd cmd "memory" "m" then Some (dbg, cmd_memory dbg arg1 arg2 io, true)
      else if is_cmd cmd "stack" "stack" then Some (dbg, cmd_stack dbg io, true)
      else if is_cmd cmd "disassemble" "dis" then
        io ← cmd_disassemble dbg arg1 arg2 io; Some (dbg, io, true)
      else if is_cmd cmd "reset" "reset" then let '(dbg, io) := cmd_reset dbg io in Some (dbg, io, true)
      else if is_cmd cmd "quit" "q" then
        Some (mkDbg (dvm dbg) (image dbg) (breakpoints dbg) true, io, false)
      else if is_cmd cmd "help" "h" then Some (dbg, say io HELP, true)
      else Some (dbg, say io (str "error: unknown command '" ++ cmd ++ str "' (try 'help')" ++ nl), true)
  end.

(** [fgets(line, size, in)]: up to [size - 1] characters, through the first newline;
    [None] at the end of the stream. *)
Fixpoint fgets (size : nat) (s : list Z) : list Z * list Z :=
  match size, s with
  | S (S size'), c :: s' =>
      if c =? 10 then ([c], s')
      else let '(l, rest) := fgets (S size') s' in (c :: l, rest)
  | _, _ => ([], s)
  end.

(** The bytes of a C string: up to the first NUL. *)
Definition c_string (s : list Z) : list Z := take_while (fun c => negb (c =? 0)) s.

(** The read-execute loop; [None] is undefined behaviour, [Some None] out of fuel. *)
Fixpoint repl_loop (fuel : nat) (dbg : Debugger) (io : Stdio) : option (option (Debugger * Stdio)) :=
  match fuel with
  | O => Some None
  | S fuel =>
      let io := say io (str "(bytevm) ") in
      match stdin io with
      | [] => Some (Some (dbg, say io nl))
      | _ =>
          let '(line, rest) := fgets 256 (stdin io) in
          '(dbg, io, go_on) ← debugger_execute dbg (c_string line) (mkStdio rest (stdout io));
          if go_on : bool then repl_loop fuel dbg io else Some (Some (dbg, io))
      end
  end.

Definition debugger_repl (dbg : Debugger) (io : Stdio) : option (option (Debugger * Stdio)) :=
  let io := say io (str "ByteVM debugger. Type 'help' for commands." ++ nl) in
  io ← report_stop dbg io;
  repl_loop (S (length (stdin io))) dbg io.
