(* ===== verification/DbgSpec.v ===== *)
(** The debugger, specified: a machine and a set of breakpoints under commands
    (section 13 of [docs/DESIGN.md]). A line is words, the words a command, and a command
    a step of the pair. The debugger's text, which the specification leaves open, comes
    behind what the program prints.

    What [step] with a count does is a parameter: in section 13 it stops at a breakpoint
    ([step_13]); as implemented it runs its count to the end ([step_all]). The limits, of
    64 breakpoints and ten million cycles for [continue], are those of the code. The
    relations without a parameter are the debugger as implemented, [session_13] is that of
    section 13, and [passes_breakpoint] the sessions in which the two can differ. *)

From S2P Require Import Prelude Common CLib Memory Cpu Instruction Vm VmFacts VmStep Loader Debugger.
From stdpp Require Import relations gmap.
Open Scope Z_scope.

(** ** Lines *)

(** The words of a line, between blanks, tabs and line ends; [w] is the word begun. *)
Fixpoint words_behind (w line : list Z) : list (list Z) :=
  match line with
  | [] => match w with [] => [] | _ => [w] end
  | c :: line =>
      if is_delim c then match w with [] => words_behind [] line | _ => w :: words_behind [] line end
      else words_behind (w ++ [c]) line
  end.

Definition words (line : list Z) : list (list Z) := words_behind [] line.

(** ** Commands *)

Inductive Command : Type :=
| C_step (n : nat)
| C_continue
| C_break (a : Z)
| C_delete (a : Z)
| C_reset
| C_quit
| C_look.

#[export] Instance command_eq_dec : EqDecision Command.
Proof. solve_decision. Defined.

Definition is_word (w : list Z) (names : list string) : bool := existsb (fun n => bool_decide (w = str n)) names.

Definition with_number (arg : option (list Z)) (f : Z -> Command) : Command :=
  match parse_number arg with Some v => f v | None => C_look end.

(** What a line asks for. Everything that only prints is [C_look]: the displays, help, an
    empty line, an unknown command, and a command whose number is not one. *)
Definition command_of (ws : list (list Z)) : Command :=
  match ws with
  | [] => C_look
  | cmd :: args =>
      let arg := args !! 0%nat in
      if is_word cmd ["step"; "s"] then
        match arg with None => C_step 1 | Some _ => with_number arg (fun n => C_step (Z.to_nat n)) end
      else if is_word cmd ["continue"; "c"] then C_continue
      else if is_word cmd ["break"; "b"] then with_number arg C_break
      else if is_word cmd ["delete"; "d"] then with_number arg C_delete
      else if is_word cmd ["reset"] then C_reset
      else if is_word cmd ["quit"; "q"] then C_quit
      else C_look
  end%string.

(** ** Steps *)

(** Where [continue] stops. *)
Definition stops_at (bps : gset Z) (vm : VM) : Prop := halted vm = true \/ pc (cpu vm) ∈ bps.

(** The machine, the breakpoints and the streams of the program. *)
Definition DbgState : Type := VM * gset Z * Stdio.

(** [step n] with breakpoints: to the first state behind one cycle or more that stands at
    one, else to the end of the count. *)
Definition step_13 (bps : gset Z) (n : nat) (vm : VM) (io : Stdio) (vm' : VM) (io' : Stdio) : Prop :=
  exists m, (m <= n)%nat /\ vm_steps m vm io = Some (vm', io') /\
    (forall k v i, (1 <= k < m)%nat -> vm_steps k vm io = Some (v, i) -> pc (cpu v) ∉ bps) /\
    (m = n \/ (1 <= m)%nat /\ pc (cpu vm') ∈ bps).

(** And as implemented. *)
Definition step_all (bps : gset Z) (n : nat) (vm : VM) (io : Stdio) (vm' : VM) (io' : Stdio) : Prop :=
  vm_steps n vm io = Some (vm', io').

(** A running machine stands at a breakpoint before the count is over. *)
Definition passes (bps : gset Z) (n : nat) (vm : VM) (io : Stdio) : Prop :=
  exists k v i, (1 <= k < n)%nat /\ vm_steps k vm io = Some (v, i) /\ halted v = false /\ pc (cpu v) ∈ bps.

Section commands.
Context (stepping : gset Z -> nat -> VM -> Stdio -> VM -> Stdio -> Prop).

Inductive command_step_of (img : list Z) : Command -> DbgState -> DbgState -> Prop :=
| cs_step n vm bps io vm' io' : stepping bps n vm io vm' io' ->
    command_step_of img (C_step n) (vm, bps, io) (vm', bps, io')
| cs_continue_halted vm bps io : halted vm = true -> command_step_of img C_continue (vm, bps, io) (vm, bps, io)
| cs_continue n vm bps io vm' io' : halted vm = false ->
    (1 <= n)%nat -> Z.of_nat n <= CONTINUE_STEP_LIMIT -> vm_steps n vm io = Some (vm', io') ->
    (forall k v i, (1 <= k < n)%nat -> vm_steps k vm io = Some (v, i) -> ~ stops_at bps v) ->
    stops_at bps vm' \/ Z.of_nat n = CONTINUE_STEP_LIMIT ->
    command_step_of img C_continue (vm, bps, io) (vm', bps, io')
| cs_break a vm bps io : Z.of_nat (size bps) < DEBUGGER_MAX_BREAKPOINTS \/ a ∈ bps ->
    command_step_of img (C_break a) (vm, bps, io) (vm, {[a]} ∪ bps, io)
| cs_break_full a vm bps io : Z.of_nat (size bps) = DEBUGGER_MAX_BREAKPOINTS -> a ∉ bps ->
    command_step_of img (C_break a) (vm, bps, io) (vm, bps, io)
| cs_delete a vm bps io : command_step_of img (C_delete a) (vm, bps, io) (vm, bps ∖ {[a]}, io)
| cs_reset vm bps io : command_step_of img C_reset (vm, bps, io) ((vm_load vm img).1, bps, io)
| cs_quit s : command_step_of img C_quit s s
| cs_look s : command_step_of img C_look s s.

(** ** Sessions

    A prompt, a line of at most 255 characters from the input, its command; until quit
    or the end of the input. *)
Inductive session_of (img : list Z) : DbgState -> DbgState -> Prop :=
| se_end vm bps io text : stdin io = [] -> session_of img (vm, bps, io) (vm, bps, say io text)
| se_quit vm bps io line rest prompt : stdin io <> [] -> fgets 256 (stdin io) = (line, rest) ->
    command_of (words (c_string line)) = C_quit ->
    session_of img (vm, bps, io) (vm, bps, mkStdio rest (stdout io ++ prompt))
| se_line vm bps io line rest prompt vm' bps' io' text s' : stdin io <> [] -> fgets 256 (stdin io) = (line, rest) ->
    command_of (words (c_string line)) <> C_quit ->
    command_step_of img (command_of (words (c_string line)))
      (vm, bps, mkStdio rest (stdout io ++ prompt)) (vm', bps', io') ->
    session_of img (vm', bps', say io' text) s' -> session_of img (vm, bps, io) s'.
End commands.

Abbreviation command_step := (command_step_of step_all).
Abbreviation session := (session_of step_all).
Abbreviation session_13 := (session_of step_13).

(** A [step] of the session as implemented passes a breakpoint. *)
Inductive passes_breakpoint (img : list Z) : DbgState -> Prop :=
| pb_here vm bps io line rest prompt n : stdin io <> [] -> fgets 256 (stdin io) = (line, rest) ->
    command_of (words (c_string line)) = C_step n ->
    passes bps n vm (mkStdio rest (stdout io ++ prompt)) -> passes_breakpoint img (vm, bps, io)
| pb_later vm bps io line rest prompt vm' bps' io' text : stdin io <> [] -> fgets 256 (stdin io) = (line, rest) ->
    command_of (words (c_string line)) <> C_quit ->
    command_step img (command_of (words (c_string line)))
      (vm, bps, mkStdio rest (stdout io ++ prompt)) (vm', bps', io') ->
    passes_breakpoint img (vm', bps', say io' text) -> passes_breakpoint img (vm, bps, io).

(** ** The machines of a session

    A cycle with any input before it, as the lines of the session leave it. *)
Definition vm_cycle (vm vm' : VM) : Prop := exists io io', vm_next (vm, io) (vm', io').
