(* ===== verification/DbgFacts.v ===== *)
(** Facts about the debugger: a session's invariant, the breakpoints as a set, and
    what its execution commands do to the machine. *)

From S2P Require Import Prelude Machine Common CLib Memory Cpu Instruction Vm VmFacts Isa VmRefine VmStep.
From S2P Require Import VmStreams Loader Disassembler DisFacts Debugger.
From stdpp Require Import relations.
Open Scope Z_scope.

(** ** The session invariant *)

Record dbg_wf (dbg : Debugger) : Prop := {
  dw_vm : vm_wf (dvm dbg);
  dw_nodup : NoDup (breakpoints dbg);
  dw_range : Forall is_u16 (breakpoints dbg);
  dw_count : zlen (breakpoints dbg) <= DEBUGGER_MAX_BREAKPOINTS;
  dw_image : is_byte_list (image dbg);
}.

Lemma dbg_wf_vm dbg vm : dbg_wf dbg -> vm_wf vm -> dbg_wf (set_dvm dbg vm).
Proof. intros [] ?. by split. Qed.

Lemma dbg_wf_init vm img : vm_wf vm -> is_byte_list img -> dbg_wf (debugger_init vm img).
Proof. intros H. split; simpl; [done|constructor|constructor|vm_compute; congruence|done]. Qed.

(** ** Running the machine *)

Lemma step_loop_steps n vm io : step_loop n vm io = vm_steps n vm io.
Proof.
  revert vm io. induction n as [|n IH]; intros vm io; [done|]. simpl.
  destruct (halted vm) eqn:Hh.
  - unfold vm_step. rewrite Hh. simpl. by rewrite vm_steps_halted.
  - destruct (vm_step vm io) as [[[v i] c]|]; simpl; [apply IH|done].
Qed.

(** Why [continue] stops before a cycle. *)
Definition continue_leave (dbg : Debugger) (s : State) : option ContinueExit :=
  if halted s.1 then Some (Exit_halted s.1 s.2)
  else if has_breakpoint dbg (pc (cpu s.1)) then Some (Exit_breakpoint s.1 s.2)
  else None.

Lemma continue_drives dbg : drives (continue_leave dbg) (continue_round dbg).
Proof.
  intros [vm io]. unfold continue_leave, continue_round. cbn [fst snd].
  destruct (halted vm); [done|]. destruct (has_breakpoint dbg _); [done|].
  intros s' Es. cbn in Es. destruct (vm_step vm io) as [[[v i] c]|]; simpl in Es; by simplify_eq.
Qed.

(** The rounds of [continue]: some number of them ran; at each of the states before
    the last one the machine was running and at no breakpoint. *)
Lemma continue_rounds dbg n vm io : vm_wf vm ->
  exists k vm' io', (k <= n)%nat /\ vm_steps k vm io = Some (vm', io') /\ vm_wf vm' /\
    (forall j v i, (j < k)%nat -> vm_steps j vm io = Some (v, i) ->
       halted v = false /\ has_breakpoint dbg (pc (cpu v)) = false) /\
    ((iter_n n (continue_round dbg) (vm, io) = inr (Exit_halted vm' io') /\ halted vm' = true) \/
     (iter_n n (continue_round dbg) (vm, io) = inr (Exit_breakpoint vm' io') /\ halted vm' = false /\
        has_breakpoint dbg (pc (cpu vm')) = true /\ (k < n)%nat) \/
     (iter_n n (continue_round dbg) (vm, io) = inl (vm', io') /\ k = n)).
Proof.
  intros Hwf.
  destruct (rounds_spec _ _ (continue_drives dbg) n (vm, io))
    as (k & [vm' io'] & Hk & Hs & Hw & Hj & Hres); [done|].
  exists k, vm', io'. rewrite vm_steps_machine. split_and!; [done..| |].
  - intros j v i Hlt Ej. rewrite vm_steps_machine in Ej. specialize (Hj j (v, i) Hlt Ej).
    unfold continue_leave in Hj. cbn [fst snd] in Hj. by repeat case_match.
  - destruct Hres as [(r & Hr & E & Hlt)|?]; [|by right; right].
    change (iter_n n (continue_round dbg) (vm, io) = inr r) in E. rewrite E.
    unfold continue_leave in Hr. cbn [fst snd] in Hr.
    destruct (halted vm') eqn:Hh; [left; by simplify_eq|right; left].
    destruct (has_breakpoint dbg _); by simplify_eq.
Qed.

Lemma instruction_text_total mem a : mem_wf mem -> is_u16 a ->
  exists text next, instruction_text mem a = Some (text, next) /\ is_u16 next.
Proof.
  intros Hm Ha. unfold instruction_text.
  destruct (disassemble_one_spec mem a 128 Hm Ha) as (t & nx & b & -> & Hn & _). eauto.
Qed.

Lemma vm_pc_u16 vm : vm_wf vm -> is_u16 (pc (cpu vm)).
Proof. intros H. apply (cpu_wf_pc _ (wf_cpu _ H)). Qed.

(** What is said where the machine has stopped: how it was halted, or where it is and the
    instruction there. *)
Definition stop_text (vm : VM) : list Z :=
  if halted vm then
    if negb (bool_decide (last_error vm = VM_OK)) then
      str "halted: " ++ vm_result_str (last_error vm) ++ str " at PC=0x" ++ fmt_04X (error_pc vm) ++ nl
    else str "halted" ++ nl
  else
    str "PC=0x" ++ fmt_04X (pc (cpu vm)) ++ str ": " ++
    default [] (fst <$> instruction_text (memory vm) (pc (cpu vm))) ++ nl.

Lemma report_stop_says dbg io : vm_wf (dvm dbg) -> report_stop dbg io = Some (say io (stop_text (dvm dbg))).
Proof.
  intros H. unfold report_stop, stop_text. destruct (halted _); [by case_match|].
  by destruct (instruction_text_total _ _ (wf_mem _ H) (vm_pc_u16 _ H)) as (t & nx & -> & _).
Qed.

Lemma report_stop_total dbg io : vm_wf (dvm dbg) -> exists text, report_stop dbg io = Some (say io text).
Proof. intros H. eexists. by apply report_stop_says. Qed.

(** What [continue] says, at its limit or before. *)
Definition continue_text (limited : bool) (vm : VM) : list Z :=
  (if halted vm then []
   else if limited then str "step limit (" ++ fmt_d CONTINUE_STEP_LIMIT ++ str ") reached without halting" ++ nl
   else str "breakpoint at 0x" ++ fmt_04X (pc (cpu vm)) ++ nl) ++ stop_text vm.

Lemma cmd_step_spec dbg arg io : vm_wf (dvm dbg) ->
  exists n vm' io' text,
    vm_steps n (dvm dbg) io = Some (vm', io') /\
    cmd_step dbg arg io = Some (set_dvm dbg vm', say io' text) /\
    (arg = None -> n = 1%nat) /\ (forall k, arg <> None -> parse_number arg = Some k -> n = Z.to_nat k) /\
    (arg <> None -> parse_number arg = None -> n = 0%nat).
Proof.
  intros Hwf. unfold cmd_step.
  destruct (match arg with None => Some 1 | Some _ => parse_number arg end) as [k|] eqn:E.
  - rewrite step_loop_steps. destruct (vm_steps_wf (Z.to_nat k) (dvm dbg) io Hwf) as (vm' & io' & Es & Hw).
    rewrite Es. simpl. destruct (report_stop_total (set_dvm dbg vm') io' Hw) as [text ->].
    exists (Z.to_nat k), vm', io', text. simpl. split_and!; try done.
    + intros ->. by injection E as <-.
    + intros k' Ha Hk. destruct arg; [congruence|done].
    + intros Ha Hk. destruct arg; [congruence|done].
  - exists 0%nat, (dvm dbg), io. destruct arg as [arg|]; [|done].
    exists (str "error: step takes a count" ++ nl). destruct dbg. simpl in *.
    split_and!; try done. intros k _ Hk. congruence.
Qed.

Lemma continue_limit dbg s : exists m : nat, Z.of_nat m = CONTINUE_STEP_LIMIT - 1 /\
  iter_until (Z.to_pos (CONTINUE_STEP_LIMIT - 1)) (continue_round dbg) s = iter_n m (continue_round dbg) s.
Proof.
  exists (Pos.to_nat (Z.to_pos (CONTINUE_STEP_LIMIT - 1))). split; [|apply iter_until_n].
  rewrite positive_nat_Z. reflexivity.
Qed.

(** [continue] from a running machine: at least one cycle, then on to the first
    state that is halted or at a breakpoint, or to the step limit. *)
Lemma cmd_continue_spec dbg io : vm_wf (dvm dbg) -> halted (dvm dbg) = false ->
  exists n vm' io' text,
    (1 <= n)%nat /\ Z.of_nat n <= CONTINUE_STEP_LIMIT /\
    vm_steps n (dvm dbg) io = Some (vm', io') /\
    cmd_continue dbg io = Some (set_dvm dbg vm', say io' text) /\ vm_wf vm' /\
    (forall k v i, (1 <= k < n)%nat -> vm_steps k (dvm dbg) io = Some (v, i) ->
       halted v = false /\ has_breakpoint dbg (pc (cpu v)) = false) /\
    (halted vm' = true \/ has_breakpoint dbg (pc (cpu vm')) = true \/ Z.of_nat n = CONTINUE_STEP_LIMIT) /\
    text = continue_text (Z.of_nat n =? CONTINUE_STEP_LIMIT) vm'.
Proof.
  intros Hwf Hh. unfold cmd_continue. rewrite Hh.
  destruct (step_total (dvm dbg) io Hwf) as (v1 & i1 & c & E & Hv1 & _). rewrite E. cbn [mbind option_bind].
  destruct (continue_limit dbg (v1, i1)) as (m & Em & ->).
  destruct (continue_rounds dbg m v1 i1 Hv1) as (k & vm' & io' & Hk & Hs & Hw & Hj & Hres).
  pose proof (report_stop_says (set_dvm dbg vm')) as Hrep. unfold continue_text.
  assert (Hsay : forall a b, say (say io' a) b = say io' (a ++ b))
    by (intros; unfold say, put; simpl; by rewrite app_assoc).
  exists (S k), vm', io'.
  assert (Hbefore : forall j v i, (1 <= j < S k)%nat -> vm_steps j (dvm dbg) io = Some (v, i) ->
     halted v = false /\ has_breakpoint dbg (pc (cpu v)) = false).
  { intros [|j] v i Hjk Hsj; [lia|]. simpl in Hsj. rewrite E in Hsj. simpl in Hsj.
    eapply Hj; [|exact Hsj]. lia. }
  assert (vm_steps (S k) (dvm dbg) io = Some (vm', io')) as Hsteps by (simpl; by rewrite E).
  destruct Hres as [[-> Hhalt]|[(-> & Hnh & Hbp & Hlt)|[-> ->]]].
  - rewrite Hrep by done. rewrite Hhalt. eexists. split_and!; try done; [lia|lia|by left].
  - rewrite Hrep by done. cbn [mbind option_bind set_dvm dvm]. rewrite Hsay, Hnh.
    eexists. split_and!; try done; [lia|lia|by right; left|]. by rewrite (proj2 (Z.eqb_neq _ _)) by lia.
  - rewrite Hrep by done. destruct (halted vm') eqn:Hh'; cbn [negb mbind option_bind set_dvm dvm].
    + eexists. split_and!; try done; [lia|lia|by left].
    + rewrite Hsay. eexists. split_and!; try done; [lia|lia|right; right; lia|].
      by rewrite (proj2 (Z.eqb_eq _ _)) by lia.
Qed.

(** ** Breakpoints *)

(** The breakpoints as a set. *)
Definition bp_set (dbg : Debugger) : gset Z := list_to_set (breakpoints dbg).

Lemma has_breakpoint_elem dbg a : has_breakpoint dbg a = true <-> a ∈ breakpoints dbg.
Proof.
  unfold has_breakpoint. rewrite existsb_exists, list_elem_of_In. split.
  - intros (b & Hb & ->%Z.eqb_eq). done.
  - intros H. exists a. by rewrite Z.eqb_refl.
Qed.

Lemma has_breakpoint_set dbg a : has_breakpoint dbg a = bool_decide (a ∈ bp_set dbg).
Proof.
  apply eq_true_iff_eq. rewrite has_breakpoint_elem, bool_decide_eq_true. unfold bp_set.
  by rewrite elem_of_list_to_set.
Qed.

Lemma bp_set_size dbg : NoDup (breakpoints dbg) -> Z.of_nat (size (bp_set dbg)) = zlen (breakpoints dbg).
Proof. intros H. unfold bp_set. by rewrite size_list_to_set. Qed.

Lemma find_index_spec l a :
  match find_index l a with
  | Some i => exists l1 l2, l = l1 ++ a :: l2 /\ i = length l1
  | None => a ∉ l
  end.
Proof.
  induction l as [|b l IH]; simpl; [apply not_elem_of_nil|].
  destruct (Z.eqb_spec b a) as [->|Hne]; [by exists [], l|].
  destruct (find_index l a) as [i|]; simpl.
  - destruct IH as (l1 & l2 & -> & ->). by exists (b :: l1), l2.
  - rewrite not_elem_of_cons. split; [congruence|done].
Qed.

(** Moving the last entry into the hole removes exactly one occurrence. *)
Lemma remove_breakpoint_spec l a :
  match remove_breakpoint l a with
  | Some l' => a :: l' ≡ₚ l
  | None => a ∉ l
  end.
Proof.
  unfold remove_breakpoint. pose proof (find_index_spec l a) as H.
  destruct (find_index l a) as [i|]; [|done]. destruct H as (l1 & l2 & -> & ->). simpl.
  destruct l2 as [|z l2 _] using rev_ind.
  - rewrite length_app. simpl. replace (length l1 + 1 - 1)%nat with (length l1) by lia.
    rewrite list_lookup_middle by done. simpl.
    rewrite insert_app_r_alt, Nat.sub_diag by lia. simpl. rewrite take_app_length.
    by rewrite <- Permutation_cons_append.
  - replace (length (l1 ++ a :: l2 ++ [z]) - 1)%nat with (length (l1 ++ a :: l2))%nat
      by (rewrite !length_app; simpl; rewrite length_app; simpl; lia).
    rewrite app_comm_cons, app_assoc, list_lookup_middle by done. simpl.
    rewrite <- app_assoc, insert_app_r_alt, Nat.sub_diag by lia. cbn [app list_insert insert].
    rewrite app_comm_cons, app_assoc.
    replace (length (l1 ++ a :: l2)) with (length (l1 ++ z :: l2)) by (by rewrite !length_app).
    rewrite take_app_length.
    rewrite Permutation_middle. apply Permutation_app_head. constructor.
    apply Permutation_cons_append.
Qed.

(** ** Arguments *)

Lemma parse_number_u16 s v : parse_number s = Some v -> is_u16 v.
Proof.
  unfold parse_number, is_u16. destruct s as [[|c s]|]; try done.
  destruct (strtol _ _) as [x e]. repeat case_match; try done.
  intros [= <-]. repeat match goal with H : _ || _ = false |- _ => apply orb_false_iff in H as [? ?] end.
  repeat match goal with H : (_ <? _) = false |- _ => apply Z.ltb_ge in H end. lia.
Qed.

Lemma take_while_all f l : Forall (fun c => f c = true) l -> take_while f l = l /\ drop_while f l = [].
Proof.
  induction 1 as [|c l Hc _ [IH1 IH2]]; simpl; [done|]. by rewrite Hc, IH1, IH2.
Qed.

Lemma digit_not_sign c : isdigit c = true ->
  isspace c = false /\ (c =? 45) = false /\ (c =? 43) = false /\ (c =? 120) = false /\ (c =? 88) = false.
Proof.
  rewrite isdigit_spec. intros H. unfold isspace.
  repeat match goal with |- context [c =? ?k] => rewrite (proj2 (Z.eqb_neq c k)) by lia end.
  rewrite (proj2 (Z.leb_gt c 13)) by lia. by rewrite andb_false_r.
Qed.

Lemma clamp_u16 v : is_u16 v -> Z.max (- 2 ^ 63) (Z.min (2 ^ 63 - 1) v) = v.
Proof. unfold is_u16. lia. Qed.

(** Decimal numbers are read back. *)
Lemma parse_number_dec v : is_u16 v -> parse_number (Some (fmt_u v)) = Some v.
Proof.
  intros Hv. destruct (fmt_u_spec v) as (Ev & Hd & Hne); [unfold is_u16 in Hv; lia|].
  destruct (fmt_u v) as [|c ds] eqn:E; [done|]. clear Hne.
  destruct (take_while_all _ _ Hd) as [Ht Hdr].
  apply Forall_cons in Hd as [Hc Hds]. destruct (digit_not_sign c Hc) as (N1 & N2 & N3 & _ & _).
  assert ((match c :: ds with
           | z :: x :: _ => if (z =? 48) && ((x =? 120) || (x =? 88)) then 16 else 10
           | _ => 10 end) = 10) as Eb.
  { destruct ds as [|x ds]; [done|]. apply Forall_cons in Hds as [Hx _].
    destruct (digit_not_sign x Hx) as (_ & _ & _ & -> & ->). by rewrite andb_false_r. }
  unfold parse_number. rewrite Eb. unfold strtol.
  assert (strtol_prefix 10 (c :: ds) = c :: ds) as Ep by (by destruct ds as [|x [|y ds]]).
  cbn [drop_while]. rewrite N1. cbn iota. rewrite N2, N3. rewrite Ep. change (10 =? 16) with false. cbn iota.
  rewrite Ht, Hdr. rewrite decide_False by done. rewrite Ev, clamp_u16 by done.
  unfold is_u16 in Hv. rewrite (proj2 (Z.ltb_ge v 0)), (proj2 (Z.ltb_ge 65535 v)) by lia. done.
Qed.

Lemma hex_digit_mod_xdigit k : isxdigit (hex_digit (k mod 16)) = true.
Proof. apply hex_val_digit. apply Z.mod_pos_bound. lia. Qed.

(** Addresses are read back the way the debugger prints them. *)
Lemma parse_number_hex v : is_u16 v -> parse_number (Some (str "0x" ++ fmt_04X v)) = Some v.
Proof.
  intros Hv.
  assert (Hd : Forall (fun c => isxdigit c = true) (fmt_04X v))
    by (repeat constructor; apply hex_digit_mod_xdigit).
  destruct (take_while_all _ _ Hd) as [Ht Hdr].
  assert (strtol (str "0x" ++ fmt_04X v) 16 = (v, [])) as E.
  { unfold strtol. change (str "0x") with [48; 120].
    assert (strtol_prefix 16 ([48; 120] ++ fmt_04X v) = fmt_04X v) as Ep.
    { unfold fmt_04X. cbn [app strtol_prefix]. by rewrite hex_digit_mod_xdigit. }
    change (drop_while isspace ([48; 120] ++ fmt_04X v)) with ([48; 120] ++ fmt_04X v).
    cbn [app] in Ep |- *. change (48 =? 45) with false. change (48 =? 43) with false. cbn iota.
    rewrite Ep. change (16 =? 16) with true. cbn iota. rewrite Ht, Hdr.
    rewrite decide_False by done. by rewrite fmt_04X_value, clamp_u16. }
  unfold parse_number. change (str "0x") with [48; 120] in *. cbn [app] in *.
  change ((48 =? 48) && ((120 =? 120) || (120 =? 88))) with true. cbn iota. rewrite E.
  unfold is_u16 in Hv. rewrite (proj2 (Z.ltb_ge v 0)), (proj2 (Z.ltb_ge 65535 v)) by lia. done.
Qed.

(** ** Commands keep the session well formed *)

(** What every command guarantees: the session stays well formed, its image and quit
    flag are kept, and the streams move forward. *)
Definition keeps (dbg : Debugger) (io : Stdio) (dbg' : Debugger) (io' : Stdio) : Prop :=
  dbg_wf dbg' /\ io_after io io' /\ image dbg' = image dbg /\ quit_requested dbg' = quit_requested dbg.

Lemma keeps_say dbg io text : dbg_wf dbg -> keeps dbg io dbg (say io text).
Proof. intros H. split_and!; [done|apply io_after_put|done..]. Qed.

Lemma cmd_step_keeps dbg arg io : dbg_wf dbg ->
  exists dbg' io', cmd_step dbg arg io = Some (dbg', io') /\ keeps dbg io dbg' io'.
Proof.
  intros H. pose proof (dw_vm _ H) as Hv.
  destruct (cmd_step_spec dbg arg io Hv) as (n & vm' & io' & text & Hs & E & _).
  destruct (vm_steps_wf n (dvm dbg) io Hv) as (v & i & Es & Hw).
  rewrite Hs in Es. injection Es as <- <-.
  exists (set_dvm dbg vm'), (say io' text). split; [done|]. split_and!; [by apply dbg_wf_vm| |done..].
  transitivity io'; [by apply (vm_steps_streams n (dvm dbg) io vm' io')|apply io_after_put].
Qed.

Lemma cmd_continue_keeps dbg io : dbg_wf dbg ->
  exists dbg' io', cmd_continue dbg io = Some (dbg', io') /\ keeps dbg io dbg' io'.
Proof.
  intros H. pose proof (dw_vm _ H) as Hv. destruct (halted (dvm dbg)) eqn:Hh.
  { unfold cmd_continue. rewrite Hh. eexists _, _. split; [done|by apply keeps_say]. }
  destruct (cmd_continue_spec dbg io Hv Hh) as (n & vm' & io' & text & _ & _ & Hs & E & Hw & _).
  exists (set_dvm dbg vm'), (say io' text). split; [done|]. split_and!; [by apply dbg_wf_vm| |done..].
  transitivity io'; [by apply (vm_steps_streams n (dvm dbg) io vm' io')|apply io_after_put].
Qed.

Lemma dbg_wf_breakpoints dbg l : dbg_wf dbg -> NoDup l -> Forall is_u16 l ->
  zlen l <= DEBUGGER_MAX_BREAKPOINTS -> dbg_wf (set_breakpoints dbg l).
Proof. intros [] ???. by split. Qed.

Lemma cmd_break_keeps dbg arg io : dbg_wf dbg ->
  keeps dbg io (cmd_break dbg arg io).1 (cmd_break dbg arg io).2.
Proof.
  intros H. unfold cmd_break. destruct (parse_number arg) as [a|]; [|by apply keeps_say].
  destruct (has_breakpoint dbg (u16 a)) eqn:Hb; [by apply keeps_say|].
  destruct (Z.eqb_spec (zlen (breakpoints dbg)) DEBUGGER_MAX_BREAKPOINTS); [by apply keeps_say|].
  split_and!; [|apply io_after_put|done..]. pose proof (dw_count _ H). destruct H. simpl.
  apply dbg_wf_breakpoints; [by split| | |].
  - apply NoDup_app. split_and!; [done| |apply NoDup_singleton].
    intros x Hx Hs. apply list_elem_of_singleton in Hs as ->.
    apply has_breakpoint_elem in Hx. congruence.
  - apply Forall_app. split; [done|]. constructor; auto with bytevm.
  - rewrite length_app. simpl. lia.
Qed.

Lemma cmd_delete_keeps dbg arg io : dbg_wf dbg ->
  keeps dbg io (cmd_delete dbg arg io).1 (cmd_delete dbg arg io).2.
Proof.
  intros H. unfold cmd_delete. destruct (parse_number arg) as [a|]; [|by apply keeps_say].
  pose proof (remove_breakpoint_spec (breakpoints dbg) (u16 a)) as Hr.
  destruct (remove_breakpoint _ _) as [l|]; [|by apply keeps_say].
  split_and!; [|apply io_after_put|done..]. pose proof (dw_count _ H). destruct H. simpl.
  apply dbg_wf_breakpoints; [by split| | |].
  - rewrite <- Hr in dw_nodup0. by apply NoDup_cons in dw_nodup0 as [_ ?].
  - rewrite <- Hr in dw_range0. by apply Forall_cons in dw_range0 as [_ ?].
  - apply Permutation_length in Hr. simpl in Hr. lia.
Qed.

Lemma cmd_reset_keeps dbg io : dbg_wf dbg ->
  keeps dbg io (cmd_reset dbg io).1 (cmd_reset dbg io).2.
Proof.
  intros H. unfold cmd_reset.
  destruct (vm_load_cases (image dbg) (dw_image _ H) (dvm dbg)) as [[Hv ->]|[_ ->]]; simpl.
  - split_and!; [|apply io_after_put|done..]. apply dbg_wf_vm; [done|].
    by apply loaded_wf; [apply H|].
  - split_and!; [|apply io_after_put|done..]. apply dbg_wf_vm; [done|apply H].
Qed.

Lemma disassemble_lines_total n vm a : vm_wf vm -> is_u16 a ->
  exists text, disassemble_lines n vm a = Some text.
Proof.
  intros Hv. revert a. induction n as [|n IH]; intros a Ha; simpl; [by eexists|].
  destruct (instruction_text_total _ _ (wf_mem _ Hv) Ha) as (t & nx & -> & Hn). simpl.
  destruct (IH nx Hn) as [rest ->]. by eexists.
Qed.

Lemma cmd_disassemble_says dbg a1 a2 io : dbg_wf dbg ->
  exists text, cmd_disassemble dbg a1 a2 io = Some (say io text).
Proof.
  intros H. unfold cmd_disassemble.
  destruct (optional_number a1 _) as [a|]; [|by eexists].
  destruct (optional_number a2 8) as [n|]; [|by eexists].
  destruct (n <=? 0); [by eexists|].
  destruct (disassemble_lines_total (Z.to_nat n) (dvm dbg) (u16 a) (dw_vm _ H) (u16_range a)) as [t ->].
  by eexists.
Qed.

Lemma say_say io a b : say (say io a) b = say io (a ++ b).
Proof. unfold say, put. simpl. by rewrite app_assoc. Qed.

(** The commands that look at the session only print. *)
Lemma cmd_registers_says dbg io : exists text, cmd_registers dbg io = say io text.
Proof. unfold cmd_registers. case_match; rewrite !say_say; by eexists. Qed.

Lemma cmd_memory_says dbg a1 a2 io : exists text, cmd_memory dbg a1 a2 io = say io text.
Proof. unfold cmd_memory. repeat case_match; by eexists. Qed.

Lemma cmd_stack_says dbg io : exists text, cmd_stack dbg io = say io text.
Proof. unfold cmd_stack. case_match; rewrite ?say_say; by eexists. Qed.

(** Any line: the command runs to its end, and says whether to go on. *)
Lemma execute_keeps dbg line io : dbg_wf dbg ->
  exists dbg' io' go, debugger_execute dbg line io = Some (dbg', io', go) /\
    dbg_wf dbg' /\ io_after io io' /\ image dbg' = image dbg /\
    (quit_requested dbg = false -> quit_requested dbg' = negb go).
Proof.
  intros H.
  assert (Hk : forall dbg' io', keeps dbg io dbg' io' ->
    exists d i go, Some (dbg', io', true) = Some (d, i, go) /\ dbg_wf d /\ io_after io i /\
      image d = image dbg /\ (quit_requested dbg = false -> quit_requested d = negb go)).
  { intros d i (? & ? & ? & ?). exists d, i, true. split_and!; try done. simpl; congruence. }
  unfold debugger_execute. destruct (strtok _) as [[cmd|] b1].
  2:{ exists dbg, io, (negb (quit_requested dbg)). split_and!; try done.
      intros _. by rewrite negb_involutive. }
  destruct (strtok b1) as [a1 b2]. destruct (strtok b2) as [a2 b3].
  destruct (is_cmd cmd "registers" "r").
  { destruct (cmd_registers_says dbg io) as [t ->]. by apply Hk, keeps_say. }
  destruct (is_cmd cmd "step" "s").
  { destruct (cmd_step_keeps dbg a1 io H) as (d & i & -> & K). by apply Hk. }
  destruct (is_cmd cmd "continue" "c").
  { destruct (cmd_continue_keeps dbg io H) as (d & i & -> & K). by apply Hk. }
  destruct (is_cmd cmd "break" "b").
  { pose proof (cmd_break_keeps dbg a1 io H). destruct (cmd_break dbg a1 io). by apply Hk. }
  destruct (is_cmd cmd "delete" "d").
  { pose proof (cmd_delete_keeps dbg a1 io H). destruct (cmd_delete dbg a1 io). by apply Hk. }
  destruct (is_cmd cmd "memory" "m").
  { destruct (cmd_memory_says dbg a1 a2 io) as [t ->]. by apply Hk, keeps_say. }
  destruct (is_cmd cmd "stack" "stack").
  { destruct (cmd_stack_says dbg io) as [t ->]. by apply Hk, keeps_say. }
  destruct (is_cmd cmd "disassemble" "dis").
  { destruct (cmd_disassemble_says dbg a1 a2 io H) as [t ->]. by apply Hk, keeps_say. }
  destruct (is_cmd cmd "reset" "reset").
  { pose proof (cmd_reset_keeps dbg io H). destruct (cmd_reset dbg io). by apply Hk. }
  destruct (is_cmd cmd "quit" "q").
  { eexists _, io, false. split_and!; [done| |done..]. destruct H. by split. }
  destruct (is_cmd cmd "help" "h"); by apply Hk, keeps_say.
Qed.

(** ** The session loop *)

Lemma fgets_rest size s : (2 <= size)%nat -> s <> [] ->
  (fgets size s).2 `suffix_of` s /\ (length (fgets size s).2 < length s)%nat.
Proof.
  intros Hs Hn. destruct size as [|[|size]]; [lia..|]. clear Hs.
  revert size Hn. induction s as [|c s IH]; intros size Hn; [done|]. cbn [fgets].
  destruct (c =? 10); [simpl; split; [by exists [c]|lia]|].
  destruct (fgets (S size) s) as [l rest] eqn:E. simpl.
  enough (rest `suffix_of` s) as Hsuf.
  { split; [by apply suffix_cons_r|]. destruct Hsuf as [k ->]. rewrite length_app. lia. }
  change rest with ((l, rest).2). rewrite <- E. clear E.
  destruct s as [|d s]; [by destruct size|]. destruct size as [|size]; [done|].
  apply (IH size). done.
Qed.

(** Every round reads at least one character, so there are at most as many rounds as
    characters, and one for the end of input. *)
Lemma repl_loop_total fuel dbg io : dbg_wf dbg -> (length (stdin io) < fuel)%nat ->
  exists dbg' io', repl_loop fuel dbg io = Some (Some (dbg', io')) /\ dbg_wf dbg' /\
    io_after io io' /\ image dbg' = image dbg /\
    (quit_requested dbg = false -> quit_requested dbg' = false -> stdin io' = []).
Proof.
  revert dbg io. induction fuel as [|fuel IH]; intros dbg io H Hf; [lia|]. cbn [repl_loop].
  set (io1 := say io (str "(bytevm) ")).
  assert (io_after io io1) as A1 by apply io_after_put.
  change (stdin io1) with (stdin io). destruct (stdin io) as [|c s] eqn:Es.
  { exists dbg, (say io1 nl). split_and!; try done. transitivity io1; [done|apply io_after_put]. }
  destruct (fgets_rest 256 (c :: s)) as [Hsuf Hlen]; [lia|done|].
  destruct (fgets 256 (c :: s)) as [line rest]. simpl in Hsuf, Hlen.
  set (io2 := mkStdio rest (stdout io1)).
  assert (io_after io io2) as A2.
  { transitivity io1; [done|]. apply io_after_read. change (stdin io1) with (stdin io). by rewrite Es. }
  destruct (execute_keeps dbg (c_string line) io2 H) as (d & i & go & -> & Hd & A3 & Hi & Hq).
  cbn [mbind option_bind]. destruct go.
  - pose proof (io_after_length _ _ A3) as L. simpl in L.
    destruct (IH d i Hd) as (d' & i' & E & Hd' & A4 & Hi' & Hq'); [simpl in *; lia|].
    exists d', i'. split_and!; [done|done| |congruence|].
    + transitivity io2; [done|]. transitivity i; done.
    + intros Hn. apply Hq', Hq, Hn.
  - exists d, i. split_and!; [done|done|by transitivity io2|done|].
    intros Hn Hn'. rewrite (Hq Hn) in Hn'. done.
Qed.
