(* ===== verification/DbgRefine.v ===== *)
(** The debugger of [debugger.c] implements the one of [DbgSpec]. *)

From S2P Require Import Prelude Common CLib Memory Cpu Instruction Vm VmFacts VmRefine VmStep VmStack VmStreams.
From S2P Require Import Loader VmDemo Debugger DbgSpec DbgFacts.
From stdpp Require Import relations gmap.
Open Scope Z_scope.

(** ** Words *)

Lemma words_skip s : words (drop_while is_delim s) = words s.
Proof. induction s as [|c s IH]; [done|]. unfold words in *. simpl. case_match eqn:E; simpl; [done|by rewrite E]. Qed.

Lemma words_behind_take w s : w ++ take_while (fun c => negb (is_delim c)) s <> [] ->
  words_behind w s = (w ++ take_while (fun c => negb (is_delim c)) s) ::
    words (drop 1 (drop_while (fun c => negb (is_delim c)) s)).
Proof.
  revert w. induction s as [|c s IH]; intros w Hne; simpl in *; [rewrite app_nil_r in *; by destruct w|].
  destruct (is_delim c); simpl in *.
  - rewrite app_nil_r in *. by destruct w.
  - rewrite IH; by rewrite <- app_assoc.
Qed.

(** Calls of [strtok] give the words one by one. *)
Lemma strtok_words s : match words s with
  | [] => strtok s = (None, [])
  | w :: ws => exists rest, strtok s = (Some w, rest) /\ words rest = ws
  end.
Proof.
  rewrite <- words_skip. unfold strtok. cbv zeta. set (p := drop_while is_delim s).
  assert (p = [] \/ exists c p', p = c :: p' /\ is_delim c = false) as [->|(c & p' & -> & Hc)]; [| done |].
  { subst p. induction s as [|c s IH]; simpl; [by left|]. case_match eqn:E; [done|right; eauto]. }
  unfold words. rewrite words_behind_take; simpl; rewrite Hc; simpl; [|done]. eauto.
Qed.

Lemma strtok_word s : exists rest, strtok s = (words s !! 0%nat, rest) /\ words rest = tail (words s).
Proof.
  pose proof (strtok_words s) as H. destruct (words s) as [|w ws]; [by exists []|].
  destruct H as (rest & -> & <-). by exists rest.
Qed.

(** ** Breakpoints *)

(** The breakpoint table is a set of at most 64 addresses: break inserts unless the
    address is in it or the table is full, delete removes, the lookup is membership,
    and neither touches anything else. *)
Theorem breakpoints_refine_set dbg arg a io : dbg_wf dbg -> parse_number arg = Some a ->
  has_breakpoint dbg a = bool_decide (a ∈ bp_set dbg) /\
  bp_set (cmd_break dbg arg io).1 =
    (if decide (Z.of_nat (size (bp_set dbg)) < 64) then {[a]} ∪ bp_set dbg else bp_set dbg) /\
  bp_set (cmd_delete dbg arg io).1 = bp_set dbg ∖ {[a]} /\
  dvm (cmd_break dbg arg io).1 = dvm dbg /\ dvm (cmd_delete dbg arg io).1 = dvm dbg.
Proof.
  intros H Hp. pose proof (parse_number_u16 _ _ Hp) as Ha. pose proof (u16_id a Ha) as Eu.
  split; [apply has_breakpoint_set|].
  rewrite (bp_set_size dbg (dw_nodup _ H)). unfold cmd_break, cmd_delete. rewrite Hp, Eu.
  pose proof (dw_count _ H) as Hc. unfold DEBUGGER_MAX_BREAKPOINTS in *.
  split; [|split; [|split]].
  - rewrite has_breakpoint_set. case_bool_decide as Hin; cbn [fst].
    { case_decide; [set_solver|done]. }
    destruct (Z.eqb_spec (zlen (breakpoints dbg)) 64); cbn [fst].
    + by rewrite decide_False by lia.
    + rewrite decide_True by lia. unfold bp_set. cbn [set_breakpoints breakpoints].
      rewrite list_to_set_app_L. simpl. set_solver.
  - pose proof (remove_breakpoint_spec (breakpoints dbg) a) as Hr. unfold bp_set.
    destruct (remove_breakpoint _ _) as [l|]; cbn [fst set_breakpoints breakpoints].
    + pose proof (dw_nodup _ H) as Hn. rewrite <- Hr in Hn. apply NoDup_cons in Hn as [Hn _].
      assert ((list_to_set (breakpoints dbg) : gset Z) = list_to_set (a :: l)) as ->
        by (apply list_to_set_perm_L; by symmetry).
      simpl. set_solver.
    + set_solver.
  - destruct (has_breakpoint dbg a); [done|]. by destruct (zlen _ =? 64).
  - by destruct (remove_breakpoint _ _).
Qed.

(** ** Commands *)

Definition dstate (dbg : Debugger) (io : Stdio) : DbgState := (dvm dbg, bp_set dbg, io).

(** A command has been carried out, up to the text behind the program's output. *)
Definition carries_out (dbg : Debugger) (io : Stdio) (c : Command) (dbg' : Debugger) (io' : Stdio) : Prop :=
  exists io1 text, io' = say io1 text /\ command_step (image dbg) c (dstate dbg io) (dstate dbg' io1).

Lemma carries_look dbg io text : carries_out dbg io C_look dbg (say io text).
Proof. exists io, text. split; [done|constructor]. Qed.

Lemma cmd_step_carries dbg arg io : dbg_wf dbg ->
  exists dbg' io', cmd_step dbg arg io = Some (dbg', io') /\
    carries_out dbg io (match arg with None => C_step 1 | Some _ => with_number arg (fun n => C_step (Z.to_nat n)) end)
      dbg' io'.
Proof.
  intros H. destruct (cmd_step_spec dbg arg io (dw_vm _ H)) as (n & vm' & io' & text & Hs & E & H1 & H2 & H3).
  exists (set_dvm dbg vm'), (say io' text). split; [done|]. exists io', text. split; [done|].
  destruct arg as [s|]; [|rewrite <- H1 by done; by constructor].
  unfold with_number. destruct (parse_number (Some s)) as [k|] eqn:Ep.
  - rewrite <- (H2 k) by done. by constructor.
  - rewrite (H3 ltac:(done) eq_refl) in Hs. simpl in Hs. simplify_eq. constructor.
Qed.

Lemma cmd_continue_carries dbg io : dbg_wf dbg ->
  exists dbg' io', cmd_continue dbg io = Some (dbg', io') /\ carries_out dbg io C_continue dbg' io'.
Proof.
  intros H. pose proof (dw_vm _ H) as Hv. destruct (halted (dvm dbg)) eqn:Hh.
  { unfold cmd_continue. rewrite Hh. eexists _, _. split; [done|]. exists io. eexists. split; [done|by constructor]. }
  destruct (cmd_continue_spec dbg io Hv Hh) as (n & vm' & io' & text & Hn & Hl & Hs & E & _ & Hb & He & _).
  exists (set_dvm dbg vm'), (say io' text). split; [done|]. exists io', text. split; [done|].
  apply (cs_continue _ _ n); try done.
  - intros k v i Hk Hks. destruct (Hb k v i Hk Hks) as [Hv1 Hv2]. rewrite has_breakpoint_set in Hv2.
    apply bool_decide_eq_false in Hv2. intros [?|?]; [congruence|done].
  - rewrite has_breakpoint_set, bool_decide_eq_true in He. unfold stops_at. tauto.
Qed.

Lemma cmd_break_carries dbg arg io : dbg_wf dbg ->
  carries_out dbg io (with_number arg C_break) (cmd_break dbg arg io).1 (cmd_break dbg arg io).2.
Proof.
  intros H. unfold with_number. destruct (parse_number arg) as [a|] eqn:Ep.
  - destruct (breakpoints_refine_set dbg arg a io H Ep) as (_ & Hb & _ & Hm & _).
    assert (exists text, (cmd_break dbg arg io).2 = say io text) as [text ->]
      by (unfold cmd_break; rewrite Ep; repeat case_match; by eexists).
    exists io, text. split; [done|]. unfold dstate. rewrite Hm, Hb.
    pose proof (dw_count _ H) as Hc. rewrite (bp_set_size dbg (dw_nodup _ H)) in *.
    unfold DEBUGGER_MAX_BREAKPOINTS in *. case_decide as Hd.
    + constructor. left. by rewrite (bp_set_size dbg (dw_nodup _ H)).
    + destruct (decide (a ∈ bp_set dbg)) as [Hin|Hin].
      * replace (bp_set dbg) with ({[a]} ∪ bp_set dbg) at 2 by set_solver. constructor. by right.
      * apply cs_break_full; [|done]. rewrite (bp_set_size dbg (dw_nodup _ H)). unfold DEBUGGER_MAX_BREAKPOINTS. lia.
  - unfold cmd_break. rewrite Ep. apply carries_look.
Qed.

Lemma cmd_delete_carries dbg arg io : dbg_wf dbg ->
  carries_out dbg io (with_number arg C_delete) (cmd_delete dbg arg io).1 (cmd_delete dbg arg io).2.
Proof.
  intros H. unfold with_number. destruct (parse_number arg) as [a|] eqn:Ep.
  - destruct (breakpoints_refine_set dbg arg a io H Ep) as (_ & _ & Hb & _ & Hm).
    assert (exists text, (cmd_delete dbg arg io).2 = say io text) as [text ->]
      by (unfold cmd_delete; rewrite Ep; repeat case_match; by eexists).
    exists io, text. split; [done|]. unfold dstate. rewrite Hm, Hb. constructor.
  - unfold cmd_delete. rewrite Ep. apply carries_look.
Qed.

Lemma cmd_reset_carries dbg io : carries_out dbg io C_reset (cmd_reset dbg io).1 (cmd_reset dbg io).2.
Proof.
  unfold cmd_reset. destruct (vm_load (dvm dbg) (image dbg)) as [vm rc] eqn:E.
  assert (command_step (image dbg) C_reset (dstate dbg io) (dstate (set_dvm dbg vm) io)) as Hs.
  { replace vm with (vm_load (dvm dbg) (image dbg)).1 by (by rewrite E). constructor. }
  case_match; exists io; eexists; by split.
Qed.

(** ** Lines *)

Lemma is_word_two w a b : is_word w [a; b] = is_cmd w a b.
Proof. unfold is_word, is_cmd. simpl. by rewrite orb_false_r. Qed.

Lemma is_word_one w a : is_word w [a] = is_cmd w a a.
Proof. unfold is_word, is_cmd. simpl. by destruct (bool_decide (w = str a)). Qed.

Lemma is_cmd_inv w a b : is_cmd w a b = true -> w = str a \/ w = str b.
Proof. unfold is_cmd. intros [H%bool_decide_eq_true|H%bool_decide_eq_true]%orb_true_iff; auto. Qed.

Definition quit_dbg (dbg : Debugger) : Debugger := mkDbg (dvm dbg) (image dbg) (breakpoints dbg) true.

(** The command of a line is carried out, and the loop told to stop for quit. *)
Definition executes (dbg : Debugger) (line : list Z) (io : Stdio) : Prop :=
  exists dbg' io' go, debugger_execute dbg line io = Some (dbg', io', go) /\
    carries_out dbg io (command_of (words (clip 256 line))) dbg' io' /\
    (quit_requested dbg = false -> go = bool_decide (command_of (words (clip 256 line)) <> C_quit)).

Lemma with_number_goes arg f : (forall a, f a <> C_quit) -> with_number arg f <> C_quit.
Proof. unfold with_number. by case_match. Qed.

Lemma execute_carries dbg line io : dbg_wf dbg -> executes dbg line io.
Proof.
  intros H. unfold executes, debugger_execute.
  pose proof (strtok_words (clip 256 line)) as Hw. destruct (words (clip 256 line)) as [|cmd args].
  { rewrite Hw. exists dbg, io, (negb (quit_requested dbg)). split; [done|]. split; [|by intros ->].
    exists io, []. split; [|constructor]. unfold say, put. rewrite app_nil_r. by destruct io. }
  destruct Hw as (b1 & -> & Hb1). destruct (strtok_word b1) as (b2 & -> & Hb2).
  destruct (strtok_word b2) as (b3 & -> & Hb3). rewrite Hb2, Hb1. clear b3 Hb3 Hb2 b2 Hb1 b1.
  assert (Hgo : forall c d i, carries_out dbg io c d i -> c <> C_quit ->
    exists d' i' go, Some (d, i, true) = Some (d', i', go) /\ carries_out dbg io c d' i' /\
      (quit_requested dbg = false -> go = bool_decide (c <> C_quit))).
  { intros c d i Hc Hq. exists d, i, true. split; [done|]. split; [done|]. by rewrite bool_decide_true. }
  assert (Hlook : forall c t, c = C_look -> exists d' i' go, Some (dbg, say io t, true) = Some (d', i', go) /\
      carries_out dbg io c d' i' /\ (quit_requested dbg = false -> go = bool_decide (c <> C_quit))).
  { intros c t ->. apply Hgo; [apply carries_look|done]. }
  unfold command_of. rewrite !is_word_two, !is_word_one.
  destruct (is_cmd cmd "registers" "r") eqn:E1.
  { destruct (cmd_registers_says dbg io) as [t ->].
    apply Hlook. by apply is_cmd_inv in E1 as [->| ->]. }
  destruct (is_cmd cmd "step" "s").
  { destruct (cmd_step_carries dbg (args !! 0%nat) io H) as (d & i & -> & Hc). apply Hgo; [done|].
    destruct (args !! 0%nat); [by apply with_number_goes|done]. }
  destruct (is_cmd cmd "continue" "c").
  { destruct (cmd_continue_carries dbg io H) as (d & i & -> & Hc). by apply Hgo. }
  destruct (is_cmd cmd "break" "b").
  { pose proof (cmd_break_carries dbg (args !! 0%nat) io H). destruct (cmd_break dbg _ io). apply Hgo; [done|].
    by apply with_number_goes. }
  destruct (is_cmd cmd "delete" "d").
  { pose proof (cmd_delete_carries dbg (args !! 0%nat) io H). destruct (cmd_delete dbg _ io). apply Hgo; [done|].
    by apply with_number_goes. }
  destruct (is_cmd cmd "memory" "m") eqn:E2.
  { destruct (cmd_memory_says dbg (args !! 0%nat) (tail args !! 0%nat) io) as [t ->].
    apply Hlook. by apply is_cmd_inv in E2 as [->| ->]. }
  destruct (is_cmd cmd "stack" "stack") eqn:E3.
  { destruct (cmd_stack_says dbg io) as [t ->]. apply Hlook. by apply is_cmd_inv in E3 as [->| ->]. }
  destruct (is_cmd cmd "disassemble" "dis") eqn:E4.
  { destruct (cmd_disassemble_says dbg (args !! 0%nat) (tail args !! 0%nat) io H) as [t ->].
    apply Hlook. by apply is_cmd_inv in E4 as [->| ->]. }
  destruct (is_cmd cmd "reset" "reset").
  { pose proof (cmd_reset_carries dbg io). destruct (cmd_reset dbg io). by apply Hgo. }
  destruct (is_cmd cmd "quit" "q").
  { exists (quit_dbg dbg), io, false. split; [done|]. split; [|done]. exists io, [].
    split; [|constructor]. unfold say, put. rewrite app_nil_r. by destruct io. }
  destruct (is_cmd cmd "help" "h"); by apply Hlook.
Qed.

(** ** Sessions *)

Lemma fgets_length size s : (length (fgets size s).1 <= size - 1)%nat.
Proof.
  destruct size as [|[|size]]; [destruct s; simpl; lia..|]. revert size. induction s as [|c s IH]; intros size; simpl; [lia|].
  case_match; [simpl; lia|]. destruct size as [|size]; [by destruct s|].
  specialize (IH size). destruct (fgets (S (S size)) s). simpl in *. lia.
Qed.

Lemma clip_line s : clip 256 (c_string (fgets 256 s).1) = c_string (fgets 256 s).1.
Proof.
  unfold clip. apply take_ge. pose proof (fgets_length 256 s).
  assert (forall f l, (length (take_while f l) <= length l)%nat) as Ht
    by (intros f l; induction l as [|c l IH]; simpl; [lia|]; case_match; simpl; lia).
  unfold c_string. etrans; [apply Ht|lia].
Qed.

Lemma command_quit img s s' : command_step img C_quit s s' -> s' = s.
Proof. by inversion 1. Qed.

Lemma repl_session fuel dbg io dbg' io' : dbg_wf dbg -> quit_requested dbg = false ->
  repl_loop fuel dbg io = Some (Some (dbg', io')) -> session (image dbg) (dstate dbg io) (dstate dbg' io').
Proof.
  revert dbg io. induction fuel as [|fuel IH]; intros dbg io H Hq E; [done|]. cbn [repl_loop] in E.
  change (stdin (say io (str "(bytevm) "))) with (stdin io) in E.
  destruct (decide (stdin io = [])) as [Hs|Hs].
  { rewrite Hs in E. simplify_eq. unfold dstate. rewrite say_say. by constructor. }
  destruct (fgets 256 (stdin io)) as [line rest] eqn:Ef.
  pose proof (clip_line (stdin io)) as Hc. rewrite Ef in Hc. cbn [fst] in Hc.
  set (io1 := mkStdio rest (stdout io ++ str "(bytevm) ")).
  destruct (execute_carries dbg (c_string line) io1 H) as (d & i & go & Ex & (io2 & text & -> & Hst) & Hgo).
  destruct (execute_keeps dbg (c_string line) io1 H) as (d' & i' & go' & Ex' & Hw & _ & Him & Hq').
  rewrite Ex in Ex'. injection Ex' as <- <- <-. rewrite Hc in Hst, Hgo. specialize (Hgo Hq). specialize (Hq' Hq).
  assert (Some (Some (dbg', io')) = if go then repl_loop fuel d (say io2 text) else Some (Some (d, say io2 text))) as E2.
  { rewrite <- E. destruct (stdin io) as [|c s]; [done|]. change (mkStdio rest (stdout (say io (str "(bytevm) ")))) with io1. by rewrite Ex. }
  destruct go; symmetry in Hgo.
  - apply bool_decide_eq_true in Hgo. symmetry in E2. apply (IH d) in E2; [|done|done].
    eapply se_line; [done|done|done|exact Hst|]. by rewrite Him in E2.
  - apply bool_decide_eq_false, dec_stable in Hgo. simplify_eq. rewrite Hgo in Hst.
    assert (dstate d io2 = dstate dbg io1) as Hd by (by apply (command_quit (image dbg))).
    unfold dstate in Hd |- *. injection Hd as -> -> ->. unfold say, put. cbn [io1 stdin stdout].
    rewrite <- app_assoc. by eapply se_quit.
Qed.

(** ** What was typed determines the session *)

(** The same machine, breakpoints and input; what has been written is left open. *)
Definition same_session (s s' : DbgState) : Prop := s.1 = s'.1 /\ stdin s.2 = stdin s'.2.

(** A run of [continue] is no longer than another from the same machine and input. *)
Lemma continue_first bps vm io io2 n m v i : stdin io = stdin io2 -> (1 <= n)%nat ->
  vm_steps n vm io = Some (v, i) -> stops_at bps v \/ Z.of_nat n = CONTINUE_STEP_LIMIT ->
  Z.of_nat m <= CONTINUE_STEP_LIMIT ->
  (forall k v i, (1 <= k < m)%nat -> vm_steps k vm io2 = Some (v, i) -> ~ stops_at bps v) -> (m <= n)%nat.
Proof.
  intros Hin Hn E Hstop Hm Hway. destruct (le_lt_dec m n) as [|Hlt]; [done|]. exfalso.
  destruct (vm_steps_input n vm io io2 v i Hin E) as (i2 & E2 & _).
  destruct Hstop as [Hs|Hs]; [by apply (Hway n v i2 ltac:(lia) E2)|lia].
Qed.

Lemma command_step_unique img c s t s2 t2 : same_session s s2 ->
  command_step img c s t -> command_step img c s2 t2 -> same_session t t2.
Proof.
  destruct s as [[vm bps] io], s2 as [[vm2 bps2] io2]. intros [Hs Hin] H1 H2. cbn in Hs, Hin. injection Hs as <- <-.
  inversion H1 as [n ? ? ? vm1 io1 E| |n ? ? ? vm1 io1 Hh Hn Hl E Hway Hstop| | | | | |]; subst;
    inversion H2 as [n2 ? ? ? vm3 io3 E3| |n2 ? ? ? vm3 io3 Hh3 Hn3 Hl3 E3 Hway3 Hstop3| | | | | |]; subst;
    try done; try congruence; try (exfalso; set_solver by lia).
  - unfold step_all in *. destruct (vm_steps_input _ _ _ io2 _ _ Hin E) as (j & E' & Hj). rewrite E' in E3. by injection E3 as <- <-.
  - assert (n = n2) as <- by (apply Nat.le_antisymm; [by eapply (continue_first bps vm io2 io)|by eapply (continue_first bps vm io io2)]).
    destruct (vm_steps_input _ _ _ io2 _ _ Hin E) as (j & E' & Hj). rewrite E' in E3. by injection E3 as <- <-.
Qed.

Lemma session_unique img s t s2 t2 : session img s t -> session img s2 t2 -> same_session s s2 -> same_session t t2.
Proof.
  intros H. revert s2 t2.
  induction H as [vm bps io text He|vm bps io line rest prompt He Hf Hc|
    vm bps io line rest prompt vm' bps' io' text s' He Hf Hc Hst Hs IH]; intros s2 t2 H2 [Heq Hin];
    destruct s2 as [[vm2 bps2] io2]; cbn in Heq, Hin; injection Heq as <- <-;
    inversion H2 as [|? ? ? line2 rest2 prompt2 He2 Hf2 Hc2|
      ? ? ? line2 rest2 prompt2 vm2 bps2 io3 text2 ? He2 Hf2 Hc2 Hst2 Hs2]; subst;
    try congruence; rewrite Hin in *; try (rewrite Hf in Hf2; injection Hf2 as <- <-); try done; try congruence.
  apply (IH _ _ Hs2).
  by destruct (command_step_unique _ _ (vm, bps, mkStdio rest (stdout io ++ prompt)) _
    (vm, bps, mkStdio rest (stdout io2 ++ prompt2)) _ ltac:(done) Hst Hst2).
Qed.

(** ** Section 13 *)

(** A step that does not pass a breakpoint is section 13's. *)
Lemma step_documented bps n vm io vm' io' : vm_wf vm -> step_all bps n vm io vm' io' ->
  step_13 bps n vm io vm' io' \/ passes bps n vm io.
Proof.
  unfold step_all. revert vm io. induction n as [|n IH]; intros vm io Hwf E.
  { left. exists 0%nat. split_and!; [lia|done|lia|by left]. }
  destruct (step_total vm io Hwf) as (v & i & c & Es & Hv & _).
  assert (Hs : forall k, vm_steps (S k) vm io = vm_steps k v i) by (intros k; simpl; by rewrite Es).
  rewrite Hs in E. destruct (decide (pc (cpu v) ∈ bps)) as [Hin|Hin].
  - destruct n as [|n]; [left; exists 1%nat; split_and!; [lia|by rewrite Hs|lia|by left]|].
    destruct (halted v) eqn:Hh.
    + rewrite vm_steps_halted in E by done. injection E as <- <-. left. exists 1%nat.
      split_and!; [lia|by rewrite Hs|lia|by right].
    + right. exists 1%nat, v, i. split_and!; [lia..|by rewrite Hs|done|done].
  - destruct (IH v i Hv E) as [(m & Hm & Em & Hway & Hend)|(k & w & j & Hk & Ek & Hw)].
    + left. exists (S m). split_and!; [lia|by rewrite Hs| |destruct Hend as [->|[? ?]]; [by left|right; by split; [lia|]]].
      intros [|[|k]] w j Hk; [lia|rewrite Hs; by intros [= <- <-]|]. rewrite Hs. apply Hway. lia.
    + right. exists (S k), w, j. rewrite Hs. split_and!; [lia..|done|apply Hw|apply Hw].
Qed.

Lemma command_documented img n vm bps io s : vm_wf vm -> command_step img (C_step n) (vm, bps, io) s ->
  command_step_of step_13 img (C_step n) (vm, bps, io) s \/ passes bps n vm io.
Proof.
  intros Hwf H. inversion H as [? ? ? ? vm' io' E| | | | | | | |]; subst.
  destruct (step_documented _ _ _ _ _ _ Hwf E); [left; by apply cs_step|by right].
Qed.

(** Of the other commands both debuggers have the same. *)
Lemma command_same f g img c s s' : (forall n, c <> C_step n) ->
  command_step_of f img c s s' -> command_step_of g img c s s'.
Proof.
  intros Hc H. revert Hc. destruct H; intros Hc; [by destruct (Hc n)|by apply cs_continue_halted|by eapply cs_continue|by apply cs_break|
    by apply cs_break_full|apply cs_delete|apply cs_reset|apply cs_quit|apply cs_look].
Qed.

(** ** Reachable machines *)

Section reach.
Context (image : list Z) (Hb : is_byte_list image) (Hv : image_valid image).

Lemma vm_cycle_wf vm vm' : rtc vm_cycle vm vm' -> vm_wf vm -> stack_ok vm ->
  vm_wf vm' /\ stack_ok vm' /\ stack_limit vm' = stack_limit vm.
Proof.
  induction 1 as [vm|vm vm1 vm2 (io & io' & Hn) _ IH]; intros Hw Hs; [done|].
  destruct (vm_next_wf _ _ Hn Hw) as [Hw1 Hl]. pose proof (stack_ok_next _ _ Hn Hw Hs) as Hs1. simpl in *.
  destruct (IH Hw1 Hs1) as (? & ? & ?). split_and!; congruence.
Qed.

Lemma steps_cycles n vm io vm' io' : vm_wf vm -> vm_steps n vm io = Some (vm', io') -> rtc vm_cycle vm vm'.
Proof.
  intros Hw E. destruct (vm_steps_total n vm io Hw) as (s & E' & R). rewrite E in E'. injection E' as <-.
  change (rtc vm_cycle (vm, io).1 (vm', io').1). revert R. generalize (vm, io), (vm', io'). clear.
  induction 1 as [s|s1 s2 s3 Hn _ IH]; [done|]. eapply rtc_l; [|exact IH].
  exists s1.2, s2.2. by destruct s1, s2.
Qed.

Lemma command_reach vm0 c s s' : command_step image c s s' -> rtc vm_cycle (loaded vm0 image) s.1.1 ->
  rtc vm_cycle (loaded vm0 image) s'.1.1.
Proof.
  intros Hc R. assert (vm_wf s.1.1) as Hw
    by (by apply (vm_cycle_wf _ _ R); [apply loaded_wf|apply loaded_stack_ok]).
  destruct Hc as [n vm bps io vm' io' E| |n vm bps io vm' io' Hh _ _ E _ _| | | |vm bps io| |]; try done; cbn [fst] in *.
  - etrans; [exact R|by eapply steps_cycles].
  - etrans; [exact R|by eapply steps_cycles].
  - rewrite vm_load_ok by done. done.
Qed.

(** A session of the debugger is one of section 13 unless a step passes a breakpoint. *)
Lemma session_documented vm0 s s' : session image s s' -> rtc vm_cycle (loaded vm0 image) s.1.1 ->
  session_13 image s s' \/ passes_breakpoint image s.
Proof.
  induction 1 as [vm bps io text He|vm bps io line rest prompt He Hf Hc|
    vm bps io line rest prompt vm1 bps1 io1 text s' He Hf Hc Hst _ IH]; intros R.
  - left. by apply se_end.
  - left. by eapply se_quit.
  - pose proof (command_reach vm0 _ _ _ Hst R) as R1. cbn [fst] in R, R1, IH.
    destruct (IH R1) as [Hs|Hp]; [|right; by eapply pb_later].
    assert (vm_wf vm) as Hwf by (by apply (vm_cycle_wf _ _ R); [apply loaded_wf|apply loaded_stack_ok]).
    destruct (command_of (words (c_string line))) as [n| | | | | |] eqn:Ec; [|
      left; eapply se_line; [done|done|by rewrite Ec| |exact Hs]; rewrite Ec; by eapply command_same..].
    destruct (command_documented _ _ _ _ _ _ Hwf Hst) as [H1|H1]; [left|right; by eapply pb_here].
    eapply se_line; [done|done|by rewrite Ec|by rewrite Ec|exact Hs].
Qed.

Lemma session_reach vm0 s s' : session image s s' -> rtc vm_cycle (loaded vm0 image) s.1.1 ->
  rtc vm_cycle (loaded vm0 image) s'.1.1.
Proof.
  induction 1 as [| |vm bps io line rest prompt vm1 bps1 io1 text s' _ _ _ Hc _ IH]; intros R; [done..|].
  apply IH. by apply (command_reach vm0 _ _ _ Hc).
Qed.
End reach.
