(* ===== verification/DbgProps.v ===== *)
(** The theorems about the debugger: sessions end and never reach undefined
    behaviour, breakpoints are a bounded set, and the execution commands move the
    machine exactly as many cycles as they say. *)

From S2P Require Import Prelude Common CLib Memory Cpu Instruction Vm VmFacts Isa VmArith VmRefine.
From S2P Require Import VmStep VmStack VmStreams Loader VmDemo Disassembler DisFacts Debugger.
From S2P Require Import DbgSpec DbgFacts DbgRefine.
From stdpp Require Import relations gmap.
Open Scope Z_scope.

(** PUSH 1; PUSH 2; HALT at 0x20. *)
Definition demo_session_code : list Z := [0x0F; 0x20; 1; 0; 0x0F; 0x20; 2; 0; 0xFF; 0].
Definition demo_session_image : list Z := code_image 0x20 demo_session_code.
Definition demo_boot : VM := boot 0x20 demo_session_code.
Definition demo_dbg : Debugger := debugger_init demo_boot demo_session_image.

(** ** Sessions *)

Lemma session_total image io : is_byte_list image -> image_valid image ->
  exists dbg io', debugger_repl (debugger_init (vm_load blank image).1 image) io = Some (Some (dbg, io')) /\
    dbg_wf dbg /\ io_after io io' /\ (quit_requested dbg = true \/ stdin io' = []).
Proof.
  intros Hb Hv. rewrite vm_load_ok by done. simpl fst.
  assert (dbg_wf (debugger_init (loaded blank image) image)) as H
    by (apply dbg_wf_init; [by apply loaded_wf|done]).
  unfold debugger_repl. set (io1 := say io _).
  destruct (report_stop_total (debugger_init (loaded blank image) image) io1 (dw_vm _ H)) as [t ->].
  cbn [mbind option_bind].
  destruct (repl_loop_total (S (length (stdin (say io1 t)))) _ (say io1 t) H) as (d & i & E & Hd & Ha & _ & Hq); [lia|].
  exists d, i. split_and!; [done|done| |].
  - transitivity io1; [apply io_after_put|]. transitivity (say io1 t); [apply io_after_put|done].
  - destruct (quit_requested d) eqn:Eq; [by left|right; by apply Hq].
Qed.

(** C35: A session on a loaded program ends, whatever is typed: the loop makes at most one
    round per character of input, no command reaches undefined behaviour, the
    machine and the breakpoint table stay well formed, and the session is over
    because quit was asked for or because the input is used up. *)
Theorem session_ends image io : is_byte_list image -> image_valid image ->
  exists dbg io', debugger_repl (debugger_init (vm_load blank image).1 image) io = Some (Some (dbg, io')) /\
    dbg_wf dbg /\ io_after io io' /\ (quit_requested dbg = true \/ stdin io' = []).
Proof. apply session_total. Qed.

Lemma session_ends_witness :
  exists dbg io', debugger_repl (debugger_init (vm_load blank demo_session_image).1 demo_session_image)
      (mkStdio (str "step" ++ nl ++ str "q" ++ nl) []) = Some (Some (dbg, io')) /\
    dbg_wf dbg /\ io_after (mkStdio (str "step" ++ nl ++ str "q" ++ nl) []) io' /\
    (quit_requested dbg = true \/ stdin io' = []).
Proof.
  apply (session_ends demo_session_image); [by_decide|]. apply image_valid_load; [by_decide|reflexivity].
Defined.

Lemma repl_loop_of image io : is_byte_list image -> image_valid image -> exists text,
  debugger_repl (debugger_init (vm_load blank image).1 image) io =
    repl_loop (S (length (stdin io))) (debugger_init (vm_load blank image).1 image) (say io text).
Proof.
  intros Hb Hv. rewrite vm_load_ok by done. simpl fst. unfold debugger_repl. set (io1 := say io _).
  destruct (report_stop_total (debugger_init (loaded blank image) image) io1 (loaded_wf image Hb blank Hv)) as [t ->].
  cbn [mbind option_bind]. unfold io1. rewrite say_say. by eexists.
Qed.

Lemma init_wf image : is_byte_list image -> image_valid image ->
  dbg_wf (debugger_init (vm_load blank image).1 image).
Proof. intros Hb Hv. rewrite vm_load_ok by done. apply dbg_wf_init; [by apply loaded_wf|done]. Qed.

Lemma repl_is_session image io dbg io' : is_byte_list image -> image_valid image ->
  debugger_repl (debugger_init (vm_load blank image).1 image) io = Some (Some (dbg, io')) ->
  exists text, session image ((vm_load blank image).1, ∅, say io text) (dstate dbg io').
Proof.
  intros Hb Hv E. destruct (repl_loop_of image io Hb Hv) as [text Er]. rewrite Er in E. exists text.
  apply (repl_session _ (debugger_init (vm_load blank image).1 image) (say io text) dbg io'
    (init_wf image Hb Hv) eq_refl E).
Qed.

(** C33: A debugger session is the session of commands that was typed. Its text aside, the
    loop over [fgets], [strtok] and the command functions implements the specified
    debugger: each line is read as a command, and each command moves the machine, the
    set of breakpoints and the program's input and output: [step] by its count of
    cycles, breakpoints or not; [continue] to the first halted state or breakpoint
    behind at least one cycle, or by ten million cycles; [break] and [delete] by
    insertion into and removal from a set of at most 64 addresses; [reset] to the loaded
    machine; all others not at all. That is a session of section 13 of the design, with
    these two limits, unless a [step] of it passes a breakpoint, where section 13 has it
    stop. What was typed determines the session: every one of the specified debugger
    with the same input ends with the machine, the breakpoints and the input left over
    that [debugger_repl] ends with. *)
Theorem session_refines image io : is_byte_list image -> image_valid image ->
  exists dbg io' text,
    debugger_repl (debugger_init (vm_load blank image).1 image) io = Some (Some (dbg, io')) /\
    session image ((vm_load blank image).1, ∅, say io text) (dvm dbg, bp_set dbg, io') /\
    (session_13 image ((vm_load blank image).1, ∅, say io text) (dvm dbg, bp_set dbg, io') \/
     passes_breakpoint image ((vm_load blank image).1, ∅, say io text)) /\
    forall out vm bps io1, session image ((vm_load blank image).1, ∅, mkStdio (stdin io) out) (vm, bps, io1) ->
      vm = dvm dbg /\ bps = bp_set dbg /\ stdin io1 = stdin io'.
Proof.
  intros Hb Hv. destruct (repl_loop_of image io Hb Hv) as [text Er].
  destruct (repl_loop_total (S (length (stdin io))) _ (say io text) (init_wf image Hb Hv)) as (d & i & E & _); [simpl; lia|].
  rewrite <- Er in E. destruct (repl_is_session image io d i Hb Hv E) as [text' Hs]. exists d, i, text'.
  split; [done|]. split; [exact Hs|]. split.
  { apply (session_documented image Hb Hv blank); [exact Hs|]. by rewrite vm_load_ok by done. }
  intros out vm bps io1 H1.
  destruct (session_unique _ _ _ _ _ H1 Hs) as [Heq Hin]; [done|]. by injection Heq as -> ->.
Qed.

Definition demo_typed : Stdio := mkStdio (str "b 0x24" ++ nl ++ str "continue" ++ nl ++ str "s 2" ++ nl) [].

Lemma session_refines_witness :
  exists dbg io' text,
    debugger_repl (debugger_init (vm_load blank demo_session_image).1 demo_session_image) demo_typed =
      Some (Some (dbg, io')) /\
    session demo_session_image ((vm_load blank demo_session_image).1, ∅, say demo_typed text)
      (dvm dbg, bp_set dbg, io') /\
    (session_13 demo_session_image ((vm_load blank demo_session_image).1, ∅, say demo_typed text)
       (dvm dbg, bp_set dbg, io') \/
     passes_breakpoint demo_session_image ((vm_load blank demo_session_image).1, ∅, say demo_typed text)) /\
    forall out vm bps io1,
      session demo_session_image ((vm_load blank demo_session_image).1, ∅, mkStdio (stdin demo_typed) out) (vm, bps, io1) ->
      vm = dvm dbg /\ bps = bp_set dbg /\ stdin io1 = stdin io'.
Proof.
  apply (session_refines demo_session_image); [by_decide|]. apply image_valid_load; [by_decide|reflexivity].
Defined.

(** C36: The debugger only watches and runs the program: whatever has been typed, the
    machine of a session is one that cycles lead to from the loaded image, so every
    invariant of the machine holds in it - it is well formed, its stack pointer is
    aligned and above the program - and there are at most 64 breakpoints. *)
Theorem session_machine_reachable image io dbg io' : is_byte_list image -> image_valid image ->
  debugger_repl (debugger_init (vm_load blank image).1 image) io = Some (Some (dbg, io')) ->
  rtc vm_cycle (vm_load blank image).1 (dvm dbg) /\ vm_wf (dvm dbg) /\ stack_ok (dvm dbg) /\
  stack_limit (dvm dbg) = Z.min 0xFFFF (image_end image) /\ zlen (breakpoints dbg) <= 64.
Proof.
  intros Hb Hv E. pose proof (loaded_wf image Hb blank Hv) as Hw.
  destruct (repl_is_session image io dbg io' Hb Hv E) as [text Hs].
  assert (rtc vm_cycle (loaded blank image) (dvm dbg)) as R.
  { apply (session_reach image Hb Hv blank _ _ Hs). by rewrite vm_load_ok. }
  destruct (vm_cycle_wf _ _ R Hw (loaded_stack_ok _ _)) as (H1 & H2 & H3).
  split; [by rewrite vm_load_ok|]. split; [done|]. split; [done|]. split; [by rewrite H3|].
  destruct (repl_loop_of image io Hb Hv) as [t Er]. rewrite Er in E.
  destruct (repl_loop_total (S (length (stdin io))) _ (say io t) (init_wf image Hb Hv)) as (d & i & E' & Hd & _);
    [simpl; lia|]. rewrite E in E'. injection E' as <- <-. apply (dw_count _ Hd).
Qed.

Definition demo_session : Debugger :=
  match debugger_repl (debugger_init (vm_load blank demo_session_image).1 demo_session_image) demo_typed with
  | Some (Some (dbg, _)) => dbg
  | _ => demo_dbg
  end.

Lemma session_machine_reachable_witness :
  rtc vm_cycle (vm_load blank demo_session_image).1 (dvm demo_session) /\ vm_wf (dvm demo_session) /\
  stack_ok (dvm demo_session) /\ stack_limit (dvm demo_session) = Z.min 0xFFFF (image_end demo_session_image) /\
  zlen (breakpoints demo_session) <= 64.
Proof.
  destruct (debugger_repl (debugger_init (vm_load blank demo_session_image).1 demo_session_image) demo_typed)
    as [[[dbg io]|]|] eqn:E; [|by vm_compute in E..].
  unfold demo_session. rewrite E.
  apply (session_machine_reachable demo_session_image demo_typed dbg io);
    [by_decide|apply image_valid_load; [by_decide|reflexivity]|exact E].
Defined.

(** Every line is executed to its end, known command or not, well-formed arguments or
    not: the session stays well formed, its image is kept, input is only consumed
    and output only appended, and the loop is told to stop exactly when quit was
    requested. *)
Theorem command_total dbg line io : dbg_wf dbg ->
  exists dbg' io' go, debugger_execute dbg line io = Some (dbg', io', go) /\
    dbg_wf dbg' /\ io_after io io' /\ image dbg' = image dbg /\
    (quit_requested dbg = false -> quit_requested dbg' = negb go).
Proof. apply execute_keeps. Qed.

Lemma demo_dbg_wf : dbg_wf demo_dbg.
Proof. apply dbg_wf_init; [apply boot_wf; [by_decide|reflexivity]|by_decide]. Qed.

Lemma command_total_witness :
  exists dbg' io' go, debugger_execute demo_dbg (str "memory 0xFFFF 40") quiet = Some (dbg', io', go) /\
    dbg_wf dbg' /\ io_after quiet io' /\ image dbg' = demo_session_image /\
    (false = false -> quit_requested dbg' = negb go).
Proof. apply (command_total demo_dbg (str "memory 0xFFFF 40") quiet). apply demo_dbg_wf. Defined.

(** ** Breakpoints *)

Lemma breakpoints_refine_set_witness :
  has_breakpoint demo_dbg 9 = bool_decide (9 ∈ bp_set demo_dbg) /\
  bp_set (cmd_break demo_dbg (Some (str "0x9")) quiet).1 = {[9]} ∪ bp_set demo_dbg /\
  bp_set (cmd_delete demo_dbg (Some (str "0x9")) quiet).1 = bp_set demo_dbg ∖ {[9]} /\
  dvm (cmd_break demo_dbg (Some (str "0x9")) quiet).1 = dvm demo_dbg /\
  dvm (cmd_delete demo_dbg (Some (str "0x9")) quiet).1 = dvm demo_dbg.
Proof.
  apply (breakpoints_refine_set demo_dbg (Some (str "0x9")) 9 quiet); [apply demo_dbg_wf|reflexivity].
Defined.

(** Every address is accepted as an argument in decimal and in the form the debugger
    itself prints addresses in, and no accepted argument is outside 0-0xFFFF. *)
Theorem address_arguments a : is_u16 a ->
  parse_number (Some (fmt_u a)) = Some a /\ parse_number (Some (str "0x" ++ fmt_04X a)) = Some a /\
  forall s v, parse_number s = Some v -> is_u16 v.
Proof.
  intros H. split_and!; [by apply parse_number_dec|by apply parse_number_hex|apply parse_number_u16].
Qed.

Lemma address_arguments_witness :
  parse_number (Some (str "48879")) = Some 48879 /\ parse_number (Some (str "0xBEEF")) = Some 48879 /\
  forall s v, parse_number s = Some v -> is_u16 v.
Proof. apply (address_arguments 48879). by_decide. Defined.

(** ** Execution *)

(** [step n] is n cycles of the machine ([step] alone one, a malformed count none):
    the session's machine and the program's input and output are what n plain
    [vm_step]s give, with the report of where it stopped behind the output. *)
Theorem step_is_cycles dbg arg io : dbg_wf dbg ->
  exists n vm' io' text,
    vm_steps n (dvm dbg) io = Some (vm', io') /\
    cmd_step dbg arg io = Some (set_dvm dbg vm', say io' text) /\
    n = match arg with
        | None => 1%nat
        | Some _ => match parse_number arg with Some k => Z.to_nat k | None => 0%nat end
        end.
Proof.
  intros H. destruct (cmd_step_spec dbg arg io (dw_vm _ H)) as (n & vm' & io' & text & ? & ? & H1 & H2 & H3).
  exists n, vm', io', text. split_and!; [done..|]. destruct arg as [s|]; [|by apply H1].
  destruct (parse_number (Some s)) as [k|] eqn:E; [by apply H2|by apply H3].
Qed.

Lemma step_is_cycles_witness :
  exists n vm' io' text,
    vm_steps n (dvm demo_dbg) quiet = Some (vm', io') /\
    cmd_step demo_dbg (Some (str "3")) quiet = Some (set_dvm demo_dbg vm', say io' text) /\ n = 3%nat.
Proof. apply (step_is_cycles demo_dbg (Some (str "3")) quiet). apply demo_dbg_wf. Defined.

(** C37: [continue] from a running machine runs at least one cycle and then stops at the
    first state that is halted or whose PC is a breakpoint, or after ten million
    cycles - so a breakpoint at the current PC does not stop it at once, and no
    breakpoint on the way is passed. *)
Theorem continue_stops_first dbg io : dbg_wf dbg -> halted (dvm dbg) = false ->
  exists n vm' io' text,
    (1 <= n)%nat /\ Z.of_nat n <= CONTINUE_STEP_LIMIT /\
    vm_steps n (dvm dbg) io = Some (vm', io') /\
    cmd_continue dbg io = Some (set_dvm dbg vm', say io' text) /\
    (forall k v i, (1 <= k < n)%nat -> vm_steps k (dvm dbg) io = Some (v, i) ->
       halted v = false /\ pc (cpu v) ∉ bp_set dbg) /\
    (halted vm' = true \/ pc (cpu vm') ∈ bp_set dbg \/ Z.of_nat n = CONTINUE_STEP_LIMIT).
Proof.
  intros H Hh.
  destruct (cmd_continue_spec dbg io (dw_vm _ H) Hh) as (n & vm' & io' & text & ? & ? & ? & ? & _ & Hb & He & _).
  exists n, vm', io', text. split_and!; [done..| |].
  - intros k v i Hk Hs. destruct (Hb k v i Hk Hs) as [? Hn]. split; [done|].
    rewrite has_breakpoint_set in Hn. by apply bool_decide_eq_false in Hn.
  - rewrite has_breakpoint_set, bool_decide_eq_true in He. done.
Qed.

Lemma continue_stops_first_witness :
  exists n vm' io' text,
    (1 <= n)%nat /\ Z.of_nat n <= CONTINUE_STEP_LIMIT /\
    vm_steps n (dvm demo_dbg) quiet = Some (vm', io') /\
    cmd_continue demo_dbg quiet = Some (set_dvm demo_dbg vm', say io' text) /\
    (forall k v i, (1 <= k < n)%nat -> vm_steps k (dvm demo_dbg) quiet = Some (v, i) ->
       halted v = false /\ pc (cpu v) ∉ bp_set demo_dbg) /\
    (halted vm' = true \/ pc (cpu vm') ∈ bp_set demo_dbg \/ Z.of_nat n = CONTINUE_STEP_LIMIT).
Proof. apply (continue_stops_first demo_dbg quiet); [apply demo_dbg_wf|reflexivity]. Defined.

(** [reset] restores the machine the session started with, whatever ran in between,
    and keeps the breakpoints. *)
Theorem reset_restores image vm0 dbg io : is_byte_list image -> image_valid image ->
  Debugger.image dbg = image -> (cmd_reset dbg io).1 = set_dvm dbg (vm_load vm0 image).1.
Proof.
  intros Hb Hv Hi. unfold cmd_reset. rewrite Hi, !vm_load_ok by done. done.
Qed.

Lemma reset_restores_witness :
  (cmd_reset (set_dvm demo_dbg (set_halted blank true)) quiet).1 = set_dvm demo_dbg demo_boot.
Proof.
  apply (reset_restores demo_session_image blank (set_dvm demo_dbg (set_halted blank true)) quiet);
    [by_decide|apply image_valid_load; [by_decide|reflexivity]|reflexivity].
Defined.

(** ** Divergences *)

(** Section 13 has [step] stop at a breakpoint; the counted loop does not look at
    the breakpoints. *)
Lemma step_ignores_breakpoints :
  (pc ∘ cpu ∘ dvm ∘ fst) <$> cmd_step (set_breakpoints demo_dbg [0x24]) (Some (str "2")) quiet = Some 0x28.
Proof. vm_compute. reflexivity. Qed.
