(* ===== verification/Main.v ===== *)
(** The command line: [src/main.c].

    The world a command runs in: the file system as what opening and reading a path
    gives, how many bytes [fwrite] takes for a path opened for writing and how many of
    them are in the file once it is closed, the standard streams, the error stream and
    the files written. *)

From S2P Require Import Prelude Common CLib Memory Cpu Instruction Vm Loader Symtab Lexer Parser.
From S2P Require Import Assembler Disassembler Debugger.
Open Scope Z_scope.

Definition MAX_STEPS : Z := 10000000.

(** What [fopen(path, "rb")], [fseek] and [ftell] find. [File_short] is a file of the
    size [len] of which [fread] delivers [bytes] before it fails. *)
Inductive OpenFile : Type :=
| File_missing
| File_unseekable
| File_unsizable
| File_short (len : nat) (bytes : list Z)
| File_bytes (bytes : list Z).

Record World : Type := mkWorld {
  open_file : list Z -> OpenFile;
  write_capacity : list Z -> option Z;
  close_capacity : list Z -> Z;
  wio : Stdio;
  wstderr : list Z;
  written : list (list Z * list Z);
}.

Definition eprint (w : World) (text : list Z) : World :=
  mkWorld (open_file w) (write_capacity w) (close_capacity w) (wio w) (wstderr w ++ text) (written w).
Definition with_io (w : World) (io : Stdio) : World :=
  mkWorld (open_file w) (write_capacity w) (close_capacity w) io (wstderr w) (written w).
Definition write_file (w : World) (path bytes : list Z) : World :=
  mkWorld (open_file w) (write_capacity w) (close_capacity w) (wio w) (wstderr w) (written w ++ [(path, bytes)]).

(** [fprintf(stderr, "bytevm: ...\n")]. *)
Definition complain (w : World) (text : list Z) : World := eprint w (str "bytevm: " ++ text ++ nl).

Definition usage (prog : list Z) : list Z :=
  str "ByteVM -- a 16-bit register virtual machine" ++ nl ++ nl ++
  str "Usage:" ++ nl ++
  str "  " ++ prog ++ str " run <file.asm|file.bvm>   assemble if needed, then execute" ++ nl ++
  str "  " ++ prog ++ str " asm <file.asm> <out.bvm>  assemble to a .bvm file" ++ nl ++
  str "  " ++ prog ++ str " dis <file.asm|file.bvm>   disassemble back to assembly text" ++ nl ++
  str "  " ++ prog ++ str " debug <file.asm|file.bvm> step through it interactively" ++ nl.

Definition quoted (path : list Z) : list Z := str "'" ++ path ++ str "'".

(** The contents, or [None] after a complaint. *)
Definition read_file (w : World) (path : list Z) : World * option (list Z) :=
  match open_file w path with
  | File_missing => (complain w (str "cannot open " ++ quoted path), None)
  | File_unseekable => (complain w (str "cannot seek " ++ quoted path), None)
  | File_unsizable => (complain w (str "cannot size " ++ quoted path), None)
  | File_short len bytes => (w, Some (take len bytes))
  | File_bytes bytes => (w, Some bytes)
  end.

Definition has_suffix (s suffix : list Z) : bool :=
  (zlen suffix <=? zlen s) && bool_decide (drop (length s - length suffix) s = suffix).

(** The image at a path, assembling a [.asm] file. The outer [None] is undefined
    behaviour of the assembler. *)
Definition image_from_path (w : World) (path : list Z) : option (World * option (list Z)) :=
  let '(w, contents) := read_file w path in
  match contents with
  | None => Some (w, None)
  | Some contents =>
      if negb (has_suffix path (str ".asm")) then Some (w, Some contents)
      else
        match assemble (c_string contents) with
        | Ok image => Some (w, Some image)
        | Err _ error => Some (eprint w (path ++ str ":" ++ error ++ nl), None)
        | UB => None
        end
  end.

(** One round of the run loop; [inr] leaves it. *)
Definition run_round (s : VM * Stdio) : VM * Stdio + option (VM * Stdio) :=
  let '(vm, io) := s in
  if halted vm then inr (Some (vm, io))
  else match vm_step vm io with
       | Some (vm, io, _) => inl (vm, io)
       | None => inr None
       end.

(** [while (!vm->halted && steps < MAX_STEPS)]. *)
Definition run_loop (vm : VM) (io : Stdio) : option (VM * Stdio) :=
  match iter_until (Z.to_pos MAX_STEPS) run_round (vm, io) with
  | inl s => Some s
  | inr s => s
  end.

(** A fresh machine from [malloc] is arbitrary before [vm_init]. *)
Definition cmd_run (w : World) (path : list Z) (vm : VM) : option (World * Z) :=
  '(w, image) ← image_from_path w path;
  match image with
  | None => Some (w, 1)
  | Some image =>
      let vm := vm_init vm in
      let '(vm, load) := vm_load vm image in
      if negb (bool_decide (load = VM_OK)) then Some (complain w (vm_result_str load), 1)
      else
        '(vm, io) ← run_loop vm (wio w);
        let w := with_io w io in
        if negb (bool_decide (last_error vm = VM_OK)) then
          Some (complain w (vm_result_str (last_error vm) ++ str " at PC=0x" ++ fmt_04X (error_pc vm)), 1)
        else if negb (halted vm) then
          Some (complain w (str "step limit (" ++ fmt_d MAX_STEPS ++ str ") reached without halting"), 1)
        else
          r0 ← get_r vm 0;
          Some (w, Z.land r0 0xFF)
  end.

Definition cmd_asm (w : World) (in_path out_path : list Z) : option (World * Z) :=
  '(w, image) ← image_from_path w in_path;
  match image with
  | None => Some (w, 1)
  | Some image =>
      match write_capacity w out_path with
      | None => Some (complain w (str "cannot write " ++ quoted out_path), 1)
      | Some capacity =>
          let count := Z.max 0 (Z.min capacity (zlen image)) in
          let w := write_file w out_path (take (Z.to_nat (Z.min (close_capacity w out_path) count)) image) in
          if negb (count =? zlen image) then
            Some (complain w (str "short write to " ++ quoted out_path), 1)
          else
            Some (with_io w (put (wio w) (str "wrote " ++ out_path ++ str " (" ++ fmt_u (zlen image) ++
                                          str " bytes)" ++ nl)), 0)
      end
  end.

Definition cmd_dis (w : World) (path : list Z) : option (World * Z) :=
  '(w, image) ← image_from_path w path;
  match image with
  | None => Some (w, 1)
  | Some image =>
      match disassemble image with
      | Ok text => Some (with_io w (put (wio w) text), 0)
      | Err _ error => Some (complain w error, 1)
      | UB => None
      end
  end.

Definition cmd_debug (w : World) (path : list Z) (vm : VM) : option (World * Z) :=
  '(w, image) ← image_from_path w path;
  match image with
  | None => Some (w, 1)
  | Some image =>
      let vm := vm_init vm in
      let '(vm, load) := vm_load vm image in
      if negb (bool_decide (load = VM_OK)) then Some (complain w (vm_result_str load), 1)
      else
        s ← debugger_repl (debugger_init vm image) (wio w);
        '(_, io) ← s;
        Some (with_io w io, 0)
  end.

(** [argv] including the program name; the exit status. *)
Definition main (w : World) (argv : list (list Z)) (vm : VM) : option (World * Z) :=
  let prog := default [] (argv !! 0%nat) in
  let is_arg s := bool_decide (argv !! 1%nat = Some (str s)) in
  match argv !! 2%nat, argv !! 3%nat with
  | Some a2, a3 =>
      if is_arg "run" then cmd_run w a2 vm
      else
        match is_arg "asm", a3 with
        | true, Some a3 => cmd_asm w a2 a3
        | _, _ =>
            if is_arg "dis" then cmd_dis w a2
            else if is_arg "debug" then cmd_debug w a2 vm
            else Some (eprint w (usage prog), 2)
        end
  | None, _ => Some (eprint w (usage prog), 2)
  end.
