(* ===== verification/MainProps.v ===== *)
(** The theorems about the command line: what [run] reports about an execution, how
    bad images and failed assemblies are refused, and that running a source is
    running its assembled image. *)

From S2P Require Import Prelude Machine Common CLib Memory Cpu Instruction Vm VmFacts Isa VmRefine.
From S2P Require Import VmStep VmStreams Loader Symtab Lexer Parser Assembler Disassembler DisFacts.
From S2P Require Import Debugger DbgFacts VmDemo Main.
From stdpp Require Import relations.
Open Scope Z_scope.

(** ** The run loop *)

(** The loop only stops for a halt. *)
Definition run_leave (s : State) : option (option State) :=
  if halted s.1 then Some (Some s) else None.

Lemma run_drives : drives run_leave run_round.
Proof.
  intros [vm io]. unfold run_leave, run_round. cbn [fst snd]. destruct (halted vm); [done|].
  intros s' Es. cbn in Es. destruct (vm_step vm io) as [[[v i] c]|]; simpl in Es; by simplify_eq.
Qed.

Lemma run_loop_spec vm io : vm_wf vm ->
  exists k vm' io', Z.of_nat k <= MAX_STEPS /\ vm_steps k vm io = Some (vm', io') /\ vm_wf vm' /\
    (halted vm' = true \/ Z.of_nat k = MAX_STEPS) /\ run_loop vm io = Some (vm', io').
Proof.
  intros Hwf. unfold run_loop. rewrite iter_until_n.
  assert (Z.of_nat (Pos.to_nat (Z.to_pos MAX_STEPS)) = MAX_STEPS) as Em by (rewrite positive_nat_Z; reflexivity).
  revert Em. generalize (Pos.to_nat (Z.to_pos MAX_STEPS)). intros m Em.
  destruct (rounds_spec _ _ run_drives m (vm, io)) as (k & [vm' io'] & Hk & Hs & Hw & _ & Hres); [done|].
  exists k, vm', io'. rewrite vm_steps_machine. unfold run_leave in Hres. cbn [fst snd] in Hres.
  destruct Hres as [(r & Hr & E & _)|[E ->]]; cbn in E; setoid_rewrite E;
    [destruct (halted vm'); simplify_eq|]; split_and!; auto; lia.
Qed.

(** ** [run] *)

(** What the command says about where an execution ended, and its exit status: the
    fault and its address, the exhausted step limit, or the low byte of R0. *)
Definition run_report (vm : VM) : list Z :=
  if negb (bool_decide (last_error vm = VM_OK)) then
    vm_result_str (last_error vm) ++ str " at PC=0x" ++ fmt_04X (error_pc vm)
  else str "step limit (10000000) reached without halting".

Definition run_status (vm : VM) : Z :=
  if bool_decide (last_error vm = VM_OK) && halted vm then reg vm 0 mod 256 else 1.

Definition run_world (w : World) (vm : VM) (io : Stdio) : World :=
  if bool_decide (last_error vm = VM_OK) && halted vm then with_io w io
  else complain (with_io w io) (run_report vm).

(** The rest of the command once an image is at hand. *)
Lemma run_image w path image vm w1 : image_from_path w path = Some (w1, Some image) ->
  is_byte_list image ->
  (image_valid image /\ exists k vm' io',
     Z.of_nat k <= MAX_STEPS /\ vm_steps k (vm_load vm image).1 (wio w1) = Some (vm', io') /\
     (halted vm' = true \/ Z.of_nat k = MAX_STEPS) /\
     cmd_run w path vm =
       Some (run_world w1 vm' io', run_status vm')) \/
  (~ image_valid image /\ cmd_run w path vm = Some (complain w1 (str "bad bytecode header"), 1)).
Proof.
  intros Hp Hb. unfold cmd_run. rewrite Hp. cbn [mbind option_bind].
  destruct (vm_load_cases image Hb (vm_init vm)) as [[Hv ->]|[Hn ->]]; [left|by right].
  split; [done|]. rewrite vm_load_ok by done. rewrite (loaded_indep image vm (vm_init vm)).
  pose proof (loaded_wf image Hb (vm_init vm) Hv) as Hwf. cbn [fst].
  destruct (run_loop_spec (loaded (vm_init vm) image) (wio w1) Hwf) as (k & vm' & io' & H1 & H2 & Hw & H3 & E).
  exists k, vm', io'. split_and!; [done..|].
  rewrite bool_decide_true by done. cbn [negb]. rewrite E. cbn [mbind option_bind].
  unfold run_world, run_report, run_status. case_bool_decide as He; cbn [negb andb]; [|done].
  destruct (halted vm'); cbn [negb]; [|done].
  rewrite get_r_reg by (done || lia). cbn [mbind option_bind].
  change 0xFF with (Z.ones 8). rewrite Z.land_ones by lia. change (2 ^ 8) with 256. done.
Qed.

Lemma image_from_file w path image : open_file w path = File_bytes image ->
  has_suffix path (str ".asm") = false -> image_from_path w path = Some (w, Some image).
Proof. intros Ho Hs. unfold image_from_path, read_file. by rewrite Ho, Hs. Qed.

Lemma image_from_source w path source : open_file w path = File_bytes source ->
  has_suffix path (str ".asm") = true ->
  image_from_path w path =
    match assemble (c_string source) with
    | Ok image => Some (w, Some image)
    | Err _ error => Some (eprint w (path ++ str ":" ++ error ++ nl), None)
    | UB => None
    end.
Proof. intros Ho Hs. unfold image_from_path, read_file. by rewrite Ho, Hs. Qed.

(** What [run] does depends on the image only, wherever it comes from. *)
Lemma run_same_image w path w2 path2 image vm w1 st :
  image_from_path w path = Some (w, Some image) -> image_from_path w2 path2 = Some (w2, Some image) ->
  wio w2 = wio w -> wstderr w2 = wstderr w -> cmd_run w path vm = Some (w1, st) ->
  exists w2', cmd_run w2 path2 vm = Some (w2', st) /\ wio w2' = wio w1 /\ wstderr w2' = wstderr w1.
Proof.
  intros E1 E2 Hio Herr. unfold cmd_run. rewrite E1, E2. cbn [mbind option_bind]. rewrite Hio.
  destruct (vm_load (vm_init vm) image) as [v res]. destruct (negb (bool_decide (res = VM_OK))).
  { intros [= <- <-]. eexists. split; [done|]. simpl. by rewrite Herr. }
  destruct (run_loop v (wio w)) as [[v' i]|]; [|done]. cbn [mbind option_bind].
  destruct (negb (bool_decide (last_error v' = VM_OK))).
  { intros [= <- <-]. eexists. split; [done|]. simpl. by rewrite Herr. }
  destruct (negb (halted v')).
  { intros [= <- <-]. eexists. split; [done|]. simpl. by rewrite Herr. }
  destruct (get_r v' 0) as [r0|]; [|done]. cbn [mbind option_bind].
  intros [= <- <-]. eexists. split; [done|]. simpl. done.
Qed.

(** [asm] writes the image of its source, if the file takes it. *)
Lemma asm_writes w path image out capacity : image_from_path w path = Some (w, Some image) ->
  write_capacity w out = Some capacity -> zlen image <= capacity -> zlen image <= close_capacity w out ->
  exists w', cmd_asm w path out = Some (w', 0) /\ written w' = written w ++ [(out, image)].
Proof.
  intros E Hw Hc Hcl. unfold cmd_asm. rewrite E. cbn [mbind option_bind].
  rewrite Hw, Z.min_r, Z.max_r, Z.eqb_refl by lia. cbn [negb]. eexists. split; [done|]. simpl. by rewrite take_ge by lia.
Qed.

(** ** Files the theorems are instantiated at *)

(** MOV R0, 7; HALT at 0. *)
Definition seven_image : list Z := code_image 0 [1; 0x12; 0; 7; 0; 0xFF; 0].
Definition seven_source : list Z := str "MOV R0, 7" ++ [10] ++ str "HALT" ++ [10].

Definition demo_world : World :=
  mkWorld (fun path => if decide (path = str "p.bvm") then File_bytes seven_image
                       else if decide (path = str "p.asm") then File_bytes seven_source
                       else if decide (path = str "bad.bvm") then File_bytes [0; 1; 2]
                       else File_missing)
    (fun path => if decide (path = str "full") then Some 3 else Some 1000)
    (fun path => if decide (path = str "lost") then 0 else 1000) quiet [] [].

(** ** [run] *)

(** [run] on a valid image executes the loaded program from the standard streams
    until it halts, or for ten million cycles; it has no undefined behaviour; the
    exit status is the low byte of R0 after HALT or SYS EXIT, and 1 after a fault or
    an exhausted limit, which is what the error stream then says. *)
Theorem run_executes w path image vm : open_file w path = File_bytes image ->
  has_suffix path (str ".asm") = false -> is_byte_list image -> image_valid image ->
  exists k vm' io',
    Z.of_nat k <= MAX_STEPS /\ vm_steps k (vm_load vm image).1 (wio w) = Some (vm', io') /\
    (halted vm' = true \/ Z.of_nat k = MAX_STEPS) /\
    cmd_run w path vm = Some (run_world w vm' io', run_status vm').
Proof.
  intros Ho Hs Hb Hv.
  by destruct (run_image w path image vm w (image_from_file w path image Ho Hs) Hb) as [[_ ?]|[? _]].
Qed.

Lemma run_executes_witness :
  exists k vm' io',
    Z.of_nat k <= MAX_STEPS /\ vm_steps k (vm_load blank seven_image).1 quiet = Some (vm', io') /\
    (halted vm' = true \/ Z.of_nat k = MAX_STEPS) /\
    cmd_run demo_world (str "p.bvm") blank = Some (run_world demo_world vm' io', run_status vm').
Proof.
  apply (run_executes demo_world (str "p.bvm") seven_image blank);
    [reflexivity|reflexivity|by_decide|apply image_valid_load; [by_decide|reflexivity]].
Defined.

(** [run] on any other byte string executes nothing: the streams and the files are
    as they were, the error stream says that the header is bad, and the exit status
    is 1. *)
Theorem run_refuses w path image vm : open_file w path = File_bytes image ->
  has_suffix path (str ".asm") = false -> is_byte_list image -> ~ image_valid image ->
  cmd_run w path vm = Some (complain w (str "bad bytecode header"), 1).
Proof.
  intros Ho Hs Hb Hv.
  by destruct (run_image w path image vm w (image_from_file w path image Ho Hs) Hb) as [[? _]|[_ ?]].
Qed.

Lemma run_refuses_witness :
  cmd_run demo_world (str "bad.bvm") blank = Some (complain demo_world (str "bad bytecode header"), 1).
Proof.
  apply (run_refuses demo_world (str "bad.bvm") [0; 1; 2] blank); [reflexivity|reflexivity|by_decide|].
  intros [_ _ H]. simpl in H. lia.
Defined.

(** ** [asm] *)

(** [asm] followed by [run] is [run]: the command writes exactly the image [run]
    assembles in memory, and running the written file from the same streams, in any
    file system that has it, behaves the same - status, output and messages. *)
Theorem asm_then_run w src source out capacity image w2 vm w1 st :
  open_file w src = File_bytes source -> has_suffix src (str ".asm") = true ->
  assemble (c_string source) = Ok image ->
  write_capacity w out = Some capacity -> zlen image <= capacity -> zlen image <= close_capacity w out ->
  open_file w2 out = File_bytes image -> has_suffix out (str ".asm") = false ->
  wio w2 = wio w -> wstderr w2 = wstderr w -> cmd_run w src vm = Some (w1, st) ->
  (exists w', cmd_asm w src out = Some (w', 0) /\ written w' = written w ++ [(out, image)]) /\
  exists w2', cmd_run w2 out vm = Some (w2', st) /\ wio w2' = wio w1 /\ wstderr w2' = wstderr w1.
Proof.
  intros Ho Hs Ha Hw Hc Hcl Ho2 Hs2 Hio Herr Hr.
  assert (image_from_path w src = Some (w, Some image)) as E by by rewrite (image_from_source w src source Ho Hs), Ha.
  split; [by apply (asm_writes w src image out capacity)|].
  by apply (run_same_image w src w2 out image vm w1 st E (image_from_file w2 out image Ho2 Hs2)).
Qed.

Lemma asm_then_run_witness :
  (exists w', cmd_asm demo_world (str "p.asm") (str "p.bvm") = Some (w', 0) /\
     written w' = [(str "p.bvm", seven_image)]) /\
  exists w2', cmd_run demo_world (str "p.bvm") blank = Some (w2', 7) /\ wio w2' = quiet /\ wstderr w2' = [].
Proof.
  apply (asm_then_run demo_world (str "p.asm") seven_source (str "p.bvm") 1000 seven_image demo_world
    blank demo_world 7); try reflexivity; try (vm_compute; reflexivity); vm_compute; congruence.
Defined.

(** A source that does not assemble leaves no file behind: [asm] and [run] alike
    report the path and the assembler's message and exit with 1, without touching the
    output file or the standard streams. *)
Theorem assembly_error_writes_nothing w src source out line error vm :
  open_file w src = File_bytes source -> has_suffix src (str ".asm") = true ->
  assemble (c_string source) = Err line error ->
  let w' := eprint w (src ++ str ":" ++ error ++ nl) in
  cmd_asm w src out = Some (w', 1) /\ cmd_run w src vm = Some (w', 1) /\
  cmd_dis w src = Some (w', 1) /\ cmd_debug w src vm = Some (w', 1) /\
  written w' = written w /\ wio w' = wio w.
Proof.
  intros Ho Hs Ha. unfold cmd_asm, cmd_run, cmd_dis, cmd_debug.
  rewrite (image_from_source w src source Ho Hs), Ha. done.
Qed.

Definition broken_world : World :=
  mkWorld (fun _ => File_bytes (str "MOV R9, 1")) (fun _ => None) (fun _ => 0) quiet [] [].

Lemma assembly_error_writes_nothing_witness :
  exists line error, assemble (c_string (str "MOV R9, 1")) = Err line error /\
  cmd_asm broken_world (str "b.asm") (str "o") =
    Some (eprint broken_world (str "b.asm:" ++ error ++ nl), 1).
Proof.
  destruct (assemble (c_string (str "MOV R9, 1"))) as [|line error|] eqn:E;
    [by vm_compute in E| |by vm_compute in E].
  exists line, error. split; [done|].
  apply (assembly_error_writes_nothing broken_world (str "b.asm") (str "MOV R9, 1") (str "o") line error blank);
    [reflexivity|reflexivity|exact E].
Defined.

(** ** Divergences *)

(** A file system with one file, of which reading gives [f], and on which writing [out]
    loses everything at the end. *)
Definition faulty_world (f : OpenFile) : World :=
  mkWorld (fun _ => f) (fun _ => Some 1000) (fun _ => 0) quiet [] [].

(** A read error goes unnoticed: the part of the file read before it is taken for the
    whole file. *)
Lemma read_error_unreported len bytes path :
  image_from_path (faulty_world (File_short len bytes)) path =
    (image ← image_from_path (faulty_world (File_bytes (take len bytes))) path;
     Some (mkWorld (fun _ => File_short len bytes) (fun _ => Some 1000) (fun _ => 0) (wio image.1)
             (wstderr image.1) (written image.1), image.2)).
Proof.
  unfold image_from_path, read_file. cbn [open_file faulty_world].
  destruct (negb _); [done|]. by destruct (assemble _).
Qed.

(** A source with an error in its last line, which is not read: it runs, without a
    complaint. *)
Definition cut_source : list Z := seven_source ++ str "MOV R9, 8" ++ [10].

Lemma truncated_source_runs :
  (exists l m, assemble cut_source = Err l m) /\
  cmd_run (faulty_world (File_short 25 (take 15 cut_source))) (str "p.asm") blank =
    Some (faulty_world (File_short 25 (take 15 cut_source)), 7).
Proof. split; [do 2 eexists; vm_compute; reflexivity|vm_compute; reflexivity]. Qed.

(** Bytes that [fwrite] took but [fclose] could not store are reported as written. *)
Lemma close_error_unreported :
  exists w', cmd_asm (faulty_world (File_bytes seven_source)) (str "p.asm") (str "out") = Some (w', 0) /\
    written w' = [(str "out", [])] /\ wstderr w' = [] /\
    stdout (wio w') = str "wrote out (23 bytes)" ++ nl.
Proof. eexists. split; [vm_compute; reflexivity|done]. Qed.
