(* ===== verification/RtLex.v ===== *)
(** Reading the disassembler's text back, first half: the tokens of its lines. *)

From S2P Require Import Prelude CLib Memory Instruction Loader Lexer LexFacts Disassembler DisFacts.
Open Scope Z_scope.

(** ** The tokens of a line *)

Definition reg_name (v : Z) : list Z := str "R" ++ fmt_u v.

Definition operand_toks (ln : Z) (op : Opcode) (o : Operand) (mask : Z) : list Token :=
  match mode o with
  | MODE_REG => [text_token TOK_IDENT ln (reg_name (value o))]
  | MODE_REG_INDIRECT =>
      [simple_token TOK_LBRACKET ln; text_token TOK_IDENT ln (reg_name (value o));
       simple_token TOK_RBRACKET ln]
  | MODE_IMM16 => [number_token ln (value o)]
  | MODE_IMM8 =>
      match (if decide (op = OP_SYS) then syscall_name_for (value o) else None) with
      | Some n => [text_token TOK_IDENT ln n]
      | None => [number_token ln (value o)]
      end
  | MODE_MEM_DIRECT =>
      if negb (Z.land mask 16 =? 0) then
        [simple_token TOK_LBRACKET ln; number_token ln (value o); simple_token TOK_RBRACKET ln]
      else [number_token ln (value o)]
  | MODE_NONE | MODE_RESERVED _ => []
  end.

Definition instr_toks (ln : Z) (i : Instruction) : list Token :=
  text_token TOK_IDENT ln (mnemonic_for (opcode i)) ::
  (if decide (mode (op1 i) = MODE_NONE) then []
   else operand_toks ln (opcode i) (op1 i) (op_mask1 i) ++
     (if decide (mode (op2 i) = MODE_NONE) then []
      else simple_token TOK_COMMA ln :: operand_toks ln (opcode i) (op2 i) (op_mask2 i))).

Definition item_toks (ln : Z) (it : Item) : list Token :=
  match it with
  | Item_instr i => instr_toks ln i
  | Item_byte b => [text_token TOK_DIRECTIVE ln (str "byte"); number_token ln b]
  end.

(** One line per item. *)
Fixpoint items_toks (ln : Z) (items : list Item) : list Token :=
  match items with
  | [] => []
  | it :: items => item_toks ln it ++ simple_token TOK_NEWLINE ln :: items_toks (ln + 1) items
  end.

(** ** Lexemes *)

Definition is_word (s : list Z) : bool :=
  match s with c :: s => ident_start c && forallb ident_char s | [] => false end.

Lemma lexes_word s q ln : is_word s = true -> ends_word q ->
  lexes (s ++ q) ln [text_token TOK_IDENT ln s] q ln.
Proof.
  destruct s as [|c s]; [done|]. simpl. intros [Hc Hs]%andb_true_iff Hq.
  apply lexes_ident; [done| |done]. apply List.Forall_forall. by apply forallb_forall.
Qed.

Lemma mnemonic_word op : is_word (mnemonic_for op) = true.
Proof. by destruct op. Qed.

Lemma syscall_word c n : syscall_name_for c = Some n -> is_word n = true.
Proof. unfold syscall_name_for. intros H. repeat (case_match; try done); by simplify_eq. Qed.

(** A register operand's number is one of eight. *)
Lemma reg_cases (P : Z -> Prop) : P 0 -> P 1 -> P 2 -> P 3 -> P 4 -> P 5 -> P 6 -> P 7 ->
  forall v, 0 <= v <= 7 -> P v.
Proof.
  intros. assert (v = 0 \/ v = 1 \/ v = 2 \/ v = 3 \/ v = 4 \/ v = 5 \/ v = 6 \/ v = 7) as Hv by lia.
  by repeat (destruct Hv as [-> |Hv]; [done|]); subst.
Qed.

Lemma reg_word v : 0 <= v <= 7 -> is_word (reg_name v) = true.
Proof. revert v. by apply reg_cases. Qed.

Lemma lexes_fmt_u v q ln : is_u16 v -> ends_word q -> lexes (fmt_u v ++ q) ln [number_token ln v] q ln.
Proof.
  intros Hv Hq. unfold is_u16 in Hv. destruct (fmt_u_spec v) as (H1 & H2 & H3); [lia|].
  pose proof (lexes_dec false (fmt_u v) q ln H2 H3 Hq) as H. rewrite H1 in H.
  apply H. unfold INT64_MAX. lia.
Qed.

Lemma ends_word_xdigit q : ends_word q -> match q with [] => True | c :: _ => isxdigit c = false end.
Proof.
  destruct q as [|c q]; [done|]. simpl. intros H.
  unfold isxdigit, ident_char, isalnum, isalpha, isupper, islower, isdigit in *. lia.
Qed.

(** [0x%04X] and [0x%02X]. *)
Lemma lexes_04X v q ln : is_u16 v -> ends_word q ->
  lexes (str "0x" ++ fmt_04X v ++ q) ln [number_token ln v] q ln.
Proof.
  intros Hv Hq. rewrite <- (fmt_04X_value v Hv) at 2.
  apply (lexes_hex (fmt_04X v) q); [|done|by apply ends_word_xdigit|].
  - repeat constructor; apply hex_val_digit, Z.mod_pos_bound; lia.
  - rewrite fmt_04X_value by done. unfold is_u16, INT64_MAX in *. lia.
Qed.

Lemma lexes_02X v q ln : is_u8 v -> ends_word q ->
  lexes (str "0x" ++ fmt_02X v ++ q) ln [number_token ln v] q ln.
Proof.
  intros Hv Hq. rewrite <- (fmt_02X_value v Hv) at 2.
  apply (lexes_hex (fmt_02X v) q); [|done|by apply ends_word_xdigit|].
  - repeat constructor; apply hex_val_digit, Z.mod_pos_bound; lia.
  - rewrite fmt_02X_value by done. unfold is_u8, INT64_MAX in *. lia.
Qed.

(** Reading on behind a lexeme, a blank or a bracket. *)
Lemma lexes_then p ln t1 q ln' t2 r ln'' t : lexes p ln t1 q ln' -> lexes q ln' t2 r ln'' -> t = t1 ++ t2 ->
  lexes p ln t r ln''.
Proof. intros H1 H2 ->. by eapply lexes_trans. Qed.

(** Continue with the lexeme that [tac] reads. *)
Ltac lex_next tac := eapply lexes_then; [tac| |reflexivity].

Lemma lexes_bracketed s t q ln : (forall q, ends_word q -> lexes (s ++ q) ln [t] q ln) ->
  lexes (91 :: s ++ 93 :: q) ln
    [simple_token TOK_LBRACKET ln; t; simple_token TOK_RBRACKET ln] q ln.
Proof.
  intros Hs. lex_next ltac:(apply (lexes_punct 91 TOK_LBRACKET); simpl; tauto).
  lex_next ltac:(apply Hs; done).
  apply (lexes_punct 93 TOK_RBRACKET). simpl. tauto.
Qed.

(** ** Operands, instructions, items *)

Lemma lexes_operand op o mask q ln : operand_wf o -> mode o <> MODE_NONE -> ends_word q ->
  lexes (operand_text op o mask ++ q) ln (operand_toks ln op o mask) q ln.
Proof.
  intros Hw Hn Hq. pose proof (operand_wf_u16 o Hw) as Hv.
  unfold operand_text, operand_toks. unfold operand_wf in Hw. destruct (mode o); try done.
  - apply lexes_word; [by apply reg_word|done].
  - by apply lexes_fmt_u.
  - case_match.
    + change (str "[0x") with (91 :: str "0x"). change (str "]") with [93].
      rewrite <- app_assoc. cbn [app]. rewrite <- app_assoc. cbn [app]. rewrite (app_assoc (str "0x")).
      apply (lexes_bracketed (str "0x" ++ fmt_04X (value o))).
      intros r Hr. rewrite <- app_assoc. by apply lexes_04X.
    + rewrite <- app_assoc. by apply lexes_04X.
  - change (str "[R") with (91 :: str "R"). change (str "]") with [93].
    rewrite <- app_assoc. cbn [app]. rewrite <- app_assoc. cbn [app]. rewrite (app_assoc (str "R")).
    apply (lexes_bracketed (reg_name (value o))). intros r Hr. apply lexes_word; [by apply reg_word|done].
  - destruct (if decide (op = OP_SYS) then syscall_name_for (value o) else None) as [n|] eqn:E; simpl.
    + case_decide; [|done]. apply lexes_word; [by eapply syscall_word|done].
    + by apply lexes_fmt_u.
Qed.

Lemma lexes_space p ln : lexes (32 :: p) ln [] p ln.
Proof. apply lexes_blank. tauto. Qed.

Lemma lexes_instr i q ln : instr_legal i -> ends_word q ->
  lexes (instr_text i ++ q) ln (instr_toks ln i) q ln.
Proof.
  intros [W1 W2]%legal_operands Hq. unfold instr_text, instr_toks. rewrite <- app_assoc.
  case_decide as E1.
  { simpl. apply lexes_word; [apply mnemonic_word|done]. }
  lex_next ltac:(apply lexes_word; [apply mnemonic_word|done]).
  rewrite <- !app_assoc. lex_next ltac:(apply lexes_space).
  case_decide as E2.
  { lex_next ltac:(by apply lexes_operand). apply lexes_refl. }
  rewrite <- !app_assoc.
  lex_next ltac:(by apply lexes_operand).
  lex_next ltac:(apply (lexes_punct 44 TOK_COMMA); simpl; tauto).
  lex_next ltac:(apply lexes_space). by apply lexes_operand.
Qed.

Lemma lexes_indent p ln : lexes (str "    " ++ p) ln [] p ln.
Proof. do 4 (eapply lexes_then; [apply lexes_space| |reflexivity]). apply lexes_refl. Qed.

Lemma lexes_item it q ln : item_ok it ->
  lexes (item_text it ++ q) ln (item_toks ln it ++ [simple_token TOK_NEWLINE ln]) q (ln + 1).
Proof.
  intros Hok. destruct it as [i|b]; simpl in Hok; unfold item_text.
  - rewrite <- !app_assoc. lex_next ltac:(apply lexes_indent).
    lex_next ltac:(by apply lexes_instr). apply lexes_newline.
  - change (str "    .byte 0x") with (str "    " ++ 46 :: str "byte" ++ 32 :: str "0x").
    rewrite <- !app_assoc. cbn [app]. rewrite <- !app_assoc. cbn [app].
    lex_next ltac:(apply lexes_indent).
    lex_next ltac:(apply lexes_directive; [by repeat constructor|done|done]).
    lex_next ltac:(apply lexes_space).
    lex_next ltac:(by apply lexes_02X). apply lexes_newline.
Qed.

Lemma lexes_items items q ln : Forall item_ok items ->
  lexes (lines items ++ q) ln (items_toks ln items) q (ln + zlen items).
Proof.
  intros H. revert ln. induction H as [|it items Hok _ IH]; intros ln.
  - rewrite Z.add_0_r. apply lexes_refl.
  - rewrite lines_cons, <- app_assoc. cbn [items_toks].
    eapply lexes_then; [by apply lexes_item| |by rewrite <- app_assoc].
    replace (ln + zlen (it :: items)) with (ln + 1 + zlen items) by (simpl; lia). apply IH.
Qed.

(** ** The whole text *)

Definition newline (ln : Z) : Token := simple_token TOK_NEWLINE ln.

Definition org_toks (ln a : Z) : list Token :=
  [text_token TOK_DIRECTIVE ln (str "org"); number_token ln a; newline ln].

Definition has_org (h : Header) : bool := negb (h_code_addr h =? 0).
Definition has_data_org (h : Header) : bool := negb (h_data_addr h =? code_end h).

Definition prologue_toks (h : Header) : list Token :=
  [newline 1; newline 2; newline 3] ++ (if has_org h then org_toks 4 (h_code_addr h) else []).

Definition first_line (h : Header) : Z := if has_org h then 5 else 4.

Definition data_line (ln : Z) (h : Header) : Z := if has_data_org h then ln + 3 else ln + 2.

Definition epilogue_toks (ln : Z) (h : Header) (data : list Z) : list Token :=
  if 0 <? h_data_size h then
    [newline ln; text_token TOK_DIRECTIVE (ln + 1) (str "data"); newline (ln + 1)] ++
    (if has_data_org h then org_toks (ln + 2) (h_data_addr h) else []) ++
    items_toks (data_line ln h) (map Item_byte data)
  else [].

Lemma lexes_org ln a q : is_u16 a ->
  lexes (str ".org 0x" ++ fmt_04X a ++ [10] ++ q) ln (org_toks ln a) q (ln + 1).
Proof.
  intros Ha. change (str ".org 0x") with (46 :: str "org" ++ 32 :: str "0x"). cbn [app].
  rewrite <- app_assoc. cbn [app].
  lex_next ltac:(apply lexes_directive; [by repeat constructor|done|done]).
  lex_next ltac:(apply lexes_space). lex_next ltac:(by apply lexes_04X). apply lexes_newline.
Qed.

Lemma Forall_not_newline_hex v : Forall (fun c => c <> 10) (fmt_04X v).
Proof.
  assert (forall k, hex_digit (k mod 16) <> 10) as H.
  { intros k. pose proof (Z.mod_pos_bound k 16 ltac:(lia)). unfold hex_digit. case_match; lia. }
  repeat constructor; apply H.
Qed.

Lemma Forall_not_newline_dec n : is_u16 n -> Forall (fun c => c <> 10) (fmt_u n).
Proof.
  intros Hn. unfold is_u16 in Hn. destruct (fmt_u_spec n) as (_ & H & _); [lia|].
  eapply Forall_impl; [exact H|]. intros c Hc%isdigit_spec. lia.
Qed.

Ltac no_newline :=
  repeat (apply Forall_app; split);
  first [by apply Forall_not_newline_dec | apply Forall_not_newline_hex | by repeat constructor
        | case_match; no_newline].

Lemma lexes_prologue h q : is_u16 (h_code_size h) -> is_u16 (h_code_addr h) -> is_u16 (h_data_size h) ->
  lexes (dis_prologue h ++ q) 1 (prologue_toks h) q (first_line h).
Proof.
  intros Hcs Hca Hds. unfold dis_prologue, prologue_toks, first_line, has_org.
  change (str "; disassembled from a .bvm image") with (59 :: str " disassembled from a .bvm image").
  change (str "; code: ") with (59 :: str " code: ").
  rewrite <- !app_assoc. cbn [app].
  lex_next ltac:(apply lexes_comment; no_newline). lex_next ltac:(apply lexes_newline).
  match goal with |- lexes (59 :: ?a ++ ?b ++ ?c ++ ?d ++ ?e ++ 10 :: ?r) _ _ _ _ =>
    replace (59 :: a ++ b ++ c ++ d ++ e ++ 10 :: r) with (59 :: (a ++ b ++ c ++ d ++ e) ++ 10 :: r)
      by (by rewrite <- !app_assoc) end.
  lex_next ltac:(apply lexes_comment; no_newline).
  lex_next ltac:(apply lexes_newline). lex_next ltac:(apply lexes_newline).
  destruct (negb (h_code_addr h =? 0)).
  - rewrite <- !app_assoc. by apply lexes_org.
  - apply lexes_refl.
Qed.

Lemma lexes_epilogue ln h data : is_byte_list data -> is_u16 (h_data_addr h) ->
  exists ln', lexes (dis_epilogue h data) ln (epilogue_toks ln h data) [] ln'.
Proof.
  intros Hb Hda. unfold dis_epilogue, epilogue_toks, data_line, has_data_org.
  destruct (0 <? h_data_size h); [|exists ln; apply lexes_refl].
  assert (Forall item_ok (map Item_byte data)) as Hi.
  { apply List.Forall_forall. intros it Hin%in_map_iff. destruct Hin as (b & <- & Hin). simpl.
    unfold is_byte_list in Hb. rewrite List.Forall_forall in Hb. auto. }
  exists ((if negb (h_data_addr h =? code_end h) then ln + 3 else ln + 2) + zlen (map Item_byte data)).
  change (str ".data") with (46 :: str "data"). cbn [app].
  lex_next ltac:(apply lexes_newline).
  lex_next ltac:(apply lexes_directive; [by repeat constructor|done|done]).
  lex_next ltac:(apply lexes_newline).
  replace (ln + 1 + 1) with (ln + 2) by lia.
  destruct (negb (h_data_addr h =? code_end h)).
  - rewrite <- !app_assoc. lex_next ltac:(by apply lexes_org).
    replace (ln + 2 + 1) with (ln + 3) by lia. rewrite <- (app_nil_r (lines _)). by apply lexes_items.
  - cbn [app]. rewrite <- (app_nil_r (lines _)). by apply lexes_items.
Qed.

Definition dis_toks (h : Header) (items : list Item) (data : list Z) : list Token :=
  prologue_toks h ++ items_toks (first_line h) items ++
  epilogue_toks (first_line h + zlen items) h data.

Lemma lexes_dis h items data : Forall item_ok items -> is_byte_list data ->
  is_u16 (h_code_size h) -> is_u16 (h_code_addr h) -> is_u16 (h_data_size h) -> is_u16 (h_data_addr h) ->
  exists ln, lex (dis_prologue h ++ lines items ++ dis_epilogue h data) =
             Ok (dis_toks h items data ++ [simple_token TOK_EOF ln]).
Proof.
  intros Hi Hb Hcs Hca Hds Hda.
  destruct (lexes_epilogue (first_line h + zlen items) h data Hb Hda) as [ln He].
  exists ln. apply lex_lexes. unfold dis_toks.
  lex_next ltac:(by apply lexes_prologue). lex_next ltac:(by apply lexes_items). exact He.
Qed.
