(* ===== verification/RtParse.v ===== *)
(** Reading the disassembler's text back, second half: pass 1 on the tokens of its
    lines gives one statement per item, at the item's address. *)

From S2P Require Import Prelude CLib Memory Instruction Loader Symtab Lexer Parser AsmFacts EmitFacts.
From S2P Require Import Disassembler DisFacts RtLex.
From stdpp Require Import relations.
Open Scope Z_scope.

(** The parser at a token list. *)
Definition at_toks (ts : list Token) : Parser := mkParser (hd (simple_token TOK_EOF 0) ts) (tl ts).

Lemma advance_at t ts : ts <> [] -> advance (at_toks (t :: ts)) = at_toks ts.
Proof. by destruct ts. Qed.

(** ** Operands *)

Definition operand_parsed (ln : Z) (o : Operand) (mask : Z) : ParsedOperand :=
  mkPOp (match mode o with
         | MODE_REG => OPKIND_REG (value o)
         | MODE_REG_INDIRECT => OPKIND_REG_INDIRECT (value o)
         | MODE_IMM16 | MODE_IMM8 => OPKIND_NUMBER (value o)
         | MODE_MEM_DIRECT =>
             if negb (Z.land mask 16 =? 0) then OPKIND_MEM_NUMBER (value o) else OPKIND_NUMBER (value o)
         | MODE_NONE | MODE_RESERVED _ => OPKIND_NONE
         end) ln.

Lemma register_name v : 0 <= v <= 7 -> try_parse_register (reg_name v) = Some v.
Proof. revert v. by apply reg_cases. Qed.

Lemma syscall_name c n : syscall_name_for c = Some n ->
  try_parse_register n = None /\ try_syscall_name n = Some c.
Proof. unfold syscall_name_for. intros H. repeat (case_match; try done); by simplify_eq. Qed.

Lemma parse_operand_toks ln op o mask t r : operand_wf o -> mode o <> MODE_NONE ->
  parse_operand (at_toks (operand_toks ln op o mask ++ t :: r)) op =
    Ok (operand_parsed ln o mask, at_toks (t :: r)).
Proof.
  intros Hw Hn. unfold operand_toks, operand_parsed. unfold operand_wf in Hw.
  destruct (mode o); try done; unfold parse_operand.
  - pose proof (register_name _ Hw) as E. revert E. generalize (reg_name (value o)). intros n E.
    simpl. by rewrite E.
  - destruct (negb _); simpl; done.
  - pose proof (register_name _ Hw) as E. revert E. generalize (reg_name (value o)). intros n E.
    simpl. by rewrite E.
  - destruct (if decide (op = OP_SYS) then syscall_name_for (value o) else None) as [n|] eqn:E; [|simpl; done].
    destruct (decide (op = OP_SYS)); [|done].
    destruct (syscall_name _ _ E) as [H1 H2]. simpl. by rewrite H1, H2.
Qed.

(** The masks that occur in the opcode table. *)
Definition MASKS : list Z := [MODES_NONE; MODES_REG; MODES_REG_IMM16; MODES_MEM; MODES_MEM_DIRECT; MODES_IMM8].

Lemma table_masks i : In (op_mask1 i) MASKS /\ In (op_mask2 i) MASKS.
Proof. unfold op_mask1, op_mask2. by destruct (opcode i); vm_compute; tauto. Qed.

(** Each operand is printed in the syntax that its mode is inferred from. *)
Lemma operand_resolves ln o mask : In mask MASKS -> operand_wf o -> mode o <> MODE_NONE ->
  mode_is_legal (mode o) mask = true ->
  resolve_operand_mode (operand_parsed ln o mask) mask = inr (mode o).
Proof.
  intros Hin Hw Hn Hl. unfold operand_parsed, operand_wf, resolve_operand_mode in *. cbn [op_kind].
  assert (forall v, 0 <= v <= 7 -> (v <? 0) || (7 <? v) = false) as Hr by lia.
  repeat (destruct Hin as [<-|Hin];
    [destruct (mode o); try done; vm_compute in Hl; try discriminate Hl; rewrite ?Hr by done; done|]).
  done.
Qed.

Lemma operand_in_range o symtab ln mask : operand_wf o -> mode o <> MODE_NONE ->
  resolve_value (operand_parsed ln o mask) symtab = inr (value o) /\ range_check (mode o) (value o) = None /\
  encoded (mode o) (value o) = o.
Proof.
  intros Hw Hn. unfold operand_parsed, resolve_value, range_check, encoded. simpl.
  destruct o as [m v]. unfold operand_wf in Hw. cbn [mode value] in *. destruct m; try done.
  - unfold is_u16 in *. rewrite u16_id by done.
    by rewrite (proj2 (Z.ltb_ge v _)), (proj2 (Z.ltb_ge _ v)) by lia.
  - unfold is_u16 in *. rewrite u16_id by done.
    rewrite (proj2 (Z.ltb_ge v _)), (proj2 (Z.ltb_ge _ v)) by lia.
    by destruct (negb _).
  - unfold is_u8 in *. by rewrite (proj2 (Z.ltb_ge v _)), (proj2 (Z.ltb_ge _ v)) by lia.
Qed.

(** ** Instructions *)

(** The operands of an instruction line and their number. *)
Definition operand_count (i : Instruction) : Z :=
  if decide (mode (op1 i) = MODE_NONE) then 0 else if decide (mode (op2 i) = MODE_NONE) then 1 else 2.
Definition parsed1 (ln : Z) (i : Instruction) : ParsedOperand :=
  if decide (mode (op1 i) = MODE_NONE) then no_operand else operand_parsed ln (op1 i) (op_mask1 i).
Definition parsed2 (ln : Z) (i : Instruction) : ParsedOperand :=
  if decide (mode (op2 i) = MODE_NONE) then no_operand else operand_parsed ln (op2 i) (op_mask2 i).

(** An operand is absent exactly where the table has none. *)
Lemma none_iff_mask o mask : operand_wf o -> In mask MASKS -> mode_is_legal (mode o) mask = true ->
  mode o = MODE_NONE <-> mask = MODES_NONE.
Proof.
  unfold operand_wf. intros Hw Hin H. split.
  - intros E. rewrite E in H. repeat (destruct Hin as [<-|Hin]; [by vm_compute in H|]). done.
  - intros ->. destruct (mode o); first [done | by vm_compute in H].
Qed.

Lemma masks_pair i : opcode_masks (opcode i) = (op_mask1 i, op_mask2 i).
Proof. unfold opcode_masks. apply instruction_masks. Qed.

Section instr.
Context (i : Instruction) (Hi : instr_legal i).

Lemma none1 : mode (op1 i) = MODE_NONE <-> op_mask1 i = MODES_NONE.
Proof. destruct (proj2 (legal_table i) Hi), (table_masks i). by apply none_iff_mask. Qed.

Lemma none2 : mode (op2 i) = MODE_NONE <-> op_mask2 i = MODES_NONE.
Proof. destruct (proj2 (legal_table i) Hi), (table_masks i). by apply none_iff_mask. Qed.

Lemma none12 : mode (op1 i) = MODE_NONE -> mode (op2 i) = MODE_NONE.
Proof.
  intros H%none1. apply none2. pose proof (masks_none (opcode i)) as M. rewrite masks_pair in M. auto.
Qed.

Lemma expected_count : expected_operands (op_mask1 i) (op_mask2 i) = operand_count i.
Proof.
  unfold expected_operands, operand_count. change (u8 (Z.shiftl 1 0)) with MODES_NONE.
  pose proof none1. pose proof none2.
  destruct (Z.eqb_spec (op_mask1 i) MODES_NONE), (Z.eqb_spec (op_mask2 i) MODES_NONE);
    repeat case_decide; tauto.
Qed.

Lemma count1 : (1 <=? operand_count i) = negb (bool_decide (mode (op1 i) = MODE_NONE)).
Proof. unfold operand_count. repeat case_decide; by rewrite ?bool_decide_true, ?bool_decide_false by done. Qed.

Lemma count2 : (2 <=? operand_count i) = negb (bool_decide (mode (op2 i) = MODE_NONE)).
Proof.
  pose proof none12. unfold operand_count.
  repeat case_decide; rewrite ?bool_decide_true, ?bool_decide_false by auto; done.
Qed.

Lemma mode1_inferred ln : operand_mode (1 <=? operand_count i) (parsed1 ln i) (op_mask1 i) = Ok (mode (op1 i)).
Proof.
  rewrite count1. unfold operand_mode, parsed1. destruct (proj2 (legal_table i) Hi), (table_masks i).
  case_decide as E; [by rewrite bool_decide_true, E|]. rewrite bool_decide_false by done. cbn [negb].
  by rewrite operand_resolves.
Qed.

Lemma mode2_inferred ln : operand_mode (2 <=? operand_count i) (parsed2 ln i) (op_mask2 i) = Ok (mode (op2 i)).
Proof.
  rewrite count2. unfold operand_mode, parsed2. destruct (proj2 (legal_table i) Hi), (table_masks i).
  case_decide as E; [by rewrite bool_decide_true, E|]. rewrite bool_decide_false by done. cbn [negb].
  by rewrite operand_resolves.
Qed.

Lemma encoded_none o : operand_wf o -> mode o = MODE_NONE -> encoded (mode o) 0 = o.
Proof. destruct o as [m v]. unfold operand_wf. cbn [mode value]. intros H ->. by subst v. Qed.

(** Pass 2 resolves the line to the instruction that was printed. *)
Lemma resolves_to ln symtab : resolved symtab (opcode i) (operand_count i) (parsed1 ln i) (parsed2 ln i)
  (mode (op1 i)) (mode (op2 i)) = Ok i.
Proof.
  unfold resolved. rewrite count1, count2. unfold operand_value, parsed1, parsed2.
  destruct (legal_operands _ Hi) as [W1 W2].
  assert (forall a b, mkInstr (opcode i) a b = i <-> a = op1 i /\ b = op2 i) as Hmk
    by (intros; destruct i; simpl; split; [by intros [= -> ->]|by intros [-> ->]]).
  destruct (decide (mode (op1 i) = MODE_NONE)) as [E1|E1].
  - pose proof (none12 E1) as E2. rewrite decide_True by done.
    rewrite !bool_decide_true by done. cbn [negb mbind res_bind].
    f_equal. apply Hmk. split; by apply encoded_none.
  - rewrite (bool_decide_false (mode (op1 i) = MODE_NONE)) by done. cbn [negb].
    destruct (operand_in_range (op1 i) symtab ln (op_mask1 i) W1 E1) as (-> & -> & Ea). cbn [mbind res_bind].
    destruct (decide (mode (op2 i) = MODE_NONE)) as [E2|E2].
    + rewrite bool_decide_true by done. cbn [negb mbind res_bind].
      f_equal. apply Hmk. split; [done|]. by apply encoded_none.
    + rewrite bool_decide_false by done. cbn [negb].
      destruct (operand_in_range (op2 i) symtab ln (op_mask2 i) W2 E2) as (-> & -> & Eb).
      cbn [mbind res_bind]. f_equal. by apply Hmk.
Qed.

Lemma operand_toks_head ln op o mask : operand_wf o -> mode o <> MODE_NONE ->
  exists t ts, operand_toks ln op o mask = t :: ts /\ ends_line t = false /\ type t <> TOK_COLON.
Proof.
  intros Hw Hn. unfold operand_toks. unfold operand_wf in Hw.
  destruct (mode o); try (by destruct Hn); try contradiction; repeat case_match;
    (eexists _, _; split; [reflexivity|split; [reflexivity|discriminate]]).
Qed.

Lemma parse_operands_toks ln r :
  parse_operands (at_toks (tl (instr_toks ln i) ++ newline ln :: r)) (opcode i) =
    Ok (operand_count i, parsed1 ln i, parsed2 ln i, at_toks (newline ln :: r)).
Proof.
  destruct (legal_operands _ Hi) as [W1 W2]. unfold operand_count, parsed1, parsed2, instr_toks. cbn [tl].
  case_decide as E1; [by rewrite decide_True by (by apply none12)|].
  destruct (operand_toks_head ln (opcode i) (op1 i) (op_mask1 i) W1 E1) as (t & ts & E & Hl & _).
  unfold parse_operands. rewrite <- !app_assoc. rewrite E at 1. cbn [app at_toks hd cur]. rewrite Hl.
  case_decide as E2.
  - cbn [app]. by rewrite parse_operand_toks by done.
  - cbn [app]. rewrite parse_operand_toks by done. cbn [mbind res_bind].
    rewrite decide_True by done.
    destruct (operand_toks_head ln (opcode i) (op2 i) (op_mask2 i) W2 E2) as (u & us & Eu & _).
    rewrite advance_at by (by rewrite Eu). by rewrite parse_operand_toks.
Qed.
End instr.

(** ** Lines *)

(** The statement a line becomes; it occupies the bytes of its item. *)
Definition item_kind (ln : Z) (it : Item) : StmtKind :=
  match it with
  | Item_instr i =>
      STMT_INSTRUCTION (opcode i) (operand_count i) (parsed1 ln i) (parsed2 ln i) (mode (op1 i)) (mode (op2 i))
  | Item_byte b => STMT_BYTE (mkPOp (OPKIND_NUMBER b) ln)
  end.

Definition item_size (it : Item) : Z := zlen (item_bytes it).

Lemma instr_size i : instr_legal i ->
  2 + mode_byte_size (mode (op1 i)) + mode_byte_size (mode (op2 i)) = item_size (Item_instr i).
Proof.
  intros _. unfold item_size, item_bytes, instr_bytes. cbn [length]. rewrite length_app.
  assert (forall o, zlen (operand_bytes o) = mode_byte_size (mode o)) as H
    by (intros o; unfold operand_bytes; by destruct (mode o)).
  rewrite <- !H. lia.
Qed.

Lemma item_size_pos it : 0 < item_size it.
Proof.
  unfold item_size. destruct it as [i|b]; simpl; [|lia].
  pose proof (instr_bytes_length i). simpl in *. lia.
Qed.

Lemma lookup_printed op : lookup_mnemonic (mnemonic_for op) = Some op.
Proof. by destruct op. Qed.

Lemma second_not_colon i ln r : instr_legal i ->
  type (cur (advance (at_toks (instr_toks ln i ++ newline ln :: r)))) <> TOK_COLON.
Proof.
  intros [W1 W2]%legal_operands. unfold instr_toks. cbn [app]. case_decide as E; [done|].
  destruct (operand_toks_head ln (opcode i) (op1 i) (op_mask1 i) W1 E) as (t & ts & -> & _ & H). done.
Qed.

Lemma parse_item ln it r stmts symtab sec : item_ok it ->
  parse_line (at_toks (item_toks ln it ++ newline ln :: r)) stmts symtab sec =
    Ok (at_toks (newline ln :: r), (place stmts sec (item_kind ln it) ln (item_size it)).1, symtab,
        (place stmts sec (item_kind ln it) ln (item_size it)).2).
Proof.
  intros Hok. destruct it as [i|b]; simpl in Hok; cbn [item_toks]; unfold parse_line.
  - rewrite decide_False by (intros [_ H]; by apply second_not_colon in H).
    unfold parse_statement. rewrite decide_False, decide_True by done.
    change (text (cur (at_toks (instr_toks ln i ++ newline ln :: r)))) with (mnemonic_for (opcode i)).
    rewrite lookup_printed. unfold parse_instruction_statement.
    change (instr_toks ln i ++ newline ln :: r)
      with (text_token TOK_IDENT ln (mnemonic_for (opcode i)) :: (tl (instr_toks ln i) ++ newline ln :: r)).
    rewrite advance_at by (by destruct (tl (instr_toks ln i))).
    rewrite parse_operands_toks by done. cbn [mbind res_bind]. rewrite masks_pair.
    rewrite expected_count, Z.eqb_refl by done. cbn [negb].
    rewrite mode1_inferred by done. cbn [mbind res_bind]. rewrite mode2_inferred by done. cbn [mbind res_bind].
    rewrite instr_size by done. cbn [item_kind]. by destruct (place _ _ _ _ _).
  - rewrite decide_False by (by intros [? _]). done.
Qed.

(** ** The loop over lines *)

Inductive line_step : list Token * P1State -> list Token * P1State -> Prop :=
| line_blank ln ts s : ts <> [] -> line_step (newline ln :: ts, s) (ts, s)
| line_item t toks ln ts stmts symtab sec stmts' symtab' sec' : ts <> [] ->
    type t <> TOK_EOF -> type t <> TOK_NEWLINE ->
    parse_line (at_toks (t :: toks ++ newline ln :: ts)) stmts symtab sec =
      Ok (at_toks (newline ln :: ts), stmts', symtab', sec') ->
    line_step (t :: toks ++ newline ln :: ts, (stmts, symtab, sec)) (ts, (stmts', symtab', sec')).

(** Lines up to the end of the file, with one round of fuel per token. *)
Lemma lines_build ts s eof s' fuel : rtc line_step (ts, s) ([eof], s') -> type eof = TOK_EOF ->
  (length ts <= S fuel)%nat ->
  build_loop fuel (at_toks ts) s.1.1 s.1.2 s.2 = Some (Ok (at_toks [eof], s'.1.1, s'.1.2, s'.2)).
Proof.
  intros Hr He. revert Hr fuel.
  assert (forall a b, rtc line_step a b -> b = ([eof], s') -> forall fuel, (length a.1 <= S fuel)%nat ->
    build_loop fuel (at_toks a.1) a.2.1.1 a.2.1.2 a.2.2 =
      Some (Ok (at_toks [eof], s'.1.1, s'.1.2, s'.2))) as H.
  2:{ intros Hr fuel Hf. exact (H _ _ Hr eq_refl fuel Hf). }
  induction 1 as [a|a b c Hst _ IH]; intros Eb fuel Hf.
  - subst a. cbn [fst snd]. destruct fuel; cbn [build_loop]; by rewrite decide_True.
  - specialize (IH Eb). destruct Hst as [ln ts1 s0 Hne|t toks ln ts1 stmts symtab sec stmts' symtab' sec' Hne H1 H2 Hp];
      cbn [fst snd] in *.
    + destruct fuel as [|fuel]; [destruct ts1; simpl in Hf; [done|lia]|].
      cbn [build_loop]. rewrite decide_False, decide_True by done. rewrite advance_at by done.
      apply IH. simpl in Hf. lia.
    + assert (length (t :: toks ++ newline ln :: ts1) = S (length toks + S (length ts1))) as Hl
        by (simpl; rewrite length_app; done).
      assert (0 < length ts1)%nat by (destruct ts1; [done|simpl; lia]).
      destruct fuel as [|fuel]; [lia|]. cbn [build_loop].
      rewrite decide_False, decide_False by done. rewrite Hp. rewrite decide_True by done.
      rewrite advance_at by done. apply IH. lia.
Qed.

(** ** Sections *)

(** The state behind statements that began at [a] and ended at [a']. *)
Definition sec_after (sec : SectionState) (a a' : Z) : SectionState :=
  set_active_cursor (note_section_start sec (sec_in_data sec) a) a'.

Lemma place_after stmts sec k ln size : place stmts sec k ln size =
  (stmts ++ [mkStmt k ln (sec_in_data sec) (active_cursor sec) size],
   sec_after sec (active_cursor sec) (u16 (active_cursor sec + size))).
Proof. unfold place, sec_after, active_cursor. destruct sec as [[] ? ? ? [] [] ? ?]; done. Qed.

Lemma sec_after_cursor sec a a' : active_cursor (sec_after sec a a') = a'.
Proof. by destruct sec as [[] ? ? ? [] [] ? ?]. Qed.

Lemma sec_after_mode sec a a' : sec_in_data (sec_after sec a a') = sec_in_data sec.
Proof. by destruct sec as [[] ? ? ? [] [] ? ?]. Qed.

Lemma sec_after_after sec a b c a' : sec_after (sec_after sec a b) a' c = sec_after sec a c.
Proof. by destruct sec as [[] ? ? ? [] [] ? ?]. Qed.

(** The statements of the items from address [a] on. *)
Fixpoint item_stmts (d : bool) (ln a : Z) (items : list Item) : list Statement :=
  match items with
  | [] => []
  | it :: items => mkStmt (item_kind ln it) ln d a (item_size it) :: item_stmts d (ln + 1) (a + item_size it) items
  end.

Definition items_size (items : list Item) : Z := zlen (flat_map item_bytes items).

Lemma items_size_cons it items : items_size (it :: items) = item_size it + items_size items.
Proof. unfold items_size, item_size. simpl. rewrite length_app. lia. Qed.

Lemma item_head it ln : exists t toks, item_toks ln it = t :: toks /\ type t <> TOK_EOF /\ type t <> TOK_NEWLINE.
Proof. destruct it; by eexists _, _. Qed.

(** The lines of the items place their statements one behind the other. *)
Lemma items_steps items ln ts stmts symtab sec : Forall item_ok items -> items <> [] -> ts <> [] ->
  0 <= active_cursor sec -> active_cursor sec + items_size items <= 0xFFFF ->
  rtc line_step (items_toks ln items ++ ts, (stmts, symtab, sec))
    (ts, (stmts ++ item_stmts (sec_in_data sec) ln (active_cursor sec) items, symtab,
          sec_after sec (active_cursor sec) (active_cursor sec + items_size items))).
Proof.
  intros Hok. revert ln stmts sec. induction Hok as [|it items Hit Hok IH]; intros ln stmts sec Hne Hts Ha Hb; [done|].
  rewrite items_size_cons in *. cbn [items_toks item_stmts].
  pose proof (parse_item ln it (items_toks (ln + 1) items ++ ts) stmts symtab sec Hit) as Hp.
  rewrite place_after in Hp. cbn [fst snd] in Hp.
  pose proof (item_size_pos it) as Hpos.
  assert (0 <= items_size items) as Hnn by (unfold items_size; lia).
  rewrite u16_id in Hp by (unfold is_u16; lia).
  destruct (item_head it ln) as (t & toks & Et & H1 & H2). rewrite Et in Hp |- *.
  change (simple_token TOK_NEWLINE ln) with (newline ln). rewrite <- app_assoc. cbn [app] in Hp |- *.
  eapply rtc_l; [eapply line_item; [|exact H1|exact H2|exact Hp]; by intros [_ ?]%app_eq_nil|].
  destruct items as [|it2 items].
  - cbn [items_toks app item_stmts items_size flat_map length]. rewrite Z.add_0_r. apply rtc_refl.
  - specialize (IH (ln + 1) (stmts ++ [mkStmt (item_kind ln it) ln (sec_in_data sec) (active_cursor sec) (item_size it)])
      (sec_after sec (active_cursor sec) (active_cursor sec + item_size it)) ltac:(done) Hts).
    rewrite sec_after_cursor, sec_after_mode, sec_after_after, <- app_assoc, <- Z.add_assoc in IH.
    apply IH; lia.
Qed.

(** ** The directives *)

Definition silent (k : StmtKind) (ln : Z) : Statement := mkStmt k ln false 0 0.

Lemma org_step ln a ts stmts symtab sec : is_u16 a -> active_cursor sec <= a -> ts <> [] ->
  line_step (org_toks ln a ++ ts, (stmts, symtab, sec))
    (ts, (stmts ++ [silent STMT_ORG ln], symtab, set_active_cursor sec a)).
Proof.
  intros Ha Hc Hts. unfold org_toks.
  apply (line_item (text_token TOK_DIRECTIVE ln (str "org")) [number_token ln a]); [done..|].
  unfold parse_line. rewrite decide_False by (by intros [? _]).
  unfold parse_statement. rewrite decide_True by done. cbn [app].
  change (parse_directive_statement _ stmts sec _ _)
    with (parse_org (at_toks (number_token ln a :: newline ln :: ts)) stmts sec ln).
  unfold parse_org. rewrite bool_decide_true by done. cbn [negb].
  change (num_value (cur (at_toks (number_token ln a :: newline ln :: ts)))) with a.
  unfold is_u16 in Ha. rewrite (proj2 (Z.ltb_ge a 0)), (proj2 (Z.ltb_ge _ a)) by lia. cbn [orb].
  rewrite u16_id by (unfold is_u16; lia). by rewrite (proj2 (Z.ltb_ge _ _)).
Qed.

Lemma data_step ln ts stmts symtab sec : data_seen sec = false -> ts <> [] ->
  line_step (text_token TOK_DIRECTIVE ln (str "data") :: newline ln :: ts, (stmts, symtab, sec))
    (ts, (stmts ++ [silent STMT_DATA_SECTION ln], symtab,
          mkSec true true (code_cursor sec) (code_cursor sec) (code_started sec) (data_started sec)
            (code_start_addr sec) (data_start_addr sec))).
Proof.
  intros Hd Hts. apply (line_item (text_token TOK_DIRECTIVE ln (str "data")) []); [done..|].
  unfold parse_line. rewrite decide_False by (by intros [? _]).
  unfold parse_statement. rewrite decide_True by done. cbn [app].
  change (parse_directive_statement _ stmts sec _ _)
    with (parse_data (at_toks (newline ln :: ts)) stmts sec ln).
  unfold parse_data. by rewrite Hd.
Qed.

(** ** The whole text *)

Definition code_stmts (h : Header) (items : list Item) : list Statement :=
  (if has_org h then [silent STMT_ORG 4] else []) ++ item_stmts false (first_line h) (h_code_addr h) items.

Definition data_stmts (ln : Z) (h : Header) (data : list Z) : list Statement :=
  if 0 <? h_data_size h then
    [silent STMT_DATA_SECTION (ln + 1)] ++ (if has_data_org h then [silent STMT_ORG (ln + 2)] else []) ++
    item_stmts true (data_line ln h) (h_data_addr h) (map Item_byte data)
  else [].

Definition dis_stmts (h : Header) (items : list Item) (data : list Z) : list Statement :=
  code_stmts h items ++ data_stmts (first_line h + zlen items) h data.

(** The section state pass 1 ends in. *)
Definition code_sec (h : Header) : SectionState :=
  mkSec false false (h_code_addr h + h_code_size h) 0 true false (h_code_addr h) 0.
Definition dis_sec (h : Header) : SectionState :=
  if 0 <? h_data_size h then
    mkSec true true (h_code_addr h + h_code_size h) (h_data_addr h + h_data_size h) true true
      (h_code_addr h) (h_data_addr h)
  else code_sec h.

(** A disassembly whose assembly is laid out as it was. *)
Record placed (h : Header) (items : list Item) (data : list Z) : Prop := {
  pl_items : Forall item_ok items;
  pl_some : items <> [];
  pl_size : items_size items = h_code_size h;
  pl_addr : 0 <= h_code_addr h;
  pl_code : h_code_addr h + h_code_size h <= 0xFFFF;
  pl_data : is_byte_list data;
  pl_data_size : zlen data = h_data_size h;
  pl_data_addr : 0 < h_data_size h ->
    h_code_addr h + h_code_size h <= h_data_addr h /\ h_data_addr h + h_data_size h <= 0xFFFF;
}.

Lemma bytes_items data : is_byte_list data ->
  Forall item_ok (map Item_byte data) /\ items_size (map Item_byte data) = zlen data.
Proof.
  unfold items_size. induction 1 as [|b data Hb _ [IH1 IH2]]; [done|]. split; [by constructor|].
  simpl. rewrite !Nat2Z.inj_succ. simpl in IH2. by rewrite IH2.
Qed.

(** A token list with something behind it is not empty. *)
Ltac not_nil :=
  let E := fresh in intros E; apply (f_equal length) in E; rewrite ?length_app in E; simpl in E; lia.

Section text.
Context (h : Header) (items : list Item) (data : list Z) (Hpl : placed h items data).

Lemma code_steps ts : ts <> [] ->
  rtc line_step (prologue_toks h ++ items_toks (first_line h) items ++ ts, pass1_start)
    (ts, (code_stmts h items, symtab_init, code_sec h)).
Proof.
  intros Hts. destruct Hpl. unfold prologue_toks, code_stmts, first_line, has_org.
  assert (items_toks 4 items ++ ts <> []) by (by intros [_ ?]%app_eq_nil).
  assert (items_toks 5 items ++ ts <> []) by (by intros [_ ?]%app_eq_nil).
  rewrite <- app_assoc. cbn [app].
  do 3 (eapply rtc_l; [apply line_blank; destruct (negb _); done|]).
  destruct (Z.eqb_spec (h_code_addr h) 0) as [E|E]; cbn [negb].
  - pose proof (items_steps items 4 ts [] symtab_init sec_init) as H'. change (active_cursor sec_init) with 0 in H'.
    rewrite Z.add_0_l, pl_size0 in H'. unfold code_sec. rewrite E. apply H'; try done; lia.
  - eapply rtc_l; [apply org_step; [unfold is_u16, items_size in *; lia|done|done]|].
    pose proof (items_steps items 5 ts [silent STMT_ORG 4] symtab_init
      (set_active_cursor sec_init (h_code_addr h))) as H'.
    change (active_cursor (set_active_cursor sec_init (h_code_addr h))) with (h_code_addr h) in H'.
    rewrite pl_size0 in H'. apply H'; done || lia.
Qed.

Lemma data_steps eof :
  rtc line_step (epilogue_toks (first_line h + zlen items) h data ++ [eof],
                 (code_stmts h items, symtab_init, code_sec h))
    ([eof], (dis_stmts h items data, symtab_init, dis_sec h)).
Proof.
  destruct Hpl. unfold epilogue_toks, dis_stmts, data_stmts, dis_sec.
  destruct (Z.ltb_spec 0 (h_data_size h)) as [Hd|Hd]; [|rewrite app_nil_r; apply rtc_refl].
  destruct (pl_data_addr0 Hd) as [Hda Hde]. destruct (bytes_items data pl_data0) as [Hok Hsz].
  rewrite pl_data_size0 in Hsz.
  assert (map Item_byte data <> []) as Hne by (intros E; rewrite E in Hsz; change (items_size []) with 0 in Hsz; lia).
  assert (0 <= h_code_size h) by (rewrite <- pl_size0; unfold items_size; lia).
  set (ln := first_line h + zlen items). unfold has_data_org, data_line, has_data_org.
  rewrite <- !app_assoc. cbn [app].
  eapply rtc_l; [by apply line_blank|].
  eapply rtc_l; [apply data_step; [done|not_nil]|].
  assert (code_end h = h_code_addr h + h_code_size h) as Ece
    by (unfold code_end; apply u16_id; unfold is_u16, items_size in *; lia).
  cbn [code_sec code_cursor code_started data_started code_start_addr data_start_addr].
  destruct (Z.eqb_spec (h_data_addr h) (code_end h)) as [E|E]; cbn [negb].
  - pose proof (items_steps (map Item_byte data) (ln + 2) [eof] (code_stmts h items ++ [silent STMT_DATA_SECTION (ln + 1)])
      symtab_init (mkSec true true (h_code_addr h + h_code_size h) (h_code_addr h + h_code_size h) true false
        (h_code_addr h) 0) Hok Hne ltac:(done)) as H'.
    unfold active_cursor in H'. cbn [sec_in_data data_cursor] in H'. rewrite Hsz, <- app_assoc in H'.
    rewrite E, Ece. apply H'; lia.
  - eapply rtc_l; [apply org_step; [unfold is_u16; lia|unfold active_cursor; simpl; lia|not_nil]|].
    pose proof (items_steps (map Item_byte data) (ln + 3) [eof]
      ((code_stmts h items ++ [silent STMT_DATA_SECTION (ln + 1)]) ++ [silent STMT_ORG (ln + 2)])
      symtab_init (mkSec true true (h_code_addr h + h_code_size h) (h_data_addr h) true false
        (h_code_addr h) 0) Hok Hne ltac:(done)) as H'.
    unfold active_cursor in H'. cbn [sec_in_data data_cursor] in H'. rewrite Hsz, <- !app_assoc in H'.
    rewrite <- !app_assoc. apply H'; lia.
Qed.

(** Pass 1 on the tokens of the text. *)
Lemma dis_build ln :
  exists t ts ps, dis_toks h items data ++ [simple_token TOK_EOF ln] = t :: ts /\
    build_statements (mkParser t ts) = Ok (ps, dis_stmts h items data, symtab_init, dis_sec h).
Proof.
  set (eof := simple_token TOK_EOF ln).
  assert (Hr : rtc line_step (dis_toks h items data ++ [eof], pass1_start)
    ([eof], (dis_stmts h items data, symtab_init, dis_sec h))).
  { unfold dis_toks. rewrite <- !app_assoc. etransitivity; [|apply data_steps]. apply code_steps.
    not_nil. }
  pose proof (fun fuel => lines_build _ _ _ _ fuel Hr eq_refl) as H. clear Hr.
  destruct (dis_toks h items data ++ [eof]) as [|t ts] eqn:E; [by apply app_eq_nil in E as [_ ?]|].
  exists t, ts, (at_toks [eof]). split; [done|]. unfold build_statements. cbn [rest].
  specialize (H (S (length ts)) ltac:(simpl; lia)). cbn [fst snd pass1_start] in H.
  change (at_toks (t :: ts)) with (mkParser t ts) in H. rewrite H. cbn [default mbind res_bind].
  unfold dis_sec. by destruct (0 <? h_data_size h).
Qed.
End text.
