(* ===== verification/RtImage.v ===== *)
(** The image a disassembly assembles to: its header, code and data are those of the
    image that was disassembled. *)

From S2P Require Import Prelude CLib Memory Instruction Vm VmFacts Loader Symtab Lexer Parser Assembler.
From S2P Require Import AsmFacts EmitFacts AsmCorrect Disassembler DisFacts RtLex RtParse.
Open Scope Z_scope.

(** ** The text is plain: printable characters and line ends *)

Definition plain (c : Z) : bool := (c =? 10) || ((32 <=? c) && (c <? 127)).
Definition is_plain (s : list Z) : Prop := Forall (fun c => Is_true (plain c)) s.

#[export] Instance is_plain_dec s : Decision (is_plain s).
Proof. unfold is_plain. apply _. Defined.

Lemma plain_spec c : Is_true (plain c) <-> c = 10 \/ 32 <= c < 127.
Proof. unfold plain. rewrite Is_true_true, orb_true_iff, andb_true_iff, Z.eqb_eq, Z.leb_le, Z.ltb_lt. lia. Qed.

Lemma plain_bytes s : is_plain s -> is_byte_list s.
Proof. intros H. eapply Forall_impl; [exact H|]. intros c Hc%plain_spec. unfold is_u8. lia. Qed.

Lemma hex_digit_plain k : Is_true (plain (hex_digit (k mod 16))).
Proof.
  apply plain_spec. pose proof (Z.mod_pos_bound k 16 ltac:(lia)). unfold hex_digit. case_match; lia.
Qed.

Lemma fmt_04X_plain v : is_plain (fmt_04X v).
Proof. repeat constructor; apply hex_digit_plain. Qed.

Lemma fmt_02X_plain v : is_plain (fmt_02X v).
Proof. repeat constructor; apply hex_digit_plain. Qed.

Lemma fmt_u_plain v : 0 <= v -> is_plain (fmt_u v).
Proof.
  intros Hv. destruct (fmt_u_spec v Hv) as (_ & H & _). eapply Forall_impl; [exact H|].
  intros c Hc%isdigit_spec. apply plain_spec. lia.
Qed.

Lemma syscall_plain c n : syscall_name_for c = Some n -> is_plain n.
Proof. unfold syscall_name_for. intros H. repeat (case_match; try done); simplify_eq; by_decide. Qed.

(** Concatenations of literals and formatted numbers. *)
Ltac text_plain :=
  unfold is_plain; repeat (apply Forall_app; split);
  first [apply fmt_04X_plain | apply fmt_02X_plain
        | apply fmt_u_plain; unfold is_u16 in *; lia
        | by constructor
        | lazymatch goal with |- Forall _ (str _) => by_decide | |- Forall _ (_ :: _) => by_decide end].

Lemma operand_text_plain op o mask : operand_wf o -> is_plain (operand_text op o mask).
Proof.
  intros Hw. pose proof (operand_wf_u16 o Hw) as Hv. unfold operand_text.
  destruct (mode o); try text_plain.
  - case_match; text_plain.
  - case_decide; simpl; [|text_plain]. destruct (syscall_name_for _) as [n|] eqn:E; simpl; [|text_plain].
    by eapply syscall_plain.
Qed.

Lemma item_text_plain it : item_ok it -> is_plain (item_text it).
Proof.
  intros Hok. destruct it as [i|b]; simpl in Hok; unfold item_text; [|text_plain].
  apply legal_operands in Hok as [W1 W2]. unfold instr_text.
  repeat (apply Forall_app; split); try text_plain.
  - destruct (opcode i); by_decide.
  - case_decide; [constructor|]. repeat (apply Forall_app; split); [text_plain|by apply operand_text_plain|].
    case_decide; [constructor|]. apply Forall_app. split; [text_plain|by apply operand_text_plain].
Qed.

Lemma lines_plain items : Forall item_ok items -> is_plain (lines items).
Proof.
  induction 1 as [|it items H _ IH]; [constructor|]. rewrite lines_cons. apply Forall_app.
  split; [by apply item_text_plain|done].
Qed.

Lemma dis_text_plain h items data : is_u16 (h_code_size h) -> is_u16 (h_data_size h) ->
  Forall item_ok items -> is_byte_list data ->
  is_plain (dis_prologue h ++ lines items ++ dis_epilogue h data).
Proof.
  intros Hcs Hds Hi Hd. unfold dis_prologue, dis_epilogue.
  repeat (apply Forall_app; split); try first [by apply lines_plain | text_plain].
  - case_match; [text_plain|constructor].
  - case_match; [text_plain|constructor].
  - case_match; [|constructor]. repeat (apply Forall_app; split); try text_plain.
    + case_match; [text_plain|constructor].
    + apply lines_plain, bytes_items, Hd.
Qed.

(** ** Statements of items *)

Lemma item_stmt_bytes ln it d a : item_ok it ->
  stmt_bytes symtab_init (mkStmt (item_kind ln it) ln d a (item_size it)) = Ok (item_bytes it).
Proof.
  intros Hok. destruct it as [i|b]; simpl in Hok; unfold stmt_bytes; cbn [kind item_kind].
  - by rewrite resolves_to.
  - cbn [op_kind]. unfold is_u8 in Hok. by rewrite (proj2 (Z.ltb_ge b 0)), (proj2 (Z.ltb_ge _ b)) by lia.
Qed.

Lemma item_emits ln it d a : emits (mkStmt (item_kind ln it) ln d a (item_size it)) = true.
Proof. by destruct it. Qed.

(** All of them lie in their region and have bytes. *)
Lemma item_stmts_fit d ln a items hi : a + items_size items <= hi -> hi <= 0xFFFF ->
  all_fit (item_stmts d ln a items).
Proof.
  revert ln a. induction items as [|it items IH]; intros ln a Ha Hh; [constructor|].
  rewrite items_size_cons in Ha. cbn [item_stmts]. constructor.
  - intros _. unfold st_fits, st_end. cbn [st_address encoded_size]. unfold items_size in Ha. lia.
  - apply IH; lia.
Qed.

Lemma item_stmts_bytes d ln a items : Forall item_ok items ->
  Forall (fun st => emits st = true -> exists bs, stmt_bytes symtab_init st = Ok bs) (item_stmts d ln a items).
Proof.
  intros H. revert ln a. induction H as [|it items Hok _ IH]; intros ln a; cbn [item_stmts]; [constructor|].
  constructor; [|by apply IH]. intros _. eexists. by apply item_stmt_bytes.
Qed.

(** What the buffers hold of them, as one byte string. *)
Lemma items_held b d ln a items : Forall item_ok items -> 0 <= a -> a + items_size items <= 0xFFFF ->
  Forall (fun st => emits st = true -> holds_stmt symtab_init b st) (item_stmts d ln a items) ->
  bytes_at (buf d b) a (flat_map item_bytes items).
Proof.
  intros H. revert ln a. induction H as [|it items Hok _ IH]; intros ln a Ha Hb Hh; [done|].
  rewrite items_size_cons in Hb. cbn [item_stmts] in Hh. apply Forall_cons in Hh as [H1 H2].
  pose proof (item_size_pos it). assert (0 <= items_size items) by (unfold items_size; lia).
  destruct (H1 (item_emits ln it d a)) as (bs & Eb & Hr). rewrite item_stmt_bytes in Eb by done.
  injection Eb as <-. cbn [flat_map st_address in_data] in *.
  apply bytes_at_app; [unfold is_u16; lia|]. split.
  - apply bytes_at_intro; [lia|unfold item_size in *; lia|done].
  - change (zlen (item_bytes it)) with (item_size it). rewrite u16_id by (unfold is_u16; lia).
    apply (IH (ln + 1)); [lia|lia|done].
Qed.

(** A buffer read back is what the buffer holds. *)
Lemma buf_read_held m a bs n : 0 <= a -> a + zlen bs <= 65536 -> n = length bs ->
  bytes_at m a bs -> buf_read m a n = Ok bs.
Proof.
  intros Ha Hb -> Hm. destruct (buf_read_spec m a (length bs)) as (bs' & -> & Hl & Hr & _); [lia..|].
  f_equal. eapply (bytes_at_inj m a); [|exact Hm|done].
  apply bytes_at_intro; [lia|lia|]. intros k Hk. symmetry. apply Hr. lia.
Qed.

Lemma bytes_flat l : flat_map item_bytes (map Item_byte l) = l.
Proof. induction l as [|b l IH]; simpl; congruence. Qed.
