(* ===== verification/RoundTrip.v ===== *)
(** The round trip of section 12: what the disassembler prints, the assembler turns
    back into the image it was printed from. *)

From S2P Require Import Prelude Common CLib Memory Instruction Vm VmFacts Loader Symtab Lexer Parser.
From S2P Require Import Assembler AsmFacts EmitFacts AsmCorrect Disassembler DisFacts RtLex RtParse RtImage.
From S2P Require Import VmDemo AsmProps.
Open Scope Z_scope.

(** An image that is disassembled faithfully: it is entered at the first byte of its code
    ([dis_ready]); it is as long as its header says, with nothing behind the data; its code is not empty and ends at 0xFFFF or before; its
    data, if it has any, lies behind the code and ends at 0xFFFF or before, and else has
    the address 0. Every image of a source whose statements end at 0xFFFF or before is
    one ([assembled_canonical]). Others load too, also some the assembler writes of a
    source that fills the last byte of memory; the end of the file has them. *)
Record canonical (image : list Z) : Prop := {
  cn_ready : dis_ready image;
  cn_length : zlen image = 16 + h_code_size (header_of image) + h_data_size (header_of image);
  cn_code : 0 < h_code_size (header_of image) /\
            h_code_addr (header_of image) + h_code_size (header_of image) <= 0xFFFF;
  cn_no_data : h_data_size (header_of image) = 0 -> h_data_addr (header_of image) = 0;
  cn_data : 0 < h_data_size (header_of image) ->
            h_code_addr (header_of image) + h_code_size (header_of image) <= h_data_addr (header_of image) /\
            h_data_addr (header_of image) + h_data_size (header_of image) <= 0xFFFF;
}.

(** ** The image as its header, code and data *)

Definition image_code (image : list Z) : list Z := slice image 16 (h_code_size (header_of image)).

Lemma bytes_of_words lo hi : is_u8 lo -> is_u8 hi -> u8 (Z.land (lo + 256 * hi) 0xFF) = lo /\
  u8 (Z.shiftr (lo + 256 * hi) 8) = hi.
Proof.
  intros. rewrite u8_land_255, u8_shiftr_8 by (unfold is_u16, is_u8 in *; lia). split; mlia.
Qed.

Lemma canonical_form image : is_byte_list image -> canonical image ->
  image = image_of (h_entry (header_of image)) (h_code_size (header_of image)) (h_code_addr (header_of image))
            (h_data_size (header_of image)) (h_data_addr (header_of image))
            (image_code image ++ image_data image).
Proof.
  intros Hb [[Hmagic H16 Hl _] Hlen _ _ _]. destruct (header_u16 image Hb) as (_ & Hcs & _ & Hds & _).
  assert (image_code image ++ image_data image = drop 16 image) as ->.
  { unfold image_code, image_data, slice. unfold is_u16 in *.
    rewrite (take_ge (drop (Z.to_nat (16 + _)) image)) by (rewrite length_drop; lia).
    replace (drop (Z.to_nat (16 + h_code_size (header_of image))) image)
      with (drop (Z.to_nat (h_code_size (header_of image))) (drop 16 image))
      by (rewrite drop_drop; f_equal; lia).
    apply take_drop. }
  rewrite <- (take_drop 16 image) at 1. unfold image_of. clear Hl Hlen Hcs Hds.
  do 16 (destruct image as [|? image]; [simpl in H16; lia|]).
  cbn [take] in Hmagic |- *. cbn [drop]. rewrite !firstn_O in *. rewrite drop_0.
  injection Hmagic as -> -> -> -> -> ->.
  assert (Hw : forall a b rest, is_u8 a -> is_u8 b ->
    write_u16_le (a + 256 * b) ++ rest = a :: b :: rest).
  { intros a b rest Ha Hbb. unfold write_u16_le. by destruct (bytes_of_words a b Ha Hbb) as [-> ->]. }
  repeat (apply Forall_cons in Hb as [? Hb]).
  unfold header_of, word_of, byte_at. cbn [h_entry h_code_size h_code_addr h_data_size h_data_addr].
  simpl lookup. cbn [default]. cbn [app]. rewrite !Hw by done. done.
Qed.

(** ** The layout of a disassembly *)

Lemma tiles_items mem end_ pc items : tiles mem end_ pc items -> Forall item_ok items.
Proof. induction 1; by constructor. Qed.

Lemma tiles_some mem end_ pc items : pc < end_ -> tiles mem end_ pc items -> items <> [].
Proof. intros Hlt Ht. inversion Ht; subst; [lia|done]. Qed.

Lemma canonical_placed image items : is_byte_list image -> canonical image ->
  tiles (image_code_memory image) (h_code_addr (header_of image) + h_code_size (header_of image))
    (h_code_addr (header_of image)) items ->
  placed (header_of image) items (image_data image) /\ flat_map item_bytes items = image_code image.
Proof.
  intros Hb [Hr Hlen [Hc1 Hc2] _ Hd] Ht. destruct (header_u16 image Hb) as (_ & Hcs & Hca & Hds & _).
  pose proof (tiles_code image items Hb Hr Hc2 Ht) as Hcode. unfold is_u16 in *.
  split; [|exact Hcode]. split; try done; try lia.
  - by eapply tiles_items.
  - eapply tiles_some; [|exact Ht]. lia.
  - unfold items_size. rewrite Hcode. apply slice_length; lia.
  - by apply slice_bytes.
  - apply slice_length; lia.
Qed.

(** ** Assembling the text *)

Section back.
Context (h : Header) (items : list Item) (data : list Z) (Hpl : placed h items data).
Context (Hcs : is_u16 (h_code_size h)) (Hca : is_u16 (h_code_addr h)).
Context (Hds : is_u16 (h_data_size h)) (Hda : is_u16 (h_data_addr h)).

Let source := dis_prologue h ++ lines items ++ dis_epilogue h data.

Lemma source_bytes : is_byte_list source.
Proof. destruct Hpl. by apply plain_bytes, dis_text_plain. Qed.

Lemma source_pass1 : pass1 source = Ok (dis_stmts h items data, symtab_init, dis_sec h).
Proof.
  destruct Hpl as [Hi _ _ _ _ Hd _ _].
  destruct (lexes_dis h items data Hi Hd Hcs Hca Hds Hda) as [ln E]. unfold pass1.
  change source with (dis_prologue h ++ lines items ++ dis_epilogue h data). rewrite E.
  destruct (dis_build h items data Hpl ln) as (t & ts & ps & -> & Eb). cbn [mbind res_bind].
  by rewrite Eb.
Qed.

(** Directives occupy nothing. *)
Lemma org_silent (P : Statement -> Prop) (c : bool) ln :
  Forall (fun st => emits st = true -> P st) (if c then [silent STMT_ORG ln] else []).
Proof. by destruct c; repeat constructor. Qed.

Lemma dis_stmts_forall (P : Statement -> Prop) :
  Forall (fun st => emits st = true -> P st) (item_stmts false (first_line h) (h_code_addr h) items) ->
  (0 < h_data_size h -> Forall (fun st => emits st = true -> P st)
     (item_stmts true (data_line (first_line h + zlen items) h) (h_data_addr h) (map Item_byte data))) ->
  Forall (fun st => emits st = true -> P st) (dis_stmts h items data).
Proof.
  intros H1 H2. unfold dis_stmts, code_stmts, data_stmts.
  repeat (apply Forall_app; split); [apply org_silent|exact H1|].
  destruct (Z.ltb_spec 0 (h_data_size h)) as [Hlt|]; [|constructor].
  constructor; [done|]. apply Forall_app. split; [apply org_silent|by apply H2].
Qed.

Lemma source_fits : all_fit (dis_stmts h items data).
Proof.
  destruct Hpl. destruct (bytes_items data pl_data) as [_ Hsz]. rewrite pl_data_size in Hsz.
  apply dis_stmts_forall.
  - apply (item_stmts_fit _ _ _ _ (h_code_addr h + h_code_size h)); lia.
  - intros Hlt. destruct (pl_data_addr Hlt).
    apply (item_stmts_fit _ _ _ _ (h_data_addr h + h_data_size h)); lia.
Qed.

Lemma source_stmts_ok :
  Forall (fun st => emits st = true -> exists bs, stmt_bytes symtab_init st = Ok bs) (dis_stmts h items data).
Proof.
  destruct Hpl. destruct (bytes_items data pl_data) as [Hi _].
  apply dis_stmts_forall; [|intros _]; by apply item_stmts_bytes.
Qed.

(** The text assembles to the header it was made from, the encodings of the items,
    and the data. *)
Lemma source_assembles : (h_data_size h = 0 -> h_data_addr h = 0) ->
  assemble source =
    Ok (image_of (h_code_addr h) (h_code_size h) (h_code_addr h) (h_data_size h) (h_data_addr h)
          (flat_map item_bytes items ++ data)).
Proof.
  intros Hz. pose proof source_bytes as Hb. pose proof source_pass1 as Hp. pose proof source_fits as Hf.
  pose proof (program_layout source _ _ _ Hb Hp Hf) as Hl.
  destruct (emit_ok symtab_init (dis_stmts h items data) (mkBuf empty_buffer empty_buffer)
    (layout_emittable _ Hl Hf) source_stmts_ok) as [b Eb].
  pose proof (program_buffers source _ _ _ Hb Hp Hf) as Hbuf. rewrite Eb in Hbuf. destruct Hbuf as [Hh _].
  destruct Hpl. unfold is_u16 in *. unfold dis_stmts in Hh. apply Forall_app in Hh as [Hh1 Hh2].
  unfold code_stmts in Hh1. apply Forall_app in Hh1 as [_ Hh1].
  pose proof (items_held b false (first_line h) (h_code_addr h) items pl_items pl_addr ltac:(lia) Hh1) as Hcode.
  rewrite assemble_parsed, tokens_parsed, Hp. cbn [mbind res_bind]. rewrite Eb. cbn [mbind res_bind].
  cbn [code code_addr code_size Parser.data data_addr data_size entry_point].
  assert (buf_read (buf_code b) (h_code_addr h) (Z.to_nat (h_code_size h)) = Ok (flat_map item_bytes items)) as E1.
  { unfold items_size in *. apply buf_read_held; [lia|lia|lia|exact Hcode]. }
  unfold dis_sec, data_stmts in *. destruct (Z.ltb_spec 0 (h_data_size h)) as [Hlt|Hle].
  - cbn [code_start_addr code_cursor data_cursor data_start_addr data_started] in *.
    rewrite !Z.add_simpl_l, !u16_id by (unfold is_u16; lia). rewrite E1. cbn [mbind res_bind].
    apply Forall_cons in Hh2 as [_ Hh2]. apply Forall_app in Hh2 as [_ Hh2].
    destruct (bytes_items data pl_data) as [Hi Hsz]. rewrite pl_data_size in Hsz.
    destruct (pl_data_addr Hlt).
    pose proof (items_held b true _ (h_data_addr h) _ Hi ltac:(lia) ltac:(lia) Hh2) as Hdata.
    rewrite bytes_flat in Hdata. rewrite (buf_read_held _ _ data); [|lia|lia|lia|exact Hdata]. done.
  - assert (h_data_size h = 0) as Ez by lia.
    cbn [code_sec code_start_addr code_cursor data_cursor data_start_addr data_started] in *.
    rewrite !Z.add_simpl_l, !u16_id by (unfold is_u16; lia). rewrite E1. cbn [mbind res_bind].
    destruct data; [|simpl in pl_data_size; lia]. by rewrite Ez, Hz.
Qed.
End back.

(** Disassembling and assembling again, for every canonical image. *)
Lemma canonical_text image : is_byte_list image -> canonical image ->
  exists text, disassemble image = Ok text /\ is_plain text /\ assemble text = Ok image.
Proof.
  intros Hb Hc. pose proof (cn_ready _ Hc) as Hr. pose proof (cn_code _ Hc) as [_ Hend].
  destruct (disassemble_cases image Hb) as [(_ & items & E & Ht)|[Hn _]]; [|done].
  rewrite (proj2 (Z.leb_le _ _) Hend) in Ht. destruct (header_u16 image Hb) as (_ & Hcs & Hca & Hds & Hda).
  unfold code_end in Ht. unfold is_u16 in Hcs, Hca. rewrite u16_id in Ht by (unfold is_u16; lia).
  destruct (canonical_placed image items Hb Hc Ht) as [Hpl Hcode].
  eexists. split; [exact E|]. split; [by apply dis_text_plain; destruct Hpl|].
  rewrite (source_assembles _ _ _ Hpl Hcs Hca Hds Hda (cn_no_data _ Hc)), Hcode. f_equal.
  pose proof (canonical_form image Hb Hc) as Hf. rewrite (dr_entry _ Hr) in Hf. symmetry. exact Hf.
Qed.

Lemma canonical_round_trip image : is_byte_list image -> canonical image ->
  exists text, disassemble image = Ok text /\ assemble text = Ok image.
Proof. intros Hb Hc. destruct (canonical_text image Hb Hc) as (text & ? & _ & ?). by exists text. Qed.

(** The assembler writes canonical images only. *)
Lemma assembled_canonical source stmts symtab sec image : is_byte_list source ->
  pass1 source = Ok (stmts, symtab, sec) -> all_fit stmts -> assemble source = Ok image ->
  is_byte_list image /\ canonical image.
Proof.
  intros Hb Hp Hf Hi.
  destruct (assembled_valid source stmts symtab sec Hb Hp Hf image Hi) as [Hv Hbytes].
  split; [done|]. pose proof (assemble_image source stmts symtab sec Hb Hp Hf) as H. rewrite Hi in H.
  destruct H as (b & cb & db & _ & E1 & E2 & ->).
  destruct (section_numbers source stmts symtab sec Hb Hp Hf) as (Ua & Uc & Uda & Uds & Hpos & B1 & B2 & Hdis & _).
  pose proof (program_layout source stmts symtab sec Hb Hp Hf) as Hl.
  unfold is_u16 in *.
  destruct (buf_read_spec (buf_code b) (code_start_addr sec) (Z.to_nat (code_cursor sec - code_start_addr sec)))
    as (cb' & E1' & L1 & _); [lia..|].
  destruct (buf_read_spec (buf_data b) (data_start_addr sec)
    (Z.to_nat (if data_started sec then data_cursor sec - data_start_addr sec else 0)))
    as (db' & E2' & L2 & _); [lia..|].
  rewrite E1 in E1'. injection E1' as <-. rewrite E2 in E2'. injection E2' as <-.
  destruct Hv. rewrite image_of_header in * by done. rewrite image_of_length in * by done.
  cbn [h_entry h_code_size h_code_addr h_data_size h_data_addr] in *. rewrite length_app in *.
  split; [split| | | |]; rewrite ?image_of_header, ?image_of_length by done;
    cbn [h_entry h_code_size h_code_addr h_data_size h_data_addr]; rewrite ?length_app; try done; try lia.
  - intros Hz. destruct (data_started sec) eqn:Ed; [|by apply (lo_data_zero _ Hl)].
    pose proof (lo_data_start _ Hl) as DS. pose proof (lo_data _ Hl) as C. cbn [fst snd] in *. rewrite Ed in *.
    destruct (section true stmts) as [|st l]; [done|]. destruct C as (C1 & C2 & C3).
    apply chain_le in C3. unfold st_end in C3. lia.
  - intros Hlt. destruct (data_started sec) eqn:Ed; [|lia].
    pose proof (lo_above _ Hl Ed) as C. cbn [fst snd] in C. lia.
Qed.

(** ** The theorems *)

(** C25: Every canonical image - entered at the first byte of its code, nothing behind its
    data, code and data that end at 0xFFFF or before, the data behind the code - is disassembled to a text that assembles to
    the very same bytes: the header, every instruction and undecodable byte of the code,
    and the data. *)
Theorem disassembly_reassembles image : is_byte_list image -> canonical image ->
  exists text, disassemble image = Ok text /\ assemble text = Ok image.
Proof. apply canonical_round_trip. Qed.

(** Code with an undecodable byte, at an origin, and data behind a gap. *)
Definition gap_image : list Z :=
  [66; 86; 77; 49; 1; 0; 0x10; 0; 7; 0; 0x10; 0; 2; 0; 0x20; 0] ++ [0x0F; 0x20; 1; 0; 0x77; 0xFF; 0] ++ [5; 6].

Lemma disassembly_reassembles_witness :
  exists text, disassemble gap_image = Ok text /\ assemble text = Ok gap_image.
Proof.
  apply (disassembly_reassembles gap_image); [by_decide|].
  split; [split|..]; vm_compute; first [reflexivity | congruence | split; congruence | intros; split; congruence].
Defined.

(** C9: The documented guarantee, asm to image to asm to image, for every program whose
    statements end below the top of memory, at 0xFFFF or before: what the assembler made
    of it is disassembled to a text that assembles to the same bytes. *)
Theorem program_round_trip source stmts symtab sec image : is_byte_list source ->
  pass1 source = Ok (stmts, symtab, sec) -> all_fit stmts -> assemble source = Ok image ->
  exists text, disassemble image = Ok text /\ assemble text = Ok image.
Proof.
  intros Hb Hp Hf Hi. destruct (assembled_canonical source stmts symtab sec image Hb Hp Hf Hi).
  by apply canonical_round_trip.
Qed.

Lemma program_round_trip_witness :
  exists text, disassemble demo_image = Ok text /\ assemble text = Ok demo_image.
Proof.
  apply (program_round_trip demo_source demo_pass1.1.1 demo_pass1.1.2 demo_pass1.2 demo_image);
    [by_decide|exact demo_pass1_eq|by_decide|vm_compute; reflexivity].
Defined.

(** ** Divergences *)

(** Images outside [canonical] that load and are disassembled without an error, but
    whose text assembles to something else: bytes behind the data are dropped, data
    below the code has no source form, and code that ends at 0x10000 is not printed,
    although the assembler writes such images. *)
Definition reassembled (image : list Z) : res (list Z) := text ← disassemble image; assemble text.

Lemma trailing_bytes_dropped :
  reassembled (code_image 0 [0xFF; 0] ++ [1; 2; 3]) = Ok (code_image 0 [0xFF; 0]).
Proof. vm_compute. reflexivity. Qed.

Definition low_data_image : list Z :=
  [66; 86; 77; 49; 1; 0; 0x10; 0; 2; 0; 0x10; 0; 1; 0; 0; 0] ++ [0xFF; 0] ++ [5].

Lemma low_data_not_reassembled : image_valid low_data_image /\
  exists line msg, reassembled low_data_image = Err line msg.
Proof.
  split; [apply image_valid_load; [by_decide|reflexivity]|].
  vm_compute. by eexists _, _.
Qed.

Lemma top_code_not_reassembled : exists image,
  assemble (str ".org 0xFFFE" ++ [10] ++ str "HALT" ++ [10]) = Ok image /\ image_valid image /\
  exists line msg, reassembled image = Err line msg.
Proof.
  exists (code_image 0xFFFE [0xFF; 0]). split; [vm_compute; reflexivity|].
  split; [apply image_valid_load; [by_decide|reflexivity]|]. vm_compute. by eexists _, _.
Qed.
