(* ===== verification/Pipeline.v ===== *)
(** The commands one behind the other: what [dis] prints is a source that stands for
    the image it was printed from. *)

From S2P Require Import Prelude Common CLib Memory Instruction Vm VmFacts Loader Symtab Lexer Parser.
From S2P Require Import Assembler Disassembler DisFacts RtImage RoundTrip Debugger VmDemo Main MainProps.
Open Scope Z_scope.

(** Plain text has no NUL, at which the assembler would stop to read. *)
Lemma c_string_plain s : is_plain s -> c_string s = s.
Proof.
  unfold c_string. induction 1 as [|c s Hc%plain_spec _ IH]; [done|]. simpl.
  destruct (Z.eqb_spec c 0); [lia|]. simpl. by rewrite IH.
Qed.

Lemma image_from_text w path text image : open_file w path = File_bytes text ->
  has_suffix path (str ".asm") = true -> is_plain text -> assemble text = Ok image ->
  image_from_path w path = Some (w, Some image).
Proof. intros Ho Hs Hp Ha. by rewrite (image_from_source w path text Ho Hs), (c_string_plain text Hp), Ha. Qed.

(** [run] has a result for every image. *)
Lemma run_total w path image vm : image_from_path w path = Some (w, Some image) -> is_byte_list image ->
  exists w1 st, cmd_run w path vm = Some (w1, st).
Proof.
  intros E Hb. destruct (run_image w path image vm w E Hb) as [(_ & k & v & i & _ & _ & _ & H)|[_ H]]; eauto.
Qed.

(** C10: [dis] is undone by [asm] and invisible to [run]: for a canonical image - entered at
    the first byte of its code, nothing behind its data, code and data that end at 0xFFFF
    or before, the data behind the code - at a path of either kind, [dis] prints a plain
    text and exits with 0; of that text in a source file, [asm] writes the very bytes of
    the image, and [run] does from the same streams what it does at the first path, to
    the exit status and the messages. *)
Theorem dis_then_run w path image : image_from_path w path = Some (w, Some image) ->
  is_byte_list image -> canonical image ->
  exists text, is_plain text /\ cmd_dis w path = Some (with_io w (put (wio w) text), 0) /\
    forall w2 path2, open_file w2 path2 = File_bytes text -> has_suffix path2 (str ".asm") = true ->
      (forall out capacity, write_capacity w2 out = Some capacity ->
         zlen image <= Z.min capacity (close_capacity w2 out) ->
         exists w', cmd_asm w2 path2 out = Some (w', 0) /\ written w' = written w2 ++ [(out, image)]) /\
      (wio w2 = wio w -> wstderr w2 = wstderr w -> forall vm, exists w1 w1' st,
         cmd_run w path vm = Some (w1, st) /\ cmd_run w2 path2 vm = Some (w1', st) /\
         wio w1' = wio w1 /\ wstderr w1' = wstderr w1).
Proof.
  intros E Hb Hc. destruct (canonical_text image Hb Hc) as (text & Ed & Hp & Ha).
  exists text. split; [done|]. split; [unfold cmd_dis; rewrite E; cbn [mbind option_bind]; by rewrite Ed|].
  intros w2 path2 Ho Hs. pose proof (image_from_text w2 path2 text image Ho Hs Hp Ha) as E2. split.
  - intros out capacity Hw Hl. by apply (asm_writes w2 path2 image out capacity); [..|lia|lia].
  - intros Hio Herr vm. destruct (run_total w path image vm E Hb) as (w1 & st & Er).
    destruct (run_same_image w path w2 path2 image vm w1 st E E2 Hio Herr Er) as (w1' & ? & ? & ?).
    by exists w1, w1', st.
Qed.

Lemma dis_then_run_witness :
  exists text, is_plain text /\
    cmd_dis demo_world (str "p.asm") = Some (with_io demo_world (put quiet text), 0) /\
    forall w2 path2, open_file w2 path2 = File_bytes text -> has_suffix path2 (str ".asm") = true ->
      (forall out capacity, write_capacity w2 out = Some capacity ->
         23 <= Z.min capacity (close_capacity w2 out) ->
         exists w', cmd_asm w2 path2 out = Some (w', 0) /\ written w' = written w2 ++ [(out, seven_image)]) /\
      (wio w2 = quiet -> wstderr w2 = [] -> forall vm, exists w1 w1' st,
         cmd_run demo_world (str "p.asm") vm = Some (w1, st) /\ cmd_run w2 path2 vm = Some (w1', st) /\
         wio w1' = wio w1 /\ wstderr w1' = wstderr w1).
Proof.
  apply (dis_then_run demo_world (str "p.asm") seven_image); [by vm_compute|by_decide|].
  split; [split|..]; vm_compute; first [reflexivity | congruence | split; congruence | intros; congruence].
Defined.
