(* ===== verification/SyntaxFacts.v ===== *)
(** The parser implements the grammar: what [parse_operand], [parse_statement] and
    [parse_line] consume is derivable, what is derivable they accept, and an error
    carries the line of a token it stopped at. *)

From S2P Require Import Prelude CLib Memory Instruction Symtab Lexer LexFacts Parser AsmFacts EmitFacts.
From S2P Require Import AsmCorrect RtParse Syntax.
Open Scope Z_scope.

(** ** Words *)

Lemma ident_equals_word a b : ident_equals a b = true <-> same_word a b.
Proof.
  unfold same_word. revert b. induction a as [|c a IH]; intros [|k b]; simpl; try done.
  rewrite andb_true_iff, Z.eqb_eq, IH. split; [by intros [-> ->]|by intros [= -> ->]].
Qed.

Lemma table_find_names {A} (table : list (list Z * A)) w :
  NoDup (map (fun e => map tolower e.1) table) -> forall a, table_find table w = Some a <-> names table w a.
Proof.
  unfold names. induction table as [|[n b] table IH]; simpl; intros Hnd a.
  - split; [done|by intros (? & [] & _)].
  - apply NoDup_cons in Hnd as [Hn Hnd]. destruct (ident_equals w n) eqn:E.
    + apply ident_equals_word in E. split.
      * intros [= <-]. exists n. auto.
      * intros (m & [[= <- <-]|Hin] & Hm); [done|]. destruct Hn.
        apply list_elem_of_In, in_map_iff. exists (m, a). split; [|done]. unfold same_word in *. simpl. congruence.
    + rewrite IH by done. split; intros (m & Hin & Hm); exists m; [tauto|].
      destruct Hin as [[= -> ->]|Hin]; [|done]. apply ident_equals_word in Hm. congruence.
Qed.

Lemma lookup_mnemonic_names w op : lookup_mnemonic w = Some op <-> names MNEMONICS w op.
Proof. apply table_find_names. by apply (bool_decide_unpack _); vm_compute. Qed.

Lemma try_syscall_names w c : try_syscall_name w = Some c <-> names SYSCALLS w c.
Proof. apply table_find_names. by apply (bool_decide_unpack _); vm_compute. Qed.

(** The digit loop reads a number of at most four significant digits, and otherwise
    stops in front of the rest. *)
Lemma dec_value_ge v ds : 0 <= v -> Forall (fun d => isdigit d = true) ds -> v <= dec_value v ds.
Proof.
  intros Hv Hds. revert v Hv. induction Hds as [|d ds Hd _ IH]; intros v Hv; simpl; [done|].
  apply isdigit_spec in Hd. unfold dec_value in *. simpl.
  specialize (IH (v * 10 + (d - 48)) ltac:(lia)). lia.
Qed.

Lemma register_digits_spec ds v n : 0 <= v <= 999 ->
  register_digits ds v = (n, []) <->
  Forall (fun d => isdigit d = true) ds /\ dec_value v ds = n /\ n <= 9999.
Proof.
  revert v. induction ds as [|d ds IH]; intros v Hv; simpl.
  - split; [intros [= <-]; unfold dec_value; simpl; split_and!; [constructor|done|lia]|].
    by intros (_ & <- & _).
  - change (dec_value v (d :: ds)) with (dec_value (v * 10 + (d - 48)) ds).
    destruct (isdigit d) eqn:Ed.
    + pose proof Ed as Hd. apply isdigit_spec in Hd.
      destruct (Z.ltb_spec 999 (v * 10 + (d - 48))) as [Hlt|Hle].
      * split.
        -- intros [= <- ->]. unfold dec_value. simpl. split_and!; [by constructor|done|lia].
        -- intros (Hf & <- & Hn). apply Forall_cons in Hf as [_ Hf].
           destruct ds as [|e ds]; [done|]. exfalso.
           change (dec_value (v * 10 + (d - 48)) (e :: ds)) with
             (dec_value ((v * 10 + (d - 48)) * 10 + (e - 48)) ds) in Hn.
           apply Forall_cons in Hf as [He Hf]. apply isdigit_spec in He.
           pose proof (dec_value_ge ((v * 10 + (d - 48)) * 10 + (e - 48)) ds ltac:(lia) Hf). lia.
      * rewrite IH by lia. rewrite Forall_cons. intuition.
    + split; [done|]. intros (Hf & _). apply Forall_cons in Hf as [Hf _]. congruence.
Qed.

Lemma try_parse_register_word w n : try_parse_register w = Some n <-> register_word w n.
Proof.
  unfold try_parse_register, register_word. destruct w as [|c ds]; [split; [done|by intros (? & ? & ? & _)]|].
  assert ((c = 82 \/ c = 114) ->
    ((exists c' ds', c :: ds = c' :: ds' /\ (c' = 82 \/ c' = 114) /\ ds' <> [] /\
       Forall (fun d => isdigit d = true) ds' /\ dec_value 0 ds' = n /\ n <= 9999) <->
     (ds <> [] /\ Forall (fun d => isdigit d = true) ds /\ dec_value 0 ds = n /\ n <= 9999))) as Hin.
  { intros Hc. split; [by intros (? & ? & [= <- <-] & _ & ?)|]. intros H. by exists c, ds. }
  destruct (negb (c =? 82) && negb (c =? 114)) eqn:Ec.
  - split; [done|]. intros (? & ? & [= <- <-] & [-> | ->] & _); done.
  - assert (c = 82 \/ c = 114) as Hc by lia. rewrite (Hin Hc). clear Hin.
    destruct ds as [|d ds]; [split; [done|by intros [? _]]|]. cbn [starts_with].
    destruct (isdigit d) eqn:Ed.
    + cbn [negb]. pose proof (register_digits_spec (d :: ds) 0 n ltac:(lia)) as H.
      destruct (register_digits (d :: ds) 0) as [v rest]. case_decide as Er.
      * subst rest. split.
        -- intros [= ->]. split; [done|]. by apply H.
        -- intros [_ E]. apply H in E. congruence.
      * split; [done|]. intros [_ E]. apply H in E. congruence.
    + split; [done|]. intros (_ & Hf & _). apply Forall_cons in Hf as [Hf _]. congruence.
Qed.

Lemma not_register_None w : try_parse_register w = None <-> not_register w.
Proof.
  split.
  - intros E n H%try_parse_register_word. congruence.
  - intros H. destruct (try_parse_register w) as [n|] eqn:E; [|done].
    apply try_parse_register_word in E. by destruct (H n).
Qed.

(** ** Moving over tokens *)

(** The parser consumed [w]. *)
Definition consumed (ps ps' : Parser) (w : list Token) : Prop := toks ps = w ++ toks ps'.

(** Whatever it consumed, there is an end of file to come. *)
Definition live (ps : Parser) : Prop := ends_in_eof (toks ps).

Lemma consumed_nil ps : consumed ps ps [].
Proof. done. Qed.

Lemma consumed_app ps1 ps2 ps3 w1 w2 : consumed ps1 ps2 w1 -> consumed ps2 ps3 w2 ->
  consumed ps1 ps3 (w1 ++ w2).
Proof. unfold consumed. intros -> ->. by rewrite app_assoc. Qed.

Lemma consumed_live ps ps' w : consumed ps ps' w -> live ps -> live ps'.
Proof. intros E. apply ends_in_eof_suffix. by exists w. Qed.

Lemma advance_consumes ps : live ps -> type (cur ps) <> TOK_EOF -> consumed ps (advance ps) [cur ps].
Proof.
  intros Hl Hne. pose proof (advance_progress ps Hl Hne) as Hp. unfold consumed, toks, advance in *.
  destruct (rest ps); simpl in *; [lia|done].
Qed.

(** A parser over a list that starts with a token. *)
Lemma toks_at ts : ts <> [] -> toks (at_toks ts) = ts.
Proof. by destruct ts. Qed.

Lemma at_toks_toks ps : at_toks (toks ps) = ps.
Proof. by destruct ps. Qed.

Lemma toks_not_nil ps : toks ps <> [].
Proof. done. Qed.

Lemma advance_toks t ps : advance (at_toks (t :: toks ps)) = ps.
Proof. rewrite advance_at by apply toks_not_nil. apply at_toks_toks. Qed.

Lemma cur_toks t l : cur (at_toks (t :: l)) = t.
Proof. done. Qed.

(** ** Operands *)

Lemma parse_operand_sound ps op o ps' : live ps -> parse_operand ps op = Ok (o, ps') ->
  exists w, consumed ps ps' w /\ operand_syntax (op = OP_SYS) w o.
Proof.
  intros Hl H. unfold parse_operand, fail in H. case_decide as Hb.
  - apply res_bind_Ok in H as ([k ps2] & Hk & H). case_decide as Hr; [|done]. injection H as <- <-.
    pose proof (advance_consumes ps Hl ltac:(congruence)) as C1.
    pose proof (consumed_live _ _ _ C1 Hl) as L1.
    assert (C : type (cur (advance ps)) <> TOK_EOF -> ps2 = advance (advance ps) ->
      consumed ps (advance ps2) [cur ps; cur (advance ps); cur ps2]).
    { intros Hne ->. pose proof (advance_consumes _ L1 Hne) as C2.
      pose proof (advance_consumes _ (consumed_live _ _ _ C2 L1) ltac:(congruence)) as C3.
      exact (consumed_app _ _ _ _ _ C1 (consumed_app _ _ _ _ _ C2 C3)). }
    case_decide as Hi; [|case_decide as Hn; [|done]].
    + destruct (try_parse_register _) as [n|] eqn:E; injection Hk as <- <-;
        (eexists; split; [apply C; [congruence|done]|]).
      * apply os_indirect; [done..|]. by apply try_parse_register_word.
      * apply os_mem_label; [done..|]. by apply not_register_None.
    + injection Hk as <- <-. eexists. split; [apply C; [congruence|done]|]. by apply os_mem_number.
  - case_decide as Hi; [|case_decide as Hn; [|done]].
    + pose proof (advance_consumes ps Hl ltac:(congruence)) as C.
      destruct (try_parse_register _) as [n|] eqn:E.
      { injection H as <- <-. eexists. split; [exact C|].
        apply os_register; [done|]. by apply try_parse_register_word. }
      apply not_register_None in E. case_decide as Ho.
      * destruct (try_syscall_name _) as [c|] eqn:Es; injection H as <- <-; (eexists; split; [exact C|]).
        -- apply os_syscall; [done..|]. by apply try_syscall_names.
        -- apply os_label; [done..|]. intros _ c Hc%try_syscall_names. congruence.
      * injection H as <- <-. eexists. split; [exact C|]. by apply os_label.
    + injection H as <- <-. eexists. split; [apply advance_consumes; [done|congruence]|].
      by apply os_number.
Qed.

Lemma parse_operand_complete op w o ps : operand_syntax (op = OP_SYS) w o ->
  parse_operand (at_toks (w ++ toks ps)) op = Ok (o, ps).
Proof.
  destruct 1 as [t n Ht Hn|t c Ht Hnr Hs Hc|t Ht Hnr Hc|t Ht|l t r n Hl Ht Hr Hn
    |l t r Hl Ht Hr Hn|l t r Hl Ht Hr]; unfold parse_operand; cbn [app]; rewrite !cur_toks, ?Ht, ?Hl;
    repeat (rewrite decide_False by done); rewrite decide_True by done; rewrite ?advance_toks.
  - apply try_parse_register_word in Hn as ->. done.
  - apply not_register_None in Hnr as ->. rewrite decide_True by done.
    by apply try_syscall_names in Hc as ->.
  - apply not_register_None in Hnr as ->. case_decide as Ho; [|done].
    destruct (try_syscall_name (text t)) as [c|] eqn:E; [|done].
    apply try_syscall_names in E. by destruct (Hc Ho c).
  - done.
  - rewrite advance_at by done. rewrite cur_toks, Ht, decide_True by done.
    apply try_parse_register_word in Hn as ->. cbn [mbind res_bind].
    rewrite advance_at by done. rewrite cur_toks, Hr, decide_True by done. by rewrite advance_toks.
  - rewrite advance_at by done. rewrite cur_toks, Ht, decide_True by done.
    apply not_register_None in Hn as ->. cbn [mbind res_bind].
    rewrite advance_at by done. rewrite cur_toks, Hr, decide_True by done. by rewrite advance_toks.
  - rewrite advance_at by done. rewrite cur_toks, Ht, decide_False, decide_True by done.
    cbn [mbind res_bind].
    rewrite advance_at by done. rewrite cur_toks, Hr, decide_True by done. by rewrite advance_toks.
Qed.

(** ** Operand modes *)

Lemma masks_of_opcode op : In (opcode_masks op).1 MASKS /\ In (opcode_masks op).2 MASKS.
Proof. destruct op; vm_compute; tauto. Qed.

Lemma mode_len_size m : mode_len m = mode_byte_size m.
Proof. by destruct m. Qed.

(** On the masks of the table, the bit tests of [resolve_operand_mode] decide
    [operand_form]. *)
Lemma resolve_mode_form mask o : In mask MASKS ->
  match resolve_operand_mode o mask with
  | inr m => operand_form mask (op_kind o) = Some m
  | inl _ => operand_form mask (op_kind o) = None
  end.
Proof.
  assert (forall n, (n <? 0) || (7 <? n) = negb ((0 <=? n) && (n <=? 7))) as Hr by lia.
  intros Hin. unfold resolve_operand_mode, operand_form.
  destruct (op_kind o) as [|n|n|n|n|n|n]; rewrite <- ?andb_assoc, ?Hr;
    try (generalize ((0 <=? n) && (n <=? 7)); intros []);
    by repeat (destruct Hin as [<-|Hin]; [by vm_compute|]).
Qed.

Lemma operand_mode_form mask o : In mask MASKS ->
  match operand_mode true o mask with
  | Ok m => operand_form mask (op_kind o) = Some m
  | Err l _ => l = op_line o /\ operand_form mask (op_kind o) = None
  | UB => False
  end.
Proof.
  intros Hin. unfold operand_mode. pose proof (resolve_mode_form mask o Hin) as H.
  by destruct (resolve_operand_mode o mask).
Qed.

(** ** The effect of an item on pass 1 *)

(** The statement of an item, and its size. *)
Definition item_kind (it : Item) : option (StmtKind * Z) :=
  match it with
  | I_instr op os _ =>
      '(m1, m2) ← instr_form op os;
      Some (STMT_INSTRUCTION op (zlen os) (default no_operand (os !! 0%nat))
              (default no_operand (os !! 1%nat)) m1 m2,
            2 + mode_byte_size m1 + mode_byte_size m2)
  | I_string bytes _ => Some (STMT_STRING bytes, zlen bytes + 1)
  | I_word o _ => Some (STMT_WORD o, 2)
  | I_byte o _ => Some (STMT_BYTE o, 1)
  | I_label _ _ | I_org _ _ | I_data _ => None
  end.

Definition do_item (it : Item) (s : P1State) : option P1State :=
  let '(stmts, symtab, sec) := s in
  match it with
  | I_label n ln =>
      tab ← symtab_define symtab n (active_cursor sec);
      Some (stmts ++ [mkStmt (STMT_LABEL n) ln false (active_cursor sec) 0], tab, sec)
  | I_org v ln =>
      if (0 <=? v) && (v <=? 0xFFFF) && (active_cursor sec <=? v) then
        Some (stmts ++ [mkStmt STMT_ORG ln false 0 0], symtab, set_active_cursor sec v)
      else None
  | I_data ln =>
      if data_seen sec then None
      else Some (stmts ++ [mkStmt STMT_DATA_SECTION ln false 0 0], symtab,
             mkSec true true (code_cursor sec) (code_cursor sec) (code_started sec)
               (data_started sec) (code_start_addr sec) (data_start_addr sec))
  | _ =>
      '(k, size) ← item_kind it;
      let '(stmts, sec) := place stmts sec k (item_line it) size in
      Some (stmts, symtab, sec)
  end.

Fixpoint do_items (items : list Item) (s : P1State) : option P1State :=
  match items with
  | [] => Some s
  | it :: items => s ← do_item it s; do_items items s
  end.

Lemma do_items_app l1 l2 s : do_items (l1 ++ l2) s = s ← do_items l1 s; do_items l2 s.
Proof.
  revert s. induction l1 as [|it l1 IH]; intros s; simpl; [done|].
  destruct (do_item it s); simpl; [apply IH|done].
Qed.

(** ** Instructions *)

Lemma parse_operands_sound ps op n o1 o2 ps' : live ps -> parse_operands ps op = Ok (n, o1, o2, ps') ->
  exists w os, consumed ps ps' w /\ operands_syntax (op = OP_SYS) w os /\ n = zlen os /\
    o1 = default no_operand (os !! 0%nat) /\ o2 = default no_operand (os !! 1%nat).
Proof.
  intros Hl H. unfold parse_operands in H. destruct (ends_line (cur ps)).
  { simplify_eq. exists [], []. split_and!; [apply consumed_nil|constructor|done..]. }
  apply res_bind_Ok in H as ([p1 ps1] & H1 & H).
  destruct (parse_operand_sound _ _ _ _ Hl H1) as (w1 & C1 & S1).
  pose proof (consumed_live _ _ _ C1 Hl) as L1. case_decide as Hc.
  - apply res_bind_Ok in H as ([p2 ps2] & H2 & H). simplify_eq.
    pose proof (advance_consumes ps1 L1 ltac:(congruence)) as C2.
    destruct (parse_operand_sound _ _ _ _ (consumed_live _ _ _ C2 L1) H2) as (w2 & C3 & S2).
    exists (w1 ++ cur ps1 :: w2), [o1; o2]. split_and!; [|by constructor|done..].
    exact (consumed_app _ _ _ _ _ C1 (consumed_app _ _ _ _ _ C2 C3)).
  - simplify_eq. exists w1, [o1]. split_and!; [done|by constructor|done..].
Qed.

(** Operands do not start like the end of a line, a comma or a label. *)
Lemma operand_head sys w o : operand_syntax sys w o -> exists t w', w = t :: w' /\
  (type t = TOK_IDENT \/ type t = TOK_NUMBER \/ type t = TOK_LBRACKET).
Proof. destruct 1; eauto 6. Qed.

Lemma ends_line_type t : ends_line t = true <-> type t = TOK_NEWLINE \/ type t = TOK_EOF.
Proof. unfold ends_line. destruct (type t); split; auto; try done; intros [E | E]; discriminate E. Qed.

Lemma parse_operands_complete op w os ps : operands_syntax (op = OP_SYS) w os ->
  ends_line (cur ps) = true ->
  parse_operands (at_toks (w ++ toks ps)) op =
    Ok (zlen os, default no_operand (os !! 0%nat), default no_operand (os !! 1%nat), ps).
Proof.
  intros Hs He. unfold parse_operands. apply ends_line_type in He as He'.
  assert (Hhead : forall w' o r, operand_syntax (op = OP_SYS) w' o ->
    ends_line (cur (at_toks (w' ++ r))) = false).
  { intros w' o r (t & w2 & -> & Ht)%operand_head. cbn [app]. rewrite cur_toks. unfold ends_line.
    by destruct Ht as [-> | [-> | ->]]. }
  destruct Hs as [|ts o Ho|ts1 o1 c ts2 o2 H1 Hc H2].
  - cbn [app]. by rewrite at_toks_toks, He.
  - rewrite (Hhead _ _ _ Ho), (parse_operand_complete _ _ _ _ Ho). cbn [mbind res_bind].
    rewrite decide_False by (destruct He'; congruence). done.
  - rewrite <- app_assoc, (Hhead _ _ _ H1). cbn [app].
    change (c :: ts2 ++ toks ps) with (toks (mkParser c (ts2 ++ toks ps))).
    rewrite (parse_operand_complete _ _ _ _ H1). cbn [mbind res_bind cur].
    rewrite decide_True by done. unfold advance. cbn [rest cur].
    destruct (ts2 ++ toks ps) as [|t r] eqn:E; [by destruct ts2|].
    change (mkParser t r) with (at_toks (t :: r)). rewrite <- E.
    by rewrite (parse_operand_complete _ _ _ _ H2).
Qed.

(** The arity test of the parser is that of [instr_form]. *)
Lemma arity k1 k2 : (k1 = MODES_NONE -> k2 = MODES_NONE) ->
  (expected_operands k1 k2 = 0 /\ k1 = MODES_NONE /\ k2 = MODES_NONE) \/
  (expected_operands k1 k2 = 1 /\ k1 <> MODES_NONE /\ k2 = MODES_NONE) \/
  (expected_operands k1 k2 = 2 /\ k1 <> MODES_NONE /\ k2 <> MODES_NONE).
Proof.
  intros H. unfold expected_operands. change (u8 (Z.shiftl 1 0)) with MODES_NONE.
  destruct (Z.eqb_spec k1 MODES_NONE), (Z.eqb_spec k2 MODES_NONE); tauto.
Qed.

(** What pass 1 makes of an instruction's operands, against [instr_form]. *)
Lemma instr_modes op os : (length os <= 2)%nat ->
  let '(k1, k2) := opcode_masks op in
  let n := expected_operands k1 k2 in
  match instr_form op os with
  | Some (m1, m2) => n = zlen os /\
      operand_mode (1 <=? n) (default no_operand (os !! 0%nat)) k1 = Ok m1 /\
      operand_mode (2 <=? n) (default no_operand (os !! 1%nat)) k2 = Ok m2
  | None => n <> zlen os \/ exists o e, In o os /\
      (operand_mode (1 <=? n) (default no_operand (os !! 0%nat)) k1 = Err (op_line o) e \/
       ((exists m1, operand_mode (1 <=? n) (default no_operand (os !! 0%nat)) k1 = Ok m1) /\
        operand_mode (2 <=? n) (default no_operand (os !! 1%nat)) k2 = Err (op_line o) e))
  end.
Proof.
  intros Hlen. pose proof (masks_of_opcode op) as [M1 M2]. pose proof (masks_none op) as Mn.
  unfold instr_form. destruct (opcode_masks op) as [k1 k2]. cbn [fst snd] in *.
  destruct (arity k1 k2 Mn) as [(-> & -> & ->)|[(-> & N1 & ->)|(-> & N1 & N2)]];
    repeat match goal with H : ?k <> MODES_NONE |- _ => apply Z.eqb_neq in H; rewrite H end;
    rewrite ?Z.eqb_refl; destruct os as [|o1 [|o2 [|]]]; cbn [negb andb]; try (by left); try (simpl in Hlen; lia).
  - done.
  - cbn [Z.leb default lookup list_lookup mbind option_bind].
    pose proof (operand_mode_form k1 o1 M1) as F.
    destruct (operand_mode true o1 k1) as [m1|l e|] eqn:E; [by rewrite F| |done].
    destruct F as [-> F]. rewrite F. right. exists o1, e. split; [by left|by left].
  - cbn [Z.leb default lookup list_lookup mbind option_bind].
    pose proof (operand_mode_form k1 o1 M1) as F.
    destruct (operand_mode true o1 k1) as [m1|l e|] eqn:E; [rewrite F; cbn [mbind option_bind]| |done].
    2:{ destruct F as [-> F]. rewrite F. right. exists o1, e. split; [by left|by left]. }
    pose proof (operand_mode_form k2 o2 M2) as F2.
    destruct (operand_mode true o2 k2) as [m2|l e|] eqn:E2; [by rewrite F2| |done].
    destruct F2 as [-> F2]. rewrite F2. right. exists o2, e. split; [right; by left|]. right. eauto.
Qed.

(** ** Lines *)

(** The rest of the current line, and the token that ends it, are on line [l]. *)
Definition on_line (l : Z) (ps : Parser) : Prop := exists w e r, toks ps = w ++ e :: r /\
  Forall (fun t => ends_line t = false) w /\ ends_line e = true /\ Forall (fun t => line t = l) (w ++ [e]).

Lemma on_line_cur l ps : on_line l ps -> line (cur ps) = l.
Proof.
  intros (w & e & r & E & _ & _ & Hl). destruct w as [|t w]; simpl in *; injection E as -> _;
    by apply Forall_cons in Hl as [? _].
Qed.

Lemma on_line_advance l ps : on_line l ps -> ends_line (cur ps) = false -> on_line l (advance ps).
Proof.
  intros (w & e & r & E & Hw & He & Hl) Hn. destruct w as [|t w]; simpl in *.
  - injection E as Ec _. congruence.
  - injection E as Ec Er. apply Forall_cons in Hw as [_ Hw]. apply Forall_cons in Hl as [_ Hl].
    exists w, e, r. split_and!; try done. unfold advance, toks. rewrite Er. by destruct w.
Qed.

Lemma not_end t k : type t = k -> k <> TOK_NEWLINE -> k <> TOK_EOF -> ends_line t = false.
Proof. unfold ends_line. intros <-. by destruct (type t). Qed.

#[local] Hint Resolve on_line_cur on_line_advance : bytevm.
#[local] Hint Extern 2 (ends_line _ = false) => eapply not_end; [eassumption|discriminate..] : bytevm.

Lemma parse_operand_line l ps op : on_line l ps ->
  match parse_operand ps op with
  | Ok (o, ps') => op_line o = l /\ on_line l ps'
  | Err l' _ => l' = l
  | UB => False
  end.
Proof.
  intros H. unfold parse_operand, fail.
  repeat (case_decide; cbn [mbind res_bind]); try destruct (try_parse_register _); cbn [mbind res_bind];
    repeat case_decide; try destruct (try_syscall_name _);
    try (split; cbn [op_line]; [by apply on_line_cur|]); eauto 8 with bytevm.
Qed.

Lemma parse_operands_line l ps op : on_line l ps ->
  match parse_operands ps op with
  | Ok (n, o1, o2, ps') => on_line l ps' /\ (1 <= n -> op_line o1 = l) /\ (2 <= n -> op_line o2 = l)
  | Err l' _ => l' = l
  | UB => False
  end.
Proof.
  intros H. unfold parse_operands. destruct (ends_line (cur ps)); [split_and!; [done|lia..]|].
  pose proof (parse_operand_line l ps op H) as H1.
  destruct (parse_operand ps op) as [[o1 ps1]| |]; cbn [mbind res_bind]; [|done..].
  destruct H1 as [O1 L1]. case_decide; [|split_and!; [done..|lia]].
  pose proof (parse_operand_line l (advance ps1) op ltac:(eauto with bytevm)) as H2.
  destruct (parse_operand (advance ps1) op) as [[o2 ps2]| |]; cbn [mbind res_bind]; [|done..].
  by destruct H2.
Qed.

(** ** Statements *)

(** What a step of the parser promises: the items it consumed and their effect, or an
    error on the current line. *)
Definition parsed (syntax : list Token -> list Item -> Prop) (l : Z) (ps : Parser) (s : P1State)
  (r : res Pass1) : Prop :=
  match r with
  | Ok (ps', stmts', symtab', sec') => on_line l ps' /\ live ps' /\
      exists w items, consumed ps ps' w /\ syntax w items /\
        do_items items s = Some (stmts', symtab', sec')
  | Err l' _ => l' = l
  | UB => False
  end.

Definition one_item (w : list Token) (items : list Item) : Prop :=
  exists it, items = [it] /\ item_syntax w it.

Lemma parse_instruction_spec l ps stmts symtab sec t op : live ps -> on_line l ps ->
  type t = TOK_IDENT -> line t = l -> names MNEMONICS (text t) op ->
  match parse_instruction_statement ps stmts sec op l with
  | Ok (ps', stmts', sec') => on_line l ps' /\ live ps' /\ exists w it, consumed ps ps' w /\
      item_syntax (t :: w) it /\ do_item it (stmts, symtab, sec) = Some (stmts', symtab, sec')
  | Err l' _ => l' = l
  | UB => False
  end.
Proof.
  intros Hl Ho Ht Htl Hm. unfold parse_instruction_statement.
  pose proof (parse_operands_line l ps op Ho) as Hline.
  destruct (parse_operands ps op) as [[[[n o1] o2] ps1]| |] eqn:E; cbn [mbind res_bind]; [|done..].
  destruct Hline as (Ho1 & Hl1 & Hl2).
  destruct (parse_operands_sound _ _ _ _ _ _ Hl E) as (w & os & C & S & -> & -> & ->).
  assert (length os <= 2)%nat as Hlen by (destruct S; simpl; lia).
  pose proof (instr_modes op os Hlen) as Hm'. destruct (opcode_masks op) as [k1 k2].
  assert (Hos : forall o, In o os -> op_line o = l).
  { intros o Hin. destruct os as [|a [|b [|]]]; simpl in *; try lia; destruct Hin as [<-|Hin]; auto with lia;
      destruct Hin as [<-|[]]; auto with lia. }
  destruct (Z.eqb_spec (zlen os) (expected_operands k1 k2)) as [En|En]; cbn [negb]; [|done].
  destruct (instr_form op os) as [[m1 m2]|] eqn:Ef.
  - destruct Hm' as (_ & -> & ->). cbn [mbind res_bind].
    destruct (place _ _ _ _ _) as [stmts' sec'] eqn:Ep.
    split; [done|]. split; [by eapply consumed_live|]. exists w, (I_instr op os (line t)).
    split_and!; [done|by constructor|]. unfold do_item, item_kind. rewrite Ef. cbn [mbind option_bind item_line].
    by rewrite Htl, Ep.
  - destruct Hm' as [?|(o & e & Hin & [-> | [[m1 ->] ->]])]; [congruence|cbn [mbind res_bind]; auto..].
Qed.

Lemma parse_instruction_complete ps stmts symtab sec t w op os s' : ends_line (cur ps) = true ->
  operands_syntax (op = OP_SYS) w os ->
  do_item (I_instr op os (line t)) (stmts, symtab, sec) = Some s' ->
  parse_instruction_statement (at_toks (w ++ toks ps)) stmts sec op (line t) = Ok (ps, s'.1.1, s'.2) /\
  s'.1.2 = symtab.
Proof.
  intros He S H. unfold parse_instruction_statement.
  rewrite (parse_operands_complete _ _ _ _ S He). cbn [mbind res_bind].
  assert (length os <= 2)%nat as Hlen by (destruct S; simpl; lia).
  pose proof (instr_modes op os Hlen) as Hm. destruct (opcode_masks op) as [k1 k2].
  unfold do_item, item_kind in H. destruct (instr_form op os) as [[m1 m2]|] eqn:Ef; [|done].
  destruct Hm as (En & E1 & E2). rewrite En in *. rewrite Z.eqb_refl. cbn [negb]. rewrite E1, E2.
  cbn [mbind res_bind option_bind item_line] in *. destruct (place _ _ _ _ _) as [stmts' sec']. by simplify_eq.
Qed.

(** Outside SYS there are no system call names. *)
Lemma operand_no_sys w o : operand_syntax False w o <-> operand_syntax (OP_NOP = OP_SYS) w o.
Proof. split; (destruct 1; try done; constructor; try done; intros E; by try discriminate E). Qed.

Lemma parse_operand_item l ps : live ps -> on_line l ps ->
  match parse_operand ps OP_NOP with
  | Ok (o, ps') => on_line l ps' /\ live ps' /\ exists w, consumed ps ps' w /\ operand_syntax False w o
  | Err l' _ => l' = l
  | UB => False
  end.
Proof.
  intros Hl Ho. pose proof (parse_operand_line l ps OP_NOP Ho) as H1.
  destruct (parse_operand ps OP_NOP) as [[o ps']| |] eqn:E; [|done..]. destruct H1 as [_ H1].
  destruct (parse_operand_sound _ _ _ _ Hl E) as (w & C & S).
  split_and!; [done|by eapply consumed_live|]. exists w. split; [done|]. by apply operand_no_sys.
Qed.

(** The value of an in-range address is its own 16-bit conversion. *)
Lemma org_guards v c : (v <? 0) || (0xFFFF <? v) = false -> (u16 v <? c) = false ->
  (0 <=? v) && (v <=? 0xFFFF) && (c <=? v) = true /\ u16 v = v.
Proof.
  intros H1 H2. assert (is_u16 v) as Hv by (unfold is_u16; lia). rewrite (u16_id v Hv) in *. lia.
Qed.

Lemma parse_directive_spec l ps stmts symtab sec : live ps -> on_line l ps -> type (cur ps) = TOK_DIRECTIVE ->
  match parse_directive_statement ps stmts sec (text (cur ps)) l with
  | Ok (ps', stmts', sec') => on_line l ps' /\ live ps' /\ exists w it, consumed ps ps' w /\
      item_syntax w it /\ do_item it (stmts, symtab, sec) = Some (stmts', symtab, sec')
  | Err l' _ => l' = l
  | UB => False
  end.
Proof.
  intros Hl Ho Ht. pose proof (on_line_cur _ _ Ho) as El.
  assert (on_line l (advance ps)) as Ho1 by auto with bytevm.
  pose proof (advance_consumes ps Hl ltac:(congruence)) as C1. pose proof (consumed_live _ _ _ C1 Hl) as L1.
  assert (Hd : forall d, ident_equals (text (cur ps)) d = true -> directive (cur ps) d)
    by (intros d E; split; [done|by apply ident_equals_word]).
  unfold parse_directive_statement, parse_org, parse_data, parse_string, parse_word, parse_byte, fail.
  destruct (ident_equals _ (str "org")) eqn:E1; [|destruct (ident_equals _ (str "data")) eqn:E2;
    [|destruct (ident_equals _ (str "string")) eqn:E3; [|destruct (ident_equals _ (str "word")) eqn:E4;
    [|destruct (ident_equals _ (str "byte")) eqn:E5; [|done]]]]].
  - case_bool_decide as Hn; cbn [negb]; [|done].
    destruct (_ || _) eqn:G1; [done|]. destruct (u16 _ <? _) eqn:G2; [done|].
    destruct (org_guards _ _ G1 G2) as [G Ev].
    pose proof (advance_consumes _ L1 ltac:(congruence)) as C2.
    split_and!; [auto with bytevm|by eapply consumed_live|]. eexists _, (I_org _ _).
    split_and!; [exact (consumed_app _ _ _ _ _ C1 C2)|apply is_org; auto|].
    unfold do_item. rewrite G, El, Ev. done.
  - destruct (data_seen sec) eqn:Ed; [done|]. split_and!; [done|done|].
    eexists _, (I_data _). split_and!; [exact C1|apply is_data; auto|]. unfold do_item. by rewrite Ed, El.
  - case_bool_decide as Hn; cbn [negb]; [|done]. destruct (place _ _ _ _ _) as [stmts' sec'] eqn:Ep.
    pose proof (advance_consumes _ L1 ltac:(congruence)) as C2.
    split_and!; [auto with bytevm|by eapply consumed_live|]. eexists _, (I_string _ _).
    split_and!; [exact (consumed_app _ _ _ _ _ C1 C2)|apply is_string; auto|].
    unfold do_item. cbn [item_kind mbind option_bind item_line]. by rewrite El, Ep.
  - pose proof (parse_operand_item l _ L1 Ho1) as Hp.
    destruct (parse_operand _ _) as [[o ps2]| |]; cbn [mbind res_bind]; [|done..].
    destruct Hp as (O2 & L2 & w & C2 & S). destruct (is_number_or_label o) eqn:En; cbn [negb]; [|done].
    destruct (place _ _ _ _ _) as [stmts' sec'] eqn:Ep. split_and!; [done..|]. eexists _, (I_word o _).
    split_and!; [exact (consumed_app _ _ _ _ _ C1 C2)|apply is_word; auto|].
    unfold do_item. cbn [item_kind mbind option_bind item_line]. by rewrite El, Ep.
  - pose proof (parse_operand_item l _ L1 Ho1) as Hp.
    destruct (parse_operand _ _) as [[o ps2]| |]; cbn [mbind res_bind]; [|done..].
    destruct Hp as (O2 & L2 & w & C2 & S). destruct (is_number o) eqn:En; cbn [negb]; [|done].
    destruct (place _ _ _ _ _) as [stmts' sec'] eqn:Ep. split_and!; [done..|]. eexists _, (I_byte o _).
    split_and!; [exact (consumed_app _ _ _ _ _ C1 C2)|apply is_byte; auto|].
    unfold do_item. cbn [item_kind mbind option_bind item_line]. by rewrite El, Ep.
Qed.

Lemma parse_statement_spec l ps stmts symtab sec : live ps -> on_line l ps ->
  parsed one_item l ps (stmts, symtab, sec) (parse_statement ps stmts symtab sec).
Proof.
  intros Hl Ho. pose proof (on_line_cur _ _ Ho) as El. unfold parse_statement. rewrite El.
  assert (Hone : forall it s s', do_item it s = Some s' -> do_items [it] s = Some s')
    by (intros it s s' E; simpl; by rewrite E).
  case_decide as Hd; [|case_decide as Hi; [|done]].
  - pose proof (parse_directive_spec l ps stmts symtab sec Hl Ho Hd) as H.
    destruct (parse_directive_statement _ _ _ _ _) as [[[ps' stmts'] sec']| |]; cbn [mbind res_bind]; [|done..].
    destruct H as (H1 & H2 & w & it & C & S & E). split_and!; [done..|]. exists w, [it].
    split_and!; [done|by exists it|auto].
  - destruct (lookup_mnemonic (text (cur ps))) as [op|] eqn:Em; [|done].
    apply lookup_mnemonic_names in Em.
    pose proof (advance_consumes ps Hl ltac:(congruence)) as C1.
    pose proof (parse_instruction_spec l (advance ps) stmts symtab sec (cur ps) op
      (consumed_live _ _ _ C1 Hl) ltac:(auto with bytevm) Hi El Em) as H.
    destruct (parse_instruction_statement _ _ _ _ _) as [[[ps' stmts'] sec']| |]; cbn [mbind res_bind]; [|done..].
    destruct H as (H1 & H2 & w & it & C & S & E). split_and!; [done..|]. exists (cur ps :: w), [it].
    split_and!; [exact (consumed_app _ _ _ _ _ C1 C)|by exists it|auto].
Qed.

Lemma parse_line_spec l ps stmts symtab sec : live ps -> on_line l ps ->
  parsed line_syntax l ps (stmts, symtab, sec) (parse_line ps stmts symtab sec).
Proof.
  intros Hl Ho. pose proof (on_line_cur _ _ Ho) as El. unfold parse_line. rewrite El.
  case_decide as Hc.
  - destruct Hc as [Hi Hc]. pose proof (advance_consumes ps Hl ltac:(congruence)) as C1.
    pose proof (consumed_live _ _ _ C1 Hl) as L1.
    pose proof (advance_consumes _ L1 ltac:(congruence)) as C2.
    pose proof (consumed_live _ _ _ C2 L1) as L2. pose proof (consumed_app _ _ _ _ _ C1 C2) as C12.
    assert (on_line l (advance (advance ps))) as O2 by eauto with bytevm.
    destruct (symtab_define symtab _ _) as [tab|] eqn:Et; [|done].
    assert (Hlab : forall items, do_items (I_label (text (cur ps)) (line (cur ps)) :: items) (stmts, symtab, sec) =
      do_items items (stmts ++ [mkStmt (STMT_LABEL (text (cur ps))) l false (active_cursor sec) 0], tab, sec)).
    { intros items. cbn [do_items do_item]. rewrite Et. cbn [mbind option_bind]. by rewrite El. }
    destruct (ends_line _) eqn:Ee.
    { split_and!; [done..|]. eexists _, _. split_and!; [exact C12|by apply ls_label|]. by rewrite Hlab. }
    pose proof (parse_statement_spec l _ (stmts ++ [mkStmt (STMT_LABEL (text (cur ps))) l false (active_cursor sec) 0])
      tab sec L2 O2) as H. unfold parsed in *.
    destruct (parse_statement _ _ _ _) as [[[[ps' stmts'] tab'] sec']| |]; [|done..].
    destruct H as (H1 & H2 & w & items & C & (it & -> & S) & E). split_and!; [done..|].
    eexists _, _. split_and!; [exact (consumed_app _ _ _ _ _ C12 C)|by apply ls_both|]. by rewrite Hlab.
  - pose proof (parse_statement_spec l ps stmts symtab sec Hl Ho) as H. unfold parsed in *.
    destruct (parse_statement _ _ _ _) as [[[[ps' stmts'] tab'] sec']| |]; [|done..].
    destruct H as (H1 & H2 & w & items & C & (it & -> & S) & E). split_and!; [done..|].
    exists w, [it]. split_and!; [done|by apply ls_item|done].
Qed.
