(* ===== verification/ParseFacts.v ===== *)
(** Pass 1 accepts exactly the programs of the grammar whose items have an effect, and
    rejects a source at its first line that has none. *)

From S2P Require Import Prelude CLib Memory Instruction Symtab Lexer LexFacts Parser AsmFacts EmitFacts.
From S2P Require Import AsmCorrect RtParse Syntax SyntaxFacts.
Open Scope Z_scope.

(** ** Completeness of one line *)

Lemma do_one it s s' : do_items [it] s = Some s' <-> do_item it s = Some s'.
Proof. simpl. by destruct (do_item it s). Qed.

Lemma directive_not t d d' : directive t d -> ~ same_word d d' -> ident_equals (text t) d' = false.
Proof.
  intros [_ Hd] Hn. destruct (ident_equals (text t) d') eqn:E; [|done].
  destruct Hn. apply ident_equals_word in E. unfold same_word in *. congruence.
Qed.

Lemma directive_is t d : directive t d -> ident_equals (text t) d = true.
Proof. intros [_ H]. by apply ident_equals_word. Qed.

(** The word tests up to the one that matches. *)
Ltac directive_tests H :=
  repeat first [rewrite (directive_is _ _ H) | rewrite (directive_not _ _ _ H) by (by vm_compute)].

Lemma parse_operand_word w o ps : operand_syntax False w o ->
  parse_operand (at_toks (w ++ toks ps)) OP_NOP = Ok (o, ps).
Proof. intros H. by apply parse_operand_complete, operand_no_sys. Qed.

Lemma parse_directive_complete t w it ps stmts symtab sec s' : item_syntax (t :: w) it ->
  type t = TOK_DIRECTIVE -> do_item it (stmts, symtab, sec) = Some s' ->
  parse_directive_statement (at_toks (t :: w ++ toks ps)) stmts sec (text t) (line t) =
    Ok (ps, s'.1.1, s'.2) /\ s'.1.2 = symtab.
Proof.
  intros S Ht H.
  assert (Hadv : advance (at_toks (t :: w ++ toks ps)) = at_toks (w ++ toks ps))
    by (apply advance_at; by destruct w).
  unfold parse_directive_statement. rewrite Hadv.
  inversion S as [? op ts os Hi|? n Hd Hn|? Hd|? str Hd Hs|? ts o Hd Ho Hk|? ts o Hd Ho Hk]; subst;
    [congruence|..]; directive_tests Hd; cbn [app] in *; unfold do_item in H.
  - unfold parse_org. rewrite cur_toks, Hn, bool_decide_true by done. cbn [negb].
    destruct (_ && _) eqn:G in H; [|done]. rewrite advance_toks.
    assert ((num_value n <? 0) || (0xFFFF <? num_value n) = false) as -> by lia.
    rewrite u16_id by (unfold is_u16; lia).
    assert ((num_value n <? active_cursor sec) = false) as -> by lia. by simplify_eq.
  - rewrite at_toks_toks. unfold parse_data. destruct (data_seen sec); [done|]. by simplify_eq.
  - unfold parse_string. rewrite cur_toks, Hs, bool_decide_true, advance_toks by done. cbn [negb].
    cbn [item_kind mbind option_bind item_line] in H. destruct (place _ _ _ _ _). by simplify_eq.
  - unfold parse_word. rewrite (parse_operand_word _ _ _ Ho). cbn [mbind res_bind].
    cbn [item_kind mbind option_bind item_line] in H. rewrite Hk. cbn [negb].
    destruct (place _ _ _ _ _). by simplify_eq.
  - unfold parse_byte. rewrite (parse_operand_word _ _ _ Ho). cbn [mbind res_bind].
    cbn [item_kind mbind option_bind item_line] in H. rewrite Hk. cbn [negb].
    destruct (place _ _ _ _ _). by simplify_eq.
Qed.

Lemma item_syntax_head w it : item_syntax w it -> exists t w', w = t :: w' /\
  (type t = TOK_IDENT \/ type t = TOK_DIRECTIVE).
Proof.
  destruct 1 as [t op ts os Hi|? ? [? ?]|? [? ?]|? ? [? ?]|? ? ? [? ?]|? ? ? [? ?]]; eauto 6.
Qed.

Lemma parse_statement_complete w it ps stmts symtab sec s' : item_syntax w it ->
  ends_line (cur ps) = true -> do_item it (stmts, symtab, sec) = Some s' ->
  parse_statement (at_toks (w ++ toks ps)) stmts symtab sec = Ok (ps, s'.1.1, s'.1.2, s'.2).
Proof.
  intros S He H. destruct (item_syntax_head _ _ S) as (t & w' & -> & Ht). unfold parse_statement.
  cbn [app]. rewrite cur_toks. destruct Ht as [Ht|Ht]; rewrite Ht.
  - rewrite decide_False, decide_True by done.
    inversion S as [? op ts os Hi Hm Hos|? ? [? ?]|? [? ?]|? ? [? ?]|? ? ? [? ?]|? ? ? [? ?]]; subst; try congruence.
    apply lookup_mnemonic_names in Hm as ->.
    rewrite advance_at by (by destruct w').
    destruct (parse_instruction_complete ps stmts symtab sec t w' op os s' He Hos H) as [-> <-]. done.
  - rewrite decide_True by done.
    destruct (parse_directive_complete t w' it ps stmts symtab sec s' S Ht H) as [-> <-]. done.
Qed.

(** No statement starts like a label. *)
Lemma item_not_label w it ps : item_syntax w it -> ends_line (cur ps) = true ->
  ~ (type (cur (at_toks (w ++ toks ps))) = TOK_IDENT /\
     type (cur (advance (at_toks (w ++ toks ps)))) = TOK_COLON).
Proof.
  intros S He [H1 H2]. apply ends_line_type in He.
  inversion S as [? op ts os Hi Hm Hos|? ? [? ?]|? [? ?]|? ? [? ?]|? ? ? [? ?]|? ? ? [? ?]]; subst;
    cbn [app] in *; rewrite cur_toks in H1; try congruence.
  rewrite advance_at in H2 by (by destruct ts).
  destruct Hos as [|ts o Ho|ts1 o1 c ts2 o2 Ho Hc _].
  - cbn [app] in H2. rewrite at_toks_toks in H2. destruct He; congruence.
  - destruct (operand_head _ _ _ Ho) as (u & ? & -> & Hu). cbn [app] in H2. rewrite cur_toks in H2.
    destruct Hu as [Hu|[Hu|Hu]]; congruence.
  - destruct (operand_head _ _ _ Ho) as (u & ? & -> & Hu). cbn [app] in H2. rewrite cur_toks in H2.
    destruct Hu as [Hu|[Hu|Hu]]; congruence.
Qed.

Lemma parse_line_complete w items ps stmts symtab sec s' : line_syntax w items -> w <> [] ->
  ends_line (cur ps) = true -> do_items items (stmts, symtab, sec) = Some s' ->
  parse_line (at_toks (w ++ toks ps)) stmts symtab sec = Ok (ps, s'.1.1, s'.1.2, s'.2).
Proof.
  intros S Hw He H. unfold parse_line.
  assert (Hlab : forall t c r, type t = TOK_IDENT -> type c = TOK_COLON ->
    type (cur (at_toks (t :: c :: r))) = TOK_IDENT /\ type (cur (advance (at_toks (t :: c :: r)))) = TOK_COLON)
    by (intros; by rewrite advance_at).
  destruct S as [|t c Ht Hc|w it Hi|t c w it Ht Hc Hi]; [done|..]; cbn [app].
  - rewrite decide_True by auto. rewrite advance_at by done. rewrite advance_toks, cur_toks.
    apply do_one in H. cbn [do_item] in H.
    destruct (symtab_define _ _ _) as [tab|]; [|done]. simpl in H. simplify_eq. by rewrite He.
  - apply do_one in H. rewrite decide_False by (by eapply item_not_label).
    by eapply parse_statement_complete.
  - rewrite decide_True by auto. rewrite !advance_at by (done || by destruct w). rewrite cur_toks.
    cbn [do_items do_item] in H. destruct (symtab_define _ _ _) as [tab|]; [|done].
    cbn [mbind option_bind] in H. apply do_one in H.
    destruct (item_syntax_head _ _ Hi) as (u & w' & E & Hu).
    assert (ends_line (cur (at_toks (w ++ toks ps))) = false) as ->.
    { subst w. cbn [app]. rewrite cur_toks. unfold ends_line. by destruct Hu as [-> | ->]. }
    by eapply parse_statement_complete.
Qed.

(** ** Programs *)

(** Complete lines, and the items on them. *)
Inductive full_lines : list Token -> list Item -> Prop :=
| fl_nil : full_lines [] []
| fl_cons w items n ts items' : line_syntax w items -> type n = TOK_NEWLINE -> full_lines ts items' ->
    full_lines (w ++ n :: ts) (items ++ items').

(** The tokens of a source, from line [l] on: each line is numbered throughout, ended by
    a newline, the last one by the end of file. *)
Inductive numbered : Z -> list Token -> Prop :=
| nb_last l w e : Forall (fun t => ends_line t = false) w -> type e = TOK_EOF ->
    Forall (fun t => line t = l) (w ++ [e]) -> numbered l (w ++ [e])
| nb_line l w n ts : Forall (fun t => ends_line t = false) w -> type n = TOK_NEWLINE ->
    Forall (fun t => line t = l) (w ++ [n]) -> numbered (l + 1) ts -> numbered l (w ++ n :: ts).

(** The first line without an effect: everything before it is well formed and leads to
    a state from which no reading of the line does anything. *)
Definition rejected_at (ts : list Token) (s : P1State) (l : Z) : Prop :=
  exists before items w e r s1, ts = before ++ w ++ e :: r /\ full_lines before items /\
    do_items items s = Some s1 /\ Forall (fun t => ends_line t = false) w /\ ends_line e = true /\
    Forall (fun t => line t = l) (w ++ [e]) /\
    forall its, line_syntax w its -> do_items its s1 = None.

Lemma numbered_live l ts : numbered l ts -> ends_in_eof ts.
Proof.
  induction 1 as [l w e _ He _|l w n ts _ _ _ _ (k & t & -> & Ht)]; [by exists w, e|].
  exists (w ++ n :: k), t. by rewrite <- app_assoc.
Qed.

Lemma numbered_on_line l ts : numbered l ts -> on_line l (at_toks ts).
Proof.
  destruct 1 as [l w e Hw He Hl|l w n ts Hw Hn Hl _].
  - exists w, e, []. rewrite toks_at by (by destruct w). unfold ends_line. by rewrite He.
  - exists w, n, ts. rewrite toks_at by (by destruct w). unfold ends_line. by rewrite Hn.
Qed.

(** No token of a line ends one. *)
Lemma operand_inner sys w o : operand_syntax sys w o -> Forall (fun t => ends_line t = false) w.
Proof. destruct 1; repeat constructor; by eapply not_end. Qed.

Lemma operands_inner sys w os : operands_syntax sys w os -> Forall (fun t => ends_line t = false) w.
Proof.
  destruct 1 as [|? ? Ho|? ? ? ? ? Ho1 ? Ho2]; [constructor|by eapply operand_inner|].
  apply Forall_app. split; [by eapply operand_inner|].
  constructor; [by eapply not_end|by eapply operand_inner].
Qed.

Lemma item_inner w it : item_syntax w it -> Forall (fun t => ends_line t = false) w.
Proof.
  destruct 1 as [t op ts os Ht _ Hos|? ? [? ?]|? [? ?]|? ? [? ?]|? ? ? [? ?] Ho|? ? ? [? ?] Ho];
    repeat constructor; try (by eapply not_end);
    first [by eapply operands_inner | by eapply operand_inner].
Qed.

Lemma line_inner w items : line_syntax w items -> Forall (fun t => ends_line t = false) w.
Proof. destruct 1; repeat constructor; try (by eapply not_end); by eapply item_inner. Qed.

(** What is consumed of a line leaves the rest of that line. *)
Lemma consumed_line ps ps' w u e r : toks ps = u ++ e :: r -> ends_line e = true ->
  Forall (fun t => ends_line t = false) w -> consumed ps ps' w ->
  exists v, u = w ++ v /\ toks ps' = v ++ e :: r.
Proof.
  unfold consumed. intros -> He Hw. revert u. induction Hw as [|t w Ht Hw IH]; intros u Hc; [by exists u|].
  destruct u as [|t' u]; simpl in Hc; injection Hc as -> Hc; [congruence|].
  destruct (IH u Hc) as (v & -> & Ev). by exists v.
Qed.

(** A line cut in two at its end is cut where it was. *)
Lemma line_split w1 e1 r1 w2 e2 r2 : w1 ++ e1 :: r1 = w2 ++ e2 :: r2 ->
  Forall (fun t => ends_line t = false) w1 -> ends_line e1 = true ->
  Forall (fun t => ends_line t = false) w2 -> ends_line e2 = true ->
  w1 = w2 /\ e1 = e2 /\ r1 = r2.
Proof.
  revert w2. induction w1 as [|t w1 IH]; intros [|t2 w2] E H1 He1 H2 He2; simpl in E; injection E as -> E;
    [done|apply Forall_cons in H2 as [? _]; congruence|apply Forall_cons in H1 as [? _]; congruence|].
  apply Forall_cons in H1 as [_ H1]. apply Forall_cons in H2 as [_ H2].
  destruct (IH w2 E H1 He1 H2 He2) as (-> & -> & ->). done.
Qed.

(** One line of the loop: either it has an effect and the parser stands at its end, or
    an error on this line, which no reading of the line could have avoided. *)
Definition line_outcome (w : list Token) (e : Token) (r : list Token) (l : Z) (s : P1State)
  (o : res Pass1) : Prop :=
  match o with
  | Ok (ps', stmts', symtab', sec') =>
      exists items, line_syntax w items /\ do_items items s = Some (stmts', symtab', sec') /\
        toks ps' = e :: r
  | Err l' _ => l' = l /\ forall items, line_syntax w items -> do_items items s = None
  | UB => False
  end.

(** [parse_line] with the end-of-line test of the loop behind it. *)
Definition whole_line (ps : Parser) (s : P1State) : res Pass1 :=
  match parse_line ps s.1.1 s.1.2 s.2 with
  | Ok (ps, stmts, symtab, sec) =>
      if ends_line (cur ps) then Ok (ps, stmts, symtab, sec)
      else fail (line (cur ps)) (str "expected end of line")
  | Err l m => Err l m
  | UB => UB
  end.

Lemma whole_line_spec w e r l s : w <> [] -> Forall (fun t => ends_line t = false) w -> ends_line e = true ->
  Forall (fun t => line t = l) (w ++ [e]) -> ends_in_eof (w ++ e :: r) ->
  line_outcome w e r l s (whole_line (at_toks (w ++ e :: r)) s).
Proof.
  intros Hne Hw He Hl Hlive. set (ps := at_toks (w ++ e :: r)).
  assert (toks ps = w ++ e :: r) as Et by (apply toks_at; by destruct w).
  destruct s as [[stmts symtab] sec]. unfold whole_line. cbn [fst snd].
  assert (Hcomp : forall items s', line_syntax w items -> do_items items (stmts, symtab, sec) = Some s' ->
    parse_line ps stmts symtab sec = Ok (at_toks (e :: r), s'.1.1, s'.1.2, s'.2)).
  { intros items s' S E. apply (parse_line_complete w items (at_toks (e :: r)) _ _ _ s' S Hne He E). }
  pose proof (parse_line_spec l ps stmts symtab sec) as H. unfold parsed in H.
  rewrite <- Et in Hlive. specialize (H Hlive). specialize (H ltac:(by exists w, e, r)).
  destruct (parse_line ps stmts symtab sec) as [[[[ps' stmts'] symtab'] sec']|l' m|] eqn:Ep; [| |done].
  - destruct H as (O & _ & w1 & items & C & S & E).
    destruct (consumed_line _ _ _ _ _ _ Et He (line_inner _ _ S) C) as (v & -> & Ev).
    destruct (ends_line (cur ps')) eqn:Ec.
    + destruct v as [|t v]; [|exfalso].
      * rewrite app_nil_r. by exists items.
      * apply Forall_app in Hw as [_ Hw]. apply Forall_cons in Hw as [Ht _].
        unfold toks in Ev. injection Ev as Ev _. congruence.
    + split; [by apply on_line_cur|]. intros its S2. destruct (do_items its _) as [s2|] eqn:E2; [|done].
      specialize (Hcomp its s2 S2 E2). injection Hcomp as -> _ _ _. simpl in Ec. congruence.
  - split; [done|]. intros its S2. destruct (do_items its _) as [s2|] eqn:E2; [|done].
    by specialize (Hcomp its s2 S2 E2).
Qed.

Lemma build_loop_blank fuel ts n stmts symtab sec : type n = TOK_NEWLINE -> ts <> [] ->
  build_loop (S fuel) (at_toks (n :: ts)) stmts symtab sec = build_loop fuel (at_toks ts) stmts symtab sec.
Proof.
  intros Hn Hts. cbn [build_loop]. rewrite cur_toks, Hn, decide_False, decide_True by done.
  by rewrite advance_at.
Qed.

Lemma build_loop_eof fuel e stmts symtab sec : type e = TOK_EOF ->
  build_loop fuel (at_toks [e]) stmts symtab sec = Some (Ok (at_toks [e], stmts, symtab, sec)).
Proof. intros He. destruct fuel; cbn [build_loop]; rewrite cur_toks, He, decide_True by done; done. Qed.

Lemma build_loop_line fuel w r stmts symtab sec : w <> [] -> Forall (fun t => ends_line t = false) w ->
  build_loop (S fuel) (at_toks (w ++ r)) stmts symtab sec =
  match whole_line (at_toks (w ++ r)) (stmts, symtab, sec) with
  | Ok (ps, stmts, symtab, sec) =>
      if decide (type (cur ps) = TOK_NEWLINE) then build_loop fuel (advance ps) stmts symtab sec
      else build_loop fuel ps stmts symtab sec
  | Err l m => Some (Err l m)
  | UB => Some UB
  end.
Proof.
  intros Hne Hw. cbn [build_loop]. destruct w as [|t w]; [done|]. cbn [app]. rewrite cur_toks.
  apply Forall_cons in Hw as [Ht _]. unfold ends_line in Ht.
  rewrite decide_False, decide_False by (intros E; by rewrite E in Ht).
  unfold whole_line. cbn [fst snd].
  destruct (parse_line _ stmts symtab sec) as [[[[ps stmts'] symtab'] sec']| |]; [|done..].
  destruct (ends_line (cur ps)) eqn:Ee.
  - case_decide; [done|]. apply ends_line_type in Ee as [?|Ee]; [done|].
    by rewrite bool_decide_true.
  - unfold ends_line in Ee. case_decide as E; [by rewrite E in Ee|]. case_bool_decide as E2; [by rewrite E2 in Ee|].
    done.
Qed.

(** What the loop makes of the lines from [l] on. *)
Definition loop_outcome (ts : list Token) (s : P1State) (o : res Pass1) : Prop :=
  match o with
  | Ok (ps', stmts', symtab', sec') => exists items before e,
      program_syntax ts items /\ do_items items s = Some (stmts', symtab', sec') /\
      ts = before ++ [e] /\ ps' = at_toks [e]
  | Err l' _ => rejected_at ts s l'
  | UB => False
  end.

Lemma rejected_later w items n ts s s1 l : line_syntax w items -> type n = TOK_NEWLINE ->
  do_items items s = Some s1 -> rejected_at ts s1 l -> rejected_at (w ++ n :: ts) s l.
Proof.
  intros S Hn E (before & its & w' & e & r & s2 & -> & F & E2 & H).
  exists (w ++ n :: before), (items ++ its), w', e, r, s2. split_and!; try apply H.
  - by rewrite <- app_assoc.
  - by constructor.
  - rewrite do_items_app, E. done.
Qed.

Lemma outcome_later w items n ts s s1 o : line_syntax w items -> type n = TOK_NEWLINE ->
  do_items items s = Some s1 -> loop_outcome ts s1 o -> loop_outcome (w ++ n :: ts) s o.
Proof.
  intros S Hn E H. destruct o as [[[[ps' st'] tab'] sec']|l m|]; [|by eapply rejected_later|done].
  destruct H as (its & before & e & P & E2 & -> & ->). exists (items ++ its), (w ++ n :: before), e.
  split_and!; [by constructor| |by rewrite <- app_assoc|done]. rewrite do_items_app, E. done.
Qed.

Lemma build_loop_outcome l ts : numbered l ts -> forall fuel stmts symtab sec, (length ts <= fuel)%nat ->
  exists o, build_loop fuel (at_toks ts) stmts symtab sec = Some o /\ loop_outcome ts (stmts, symtab, sec) o.
Proof.
  induction 1 as [l w e Hw He Hl|l w n ts Hw Hn Hl Hts IH]; intros fuel stmts symtab sec Hf;
    rewrite length_app in Hf; simpl in Hf.
  - destruct (decide (w = [])) as [->|Hne].
    { cbn [app]. rewrite build_loop_eof by done. eexists. split; [done|]. exists [], [], e.
      split_and!; [apply (ps_last _ [] []); [constructor|done]|done..]. }
    destruct fuel as [|fuel]; [lia|]. rewrite build_loop_line by done.
    assert (ends_line e = true) as Hee by (apply ends_line_type; auto).
    pose proof (whole_line_spec w e [] l (stmts, symtab, sec) Hne Hw Hee Hl ltac:(by exists w, e)) as H.
    destruct (whole_line _ _) as [[[[ps' st'] tab'] sec']|l' m|]; [| |done].
    + destruct H as (items & S & E & Et). rewrite <- (at_toks_toks ps'), Et. rewrite cur_toks, He, decide_False by done.
      rewrite build_loop_eof by done. eexists. split; [done|]. exists items, w, e. split_and!; [by constructor|done..].
    + destruct H as [-> H]. eexists. split; [done|]. exists [], [], w, e, [], (stmts, symtab, sec).
      split_and!; try done. constructor.
  - assert (ts <> []) as Htn by (destruct Hts; by destruct w0).
    destruct (decide (w = [])) as [->|Hne].
    { destruct fuel as [|fuel]; [lia|]. cbn [app]. rewrite build_loop_blank by done.
      destruct (IH fuel stmts symtab sec ltac:(simpl in Hf; lia)) as (o & -> & Ho). exists o. split; [done|].
      apply (outcome_later [] [] n ts _ (stmts, symtab, sec)); [constructor|done..]. }
    destruct fuel as [|fuel]; [lia|]. rewrite build_loop_line by done.
    assert (ends_line n = true) as Hne' by (apply ends_line_type; auto).
    pose proof (whole_line_spec w n ts l (stmts, symtab, sec) Hne Hw Hne' Hl) as H.
    specialize (H ltac:(apply (numbered_live l); by constructor)).
    destruct (whole_line _ _) as [[[[ps' st'] tab'] sec']|l' m|]; [| |done].
    + destruct H as (items & S & E & Et). rewrite <- (at_toks_toks ps'), Et. rewrite cur_toks, Hn, decide_True by done.
      rewrite advance_at by done. destruct (IH fuel st' tab' sec' ltac:(lia)) as (o & -> & Ho).
      exists o. split; [done|]. by eapply outcome_later.
    + destruct H as [-> H]. eexists. split; [done|]. exists [], [], w, n, ts, (stmts, symtab, sec).
      split_and!; try done. constructor.
Qed.

(** ** Completeness of the loop *)

Lemma whole_line_accepts w items e r s s' : line_syntax w items -> w <> [] -> ends_line e = true ->
  do_items items s = Some s' ->
  whole_line (at_toks (w ++ e :: r)) s = Ok (at_toks (e :: r), s'.1.1, s'.1.2, s'.2).
Proof.
  intros S Hne He H. destruct s as [[stmts symtab] sec]. unfold whole_line. cbn [fst snd].
  change (e :: r) with (toks (at_toks (e :: r))).
  rewrite (parse_line_complete w items (at_toks (e :: r)) stmts symtab sec s' S Hne He H).
  by rewrite cur_toks, He.
Qed.

Lemma program_accepted ts items : program_syntax ts items -> forall fuel stmts symtab sec s',
  (length ts <= fuel)%nat -> do_items items (stmts, symtab, sec) = Some s' ->
  exists ps', build_loop fuel (at_toks ts) stmts symtab sec = Some (Ok (ps', s'.1.1, s'.1.2, s'.2)).
Proof.
  induction 1 as [w items e S He|w items n ts items' S Hn P IH]; intros fuel stmts symtab sec s' Hf H;
    rewrite length_app in Hf; simpl in Hf; pose proof (line_inner _ _ S) as Hw.
  - destruct (decide (w = [])) as [->|Hne].
    { inversion S as [| |? ? Hi|]; subst; [|by destruct (item_syntax_head _ _ Hi) as (? & ? & ? & _)].
      simpl in H. simplify_eq. cbn [app fst snd]. rewrite build_loop_eof by done. by eexists. }
    destruct fuel as [|fuel]; [lia|]. rewrite build_loop_line by done.
    rewrite (whole_line_accepts _ _ _ _ _ _ S Hne (proj2 (ends_line_type _) (or_intror He)) H).
    rewrite cur_toks, He, decide_False by done. rewrite build_loop_eof by done. by eexists.
  - assert (ts <> []) as Htn by (destruct P; by destruct ts).
    rewrite do_items_app in H. destruct (do_items items _) as [[[st1 tab1] sec1]|] eqn:E1; [|done].
    cbn [mbind option_bind] in H. destruct (decide (w = [])) as [->|Hne].
    { inversion S as [| |? ? Hi|]; subst; [|by destruct (item_syntax_head _ _ Hi) as (? & ? & ? & _)].
      simpl in E1. simplify_eq. cbn [app] in *. destruct fuel as [|fuel]; [simpl in Hf; lia|].
      rewrite build_loop_blank by done. apply IH; [simpl in Hf; lia|done]. }
    destruct fuel as [|fuel]; [lia|]. rewrite build_loop_line by done.
    rewrite (whole_line_accepts _ _ _ _ _ _ S Hne (proj2 (ends_line_type _) (or_introl Hn)) E1). cbn [fst snd].
    rewrite cur_toks, Hn, decide_True by done. rewrite advance_at by done. apply IH; [lia|done].
Qed.

(** ** The lexer's token lists are numbered *)

Lemma token_ok_line ln t : token_ok ln t -> line t = ln.
Proof. by destruct 1. Qed.

Lemma numbered_cons l t ts : line t = l -> ends_line t = false -> numbered l ts -> numbered l (t :: ts).
Proof.
  intros Ht He H. destruct H as [l w e Hw Hee Hl|l w n ts Hw Hn Hl Hts].
  - apply (nb_last l (t :: w)); [by constructor|done|by constructor].
  - apply (nb_line l (t :: w)); [by constructor|done|by constructor|done].
Qed.

Lemma tokens_numbered ln body ln' : tokens_ok ln body ln' -> numbered ln (body ++ [simple_token TOK_EOF ln']).
Proof.
  induction 1 as [ln|ln t body ln' Ht Hb IH].
  - apply (nb_last ln []); [constructor|done|by repeat constructor].
  - pose proof (token_ok_line _ _ Ht) as El. cbn [app]. case_decide as Hn.
    + apply (nb_line ln []); [constructor|done|by repeat constructor|done].
    + apply numbered_cons; [done| |done]. destruct (ends_line t) eqn:Ee; [|done].
      apply ends_line_type in Ee as [?|Ee]; [done|].
      destruct Ht as [k Hk| | | |]; simpl in *; try done. subst k.
      by destruct Hk as [?|[?|[?|[?|[?|[]]]]]].
Qed.

Lemma lex_numbered source ts : lex source = Ok ts -> numbered 1 ts.
Proof. intros H. apply lex_Ok in H as (body & ln & -> & Hl). by eapply tokens_numbered, lexes_tokens. Qed.

(** ** Pass 1 *)

Lemma pass1_toks source ts : lex source = Ok ts ->
  pass1 source = ('(_, stmts, symtab, sec) ← build_statements (at_toks ts); Ok (stmts, symtab, sec)).
Proof.
  intros H. pose proof (lex_numbered _ _ H) as Hn. unfold pass1. rewrite H. simpl.
  destruct ts as [|t ts]; [|done]. by inversion Hn as [? [|] |? [|]].
Qed.

Lemma pass1_accepts source ts s : lex source = Ok ts ->
  pass1 source = Ok s <->
  exists items, program_syntax ts items /\ do_items items pass1_start = Some s /\ code_started s.2 = true.
Proof.
  intros Hl. rewrite (pass1_toks _ _ Hl). pose proof (lex_numbered _ _ Hl) as Hn.
  assert (length ts <= S (length (rest (at_toks ts))))%nat as Hf by (destruct ts; simpl; lia).
  unfold build_statements. split.
  - destruct (build_loop_outcome 1 ts Hn _ [] symtab_init sec_init Hf) as (o & -> & Ho). simpl.
    destruct o as [[[[ps' st'] tab'] sec']| |]; cbn [mbind res_bind]; [|done..].
    destruct (code_started sec') eqn:Ec; cbn [negb mbind res_bind]; [|done]. intros [= <-].
    destruct Ho as (items & _ & _ & P & E & _). by exists items.
  - intros (items & P & E & Hc). destruct s as [[st tab] sec].
    destruct (program_accepted ts items P _ [] symtab_init sec_init _ Hf E) as (ps' & ->).
    simpl in *. by rewrite Hc.
Qed.

(** Why pass 1 rejects a source, at a line: the first line that cannot be read, or the
    end of a source that places nothing in the code section. *)
Lemma pass1_rejects source ts l m : lex source = Ok ts -> pass1 source = Err l m ->
  rejected_at ts pass1_start l \/
  exists items s before e, program_syntax ts items /\ do_items items pass1_start = Some s /\
    code_started s.2 = false /\ ts = before ++ [e] /\ line e = l.
Proof.
  intros Hl. rewrite (pass1_toks _ _ Hl). pose proof (lex_numbered _ _ Hl) as Hn.
  assert (length ts <= S (length (rest (at_toks ts))))%nat as Hf by (destruct ts; simpl; lia).
  unfold build_statements.
  destruct (build_loop_outcome 1 ts Hn _ [] symtab_init sec_init Hf) as (o & -> & Ho). simpl.
  destruct o as [[[[ps' st'] tab'] sec']|l' m'|]; cbn [mbind res_bind]; [| |done].
  - destruct (code_started sec') eqn:Ec; cbn [negb mbind res_bind]; [done|].
    destruct Ho as (items & before & e & P & E & -> & ->). intros [= <- <-]. right.
    exists items, (st', tab', sec'), before, e. done.
  - intros [= <- <-]. by left.
Qed.
