(* ===== verification/Reader.v ===== *)
(** The grammar of [Syntax], decided: a reader that computes the items of a token list.
    It makes the grammar executable and shows that it is unambiguous. *)

From S2P Require Import Prelude CLib Memory Instruction Lexer Parser RtParse Syntax SyntaxFacts ParseFacts.
Open Scope Z_scope.

(** ** Operands *)

Definition read_operand (sys : bool) (ts : list Token) : option ParsedOperand :=
  match ts with
  | [t] =>
      match type t with
      | TOK_NUMBER => Some (mkPOp (OPKIND_NUMBER (num_value t)) (line t))
      | TOK_IDENT =>
          let k := match try_parse_register (text t), if sys then try_syscall_name (text t) else None with
                   | Some n, _ => OPKIND_REG n
                   | None, Some c => OPKIND_NUMBER c
                   | None, None => OPKIND_LABEL (text t)
                   end in
          Some (mkPOp k (line t))
      | _ => None
      end
  | [l; t; r] =>
      match type l, type t, type r with
      | TOK_LBRACKET, TOK_NUMBER, TOK_RBRACKET => Some (mkPOp (OPKIND_MEM_NUMBER (num_value t)) (line l))
      | TOK_LBRACKET, TOK_IDENT, TOK_RBRACKET =>
          Some (mkPOp (match try_parse_register (text t) with
                       | Some n => OPKIND_REG_INDIRECT n
                       | None => OPKIND_MEM_LABEL (text t)
                       end) (line l))
      | _, _, _ => None
      end
  | _ => None
  end.

Lemma read_operand_spec sys P ts o : (sys = true <-> P) ->
  read_operand sys ts = Some o <-> operand_syntax P ts o.
Proof.
  intros Hs. split.
  - unfold read_operand. destruct ts as [|l [|t [|r [|]]]]; try done.
    + destruct (type l) eqn:El; try done; [|intros [= <-]; by constructor].
      intros [= <-]. destruct (try_parse_register (text l)) as [n|] eqn:Er.
      { apply os_register; [done|]. by apply try_parse_register_word. }
      apply not_register_None in Er. destruct sys.
      * destruct (try_syscall_name (text l)) as [c|] eqn:Ec.
        -- apply os_syscall; [done..|by apply Hs|]. by apply try_syscall_names.
        -- apply os_label; [done..|]. intros _ c Hc%try_syscall_names. congruence.
      * apply os_label; [done..|]. intros HP%Hs. done.
    + destruct (type l) eqn:El; try done. destruct (type t) eqn:Et; try done;
        destruct (type r) eqn:Er; try done; intros [= <-]; [|by constructor].
      destruct (try_parse_register (text t)) as [n|] eqn:En.
      * apply os_indirect; [done..|]. by apply try_parse_register_word.
      * apply os_mem_label; [done..|]. by apply not_register_None.
  - destruct 1 as [t n Ht Hn|t c Ht Hnr HP Hc|t Ht Hnr Hc|t Ht|l t r n Hl Ht Hr Hn
      |l t r Hl Ht Hr Hn|l t r Hl Ht Hr]; unfold read_operand; rewrite ?Hl, ?Ht, ?Hr; try done.
    + by apply try_parse_register_word in Hn as ->.
    + apply not_register_None in Hnr as ->. apply Hs in HP as ->. by apply try_syscall_names in Hc as ->.
    + apply not_register_None in Hnr as ->. destruct sys; [|done].
      destruct (try_syscall_name (text t)) as [c|] eqn:E; [|done].
      apply try_syscall_names in E. destruct (Hc (proj1 Hs eq_refl) c E).
    + by apply try_parse_register_word in Hn as ->.
    + by apply not_register_None in Hn as ->.
Qed.

(** ** Splitting *)

(** The tokens in front of the first one that stops, and those from it on. *)
Fixpoint break (stop : Token -> bool) (ts : list Token) : list Token * list Token :=
  match ts with
  | [] => ([], [])
  | t :: ts => if stop t then ([], t :: ts) else let '(w, r) := break stop ts in (t :: w, r)
  end.

Lemma break_app stop ts : ts = (break stop ts).1 ++ (break stop ts).2.
Proof.
  induction ts as [|t ts IH]; [done|]. simpl. destruct (stop t); [done|].
  destruct (break stop ts). simpl in *. by rewrite <- IH.
Qed.

Lemma break_stop stop ts : match (break stop ts).2 with [] => True | t :: _ => stop t = true end.
Proof.
  induction ts as [|t ts IH]; [done|]. simpl. destruct (stop t) eqn:E; [done|]. by destruct (break stop ts).
Qed.

Lemma break_at stop w r : Forall (fun t => stop t = false) w ->
  match r with [] => True | t :: _ => stop t = true end -> break stop (w ++ r) = (w, r).
Proof.
  intros Hw Hr. induction Hw as [|t w Ht _ IH]; cbn [app break].
  - destruct r as [|t r]; [done|]. simpl. by rewrite Hr.
  - by rewrite Ht, IH.
Qed.

Definition is_type (k : TokenType) (t : Token) : bool := bool_decide (type t = k).

(** ** Lines *)

Definition read_operands (sys : bool) (ts : list Token) : option (list ParsedOperand) :=
  match ts with
  | [] => Some []
  | _ =>
      match break (is_type TOK_COMMA) ts with
      | (ts1, []) => o ← read_operand sys ts1; Some [o]
      | (ts1, _ :: ts2) => o1 ← read_operand sys ts1; o2 ← read_operand sys ts2; Some [o1; o2]
      end
  end.

Lemma operand_no_comma P ts o : operand_syntax P ts o -> ts <> [] /\ Forall (fun t => is_type TOK_COMMA t = false) ts.
Proof.
  unfold is_type. destruct 1; split; try done; repeat constructor; apply bool_decide_eq_false; congruence.
Qed.

Lemma read_operands_spec sys P ts os : (sys = true <-> P) ->
  read_operands sys ts = Some os <-> operands_syntax P ts os.
Proof.
  intros Hs. split.
  - unfold read_operands. destruct ts as [|t ts]; [intros [= <-]; constructor|].
    pose proof (break_app (is_type TOK_COMMA) (t :: ts)) as Ea.
    pose proof (break_stop (is_type TOK_COMMA) (t :: ts)) as Hc.
    destruct (break _ (t :: ts)) as [ts1 [|c ts2]]; cbn [fst snd] in *; rewrite Ea.
    + rewrite app_nil_r. destruct (read_operand sys ts1) as [o|] eqn:E; [|done]. cbn. intros [= <-].
      constructor. by apply (read_operand_spec sys).
    + destruct (read_operand sys ts1) as [o1|] eqn:E1; [|done]. cbn.
      destruct (read_operand sys ts2) as [o2|] eqn:E2; [|done]. cbn. intros [= <-].
      constructor; [by apply (read_operand_spec sys)|by apply bool_decide_eq_true in Hc|by apply (read_operand_spec sys)].
  - destruct 1 as [|ts o Ho|ts1 o1 c ts2 o2 H1 Hc H2]; [done| |].
    + destruct (operand_no_comma _ _ _ Ho) as [Hne Hn]. unfold read_operands. destruct ts as [|t ts]; [done|].
      pose proof (break_at (is_type TOK_COMMA) (t :: ts) [] Hn I) as E. rewrite app_nil_r in E. rewrite E.
      apply (read_operand_spec sys) in Ho as ->; done.
    + destruct (operand_no_comma _ _ _ H1) as [Hne Hn]. unfold read_operands.
      destruct (ts1 ++ c :: ts2) eqn:E; [by destruct ts1|]. rewrite <- E. clear E.
      rewrite (break_at (is_type TOK_COMMA) ts1 (c :: ts2)) by (done || by apply bool_decide_eq_true).
      apply (read_operand_spec sys) in H1 as ->; [|done]. by apply (read_operand_spec sys) in H2 as ->.
Qed.

Definition read_item (ts : list Token) : option Item :=
  match ts with
  | [] => None
  | t :: w =>
      match type t with
      | TOK_IDENT =>
          op ← lookup_mnemonic (text t);
          os ← read_operands (bool_decide (op = OP_SYS)) w;
          Some (I_instr op os (line t))
      | TOK_DIRECTIVE =>
          if ident_equals (text t) (str "org") then
            match w with [n] => if is_type TOK_NUMBER n then Some (I_org (num_value n) (line t)) else None | _ => None end
          else if ident_equals (text t) (str "data") then
            match w with [] => Some (I_data (line t)) | _ => None end
          else if ident_equals (text t) (str "string") then
            match w with [s] => if is_type TOK_STRING s then Some (I_string (str_value s) (line t)) else None | _ => None end
          else if ident_equals (text t) (str "word") then
            o ← read_operand false w; if is_number_or_label o then Some (I_word o (line t)) else None
          else if ident_equals (text t) (str "byte") then
            o ← read_operand false w; if is_number o then Some (I_byte o (line t)) else None
          else None
      | _ => None
      end
  end.

Lemma read_item_sound ts it : read_item ts = Some it -> item_syntax ts it.
Proof.
  assert (HF : false = true <-> False) by done.
  unfold read_item. destruct ts as [|t w]; [done|]. destruct (type t) eqn:Et; try done.
  - destruct (lookup_mnemonic (text t)) as [op|] eqn:Em; [|done]. apply lookup_mnemonic_names in Em. cbn.
    destruct (read_operands _ w) as [os|] eqn:Eo; [|done]. cbn. intros [= <-]. constructor; [done..|].
    apply (read_operands_spec (bool_decide (op = OP_SYS))); [apply bool_decide_eq_true|done].
  - assert (Hd : forall d, ident_equals (text t) d = true -> directive t d)
      by (intros d E; split; [done|by apply ident_equals_word]).
    destruct (ident_equals _ (str "org")) eqn:E1; [|destruct (ident_equals _ (str "data")) eqn:E2;
      [|destruct (ident_equals _ (str "string")) eqn:E3; [|destruct (ident_equals _ (str "word")) eqn:E4;
      [|destruct (ident_equals _ (str "byte")) eqn:E5; [|done]]]]].
    + destruct w as [|n [|]]; try done. destruct (is_type TOK_NUMBER n) eqn:En; [|done]. intros [= <-].
      apply is_org; [by apply Hd|by apply bool_decide_eq_true in En].
    + destruct w; [|done]. intros [= <-]. by apply is_data, Hd.
    + destruct w as [|n [|]]; try done. destruct (is_type TOK_STRING n) eqn:En; [|done]. intros [= <-].
      apply is_string; [by apply Hd|by apply bool_decide_eq_true in En].
    + destruct (read_operand false w) as [o|] eqn:Eo; [|done]. cbn. destruct (is_number_or_label o) eqn:En; [|done].
      intros [= <-]. apply is_word; [by apply Hd| |done]. by apply (read_operand_spec false).
    + destruct (read_operand false w) as [o|] eqn:Eo; [|done]. cbn. destruct (is_number o) eqn:En; [|done].
      intros [= <-]. apply is_byte; [by apply Hd| |done]. by apply (read_operand_spec false).
Qed.

Lemma read_item_complete ts it : item_syntax ts it -> read_item ts = Some it.
Proof.
  assert (HF : false = true <-> False) by done.
  destruct 1 as [t op ts os Ht Hm Hos|t n Hd Hn|t Hd|t s Hd Hs|t ts o Hd Ho Hk|t ts o Hd Ho Hk]; unfold read_item.
  2-6: destruct Hd as [Ht Hw] eqn:E; clear E; rewrite Ht;
    pose proof (conj Ht Hw : directive t _) as Hd'; directive_tests Hd'.
  - rewrite Ht. apply lookup_mnemonic_names in Hm as ->. cbn [mbind option_bind].
    apply (read_operands_spec (bool_decide (op = OP_SYS))) in Hos; [|apply bool_decide_eq_true]. by rewrite Hos.
  - unfold is_type. by rewrite bool_decide_true.
  - done.
  - unfold is_type. by rewrite bool_decide_true.
  - apply (read_operand_spec false) in Ho as ->; [|done]. cbn. by rewrite Hk.
  - apply (read_operand_spec false) in Ho as ->; [|done]. cbn. by rewrite Hk.
Qed.

Definition read_line (ts : list Token) : option (list Item) :=
  match ts with
  | [] => Some []
  | t :: c :: w =>
      if is_type TOK_IDENT t && is_type TOK_COLON c then
        match w with
        | [] => Some [I_label (text t) (line t)]
        | _ => it ← read_item w; Some [I_label (text t) (line t); it]
        end
      else it ← read_item ts; Some [it]
  | _ => it ← read_item ts; Some [it]
  end.

Lemma read_line_spec ts items : read_line ts = Some items <-> line_syntax ts items.
Proof.
  assert (Hone : forall ts items, (it ← read_item ts; Some [it]) = Some items -> line_syntax ts items).
  { intros ts' its H. destruct (read_item ts') as [it|] eqn:E; [|done]. cbn in H. injection H as <-.
    by apply ls_item, read_item_sound. }
  split.
  - unfold read_line. destruct ts as [|t [|c w]]; [intros [= <-]; constructor|apply Hone|].
    destruct (is_type TOK_IDENT t && is_type TOK_COLON c) eqn:E; [|apply Hone].
    apply andb_true_iff in E as [Ht%bool_decide_eq_true Hc%bool_decide_eq_true].
    destruct w as [|u w]; [intros [= <-]; by constructor|].
    destruct (read_item (u :: w)) as [it|] eqn:E; [|done]. cbn. intros [= <-].
    apply ls_both; [done..|]. by apply read_item_sound.
  - destruct 1 as [|t c Ht Hc|ts it Hi|t c ts it Ht Hc Hi]; [done| | |].
    + unfold read_line, is_type. by rewrite !bool_decide_true.
    + pose proof (read_item_complete _ _ Hi) as E.
      assert (Hn : forall t c w, ts = t :: c :: w -> is_type TOK_IDENT t && is_type TOK_COLON c = false).
      { intros t c w ->. apply andb_false_iff. unfold is_type. rewrite !bool_decide_eq_false.
        destruct (decide (type t = TOK_IDENT)) as [Ht|]; [right|by left]. intros Hc.
        apply (item_not_label (t :: c :: w) it (mkParser (simple_token TOK_EOF 0) []) Hi eq_refl).
        cbn [app]. rewrite cur_toks. split; [done|]. by rewrite advance_at. }
      unfold read_line. destruct ts as [|t [|c w]]; [done|by rewrite E|]. rewrite (Hn t c w eq_refl). by rewrite E.
    + unfold read_line, is_type. rewrite !bool_decide_true by done. cbn [andb].
      rewrite (read_item_complete _ _ Hi). by destruct ts; [inversion Hi|].
Qed.

(** ** Programs *)

Fixpoint read_lines (w ts : list Token) : option (list Item) :=
  match ts with
  | [] => None
  | t :: ts =>
      if ends_line t then
        items ← read_line w;
        if is_type TOK_EOF t then match ts with [] => Some items | _ => None end
        else rest ← read_lines [] ts; Some (items ++ rest)
      else read_lines (w ++ [t]) ts
  end.

Definition read_program (ts : list Token) : option (list Item) := read_lines [] ts.

Lemma read_lines_sound w ts items : read_lines w ts = Some items -> program_syntax (w ++ ts) items.
Proof.
  revert w items. induction ts as [|t ts IH]; intros w items E; cbn [read_lines] in E; [done|].
  destruct (ends_line t) eqn:Et.
  - destruct (read_line w) as [its|] eqn:El; [|done]. apply read_line_spec in El. cbn [mbind option_bind] in E.
    destruct (is_type TOK_EOF t) eqn:Ee.
    + destruct ts; [|done]. injection E as <-. apply bool_decide_eq_true in Ee. by constructor.
    + destruct (read_lines [] ts) as [rest|] eqn:Er; [|done]. cbn in E. injection E as <-.
      apply bool_decide_eq_false in Ee. apply ends_line_type in Et as [Et|Et]; [|done].
      apply ps_line; [done..|]. by apply (IH []).
  - change (t :: ts) with ([t] ++ ts). rewrite app_assoc. by apply IH.
Qed.

Lemma read_lines_skip w v r : Forall (fun t => ends_line t = false) v -> read_lines w (v ++ r) = read_lines (w ++ v) r.
Proof.
  intros Hv. revert w. induction Hv as [|t v Ht _ IH]; intros w; cbn [app read_lines]; [by rewrite app_nil_r|].
  rewrite Ht, IH. by rewrite <- app_assoc.
Qed.

(** The reader decides the grammar. *)
Lemma read_program_spec ts items : read_program ts = Some items <-> program_syntax ts items.
Proof.
  split; [apply (read_lines_sound [])|]. unfold read_program.
  induction 1 as [w items e S He|w items n ts items' S Hn P IH]; rewrite read_lines_skip by (by eapply line_inner);
    cbn [app read_lines]; apply read_line_spec in S.
  - assert (ends_line e = true) as -> by (apply ends_line_type; by right). rewrite S. cbn.
    unfold is_type. by rewrite bool_decide_true.
  - assert (ends_line n = true) as -> by (apply ends_line_type; by left). rewrite S. cbn.
    unfold is_type. rewrite bool_decide_false by congruence. by rewrite IH.
Qed.

(** No source has two readings. *)
Lemma program_syntax_unique ts items1 items2 :
  program_syntax ts items1 -> program_syntax ts items2 -> items1 = items2.
Proof. intros H1%read_program_spec H2%read_program_spec. congruence. Qed.
