(* ===== verification/AsmSpec.v ===== *)
(** The assembler implements the specified language: pass 1 computes the layout of
    [Syntax], pass 2 the bytes of its items, and [assemble] the specified image. *)

From S2P Require Import Prelude CLib Memory Instruction Symtab Lexer LexFacts Parser Assembler.
From S2P Require Import AsmFacts EmitFacts AsmCorrect RtParse Syntax SyntaxFacts ParseFacts.
From stdpp Require Import relations.
Open Scope Z_scope.

(** ** Items are placeable *)

(** What the grammar says about an item: bytes in strings, the operand kinds of the data
    directives, at most two operands. *)
Definition item_ok (it : Item) : Prop :=
  match it with
  | I_instr _ os _ => (length os <= 2)%nat
  | I_string bytes _ => is_byte_list bytes
  | I_word o _ => is_number_or_label o = true
  | I_byte o _ => is_number o = true
  | I_label _ _ | I_org _ _ | I_data _ => True
  end.

Lemma item_syntax_ok w it : item_syntax w it -> token_bytes w -> item_ok it.
Proof.
  destruct 1 as [t op ts os Ht _ Hos| | |? ? ? ?| |]; intros Hb; simpl; try done.
  - destruct Hos; simpl; lia.
  - unfold token_bytes in Hb. apply Forall_cons in Hb as [_ Hb]. by apply Forall_cons in Hb as [Hb _].
Qed.

Lemma line_syntax_ok w items : line_syntax w items -> token_bytes w -> Forall item_ok items.
Proof.
  unfold token_bytes. destruct 1 as [| |ts it Hi|t c ts it _ _ Hi]; intros Hb; repeat constructor.
  - by eapply item_syntax_ok.
  - rewrite !Forall_cons in Hb. eapply item_syntax_ok; [done|]. apply Hb.
Qed.

Lemma program_syntax_ok ts items : program_syntax ts items -> token_bytes ts -> Forall item_ok items.
Proof.
  unfold token_bytes. induction 1 as [w items e S _|w items n ts items' S _ _ IH]; intros Hb;
    apply Forall_app in Hb as [H1 H2].
  - by eapply line_syntax_ok.
  - apply Forall_app. split; [by eapply line_syntax_ok|]. apply Forall_cons in H2 as [_ H2]. auto.
Qed.

Lemma item_kind_placeable it k size : item_ok it -> item_kind it = Some (k, size) -> placeable k size.
Proof.
  destruct it as [| op os ln| | |bytes ln|o ln|o ln]; simpl; intros Hok H; try done; try (simplify_eq; by constructor).
  pose proof (instr_modes op os Hok) as Hm. destruct (opcode_masks op) as [k1 k2] eqn:Ek.
  destruct (instr_form op os) as [[m1 m2]|]; [|done]. simpl in H. injection H as <- <-.
  destruct Hm as (En & E1 & E2). rewrite <- En. constructor; rewrite Ek; cbn [fst snd]; [done|done|done].
Qed.

(** The items that occupy bytes are placed at the address counter. *)
Definition occupies (it : Item) : Prop :=
  match it with I_label _ _ | I_org _ _ | I_data _ => False | _ => True end.

Lemma do_item_place it stmts symtab sec : occupies it ->
  do_item it (stmts, symtab, sec) =
    (p ← item_kind it;
     Some ((place stmts sec p.1 (item_line it) p.2).1, symtab, (place stmts sec p.1 (item_line it) p.2).2)).
Proof.
  destruct it as [n ln|op os ln|v ln|ln|bytes ln|o ln|o ln]; try done; intros _; unfold do_item.
  all: cbn [item_kind item_line]; try destruct (instr_form op os) as [[m1 m2]|]; cbn [mbind option_bind fst snd];
    try done; by destruct (place _ _ _ _ _).
Qed.

Lemma lay_item_place it L : occupies it ->
  lay_item it L =
    (n ← item_len it;
     if ly_next L + n <=? 0xFFFF then
       let L' := ly_move L (ly_next L + n) in
       Some (mkLayout (ly_data L') (ly_code_next L') (ly_data_next L') (ly_labels L')
               (ly_placed L ++ [mkPlaced (ly_data L) (ly_next L) it]))
     else None).
Proof. by destruct it. Qed.

Lemma do_item_step it s s' : item_ok it -> do_item it s = Some s' -> pass1_step s s'.
Proof.
  intros Hok H. destruct s as [[stmts symtab] sec].
  assert (occupies it -> pass1_step (stmts, symtab, sec) s') as Hplace.
  { intros Ho. rewrite do_item_place in H by done. destruct (item_kind it) as [[k size]|] eqn:Ek; [|done].
    injection H as <-. apply p1_place. by eapply item_kind_placeable. }
  destruct it as [n ln|op os ln|v ln|ln|bytes ln|o ln|o ln]; try (by apply Hplace); unfold do_item in H.
  - destruct (symtab_define _ _ _) eqn:E; [|done]. simpl in H. simplify_eq. by constructor.
  - destruct (_ && _) eqn:E in H; [|done]. injection H as <-. constructor; unfold is_u16; lia.
  - destruct (data_seen sec) eqn:E; [done|]. injection H as <-. by constructor.
Qed.

Lemma do_items_steps items s s' : Forall item_ok items -> do_items items s = Some s' -> rtc pass1_step s s'.
Proof.
  intros Hok. revert s. induction Hok as [|it items Hi _ IH]; intros s H; simpl in H; [by simplify_eq|].
  destruct (do_item it s) as [s1|] eqn:E; [|done]. simpl in H.
  eapply rtc_l; [by eapply do_item_step|auto].
Qed.

Lemma all_fit_earlier s s' : rtc pass1_step s s' -> all_fit s'.1.1 -> all_fit s.1.1.
Proof.
  intros Hr Hf. destruct (steps_prefix _ _ Hr) as [l E]. unfold all_fit in *. rewrite E in Hf.
  by apply Forall_app in Hf as [? _].
Qed.

(** ** The layouts agree *)

Definition placed_as (p : Placed) (st : Statement) : Prop :=
  pl_data p = in_data st /\ pl_addr p = st_address st /\
  item_kind (pl_item p) = Some (kind st, encoded_size st) /\ item_ok (pl_item p) /\
  st_line st = item_line (pl_item p).

Record sim (L : Layout) (s : P1State) : Prop := {
  sm_layout : layout s;
  sm_fit : all_fit s.1.1;
  sm_data : ly_data L = sec_in_data s.2;
  sm_code : ly_code_next L = code_cursor s.2;
  sm_dnext : ly_data L = true -> ly_data_next L = data_cursor s.2;
  sm_labels : ly_labels L = symtab_map s.1.2;
  sm_placed : Forall2 placed_as (ly_placed L) (List.filter emits s.1.1);
}.

Lemma sim_start : sim ly_start pass1_start.
Proof. split; try done; try apply layout_start; constructor. Qed.

Lemma sim_next L s : sim L s -> ly_next L = active_cursor s.2.
Proof.
  intros H. unfold ly_next, active_cursor. rewrite <- (sm_data _ _ H).
  destruct (ly_data L) eqn:E; [by apply (sm_dnext _ _ H)|apply (sm_code _ _ H)].
Qed.

Lemma item_len_kind it : item_len it = (item_kind it ≫= fun p => Some p.2).
Proof.
  destruct it as [|op os ln| | | | |]; simpl; try done. destruct (instr_form op os) as [[m1 m2]|]; simpl; [|done].
  by rewrite !mode_len_size.
Qed.

Lemma filter_silent l st : emits st = false -> List.filter emits (l ++ [st]) = List.filter emits l.
Proof. intros H. rewrite List.filter_app. simpl. by rewrite H, app_nil_r. Qed.

Lemma all_fit_silent l st : emits st = false -> all_fit l -> all_fit (l ++ [st]).
Proof. intros H Hl. apply Forall_app. split; [done|]. constructor; [congruence|constructor]. Qed.

Section sim_step.
Context (L : Layout) (stmts : list Statement) (symtab : SymbolTable) (sec : SectionState).
Context (H : sim L (stmts, symtab, sec)).

Lemma sim_label n ln :
  match lay_item (I_label n ln) L with
  | Some L' => exists s', do_item (I_label n ln) (stmts, symtab, sec) = Some s' /\ sim L' s'
  | None => do_item (I_label n ln) (stmts, symtab, sec) = None
  end.
Proof.
  cbn [lay_item do_item]. pose proof (sim_next _ _ H) as Hn. cbn [snd] in Hn.
  destruct H as [Hl Hf D C DN LB P]. cbn [fst snd] in *. rewrite LB, Hn, <- symtab_lookup_map.
  destruct (symtab_define symtab n (active_cursor sec)) as [tab|] eqn:E.
  - destruct (symtab_define_map _ _ _ _ E) as [E1 E2]. rewrite symtab_lookup_map, E1. eexists. split; [done|].
    split; cbn [fst snd ly_data ly_code_next ly_data_next ly_labels ly_placed]; try done.
    + by eapply layout_silent.
    + by apply all_fit_silent.
    + by rewrite filter_silent.
  - unfold symtab_define in E. by destruct (symtab_lookup symtab n).
Qed.

Lemma sim_org v ln :
  match lay_item (I_org v ln) L with
  | Some L' => exists s', do_item (I_org v ln) (stmts, symtab, sec) = Some s' /\ sim L' s'
  | None => do_item (I_org v ln) (stmts, symtab, sec) = None
  end.
Proof.
  cbn [lay_item do_item]. pose proof (sim_next _ _ H) as Hn. cbn [snd] in Hn. rewrite Hn.
  destruct H as [Hl Hf D C DN LB P]. cbn [fst snd] in *.
  assert (is_u16 (active_cursor sec)) as Hu.
  { destruct (lo_u16 _ Hl) as (U1 & U2 & _). unfold active_cursor. by destruct (sec_in_data sec). }
  unfold is_u16 in Hu.
  destruct ((active_cursor sec <=? v) && (v <=? 0xFFFF)) eqn:G.
  - assert ((0 <=? v) && (v <=? 0xFFFF) && (active_cursor sec <=? v) = true) as -> by lia.
    eexists. split; [done|]. unfold ly_move.
    assert (layout (stmts ++ [mkStmt STMT_ORG ln false 0 0], symtab, set_active_cursor sec v)) as Hl'
      by (eapply layout_silent; [done|]; apply layout_org; [unfold is_u16; lia|lia|done]).
    pose proof (all_fit_silent stmts (mkStmt STMT_ORG ln false 0 0) eq_refl Hf) as Hf'.
    unfold set_active_cursor in *. rewrite D.
    destruct (sec_in_data sec) eqn:Es; split; cbn [fst snd ly_data ly_code_next ly_data_next ly_labels
      ly_placed sec_in_data code_cursor data_cursor] in *; rewrite ?filter_silent by done; try done.
  - by assert ((0 <=? v) && (v <=? 0xFFFF) && (active_cursor sec <=? v) = false) as -> by lia.
Qed.

Lemma sim_data ln :
  match lay_item (I_data ln) L with
  | Some L' => exists s', do_item (I_data ln) (stmts, symtab, sec) = Some s' /\ sim L' s'
  | None => do_item (I_data ln) (stmts, symtab, sec) = None
  end.
Proof.
  cbn [lay_item do_item]. destruct H as [Hl Hf D C DN LB P]. cbn [fst snd] in *.
  pose proof (lo_mode _ Hl) as M. cbn [snd] in M. rewrite D, M.
  destruct (data_seen sec) eqn:Ed; [done|]. eexists. split; [done|].
  split; cbn [fst snd ly_data ly_code_next ly_data_next ly_labels ly_placed sec_in_data code_cursor data_cursor];
    rewrite ?filter_silent by done; try done.
  - eapply layout_silent; [done|]. by apply layout_data.
  - by apply all_fit_silent.
Qed.

Lemma sim_place it : occupies it -> item_ok it ->
  match lay_item it L with
  | Some L' => exists s', do_item it (stmts, symtab, sec) = Some s' /\ sim L' s'
  | None => forall s', do_item it (stmts, symtab, sec) = Some s' -> ~ all_fit s'.1.1
  end.
Proof.
  intros Ho Hok. rewrite lay_item_place, do_item_place by done. rewrite item_len_kind.
  destruct (item_kind it) as [[k size]|] eqn:Ek; cbn [mbind option_bind fst snd]; [|done].
  pose proof (item_kind_placeable _ _ _ Hok Ek) as Hk.
  pose proof (sim_next _ _ H) as Hn. cbn [snd] in Hn. rewrite Hn.
  set (st := mkStmt k (item_line it) (sec_in_data sec) (active_cursor sec) size).
  pose proof (placeable_emits k size Hk (item_line it) (sec_in_data sec) (active_cursor sec) size) as He.
  assert (Hf' : all_fit (place stmts sec k (item_line it) size).1 <-> active_cursor sec + size <= 0xFFFF).
  { rewrite place_eq. cbn [fst]. unfold all_fit. rewrite Forall_app, Forall_singleton. fold st.
    pose proof (sm_fit _ _ H) as Hf. split; [intros [_ Hs]; exact (Hs He)|]. intros Hle. split; [exact Hf|].
    intros _. exact Hle. }
  destruct (Z.leb_spec (active_cursor sec + size) 0xFFFF) as [Hle|Hgt].
  - apply Hf' in Hle as Hfit. eexists. split; [done|].
    pose proof (layout_place stmts symtab sec k (item_line it) size Hk Hfit (sm_layout _ _ H)) as Hl'.
    assert (is_u16 (active_cursor sec)) as Hu.
    { destruct (lo_u16 _ (sm_layout _ _ H)) as (U1 & U2 & _). unfold active_cursor. cbn [snd] in *.
      by destruct (sec_in_data sec). }
    assert (u16 (active_cursor sec + size) = active_cursor sec + size) as Eu.
    { apply u16_id. pose proof (placeable_size _ _ Hk). unfold is_u16 in *. lia. }
    assert (placed_as (mkPlaced (ly_data L) (active_cursor sec) it) st) as Hp
      by (split_and!; [apply (sm_data _ _ H)|done|exact Ek|done|done]).
    destruct H as [Hl Hf D C DN LB P]. cbn [fst snd] in *. rewrite place_eq in *. fold st in Hl', Hfit |- *.
    rewrite Eu in *. cbn [fst snd] in *. unfold ly_move, set_active_cursor, note_section_start in *.
    rewrite D in *. destruct (sec_in_data sec) eqn:Es, (data_started sec), (code_started sec);
      cbn [negb] in *; rewrite ?Es in *; split; cbn [fst snd ly_data ly_code_next ly_data_next ly_labels ly_placed
        sec_in_data code_cursor data_cursor] in *; try done;
      (rewrite List.filter_app; simpl; unfold st at 1; rewrite He; apply Forall2_app; [done|by constructor]).
  - intros s' [= <-]. cbn [fst]. rewrite Hf'. lia.
Qed.

Lemma sim_item it : item_ok it ->
  match lay_item it L with
  | Some L' => exists s', do_item it (stmts, symtab, sec) = Some s' /\ sim L' s'
  | None => forall s', do_item it (stmts, symtab, sec) = Some s' -> ~ all_fit s'.1.1
  end.
Proof.
  intros Hok. assert (forall o : option P1State, o = None -> forall s', o = Some s' -> ~ all_fit s'.1.1) as Hno
    by congruence.
  destruct it as [n ln|op os ln|v ln|ln|bytes ln|o ln|o ln]; try (by apply sim_place).
  - pose proof (sim_label n ln). destruct (lay_item _ L); [done|by apply Hno].
  - pose proof (sim_org v ln). destruct (lay_item _ L); [done|by apply Hno].
  - pose proof (sim_data ln). destruct (lay_item _ L); [done|by apply Hno].
Qed.
End sim_step.

Lemma sim_items items L s : Forall item_ok items -> sim L s ->
  match lay_items items L with
  | Some L' => exists s', do_items items s = Some s' /\ sim L' s'
  | None => forall s', do_items items s = Some s' -> ~ all_fit s'.1.1
  end.
Proof.
  intros Hok. revert L s. induction Hok as [|it items Hi Hok IH]; intros L s H; simpl; [by exists s|].
  destruct s as [[stmts symtab] sec]. pose proof (sim_item L stmts symtab sec H it Hi) as H1.
  destruct (lay_item it L) as [L1|]; cbn [mbind option_bind].
  - destruct H1 as (s1 & -> & H1). cbn [mbind option_bind]. by apply IH.
  - intros s' E. destruct (do_item it _) as [s1|] eqn:E1; [|done]. cbn [mbind option_bind] in E.
    intros Hf. refine (H1 s1 eq_refl (all_fit_earlier _ _ _ Hf)). by eapply do_items_steps.
Qed.

(** ** The bytes agree *)

(** An operand's value and range check. *)
Lemma operand_value_code symtab m o : op_kind o <> OPKIND_NONE ->
  match operand_value true o m symtab with
  | Ok v => operand_code (symtab_map symtab) m o = Some (encoded m v)
  | Err _ _ => operand_code (symtab_map symtab) m o = None
  | UB => False
  end.
Proof.
  intros Hk. unfold operand_value, operand_code.
  assert (Hv : match resolve_value o symtab with
    | inr v => kind_value (symtab_map symtab) (op_kind o) = Some v
    | inl _ => kind_value (symtab_map symtab) (op_kind o) = None end).
  { unfold resolve_value, kind_value. destruct (op_kind o); try done;
      rewrite <- symtab_lookup_map; by destruct (symtab_lookup _ _). }
  destruct (resolve_value o symtab) as [|v]; rewrite Hv; [done|]. cbn [mbind option_bind].
  assert (forall a b, (v <? a) || (b <? v) = negb ((a <=? v) && (v <=? b))) as Hr by lia.
  unfold range_check, value_fits, encoded. destruct m; try done; rewrite Hr; by destruct (_ && _).
Qed.

Lemma operand_form_kind mask o m : operand_form mask (op_kind o) = Some m -> op_kind o <> OPKIND_NONE.
Proof. by destruct (op_kind o). Qed.

Lemma instr_form_kinds op os m1 m2 : instr_form op os = Some (m1, m2) ->
  (length os <= 2)%nat /\ Forall (fun o => op_kind o <> OPKIND_NONE) os.
Proof.
  unfold instr_form. destruct (opcode_masks op) as [k1 k2].
  destruct os as [|o1 [|o2 [|]]]; try done; intros H; destruct (_ && _); try done; simpl.
  - split; [lia|constructor].
  - destruct (operand_form k1 _) eqn:E1; [|done]. split; [lia|].
    repeat constructor; by eapply operand_form_kind.
  - destruct (operand_form k1 _) eqn:E1; [|done]. simpl in H. destruct (operand_form k2 _) eqn:E2; [|done].
    split; [lia|]. repeat constructor; by eapply operand_form_kind.
Qed.

Lemma instr_code_resolved symtab op os m1 m2 : instr_form op os = Some (m1, m2) ->
  match resolved symtab op (zlen os) (default no_operand (os !! 0%nat)) (default no_operand (os !! 1%nat)) m1 m2 with
  | Ok i => instr_code (symtab_map symtab) op os = Some i
  | Err _ _ => instr_code (symtab_map symtab) op os = None
  | UB => False
  end.
Proof.
  intros Hf. destruct (instr_form_kinds _ _ _ _ Hf) as [Hlen Hk].
  unfold instr_code. rewrite Hf. cbn [mbind option_bind]. unfold resolved.
  unfold instr_form in Hf. destruct (opcode_masks op) as [k1 k2].
  destruct os as [|o1 [|o2 [|]]]; try done; destruct (_ && _); try done;
    cbn [length default lookup list_lookup Z.leb Z.of_nat].
  - by simplify_eq/=.
  - apply Forall_cons in Hk as [Hk1 _]. change (1 <=? Z.of_nat 1) with true. change (2 <=? Z.of_nat 1) with false.
    pose proof (operand_value_code symtab m1 o1 Hk1) as H1. unfold id.
    destruct (operand_form k1 _); [|done]. simpl in Hf. simplify_eq.
    destruct (operand_value true o1 m1 symtab); cbn [mbind res_bind]; [|by rewrite H1|done]. by rewrite H1.
  - apply Forall_cons in Hk as [Hk1 Hk]. apply Forall_cons in Hk as [Hk2 _]. unfold id.
    change (1 <=? Z.of_nat 2) with true. change (2 <=? Z.of_nat 2) with true.
    pose proof (operand_value_code symtab m1 o1 Hk1) as H1. pose proof (operand_value_code symtab m2 o2 Hk2) as H2.
    destruct (operand_value true o1 m1 symtab); cbn [mbind res_bind]; [|by rewrite H1|done]. rewrite H1.
    cbn [mbind option_bind].
    destruct (operand_value true o2 m2 symtab); cbn [mbind res_bind]; [|by rewrite H2|done]. by rewrite H2.
Qed.

Lemma stmt_bytes_item symtab p st : placed_as p st ->
  match stmt_bytes symtab st with
  | Ok bs => item_bytes (symtab_map symtab) (pl_item p) = Some bs
  | Err _ _ => item_bytes (symtab_map symtab) (pl_item p) = None
  | UB => False
  end.
Proof.
  intros (_ & _ & Hk & Hok & _). unfold stmt_bytes.
  destruct (pl_item p) as [n ln|op os ln|v ln|ln|bytes ln|o ln|o ln]; try done; cbn [item_kind] in Hk.
  - destruct (instr_form op os) as [[m1 m2]|] eqn:Ef; [|done]. cbn [mbind option_bind] in Hk.
    injection Hk as <- _. pose proof (instr_code_resolved symtab op os m1 m2 Ef) as H.
    cbn [item_bytes]. destruct (resolved _ _ _ _ _ _ _); cbn [mbind res_bind]; [by rewrite H|by rewrite H|done].
  - injection Hk as <- _. done.
  - injection Hk as <- _. cbn [item_bytes item_ok] in *. unfold is_number_or_label in Hok. unfold resolve_value, kind_value.
    destruct (op_kind o); try done. rewrite <- symtab_lookup_map. by destruct (symtab_lookup symtab label).
  - injection Hk as <- _. cbn [item_bytes item_ok] in *. unfold is_number in Hok. unfold kind_value.
    destruct (op_kind o); try done. cbn [mbind option_bind].
    assert ((number <? 0) || (255 <? number) = negb ((0 <=? number) && (number <=? 255))) as -> by lia.
    by destruct ((0 <=? number) && (number <=? 255)).
Qed.

(** ** Sections as blobs *)

(** Bytes of the other addresses are not touched by pass 2. *)
Lemma emit_gaps symtab stmts b b' d a : emittable stmts -> emit_statements stmts symtab b = Ok b' ->
  Forall (fun st => ~ (st_address st <= a < st_end st)) (section d stmts) ->
  mem_read8 (buf d b') a = mem_read8 (buf d b) a.
Proof.
  intros He. revert b. induction He as [|st stmts Hst _ IH]; intros b E Ha; simpl in E; [by simplify_eq|].
  destruct (emits st) eqn:Es.
  - destruct (Hst eq_refl) as (Hp & Hf & Hn). pose proof (emit_one symtab st b Es Hp Hf Hn) as H1.
    destruct (stmt_bytes symtab st); [|by rewrite H1 in E|done]. destruct H1 as (b1 & E1 & Hr & _).
    rewrite E1 in E. cbn [mbind res_bind] in E. unfold section, in_section in Ha. cbn [List.filter] in Ha.
    rewrite Es in Ha. cbn [andb] in Ha. destruct (eqb (in_data st) d) eqn:Ed.
    + apply Forall_cons in Ha as [Hst' Ha]. rewrite (IH b1 E Ha), Hr, Ed. cbn [andb].
      by assert ((st_address st <=? a) && (a <? st_end st) = false) as -> by lia.
    + rewrite (IH b1 E Ha), Hr, Ed. done.
  - rewrite emit_silent in E by done. cbn [mbind res_bind] in E. apply IH; [done|].
    unfold section, in_section in *. cbn [List.filter] in Ha. by rewrite Es in Ha.
Qed.

Lemma buf_read_app m start n1 n2 : 0 <= start -> start + Z.of_nat n1 + Z.of_nat n2 <= 65536 ->
  buf_read m start (n1 + n2) =
    (l1 ← buf_read m start n1; l2 ← buf_read m (start + Z.of_nat n1) n2; Ok (l1 ++ l2)).
Proof.
  revert start. induction n1 as [|n1 IH]; intros start Hs Hn; cbn [Nat.add buf_read].
  - rewrite Z.add_0_r. cbn [mbind res_bind]. by destruct (buf_read m start n2).
  - assert ((0 <=? start) && (start <? 65536) = true) as -> by lia.
    rewrite IH by lia. replace (start + 1 + Z.of_nat n1) with (start + Z.of_nat (S n1)) by lia.
    destruct (buf_read m (start + 1) n1); cbn [mbind res_bind]; [|done..].
    by destruct (buf_read m _ n2).
Qed.

(** Reading a run of known bytes. *)
Lemma buf_read_known m start bs : 0 <= start -> start + zlen bs <= 65536 ->
  (forall k, (k < length bs)%nat -> mem_read8 m (start + Z.of_nat k) = default 0 (bs !! k)) ->
  buf_read m start (length bs) = Ok bs.
Proof.
  revert start. induction bs as [|b bs IH]; intros start Hs Hl Hr; cbn [length buf_read]; [done|].
  cbn [length] in *. assert ((0 <=? start) && (start <? 65536) = true) as -> by lia.
  rewrite IH; [|lia|lia|].
  - cbn [mbind res_bind]. specialize (Hr 0%nat ltac:(lia)). rewrite Z.add_0_r in Hr. by rewrite Hr.
  - intros k Hk. specialize (Hr (S k) ltac:(lia)). replace (start + 1 + Z.of_nat k) with (start + Z.of_nat (S k)) by lia.
    exact Hr.
Qed.

Lemma buf_read_zeros m start n : 0 <= start -> start + Z.of_nat n <= 65536 ->
  (forall a, start <= a < start + Z.of_nat n -> mem_read8 m a = 0) -> buf_read m start n = Ok (replicate n 0).
Proof.
  intros Hs Hn Hz. rewrite <- (length_replicate n 0) at 1. apply buf_read_known; rewrite ?length_replicate; try lia.
  intros k Hk. rewrite Hz by lia. by rewrite (lookup_replicate_2 _ _ _ Hk).
Qed.

(** Reading a section back gives the specified blob: the bytes of its items, with zeros
    where [.org] skipped addresses. *)
Lemma buf_read_blob symtab m ps sts lo hi : Forall2 placed_as ps sts -> chain lo sts hi ->
  0 <= lo -> hi <= 65536 ->
  Forall (fun st => exists bs, stmt_bytes symtab st = Ok bs /\ forall k, (k < length bs)%nat ->
    mem_read8 m (st_address st + Z.of_nat k) = default 0 (bs !! k)) sts ->
  (forall a, lo <= a < hi -> Forall (fun st => ~ (st_address st <= a < st_end st)) sts -> mem_read8 m a = 0) ->
  exists bytes, blob (symtab_map symtab) lo ps hi = Some bytes /\
    buf_read m lo (Z.to_nat (hi - lo)) = Ok bytes.
Proof.
  intros HF. revert lo. induction HF as [|p st ps sts Hp HF IH]; intros lo Hc Hlo Hhi Hb Hz; simpl in Hc.
  - eexists. split; [done|]. apply buf_read_zeros; [lia|lia|]. intros a Ha. apply Hz; [lia|constructor].
  - destruct Hc as (H1 & H2 & Hc). apply Forall_cons in Hb as [(bs & Eb & Hr) Hb].
    pose proof (chain_le _ _ _ Hc) as Hend.
    pose proof Hp as (_ & Ea & Ek & Hok & _). pose proof (item_kind_placeable _ _ _ Hok Ek) as Hpl.
    destruct (stmt_bytes_spec _ _ _ Hpl Eb) as [Hsz _].
    pose proof (stmt_bytes_item symtab p st Hp) as Hi. rewrite Eb in Hi.
    unfold st_end in *. destruct (IH (st_address st + encoded_size st) Hc ltac:(lia) Hhi Hb) as (rest & Er & Hread).
    { intros a Ha Hout. apply Hz; [lia|]. constructor; [lia|done]. }
    cbn [blob]. rewrite Hi, Ea. cbn [mbind option_bind]. rewrite Hsz, Er. eexists. split; [done|].
    replace (Z.to_nat (hi - lo)) with (Z.to_nat (st_address st - lo) +
      (length bs + Z.to_nat (hi - (st_address st + encoded_size st))))%nat by lia.
    rewrite buf_read_app, (buf_read_zeros m lo); [|lia|lia| |lia|lia].
    2:{ intros a Ha. apply Hz; [lia|]. constructor; [lia|]. apply List.Forall_forall. intros s Hs.
        destruct (chain_bounds _ _ _ _ Hc Hs). lia. }
    cbn [mbind res_bind]. replace (lo + Z.of_nat (Z.to_nat (st_address st - lo))) with (st_address st) by lia.
    rewrite buf_read_app, buf_read_known by (done || lia). cbn [mbind res_bind].
    rewrite Hsz, Hread. done.
Qed.

Lemma blob_items labels lo ps hi bytes : blob labels lo ps hi = Some bytes ->
  Forall (fun p => exists bs, item_bytes labels (pl_item p) = Some bs) ps.
Proof.
  revert lo bytes. induction ps as [|p ps IH]; intros lo bytes H; [constructor|]. cbn [blob] in H.
  destruct (item_bytes labels (pl_item p)) as [bs|] eqn:E; [|done]. cbn [mbind option_bind] in H.
  destruct (blob _ _ ps hi) eqn:Er; [|done]. constructor; [by eexists|by eapply IH].
Qed.

(** ** The image *)

Lemma section_placed d L stmts : Forall2 placed_as (ly_placed L) (List.filter emits stmts) ->
  Forall2 placed_as (section_items d L) (section d stmts).
Proof.
  unfold section_items, section. generalize (ly_placed L). intros ps H.
  assert (List.filter (in_section d) stmts = List.filter (fun st => eqb (in_data st) d) (List.filter emits stmts)) as ->.
  { clear H. induction stmts as [|st l IH]; simpl; [done|]. unfold in_section at 1.
    destruct (emits st); simpl; [|done]. destruct (eqb (in_data st) d); by rewrite IH. }
  induction H as [|p st ps sts Hp _ IH]; simpl; [constructor|].
  pose proof Hp as (-> & _). destruct (eqb (in_data st) d); [by constructor|done].
Qed.

Lemma Forall2_head {A B} (R : A -> B -> Prop) x l k : Forall2 R (x :: l) k -> exists y k', k = y :: k' /\ R x y.
Proof. inversion 1; eauto. Qed.

Section image.
Context (source : list Z) (stmts : list Statement) (symtab : SymbolTable) (sec : SectionState) (L : Layout).
Context (Hb : is_byte_list source) (Hp : pass1 source = Ok (stmts, symtab, sec)).
Context (H : sim L (stmts, symtab, sec)).

Let Hf := sm_fit _ _ H.
Let Hl := sm_layout _ _ H.

Lemma section_blob d b : emit_statements stmts symtab (mkBuf empty_buffer empty_buffer) = Ok b ->
  exists bytes, blob (ly_labels L) (sec_lo sec d) (section_items d L) (sec_hi sec d) = Some bytes /\
    buf_read (buf d b) (sec_lo sec d) (Z.to_nat (sec_hi sec d - sec_lo sec d)) = Ok bytes.
Proof.
  intros Eb. rewrite (sm_labels _ _ H).
  pose proof (program_buffers source stmts symtab sec Hb Hp Hf) as Hbuf. rewrite Eb in Hbuf.
  destruct Hbuf as [Hholds _]. destruct (lo_u16 _ Hl) as (U1 & U2 & U3 & U4). cbn [snd] in *. unfold is_u16 in *.
  apply (buf_read_blob _ _ _ (section d stmts)).
  - apply section_placed, (sm_placed _ _ H).
  - exact (layout_chain _ d Hl).
  - unfold sec_lo. destruct d, (data_started sec), (code_started sec); lia.
  - unfold sec_hi. destruct d; lia.
  - apply List.Forall_forall. intros st Hin. unfold section in Hin. apply filter_In in Hin as [Hin Hs].
    unfold in_section in Hs. apply andb_true_iff in Hs as [He Hd]. apply eqb_prop in Hd as <-.
    rewrite List.Forall_forall in Hholds. exact (Hholds st Hin He).
  - intros a Ha Hout. rewrite (emit_gaps symtab stmts _ b d a (layout_emittable _ Hl Hf) Eb Hout).
    unfold mem_read8, empty_buffer. by destruct d; cbn; rewrite lookup_empty.
Qed.

(** The header's numbers are the layout's. *)
Lemma spec_image_sections : spec_image L =
  (cb ← blob (ly_labels L) (sec_lo sec false) (section_items false L) (sec_hi sec false);
   db ← blob (ly_labels L) (data_start_addr sec) (section_items true L)
          (if data_started sec then data_cursor sec else data_start_addr sec);
   Some (image_of (code_start_addr sec) (code_cursor sec - code_start_addr sec) (code_start_addr sec)
           (if data_started sec then data_cursor sec - data_start_addr sec else 0) (data_start_addr sec) (cb ++ db))).
Proof.
  pose proof (section_numbers source stmts symtab sec Hb Hp Hf) as (Ua & Uc & Uda & Uds & _).
  destruct (pass1_spec _ _ _ _ Hb Hp) as [_ Hcs].
  pose proof (section_placed false L stmts (sm_placed _ _ H)) as P0.
  pose proof (section_placed true L stmts (sm_placed _ _ H)) as P1.
  pose proof (lo_code_start _ Hl) as CS. pose proof (lo_code_head _ Hl) as CH.
  pose proof (lo_data_start _ Hl) as DS. pose proof (lo_data_head _ Hl) as DH.
  pose proof (lo_data_zero _ Hl) as DZ. cbn [fst snd] in *. rewrite Hcs in CS.
  unfold spec_image, sec_lo, sec_hi. rewrite Hcs, (sm_code _ _ H). cbn [snd].
  destruct (section_items false L) as [|p ps].
  { apply Forall2_nil_inv_l in P0. by rewrite P0 in CS. }
  destruct (Forall2_head _ _ _ _ P0) as (st & l & E0 & (_ & Ea & _)). rewrite Ea, <- (CH _ _ E0).
  destruct (section_items true L) as [|q qs].
  - apply Forall2_nil_inv_l in P1. rewrite P1 in DS. rewrite DS in *. cbn [negb] in *. rewrite (DZ eq_refl) in *.
    destruct (blob _ _ (p :: ps) _) as [cb|]; cbn [blob mbind option_bind]; [|done].
    by rewrite image_of_list by done.
  - destruct (Forall2_head _ _ _ _ P1) as (st1 & l1 & E1 & (_ & Ea1 & _)).
    rewrite E1 in DS. rewrite DS in *. cbn [negb bool_decide] in *. rewrite Ea1, <- (DH _ _ E1).
    assert (ly_data L = true) as Ed.
    { rewrite (sm_data _ _ H). cbn [snd]. pose proof (lo_mode _ Hl) as M. cbn [snd] in M.
      destruct (sec_in_data sec); [done|]. destruct (lo_no_data _ Hl (eq_sym M)) as [E _].
      cbn [fst snd] in E. by rewrite E in E1. }
    rewrite (sm_dnext _ _ H Ed). cbn [snd].
    destruct (blob _ _ (p :: ps) _) as [cb|]; cbn [mbind option_bind]; [|done].
    destruct (blob _ _ (q :: qs) _) as [db|]; cbn [mbind option_bind]; [|done]. by rewrite image_of_list by done.
Qed.
End image.

Section assembled.
Context (source : list Z) (stmts : list Statement) (symtab : SymbolTable) (sec : SectionState) (L : Layout).
Context (Hb : is_byte_list source) (Hp : pass1 source = Ok (stmts, symtab, sec)).
Context (H : sim L (stmts, symtab, sec)).

Let Hf := sm_fit _ _ H.
Let Hl := sm_layout _ _ H.

(** What [assemble] returns is the specified image. *)
Lemma assembled_is_spec image : assemble source = Ok image -> spec_image L = Some image.
Proof.
  intros Hi. rewrite (spec_image_sections source stmts symtab sec L Hb Hp H).
  pose proof (assemble_image source stmts symtab sec Hb Hp Hf) as A. rewrite Hi in A.
  destruct A as (b & cb & db & Eb & E1 & E2 & ->). destruct (pass1_spec _ _ _ _ Hb Hp) as [_ Hcs].
  destruct (section_blob source stmts symtab sec L Hb Hp H false b Eb) as (c & B1 & R1).
  destruct (section_blob source stmts symtab sec L Hb Hp H true b Eb) as (d & B2 & R2).
  pose proof (lo_data_start _ Hl) as DS. pose proof (lo_data_zero _ Hl) as DZ. cbn [fst snd] in DS, DZ.
  rewrite B1. cbn [mbind option_bind]. unfold sec_lo, sec_hi in *. rewrite Hcs in R1. cbn [buf] in *.
  rewrite E1 in R1. injection R1 as <-. destruct (data_started sec).
  - rewrite B2. cbn [mbind option_bind]. rewrite E2 in R2. injection R2 as <-. done.
  - rewrite (DZ eq_refl) in *. pose proof (section_placed true L stmts (sm_placed _ _ H)) as P.
    destruct (section true stmts); [|done]. apply Forall2_nil_inv_r in P. rewrite P.
    cbn [blob mbind option_bind]. simpl in E2. injection E2 as <-. done.
Qed.

(** An image that is specified is assembled: every statement has bytes. *)
Lemma spec_is_assembled image : spec_image L = Some image -> assemble source = Ok image.
Proof.
  intros Hs. assert (exists image', assemble source = Ok image') as [image' Hi].
  2:{ pose proof (assembled_is_spec _ Hi). congruence. }
  assert (Hbytes : Forall (fun st => emits st = true -> exists bs, stmt_bytes symtab st = Ok bs) stmts).
  { unfold spec_image in Hs. destruct (section_items false L) as [|p ps] eqn:E0; [done|].
    destruct (match section_items true L with [] => _ | _ => _ end) as [da dn].
    destruct (blob _ _ (p :: ps) _) as [cb|] eqn:B1; [|done]. cbn [mbind option_bind] in Hs.
    destruct (blob _ _ (section_items true L) _) as [db|] eqn:B2; [|done].
    apply blob_items in B1, B2. rewrite <- E0 in B1. rewrite (sm_labels _ _ H) in B1, B2. cbn [fst snd] in *.
    assert (Hsec : forall d, Forall (fun p => exists bs, item_bytes (symtab_map symtab) (pl_item p) = Some bs)
      (section_items d L)) by (by intros []).
    apply List.Forall_forall. intros st Hin He.
    assert (In st (section (in_data st) stmts)) as Hst
      by (apply filter_In; split; [done|]; unfold in_section; by rewrite He, eqb_reflx).
    pose proof (section_placed (in_data st) L stmts (sm_placed _ _ H)) as P.
    apply list_elem_of_In, list_elem_of_lookup in Hst as [i Hi].
    destruct (Forall2_lookup_r _ _ _ _ _ P Hi) as (q & Hq & Hqs).
    pose proof (stmt_bytes_item symtab q st Hqs) as Hb'.
    destruct (Forall_lookup_1 _ _ _ _ (Hsec _) Hq) as [bs Ebs]. rewrite Ebs in Hb'.
    destruct (stmt_bytes symtab st); [by eexists|done..]. }
  destruct (emit_ok symtab stmts (mkBuf empty_buffer empty_buffer) (layout_emittable _ Hl Hf) Hbytes) as [b Eb].
  rewrite assemble_parsed, tokens_parsed, Hp. cbn [mbind res_bind]. rewrite Eb. cbn [mbind res_bind].
  pose proof (section_numbers source stmts symtab sec Hb Hp Hf) as (Ua & Uc & Uda & Uds & _ & B1 & B2 & _ & Ec & Ed).
  unfold is_u16 in *. rewrite Ec, Ed. cbn [code code_addr code_size Parser.data data_addr data_size entry_point].
  destruct (buf_read_spec (buf_code b) (code_start_addr sec) (Z.to_nat (code_cursor sec - code_start_addr sec)))
    as (cb & -> & _); [lia..|]. cbn [mbind res_bind].
  destruct (buf_read_spec (buf_data b) (data_start_addr sec)
    (Z.to_nat (if data_started sec then data_cursor sec - data_start_addr sec else 0))) as (db & -> & _); [lia..|].
  by eexists.
Qed.
End assembled.

(** ** The refinement *)

Lemma assembled_pass1 source image : assemble source = Ok image -> exists s, pass1 source = Ok s.
Proof.
  rewrite assemble_parsed, tokens_parsed. destruct (pass1 source) as [s| |]; [by exists s|done..].
Qed.

(** A specified source passes pass 1, with the specified layout. *)
Lemma specified_pass1 source ts items L image : is_byte_list source -> lex source = Ok ts ->
  program_syntax ts items -> lay_items items ly_start = Some L -> spec_image L = Some image ->
  exists stmts symtab sec, pass1 source = Ok (stmts, symtab, sec) /\ sim L (stmts, symtab, sec).
Proof.
  intros Hb Hlex P EL Hs. destruct (lex_tokens _ _ Hb Hlex) as (t & ts' & E & _ & Ht). rewrite <- E in Ht.
  pose proof (sim_items items ly_start pass1_start (program_syntax_ok _ _ P Ht) sim_start) as Hsim.
  rewrite EL in Hsim. destruct Hsim as ([[stmts symtab] sec] & Ed & Hsim). exists stmts, symtab, sec.
  split; [|done]. apply (pass1_accepts _ _ _ Hlex). exists items. split_and!; [done..|].
  pose proof (lo_code_start _ (sm_layout _ _ Hsim)) as CS. cbn [fst snd] in CS. cbn [snd]. rewrite CS.
  pose proof (section_placed false L stmts (sm_placed _ _ Hsim)) as P0. unfold spec_image in Hs.
  destruct (section_items false L); [done|]. by destruct (Forall2_head _ _ _ _ P0) as (? & ? & -> & _).
Qed.

(** Every specified image is assembled. *)
Lemma assembles_complete source ts items image : is_byte_list source -> lex source = Ok ts ->
  program_syntax ts items -> spec_assemble items = Some image -> assemble source = Ok image.
Proof.
  intros Hb Hlex P Hs. unfold spec_assemble in Hs.
  destruct (lay_items items ly_start) as [L|] eqn:EL; [|done]. cbn [mbind option_bind] in Hs.
  destruct (specified_pass1 source ts items L image Hb Hlex P EL Hs) as (stmts & symtab & sec & Hp & Hsim).
  by apply (spec_is_assembled source stmts symtab sec L).
Qed.

(** Every assembled image whose statements fit is specified. *)
Lemma assembles_sound source ts image : is_byte_list source -> lex source = Ok ts ->
  (forall stmts symtab sec, pass1 source = Ok (stmts, symtab, sec) -> all_fit stmts) ->
  assemble source = Ok image -> exists items, program_syntax ts items /\ spec_assemble items = Some image.
Proof.
  intros Hb Hlex Hf Hi. destruct (assembled_pass1 _ _ Hi) as [[[stmts symtab] sec] Hp].
  specialize (Hf _ _ _ Hp). pose proof Hp as Hp'.
  apply (pass1_accepts _ _ _ Hlex) in Hp' as (items & P & Ed & _). exists items. split; [done|].
  destruct (lex_tokens _ _ Hb Hlex) as (t & ts' & E & _ & Ht). rewrite <- E in Ht.
  pose proof (sim_items items ly_start pass1_start (program_syntax_ok _ _ P Ht) sim_start) as Hsim.
  unfold spec_assemble. destruct (lay_items items ly_start) as [L|].
  - destruct Hsim as (s' & Ed' & Hsim). rewrite Ed in Ed'. injection Ed' as <-. cbn [mbind option_bind].
    by apply (assembled_is_spec source stmts symtab sec L Hb Hp Hsim).
  - by destruct (Hsim _ Ed).
Qed.

(** ** Errors of pass 2 *)

(** Pass 2 stops at the first statement that has no bytes, with its error. *)
Lemma emit_first_error symtab stmts b l m : emittable stmts -> emit_statements stmts symtab b = Err l m ->
  exists before st after, stmts = before ++ st :: after /\ emits st = true /\
    stmt_bytes symtab st = Err l m /\
    Forall (fun st => emits st = true -> exists bs, stmt_bytes symtab st = Ok bs) before.
Proof.
  intros He. revert b. induction He as [|st stmts Hst _ IH]; intros b E; [done|]. cbn [emit_statements] in E.
  destruct (emits st) eqn:Es.
  - destruct (Hst eq_refl) as (Hp & Hf & Ha). pose proof (emit_one symtab st b Es Hp Hf Ha) as H1.
    destruct (stmt_bytes symtab st) as [bs|l' m'|] eqn:Eb; [|rewrite H1 in E|done].
    + destruct H1 as (b1 & E1 & _). rewrite E1 in E. cbn [mbind res_bind] in E.
      destruct (IH b1 E) as (before & st' & after & -> & H). exists (st :: before), st', after.
      split_and!; try apply H; [done|]. constructor; [by eexists|apply H].
    + cbn [mbind res_bind] in E. simplify_eq. exists [], st, stmts. by split_and!.
  - rewrite emit_silent in E by done. cbn [mbind res_bind] in E.
    destruct (IH b E) as (before & st' & after & -> & H). exists (st :: before), st', after.
    split_and!; try apply H; [done|]. constructor; [congruence|apply H].
Qed.

(** Operands are on the line of their item. *)
Definition operand_lines (it : Item) : Prop :=
  match it with I_instr _ os ln => Forall (fun o => op_line o = ln) os | _ => True end.

Lemma operand_syntax_line sys w o l : operand_syntax sys w o -> Forall (fun t => line t = l) w -> op_line o = l.
Proof. destruct 1; rewrite ?Forall_cons; cbn [op_line]; tauto. Qed.

Lemma item_syntax_lines w it l : item_syntax w it -> Forall (fun t => line t = l) w ->
  operand_lines it /\ item_line it = l.
Proof.
  destruct 1 as [t op ts os Ht _ Hos|? ? [? ?]|? [? ?]|? ? [? ?]|? ? ? [? ?] Ho|? ? ? [? ?] Ho];
    rewrite Forall_cons; intros [El Hl]; (split; [|exact El]); try done.
  simpl. destruct Hos as [|ts o Ho|ts1 o1 c ts2 o2 H1 _ H2]; repeat constructor.
  - rewrite El. by eapply operand_syntax_line.
  - apply Forall_app in Hl as [Hl _]. rewrite El. by eapply operand_syntax_line.
  - apply Forall_app in Hl as [_ Hl]. apply Forall_cons in Hl as [_ Hl]. rewrite El. by eapply operand_syntax_line.
Qed.

Lemma line_syntax_lines w items l : line_syntax w items -> Forall (fun t => line t = l) w ->
  Forall operand_lines items.
Proof.
  destruct 1 as [| |ts it Hi|t c ts it _ _ Hi]; intros Hl; repeat constructor.
  - by apply (item_syntax_lines ts it l).
  - rewrite !Forall_cons in Hl. apply (item_syntax_lines ts it l); [done|apply Hl].
Qed.

Lemma program_lines ts items : program_syntax ts items -> forall l, numbered l ts -> Forall operand_lines items.
Proof.
  induction 1 as [w items e S He|w items n ts items' S Hn P IH]; intros l Hnum;
    pose proof (line_inner _ _ S) as Hw.
  - inversion Hnum as [? w' e' Hw' He' Hl E1 E2|? w' n' ts' Hw' Hn' Hl Hts E1 E2].
    + apply app_inj_tail in E2 as [<- <-]. apply Forall_app in Hl as [Hl _]. by eapply line_syntax_lines.
    + destruct (line_split w' n' ts' w e [] E2) as (_ & <- & _); try done; try (apply ends_line_type; auto). congruence.
  - inversion Hnum as [? w' e' Hw' He' Hl E1 E2|? w' n' ts' Hw' Hn' Hl Hts E1 E2].
    + destruct (line_split w' e' [] w n ts E2) as (_ & <- & _); try done; try (apply ends_line_type; auto). congruence.
    + destruct (line_split w' n' ts' w n ts E2) as (<- & <- & <-); try done; try (apply ends_line_type; auto).
      apply Forall_app in Hl as [Hl _]. apply Forall_app. split; [by eapply line_syntax_lines|by eapply IH].
Qed.

(** The first item without bytes: an undefined label or a value out of range. *)
Definition first_missing (L : Layout) (l : Z) : Prop := exists ps p ps',
  ly_placed L = ps ++ p :: ps' /\ item_bytes (ly_labels L) (pl_item p) = None /\
  item_line (pl_item p) = l /\ Forall (fun p => exists bs, item_bytes (ly_labels L) (pl_item p) = Some bs) ps.

Lemma resolved_error_line symtab op os m1 m2 l m ln : Forall (fun o => op_line o = ln) os ->
  resolved symtab op (zlen os) (default no_operand (os !! 0%nat)) (default no_operand (os !! 1%nat)) m1 m2 = Err l m ->
  l = ln.
Proof.
  intros Ho. assert (Hop : forall k i mo, operand_value (Z.of_nat (S i) <=? zlen os) (default no_operand (os !! i)) mo symtab = Err l k ->
    l = ln).
  { intros k i mo E. destruct (os !! i) as [o|] eqn:Eo.
    - assert (op_line o = ln) as <- by (by apply (Forall_lookup_1 _ _ _ _ Ho Eo)).
      unfold operand_value, set_result_error in E. simpl in E. repeat case_match; by simplify_eq.
    - apply lookup_ge_None in Eo. unfold operand_value in E.
      rewrite (proj2 (Z.leb_gt _ _)) in E by lia. done. }
  unfold resolved. intros E.
  destruct (operand_value (1 <=? _) _ _ _) as [v1|l1 e1|] eqn:E1; cbn [mbind res_bind] in E; [|simplify_eq|done].
  - destruct (operand_value (2 <=? _) _ _ _) as [v2|l2 e2|] eqn:E2; cbn [mbind res_bind] in E; simplify_eq.
    exact (Hop _ 1%nat _ E2).
  - exact (Hop _ 0%nat _ E1).
Qed.

Lemma stmt_error_line symtab p st l m : placed_as p st -> operand_lines (pl_item p) ->
  stmt_bytes symtab st = Err l m -> l = item_line (pl_item p).
Proof.
  intros (_ & _ & Hk & _ & Hl) Ho E. unfold stmt_bytes, set_result_error in E.
  destruct (pl_item p) as [n ln|op os ln|v ln|ln|bytes ln|o ln|o ln]; try done; cbn [item_kind item_line] in *.
  - destruct (instr_form op os) as [[m1 m2]|]; [|done]. cbn [mbind option_bind] in Hk. injection Hk as Ek _.
    rewrite <- Ek in E. destruct (resolved _ _ _ _ _ _ _) eqn:Er; simpl in E; simplify_eq.
    by eapply resolved_error_line.
  - injection Hk as Ek _. by rewrite <- Ek in E.
  - injection Hk as Ek _. rewrite <- Ek in E. destruct (resolve_value o symtab); by simplify_eq.
  - injection Hk as Ek _. rewrite <- Ek in E. repeat case_match; by simplify_eq.
Qed.

(** Only items of the program are placed. *)
Lemma lay_items_placed (P : Item -> Prop) items L L' : Forall P items -> lay_items items L = Some L' ->
  Forall (fun p => P (pl_item p)) (ly_placed L) -> Forall (fun p => P (pl_item p)) (ly_placed L').
Proof.
  intros Hi. revert L. induction Hi as [|it items Hit _ IH]; intros L E HL; cbn [lay_items] in E; [by simplify_eq|].
  destruct (lay_item it L) as [L1|] eqn:E1; [|done]. apply (IH L1 E). clear IH E.
  assert (forall v, ly_placed (ly_move L v) = ly_placed L) as Hm by (intros v; unfold ly_move; by destruct (ly_data L)).
  destruct it; cbn [lay_item] in E1; try destruct (item_len _); cbn [mbind option_bind] in E1;
    repeat case_match; simplify_eq; cbn [ly_placed]; rewrite ?Hm; try done;
    apply Forall_app; split; try done; by constructor.
Qed.

Lemma Forall2_split {A B} (R : A -> B -> Prop) ps l1 x l2 : Forall2 R ps (l1 ++ x :: l2) ->
  exists ps1 p ps2, ps = ps1 ++ p :: ps2 /\ Forall2 R ps1 l1 /\ R p x.
Proof.
  intros (ps1 & ps' & H1 & H2 & ->)%Forall2_app_inv_r. inversion H2; subst. eauto 8.
Qed.

Lemma emit_error_first symtab stmts sec L b l m items : sim L (stmts, symtab, sec) ->
  lay_items items ly_start = Some L -> Forall operand_lines items ->
  emit_statements stmts symtab b = Err l m -> first_missing L l.
Proof.
  intros H EL Ho E. pose proof (layout_emittable _ (sm_layout _ _ H) (sm_fit _ _ H)) as Hem. cbn [fst] in Hem.
  destruct (emit_first_error _ _ _ _ _ Hem E) as (before & st & after & -> & He & Eb & Hbefore).
  pose proof (sm_placed _ _ H) as P. cbn [fst] in P. rewrite List.filter_app in P. cbn [List.filter] in P. rewrite He in P.
  destruct (Forall2_split _ _ _ _ _ P) as (ps1 & p & ps2 & Eps & P1 & Hp).
  pose proof (lay_items_placed operand_lines items ly_start L Ho EL (Forall_nil_2 _)) as Hlines.
  unfold first_missing. rewrite Eps in Hlines |- *. apply Forall_app in Hlines as [_ Hlines].
  apply Forall_cons in Hlines as [Hline _]. rewrite (sm_labels _ _ H). cbn [fst snd].
  exists ps1, p, ps2. split_and!; [done| |symmetry; by eapply stmt_error_line|].
  - pose proof (stmt_bytes_item symtab p st Hp) as Hi. by rewrite Eb in Hi.
  - clear -P1 Hbefore. revert before Hbefore P1. induction ps1 as [|q ps1 IH]; intros before Hbefore P1; [constructor|].
    induction Hbefore as [|st before Hst Hbefore IHb]; [by inversion P1|]. cbn [List.filter] in P1.
    destruct (emits st) eqn:He; [|by apply IHb]. inversion P1 as [|? ? ? ? Hq P1']; subst.
    constructor; [|by eapply IH]. destruct (Hst eq_refl) as [bs Ebs].
    pose proof (stmt_bytes_item symtab q st Hq) as Hi. rewrite Ebs in Hi. by eexists.
Qed.
