(* ===== verification/SpecProps.v ===== *)
(** The theorems about the assembly language as implemented: errors are on the first line
    at fault, and what pass 1 accepts is well typed. *)

From S2P Require Import Prelude CLib Memory Instruction Symtab Lexer LexFacts Parser Assembler.
From S2P Require Import AsmFacts EmitFacts AsmCorrect RtParse Syntax SyntaxFacts ParseFacts AsmSpec AsmProps.
From stdpp Require Import relations.
Open Scope Z_scope.

Definition demo_tokens : list Token := match lex demo_source with Ok ts => ts | _ => [] end.

Lemma demo_tokens_eq : lex demo_source = Ok demo_tokens.
Proof. vm_compute. reflexivity. Qed.

Lemma demo_fits stmts symtab sec : pass1 demo_source = Ok (stmts, symtab, sec) -> all_fit stmts.
Proof.
  intros H. change stmts with (match Ok (stmts, symtab, sec) with Ok s => s.1.1 | _ => [] end).
  rewrite <- H. by_decide.
Qed.

(** ** Errors *)

Lemma lex_loop_Err fuel p ln out l m : lex_loop fuel p ln out = Some (Err l m) ->
  exists ts c q ln', lexes p ln ts (c :: q) ln' /\ lex_iter c q ln' = Err l m.
Proof.
  revert p ln out. induction fuel as [|fuel IH]; intros p ln out H; destruct p as [|c p]; simpl in H; try done.
  destruct (lex_iter c p ln) as [[[t q] ln']|l' m'|] eqn:E; [|simplify_eq|done].
  - destruct (IH _ _ _ H) as (ts & c' & q' & ln2 & Hl & Hi). exists (t ++ ts), c', q', ln2.
    split; [by eapply lexes_step|done].
  - exists [], c, p, ln. split; [apply lexes_refl|done].
Qed.

Lemma lex_number_line ln p l m : lex_number ln p = Err l m -> l = ln.
Proof.
  unfold lex_number, set_error. intros H.
  assert (Hh : forall p v l m, lex_hex p v <> Err l m)
    by (intros p0; induction p0 as [|a p0 IH]; intros; simpl; repeat case_match; done || apply IH).
  assert (Hd : forall p v l m, lex_dec p v <> Err l m)
    by (intros p0; induction p0 as [|a p0 IH]; intros; simpl; repeat case_match; done || apply IH).
  destruct (match p with [] => _ | _ => _ end) as [neg q].
  destruct (negb (starts_with isdigit q)); [by simplify_eq|].
  unfold lex_magnitude, set_error in H. destruct (hex_prefix q) as [q'|].
  - destruct (negb (starts_with isxdigit q')); [by simplify_eq/=|].
    destruct (lex_hex q' 0) as [[? ?]| |] eqn:E; simplify_eq/=. by destruct (Hh q' 0 l m).
  - destruct (lex_dec q 0) as [[? ?]| |] eqn:E; simplify_eq/=. by destruct (Hd q 0 l m).
Qed.

Lemma lex_string_line n ln p b l m : (length p <= n)%nat -> lex_string ln p b = Err l m -> l = ln.
Proof.
  revert p b. induction n as [|n IH]; intros p b Hn H.
  { destruct p; simpl in *; [unfold set_error in H; by simplify_eq|lia]. }
  destruct p as [|c p]; simpl in H, Hn; unfold set_error in H; [by simplify_eq|].
  case_match; [by simplify_eq|]. case_match; [done|]. case_match; [|by eapply (IH p); [lia|]].
  destruct p as [|e p]; [by simplify_eq|]. simpl in Hn.
  do 6 (case_match; [by eapply (IH p); [lia|]|]). case_match; [|by simplify_eq].
  destruct p as [|h1 [|h2 p]]; [by simplify_eq..|]. simpl in Hn.
  case_match; [by simplify_eq|]. by eapply (IH p); [lia|].
Qed.

(** The lexer's errors are on the line it has reached. *)
Lemma lex_iter_line c p ln l m : lex_iter c p ln = Err l m -> l = ln.
Proof.
  unfold lex_iter, set_error. intros H. do 7 (case_match; [done|]). case_match.
  { destruct (span isalpha p). by case_decide; simplify_eq. }
  case_match.
  { destruct (lex_string ln p []) as [[? ?]| |] eqn:E; simplify_eq/=. by eapply lex_string_line. }
  case_match.
  { destruct (lex_number ln (c :: p)) as [[? ?]| |] eqn:E; simplify_eq/=. by eapply lex_number_line. }
  case_match; [by destruct (span ident_char (c :: p))|by simplify_eq].
Qed.

Lemma buf_read_no_error b start n l m : buf_read b start n <> Err l m.
Proof.
  revert start. induction n as [|n IH]; intros start; simpl; [done|]. case_match; [|done].
  specialize (IH (start + 1)). by destruct (buf_read b (start + 1) n).
Qed.

(** The text up to a character of line [l] is tokens, and there is no token there. *)
Definition unlexable_at (source : list Z) (l : Z) : Prop :=
  exists ts c q m, lexes source 1 ts (c :: q) l /\ lex_iter c q l = Err l m.

(** The program is well formed but has nothing in its code section; it ends on line [l]. *)
Definition codeless_at (ts : list Token) (l : Z) : Prop :=
  exists items s before e, program_syntax ts items /\ do_items items pass1_start = Some s /\
    code_started s.2 = false /\ ts = before ++ [e] /\ line e = l.

Lemma lex_error_line source l m : lex source = Err l m -> unlexable_at source l.
Proof.
  unfold lex. destruct (lex_loop_enough (length source) source 1 [] ltac:(lia)) as [r E].
  rewrite E. simpl. intros ->. destruct (lex_loop_Err _ _ _ _ _ _ E) as (ts & c & q & ln & Hl & Hi).
  pose proof (lex_iter_line _ _ _ _ _ Hi) as ->. by exists ts, c, q, m.
Qed.

(** C7: If the statements of a source, when pass 1 gets through it, end at 0xFFFF or
    before, an error is reported on the line at fault, the first one for the pass that
    finds it: where the lexer finds no token; the first line that the grammar and the
    layout rules leave without an effect, all lines before it being well formed; the
    last line, of a program without code; or the line of the first item that has no
    bytes, because a label is undefined or a value out of range. *)
Theorem assembly_error_located source l m : is_byte_list source ->
  (forall stmts symtab sec, pass1 source = Ok (stmts, symtab, sec) -> all_fit stmts) ->
  assemble source = Err l m ->
  unlexable_at source l \/
  exists ts, lex source = Ok ts /\
    (rejected_at ts pass1_start l \/ codeless_at ts l \/
     exists items L, program_syntax ts items /\ lay_items items ly_start = Some L /\ first_missing L l).
Proof.
  intros Hb Hf H. rewrite assemble_parsed, tokens_parsed in H.
  destruct (lex source) as [ts|l' m'|] eqn:El.
  2:{ left. unfold pass1 in H. rewrite El in H. simpl in H. simplify_eq. by eapply lex_error_line. }
  2:{ unfold pass1 in H. by rewrite El in H. }
  right. exists ts. split; [done|]. destruct (pass1 source) as [[[stmts symtab] sec]|l' m'|] eqn:Ep; [| |done].
  - right. right. specialize (Hf _ _ _ eq_refl). pose proof Ep as Ep'.
    apply (pass1_accepts _ _ _ El) in Ep' as (items & P & Ed & _).
    destruct (lex_tokens _ _ Hb El) as (t & ts' & E & _ & Ht). rewrite <- E in Ht.
    pose proof (sim_items items ly_start pass1_start (program_syntax_ok _ _ P Ht) sim_start) as Hsim.
    destruct (lay_items items ly_start) as [L|] eqn:EL; [|by destruct (Hsim _ Ed)].
    destruct Hsim as (s' & Ed' & Hsim). rewrite Ed in Ed'. injection Ed' as <-.
    exists items, L. split_and!; [done..|]. cbn [mbind res_bind] in H.
    destruct (emit_statements _ _ _) as [b|l' m'|] eqn:Eb; cbn [mbind res_bind] in H.
    + exfalso. destruct (buf_read _ (code_addr _) _) eqn:E1 in H; cbn [mbind res_bind] in H;
        [|by apply buf_read_no_error in E1|discriminate H].
      destruct (buf_read _ _ _) eqn:E2 in H; cbn [mbind res_bind] in H;
        [discriminate H|by apply buf_read_no_error in E2|discriminate H].
    + simplify_eq. eapply emit_error_first; [exact Hsim|exact EL| |exact Eb].
      eapply program_lines; [exact P|]. by eapply lex_numbered.
    + done.
  - simpl in H. simplify_eq. destruct (pass1_rejects _ _ _ _ El Ep); auto.
Qed.

(** The label of the second line does not exist. *)
Definition bad_source : list Z := str "HALT" ++ [10] ++ str "  JMP nowhere" ++ [10].

Definition bad_message : list Z := str "line 2: undefined label 'nowhere'".

Lemma bad_fits stmts symtab sec : pass1 bad_source = Ok (stmts, symtab, sec) -> all_fit stmts.
Proof.
  intros H. change stmts with (match Ok (stmts, symtab, sec) with Ok s => s.1.1 | _ => [] end).
  rewrite <- H. by_decide.
Qed.

Lemma assembly_error_located_witness :
  assemble bad_source = Err 2 bad_message /\
  (unlexable_at bad_source 2 \/
   exists ts, lex bad_source = Ok ts /\
     (rejected_at ts pass1_start 2 \/ codeless_at ts 2 \/
      exists items L, program_syntax ts items /\ lay_items items ly_start = Some L /\ first_missing L 2)).
Proof.
  split; [vm_compute; reflexivity|].
  apply (assembly_error_located bad_source 2 bad_message); [by_decide|exact bad_fits|vm_compute; reflexivity].
Defined.

(** ** Typing *)

(** A statement of the static semantics: an item's form, with the item's size. *)
Definition well_typed (st : Statement) : Prop :=
  exists it, item_ok it /\ item_kind it = Some (kind st, encoded_size st).

(** The bytes of a well-typed statement: an instruction is a legal encoding. *)
Definition well_encoded (st : Statement) (bs : list Z) : Prop :=
  zlen bs = encoded_size st /\ is_byte_list bs /\
  forall op n o1 o2 m1 m2, kind st = STMT_INSTRUCTION op n o1 o2 m1 m2 ->
    exists i, instr_legal i /\ opcode i = op /\ mode (op1 i) = m1 /\ mode (op2 i) = m2 /\ bs = instr_bytes i.

Lemma well_typed_encoded symtab st bs : well_typed st -> stmt_bytes symtab st = Ok bs -> well_encoded st bs.
Proof.
  intros (it & Hok & Hk) E. pose proof (item_kind_placeable _ _ _ Hok Hk) as Hp.
  destruct (stmt_bytes_spec _ _ _ Hp E) as [Hs Hb]. split_and!; [done..|].
  intros op n o1 o2 m1 m2 Ek. unfold stmt_bytes in E. rewrite Ek in E, Hp.
  apply res_bind_Ok in E as (i & Ei & [= <-]).
  destruct (resolved_legal _ _ _ _ _ _ _ _ _ Hp Ei) as (Hl & Ho & _). exists i. split_and!; try done.
  all: unfold resolved in Ei; apply res_bind_Ok in Ei as (v1 & _ & Ei);
    apply res_bind_Ok in Ei as (v2 & _ & [= <-]); done.
Qed.

(** C8: Pass 1 is a sound type checker. Every statement it places has the operands,
    addressing modes and size that the static semantics gives its opcode or directive;
    and whatever addresses the labels turn out to have, a statement that has bytes has
    exactly that many, and an instruction's are the encoding of a legal instruction of
    its opcode and modes. *)
Theorem statements_typed source stmts symtab sec st : is_byte_list source ->
  pass1 source = Ok (stmts, symtab, sec) -> In st stmts -> emits st = true ->
  well_typed st /\ forall symtab' bs, stmt_bytes symtab' st = Ok bs -> well_encoded st bs.
Proof.
  intros Hb Hp Hin He. assert (well_typed st) as Ht; [|split; [done|]; intros; by eapply well_typed_encoded].
  unfold pass1 in Hp. destruct (lex source) as [ts| |] eqn:El; [|done..].
  assert (pass1 source = Ok (stmts, symtab, sec)) as Hp' by (unfold pass1; by rewrite El).
  apply (pass1_accepts _ _ _ El) in Hp' as (items & P & Ed & _).
  destruct (lex_tokens _ _ Hb El) as (t & ts' & E & _ & Htb). rewrite <- E in Htb.
  pose proof (program_syntax_ok _ _ P Htb) as Hok. clear -Hok Ed Hin He.
  assert (H : forall s s', Forall item_ok items -> do_items items s = Some s' ->
    (forall st, In st s.1.1 -> emits st = true -> well_typed st) ->
    forall st, In st s'.1.1 -> emits st = true -> well_typed st).
  { clear. induction items as [|it items IH]; intros s s' Hok E Hs; cbn [do_items] in E; [by simplify_eq|].
    apply Forall_cons in Hok as [Hi Hok]. destruct (do_item it s) as [s1|] eqn:E1; [|done].
    apply (IH s1 s' Hok E). intros st Hin He. destruct s as [[stmts symtab] sec].
    assert (Hsnoc : forall k ln d a n, In st (stmts ++ [mkStmt k ln d a n]) ->
      (emits (mkStmt k ln d a n) = true -> item_kind it = Some (k, n)) -> well_typed st).
    { intros k ln d a n [Hst|[<-|[]]]%in_app_iff Hk; [by apply Hs|]. exists it. auto. }
    destruct it as [n ln|op os ln|v ln|ln|bytes ln|o ln|o ln].
    2,5,6,7: rewrite do_item_place in E1 by done;
      destruct (item_kind _) as [[k size]|] eqn:Ek; [|done]; cbn [mbind option_bind fst snd] in E1;
      rewrite place_eq in E1; injection E1 as <-;
      eapply Hsnoc; [exact Hin|done].
    all: cbn [do_item] in E1; first [destruct (symtab_define _ _ _)|destruct (_ && _)|destruct (data_seen sec)];
      cbn [mbind option_bind] in E1; simplify_eq; (eapply Hsnoc; [exact Hin|done]). }
  by apply (H _ _ Hok Ed ltac:(by intros ? [])).
Qed.

Lemma statements_typed_witness :
  let st := mkStmt (STMT_INSTRUCTION OP_JNZ 1 (mkPOp (OPKIND_LABEL (str "loop")) 3) no_operand
                      MODE_MEM_DIRECT MODE_NONE) 3 false 10 4 in
  well_typed st /\ forall symtab' bs, stmt_bytes symtab' st = Ok bs -> well_encoded st bs.
Proof.
  apply (statements_typed demo_source demo_pass1.1.1 demo_pass1.1.2 demo_pass1.2);
    [by_decide|exact demo_pass1_eq|vm_compute; tauto|reflexivity].
Defined.
