(* ===== verification/Section11.v ===== *)
(** The assembly language of section 11 of [docs/DESIGN.md], against the one that is
    implemented: registers have any number of digits, and a word is in the range of a
    16-bit literal. A program of section 11 is assembled as it says; what is assembled
    otherwise uses one of the two departures. *)

From S2P Require Import Prelude CLib Memory Instruction Symtab Lexer LexFacts Parser Assembler.
From S2P Require Import AsmFacts AsmCorrect Syntax SyntaxFacts AsmSpec AsmProps SpecProps.
Open Scope Z_scope.

(** ** The language *)

Abbreviation program_syntax_11 := (program_syntax_of register_11).

(** Section 11.4 on the operand of a [.word]. *)
Definition word_fits (labels : gmap (list Z) Z) (it : Item) : bool :=
  match it with
  | I_word o _ => match kind_value labels (op_kind o) with Some v => value_fits MODE_IMM16 v | None => true end
  | _ => true
  end.

Definition words_in_range (L : Layout) : bool :=
  forallb (fun p => word_fits (ly_labels L) (pl_item p)) (ly_placed L).

Definition spec_assemble_11 (items : list Item) : option (list Z) :=
  L ← lay_items items ly_start; if words_in_range L then spec_image L else None.

(** ** The departures *)

(** An R with a number above 9999, which is implemented as the name of a label. *)
Definition long_register (w : list Z) : Prop :=
  match w with
  | c :: ds => (c = 82 \/ c = 114) /\ Forall (fun d => isdigit d = true) ds /\ 9999 < dec_value 0 ds
  | [] => False
  end.

#[export] Instance long_register_dec w : Decision (long_register w).
Proof. destruct w; simpl; apply _. Defined.

Definition operand_names (o : ParsedOperand) : list (list Z) :=
  match op_kind o with OPKIND_LABEL s | OPKIND_MEM_LABEL s => [s] | _ => [] end.

(** The labels an item's operands refer to. *)
Definition item_names (it : Item) : list (list Z) :=
  match it with
  | I_instr _ os _ => flat_map operand_names os
  | I_word o _ | I_byte o _ => operand_names o
  | _ => []
  end.

(** A long register is an operand, or a word is out of range. *)
Definition departs (items : list Item) : Prop :=
  Exists long_register (flat_map item_names items) \/
  exists L, lay_items items ly_start = Some L /\ words_in_range L = false.

(** ** Registers *)

Lemma register_word_11 w n : register_word w n <-> register_11 w n /\ n <= 9999.
Proof.
  split; [intros (c & ds & ? & ? & ? & ? & ? & ?); split; [by exists c, ds|done]|].
  intros [(c & ds & ? & ? & ? & ? & ?) ?]. by exists c, ds.
Qed.

Lemma long_register_11 w n : register_11 w n -> 9999 < n -> long_register w.
Proof. by intros (c & ds & -> & Hc & _ & Hd & <-) Hn. Qed.

Lemma not_register_11 w : not_register_of register_11 w -> not_register w.
Proof. intros H n [Hn _]%register_word_11. by apply (H n). Qed.

Lemma not_register_short w : not_register w -> ~ long_register w -> not_register_of register_11 w.
Proof.
  intros H Hl n Hn. destruct (Z_le_gt_dec n 9999); [by apply (H n), register_word_11|].
  apply Hl, (long_register_11 w n); [done|lia].
Qed.

Lemma syscall_not_register w c : names SYSCALLS w c -> not_register_of register_11 w.
Proof.
  intros (s & Hin & Hw) n (a & ds & -> & _ & Hds & Hd & _). destruct ds as [|d ds]; [done|].
  apply Forall_cons in Hd as [Hd%isdigit_spec _]. unfold same_word in Hw.
  assert (tolower d = d) as Et by (unfold tolower, isupper; destruct (_ && _) eqn:E; lia).
  cbn [map] in Hw. rewrite Et in Hw. simpl in Hin.
  destruct Hin as [E|[E|[E|[E|[]]]]]; injection E as <- <-; vm_compute in Hw; injection Hw; intros; lia.
Qed.

(** ** The grammars *)

(** The register of an operand is not long. *)
Definition short_kind (k : OperandKind) : Prop :=
  match k with OPKIND_REG n | OPKIND_REG_INDIRECT n => n <= 9999 | _ => True end.

Definition short_item (it : Item) : Prop :=
  match it with I_instr _ os _ => Forall (fun o => short_kind (op_kind o)) os | _ => True end.

Lemma operand_form_short mask k m : operand_form mask k = Some m -> short_kind k.
Proof. destruct k; cbn; try done; (destruct (_ && _) eqn:E; [|done]); lia. Qed.

Lemma instr_form_short op os m : instr_form op os = Some m -> Forall (fun o => short_kind (op_kind o)) os.
Proof.
  unfold instr_form. destruct (opcode_masks op) as [k1 k2]. destruct os as [|o1 [|o2 [|]]]; [done|..|done].
  - destruct (_ && _); [|done]. destruct (operand_form k1 _) as [m1|] eqn:E; [|done]. intros _.
    constructor; [by eapply operand_form_short|done].
  - destruct (_ && _); [|done]. destruct (operand_form k1 _) as [m1|] eqn:E1; [|done]. cbn [mbind option_bind].
    destruct (operand_form k2 _) as [m2|] eqn:E2; [|done]. intros _.
    repeat constructor; by eapply operand_form_short.
Qed.

Lemma lay_items_short items L L' : lay_items items L = Some L' -> Forall short_item items.
Proof.
  revert L. induction items as [|it items IH]; intros L E; [constructor|]. cbn [lay_items] in E.
  destruct (lay_item it L) as [L1|] eqn:El; [|done]. constructor; [|by eapply IH].
  destruct it; try done. simpl in *. destruct (instr_form op operands) as [m|] eqn:Ef; [|done].
  by eapply instr_form_short.
Qed.

Lemma operand_implemented sys ts o : operand_syntax_of register_11 sys ts o -> short_kind (op_kind o) ->
  operand_syntax sys ts o.
Proof.
  intros H Hs. destruct H; cbn in Hs.
  - by apply os_register; [|apply register_word_11].
  - by apply os_syscall; [|apply not_register_11|..].
  - by apply os_label; [|apply not_register_11|].
  - by apply os_number.
  - by apply os_indirect; [..|apply register_word_11].
  - by apply os_mem_label; [..|apply not_register_11].
  - by apply os_mem_number.
Qed.

Lemma operand_documented sys ts o : operand_syntax sys ts o ->
  Forall (fun w => ~ long_register w) (operand_names o) -> operand_syntax_of register_11 sys ts o.
Proof.
  intros H Hn. destruct H; cbn in Hn; rewrite ?Forall_singleton in Hn.
  - by apply os_register; [|apply register_word_11].
  - by apply os_syscall; [|eapply syscall_not_register|..].
  - by apply os_label; [|apply not_register_short|].
  - by apply os_number.
  - by apply os_indirect; [..|apply register_word_11].
  - by apply os_mem_label; [..|apply not_register_short].
  - by apply os_mem_number.
Qed.

(** From one grammar to another whose operands include those of the items. *)
Section grammars.
Context (reg reg' : list Z -> Z -> Prop) (P : ParsedOperand -> Prop).
Context (Hop : forall sys ts o, operand_syntax_of reg sys ts o -> P o -> operand_syntax_of reg' sys ts o).

Definition item_all (it : Item) : Prop :=
  match it with I_instr _ os _ => Forall P os | I_word o _ | I_byte o _ => P o | _ => True end.

Lemma operands_grammar sys ts os : operands_syntax_of reg sys ts os -> Forall P os ->
  operands_syntax_of reg' sys ts os.
Proof.
  intros [|? ? H|? ? ? ? ? H1 Hc H2] Ho; [apply oss_none|..].
  - apply Forall_cons in Ho as [Ho _]. by apply oss_one, Hop.
  - apply Forall_cons in Ho as [Ho1 Ho]. apply Forall_cons in Ho as [Ho2 _]. by apply oss_two; [apply Hop|..|apply Hop].
Qed.

Lemma item_grammar ts it : item_syntax_of reg ts it -> item_all it -> item_syntax_of reg' ts it.
Proof.
  intros [] Hi; cbn in Hi.
  - by apply is_instr; [..|apply operands_grammar].
  - by apply is_org.
  - by apply is_data.
  - by apply is_string.
  - by apply is_word; [|apply Hop|].
  - by apply is_byte; [|apply Hop|].
Qed.

Lemma line_grammar ts items : line_syntax_of reg ts items -> Forall item_all items -> line_syntax_of reg' ts items.
Proof.
  intros [] Hi.
  - apply ls_empty.
  - by apply ls_label.
  - apply Forall_cons in Hi as [Hi _]. by apply ls_item, item_grammar.
  - apply Forall_cons in Hi as [_ Hi]. apply Forall_cons in Hi as [Hi _]. by apply ls_both; [..|apply item_grammar].
Qed.

Lemma program_grammar ts items : program_syntax_of reg ts items -> Forall item_all items ->
  program_syntax_of reg' ts items.
Proof.
  induction 1; intros Hi; [by apply ps_last; [apply line_grammar|]|].
  apply Forall_app in Hi as [Hi1 Hi2]. apply ps_line; [by apply line_grammar|done|auto].
Qed.
End grammars.

(** The operand of a directive is no register. *)
Definition short_word (it : Item) : Prop :=
  match it with I_word o _ | I_byte o _ => short_kind (op_kind o) | _ => True end.

Lemma program_words_short ts items : program_syntax_11 ts items -> Forall short_word items.
Proof.
  assert (Hi : forall ts it, item_syntax_of register_11 ts it -> short_word it).
  { intros ? ? [| | | |? ? o ? ? Ho|? ? o ? ? Ho]; try done;
      cbn; unfold is_number_or_label, is_number in Ho; by destruct (op_kind o). }
  assert (Hl : forall ts items, line_syntax_of register_11 ts items -> Forall short_word items).
  { intros ? ? []; repeat constructor; by eapply Hi. }
  induction 1; [by eapply Hl|]. apply Forall_app. split; [by eapply Hl|done].
Qed.

Lemma program_implemented ts items : program_syntax_11 ts items -> Forall short_item items ->
  program_syntax ts items.
Proof.
  intros H Hs. pose proof (program_words_short _ _ H) as Hw.
  apply (program_grammar register_11 register_word (fun o => short_kind (op_kind o))); [|done|].
  - intros ? ? ? ? ?. by apply operand_implemented.
  - rewrite Forall_forall in *. intros it Hin. specialize (Hs it Hin). specialize (Hw it Hin). by destruct it.
Qed.

Lemma program_documented ts items : program_syntax ts items ->
  Forall (fun w => ~ long_register w) (flat_map item_names items) -> program_syntax_11 ts items.
Proof.
  intros H Hn. apply (program_grammar register_word register_11
    (fun o => Forall (fun w => ~ long_register w) (operand_names o))); [|done|].
  - intros ? ? ? ? ?. by apply operand_documented.
  - clear H ts. induction items as [|it items IH]; [constructor|]. cbn [flat_map] in Hn.
    apply Forall_app in Hn as [H1 H2]. constructor; [|by apply IH]. destruct it as [|? os| | | |o|o]; try done.
    cbn in *. clear -H1. induction os as [|o os IH]; [constructor|]. cbn [flat_map] in H1.
    apply Forall_app in H1 as [? ?]. constructor; [done|by apply IH].
Qed.

Lemma spec_assemble_11_image items image : spec_assemble_11 items = Some image ->
  spec_assemble items = Some image /\ Forall short_item items.
Proof.
  unfold spec_assemble_11, spec_assemble. destruct (lay_items items ly_start) as [L|] eqn:El; [|done].
  cbn [mbind option_bind]. destruct (words_in_range L); [|done]. intros E. split; [done|].
  by eapply lay_items_short.
Qed.

(** The operands of section 11 name no long register. *)
Lemma operand_names_short sys ts o : operand_syntax_of register_11 sys ts o ->
  Forall (fun w => ~ long_register w) (operand_names o).
Proof.
  assert (H : forall w, not_register_of register_11 w -> Forall (fun w => ~ long_register w) [w]).
  { intros [|c ds] Hw; repeat constructor; [by intros []|]. intros (Hc & Hd & Hn).
    apply (Hw (dec_value 0 ds)). exists c, ds. split_and!; try done. by intros ->. }
  destruct 1; try apply Forall_nil_2; by apply H.
Qed.

Lemma program_names_short ts items : program_syntax_11 ts items ->
  Forall (fun w => ~ long_register w) (flat_map item_names items).
Proof.
  assert (Hi : forall ts it, item_syntax_of register_11 ts it ->
    Forall (fun w => ~ long_register w) (item_names it)).
  { intros ? ? []; cbn [item_names]; try apply Forall_nil_2; try by eapply operand_names_short.
    match goal with H : operands_syntax_of _ _ _ _ |- _ => destruct H end; cbn [flat_map];
      rewrite ?(right_id_L [] (++)); [apply Forall_nil_2|by eapply operand_names_short|].
    apply Forall_app; split; by eapply operand_names_short. }
  assert (Hl : forall ts items, line_syntax_of register_11 ts items ->
    Forall (fun w => ~ long_register w) (flat_map item_names items)).
  { intros ? ? []; cbn [flat_map]; rewrite ?(right_id_L [] (++)); try apply Forall_nil_2; by eapply Hi. }
  induction 1; [by eapply Hl|]. rewrite flat_map_app. apply Forall_app. split; [by eapply Hl|done].
Qed.

(** A program of the language as implemented is one of section 11, with the same image,
    unless it departs from it. *)
Lemma documented_iff ts items image : program_syntax ts items -> spec_assemble items = Some image ->
  program_syntax_11 ts items /\ spec_assemble_11 items = Some image <-> ~ departs items.
Proof.
  intros P Hs. unfold departs, spec_assemble_11, spec_assemble in *.
  destruct (lay_items items ly_start) as [L|]; [|done]. cbn [mbind option_bind] in *. split.
  - intros [P' E] [Hn|(L' & [= <-] & Ew)]; [|by rewrite Ew in E].
    apply program_names_short in P'. apply Exists_exists in Hn as (w & Hin & Hw).
    rewrite Forall_forall in P'. by apply (P' w).
  - intros Hd. destruct (words_in_range L) eqn:Ew; [|by destruct Hd; right; exists L]. split; [|done].
    apply program_documented; [done|]. apply Forall_Exists_neg. intros Hn. apply Hd. by left.
Qed.

(** ** The refinement *)

(** C2: The assembler implements the language of section 11, with two exceptions, for
    programs whose items end at 0xFFFF or before: a source whose tokens the grammar of
    section 11 reads as items with an image by section 11 is assembled to that image,
    byte for byte; and whatever is assembled is such a source with that image, unless it
    departs from section 11: it has an R with a number above 9999 as an operand, taken
    for a label, or a [.word] outside [-32768, 65535], taken modulo 2^16. The image of a
    source that departs is the one it has in the language as implemented. *)
Theorem assembler_implements_section_11 source ts : is_byte_list source -> lex source = Ok ts ->
  (forall items image, program_syntax_11 ts items -> spec_assemble_11 items = Some image ->
     assemble source = Ok image) /\
  (forall items image, program_syntax ts items -> spec_assemble items = Some image ->
     assemble source = Ok image) /\
  ((forall stmts symtab sec, pass1 source = Ok (stmts, symtab, sec) -> all_fit stmts) ->
   forall image, assemble source = Ok image ->
     exists items, program_syntax ts items /\ spec_assemble items = Some image /\
       (program_syntax_11 ts items /\ spec_assemble_11 items = Some image <-> ~ departs items)).
Proof.
  intros Hb Hl. split_and!.
  - intros items image P [Hs Hi]%spec_assemble_11_image. eapply assembles_complete; [done..| |done].
    by apply program_implemented.
  - intros items image P Hs. by eapply assembles_complete.
  - intros Hf image (items & P & Hs)%(assembles_sound source ts image Hb Hl Hf). exists items.
    split_and!; [done..|]. by apply documented_iff.
Qed.

Lemma assembler_implements_section_11_witness :
  exists items, program_syntax demo_tokens items /\ spec_assemble items = Some demo_image /\
    (program_syntax_11 demo_tokens items /\ spec_assemble_11 items = Some demo_image <-> ~ departs items).
Proof.
  apply (assembler_implements_section_11 demo_source demo_tokens);
    [by_decide|exact demo_tokens_eq|exact demo_fits|vm_compute; reflexivity].
Defined.
