(* ===== verification/AsmBounds.v ===== *)
(** Which sources the assembler handles without overflow, read off the text: literals of
    at most fifteen digits fit 64 bits, and the bytes a source occupies are at most two
    per character. The hypotheses of the other theorems about assembling follow. *)

From S2P Require Import Prelude CLib Memory Instruction Symtab Lexer LexFacts Parser Assembler.
From S2P Require Import AsmFacts EmitFacts AsmCorrect RtParse Syntax SyntaxFacts ParseFacts AsmSpec AsmProps.
Open Scope Z_scope.

(** ** Literals *)

(** No more than fifteen digits, hexadecimal ones included, in a row, [k] of them read. *)
Fixpoint digits_ok (k : nat) (p : list Z) : bool :=
  match p with
  | [] => true
  | c :: p => if isxdigit c then (k <? 15)%nat && digits_ok (S k) p else digits_ok 0 p
  end.

Definition short_digits (source : list Z) : Prop := digits_ok 0 source = true.

Lemma digits_ok_fewer k k' p : (k' <= k)%nat -> digits_ok k p = true -> digits_ok k' p = true.
Proof.
  revert k k'. induction p as [|c p IH]; intros k k' Hk; simpl; [done|]. case_match; [|done].
  intros [H1 H2]%andb_true_iff. apply andb_true_iff. apply Nat.ltb_lt in H1.
  split; [apply Nat.ltb_lt; lia|]. by apply (IH (S k)); [lia|].
Qed.

Lemma short_digits_suffix pre p : short_digits (pre ++ p) -> short_digits p.
Proof.
  unfold short_digits. generalize 0%nat at 1. induction pre as [|c pre IH]; intros k H; simpl in H.
  { by apply (digits_ok_fewer k); [lia|]. }
  case_match; [|by apply (IH 0%nat)]. apply andb_true_iff in H as [_ H]. by apply (IH (S k)).
Qed.

Lemma digits_ok_next k c p : digits_ok k (c :: p) = true -> isxdigit c = true ->
  (S k <= 15)%nat /\ digits_ok (S k) p = true.
Proof. simpl. intros H Hc. rewrite Hc in H. apply andb_true_iff in H as [H1%Nat.ltb_lt H2]. split; [lia|done]. Qed.

(** A value of at most fifteen digits, in either base. *)
Lemma digit_fits base v d k : base = 10 \/ base = 16 -> 0 <= v < 16 ^ Z.of_nat k -> 0 <= d < base -> (S k <= 15)%nat ->
  0 <= v * base + d < 16 ^ Z.of_nat (S k) /\ (INT64_MAX <? v * base + d) = false.
Proof.
  intros Hb Hv Hd Hk. assert (v * base + d < 16 ^ Z.of_nat (S k)) as Hlt
    by (rewrite Nat2Z.inj_succ, Z.pow_succ_r by lia; destruct Hb as [->| ->]; lia).
  assert (16 ^ Z.of_nat (S k) <= 16 ^ 15) as Hp by (apply Z.pow_le_mono_r; lia).
  split; [destruct Hb as [->| ->]; lia|]. apply Z.ltb_ge. unfold INT64_MAX. lia.
Qed.

Lemma lex_hex_defined k p v : 0 <= v < 16 ^ Z.of_nat k -> digits_ok k p = true -> lex_hex p v <> UB.
Proof.
  revert k v. induction p as [|c p IH]; intros k v Hv Hs; simpl; [done|].
  destruct (isxdigit c) eqn:Ec; [|done]. destruct (digits_ok_next k c p Hs Ec) as [Hk Hs'].
  destruct (digit_fits 16 v (hex_val c) k ltac:(by right) Hv (hex_val_range c Ec) Hk) as [Hv' ->]. by apply (IH (S k)).
Qed.

Lemma lex_dec_defined k p v : 0 <= v < 16 ^ Z.of_nat k -> digits_ok k p = true -> lex_dec p v <> UB.
Proof.
  revert k v. induction p as [|c p IH]; intros k v Hv Hs; simpl; [done|].
  destruct (isdigit c) eqn:Ec; [|done]. pose proof (proj1 (isdigit_spec c) Ec) as Hc.
  destruct (digits_ok_next k c p Hs ltac:(unfold isxdigit; by rewrite Ec)) as [Hk Hs'].
  destruct (digit_fits 10 v (c - 48) k ltac:(by left) Hv ltac:(lia) Hk) as [Hv' ->]. by apply (IH (S k)).
Qed.

Lemma lex_number_defined ln p : short_digits p -> lex_number ln p <> UB.
Proof.
  intros Hs. unfold lex_number. set (q := match p with [] => _ | _ => _ end).
  assert (short_digits q.2) as Hq.
  { destruct p as [|c p]; [done|]. unfold q. destruct (c =? 45); [|done]. by apply (short_digits_suffix [c]). }
  destruct q as [neg p']. cbn [snd] in Hq. destruct (negb _); [done|].
  enough (lex_magnitude ln p' <> UB) as H by (by destruct (lex_magnitude ln p') as [[? ?]| |]).
  unfold lex_magnitude. destruct (hex_prefix p') as [h|] eqn:Eh.
  - assert (short_digits h) as Hh.
    { unfold hex_prefix in Eh. destruct p' as [|a [|x p']]; [done..|]. destruct (_ && _); [|done]. simplify_eq.
      by apply (short_digits_suffix [a; x]). }
    destruct (negb _); [done|]. by apply (lex_hex_defined 0).
  - by apply (lex_dec_defined 0).
Qed.

Lemma lex_string_no_UB n ln p buf : (length p <= n)%nat -> lex_string ln p buf <> UB.
Proof.
  revert p buf. induction n as [|n IH]; intros p buf Hn; [destruct p; simpl in *; [done|lia]|].
  destruct p as [|c p]; simpl in *; [done|]. unfold set_error.
  repeat (case_match; try done; try (subst; apply IH; simpl in *; lia)).
Qed.

(** What an iteration leaves is a suffix of the source. *)
Lemma span_suffix f p : (span f p).2 `suffix_of` p.
Proof.
  induction p as [|c p IH]; simpl; [done|]. destruct (f c); [|done]. destruct (span f p). simpl in *.
  by apply suffix_cons_r.
Qed.

Lemma skip_comment_suffix p : skip_comment p `suffix_of` p.
Proof. induction p as [|c p IH]; simpl; [done|]. case_match; [done|by apply suffix_cons_r]. Qed.

Lemma lex_digits_suffix p v v' q : lex_hex p v = Ok (v', q) \/ lex_dec p v = Ok (v', q) -> q `suffix_of` p.
Proof.
  revert v. induction p as [|c p IH]; intros v [H|H]; simpl in H; try by simplify_eq.
  all: case_match; [|by simplify_eq]; case_match; [done|]; apply suffix_cons_r; eapply IH; eauto.
Qed.

Lemma lex_number_suffix ln p v q : lex_number ln p = Ok (v, q) -> q `suffix_of` p.
Proof.
  unfold lex_number, lex_magnitude, set_error. intros H.
  assert (exists neg p', (match p with [] => (false, []) | c :: p' => if c =? 45 then (true, p') else (false, p) end)
    = (neg, p') /\ p' `suffix_of` p) as (neg & p' & E & Hs).
  { destruct p as [|c p]; [by exists false, []|]. destruct (c =? 45).
    - exists true, p. split; [done|by apply suffix_cons_r].
    - by exists false, (c :: p). }
  rewrite E in H. clear E. destruct (negb (starts_with isdigit p')); [done|]. trans p'; [|done].
  destruct (hex_prefix p') as [h|] eqn:Eh.
  - destruct (negb _); [done|]. destruct (lex_hex h 0) as [[v1 q1]| |] eqn:E; simplify_eq/=.
    trans h; [eapply lex_digits_suffix; by left|].
    unfold hex_prefix in Eh. destruct p' as [|a [|x p']]; [done..|]. destruct (_ && _); [|done]. simplify_eq.
    by exists [a; x].
  - destruct (lex_dec p' 0) as [[v1 q1]| |] eqn:E; simplify_eq/=. eapply lex_digits_suffix. by right.
Qed.

(** The bytes of a string literal are no more than its characters. *)
Lemma lex_string_reads n ln p buf s q : (length p <= n)%nat -> lex_string ln p buf = Ok (s, q) ->
  q `suffix_of` p /\ (length s + length q < length buf + length p)%nat.
Proof.
  revert p buf. induction n as [|n IH]; intros p buf Hn H; [destruct p; simpl in *; [done|lia]|].
  destruct p as [|c p]; simpl in *; [done|]. unfold set_error in H.
  assert (forall p' b, lex_string ln p' b = Ok (s, q) -> p' `suffix_of` p -> (length b <= S (length buf))%nat ->
    q `suffix_of` c :: p /\ (length s + length q < length buf + S (length p))%nat) as Hrec.
  { intros p' b E Hs Hb. pose proof (suffix_length _ _ Hs). destruct (IH p' b ltac:(lia) E) as [H1 H2].
    split; [apply suffix_cons_r; by trans p'|]. lia. }
  repeat (case_match; simplify_eq/=; try done);
    try (eapply Hrec; [exact H|repeat apply suffix_cons_r; reflexivity|rewrite length_app; simpl; lia]).
  split; [by apply suffix_cons_r|lia].
Qed.

(** The characters a token needs at least: one, and those of a string literal. *)
Definition token_cost (t : Token) : nat := S (length (str_value t)).
Definition cost (ts : list Token) : nat := sum_list_with token_cost ts.

Lemma cost_app ts1 ts2 : cost (ts1 ++ ts2) = (cost ts1 + cost ts2)%nat.
Proof. apply sum_list_with_app. Qed.

Lemma lex_iter_reads c p ln toks q ln' : lex_iter c p ln = Ok (toks, q, ln') ->
  q `suffix_of` c :: p /\ (cost toks + length q <= S (length p))%nat.
Proof.
  unfold lex_iter, set_error. intros H. pose proof (lex_iter_length c p ln toks q ln' H) as Hl. unfold lex_iter, set_error in H.
  case_match; [simplify_eq; split; [by apply suffix_cons_r|simpl; lia]|].
  case_match; [simplify_eq; split; [apply skip_comment_suffix|simpl in *; lia]|].
  do 5 (case_match; [simplify_eq; split; [by apply suffix_cons_r|simpl; lia]|]). case_match.
  { pose proof (span_suffix isalpha p) as Hs. destruct (span isalpha p) as [s r].
    case_decide; simplify_eq/=. split; [by apply suffix_cons_r|lia]. }
  case_match.
  { destruct (lex_string ln p []) as [[s r]| |] eqn:E; simplify_eq/=.
    destruct (lex_string_reads (length p) _ p [] s q ltac:(lia) E) as [Hs Hn].
    split; [by apply suffix_cons_r|simpl in *; lia]. }
  case_match.
  { destruct (lex_number ln (c :: p)) as [[v r]| |] eqn:E; simplify_eq/=.
    split; [by eapply lex_number_suffix|lia]. }
  case_match; [|done]. pose proof (span_suffix ident_char (c :: p)) as Hs.
  destruct (span ident_char (c :: p)) as [s r]. simplify_eq/=. split; [done|lia].
Qed.

Lemma lex_iter_defined c p ln : short_digits (c :: p) -> lex_iter c p ln <> UB.
Proof.
  intros Hs. unfold lex_iter, set_error. do 7 (case_match; [done|]). case_match.
  { destruct (span isalpha p). by case_decide. }
  case_match.
  { pose proof (lex_string_no_UB (length p) ln p [] ltac:(lia)) as Hn. by destruct (lex_string ln p []) as [[? ?]| |]. }
  case_match; [|case_match; [by destruct (span ident_char (c :: p))|done]].
  pose proof (lex_number_defined ln (c :: p) Hs) as Hn. by destruct (lex_number ln (c :: p)) as [[? ?]| |].
Qed.

Lemma lex_loop_defined fuel p ln out : short_digits p -> lex_loop fuel p ln out <> Some UB.
Proof.
  revert p ln out. induction fuel as [|fuel IH]; intros [|c p] ln out Hs; simpl; try done.
  pose proof (lex_iter_defined c p ln Hs) as Hd. destruct (lex_iter c p ln) as [[[t q] ln']| |] eqn:E; [|done..].
  destruct (lex_iter_reads _ _ _ _ _ _ E) as [[k Hk] _]. apply IH. apply (short_digits_suffix k). by rewrite <- Hk.
Qed.

Lemma lexes_cost p ln ts q ln' : lexes p ln ts q ln' -> (cost ts + length q <= length p)%nat.
Proof.
  induction 1 as [p ln|c p ln toks q ln' toks' q' ln'' E _ IH]; [simpl; lia|].
  destruct (lex_iter_reads _ _ _ _ _ _ E) as [_ Hn]. rewrite cost_app. simpl. lia.
Qed.

Lemma lex_defined source : short_digits source -> lex source <> UB.
Proof.
  intros Hs H. unfold lex in H. destruct (lex_loop_enough (length source) source 1 [] ltac:(lia)) as [r E].
  rewrite E in H. simpl in H. subst r. by apply (lex_loop_defined _ _ _ _ Hs) in E.
Qed.

(** ** Sizes *)

Lemma operand_cost sys w o : operand_syntax sys w o -> (1 <= cost w)%nat.
Proof. destruct 1; unfold cost; simpl; unfold token_cost; lia. Qed.

Lemma mode_len_small m : 0 <= mode_len m <= 2.
Proof. by destruct m; unfold mode_len; simpl; lia. Qed.

(** An item occupies at most two bytes for each character of its text. *)
Lemma item_size w it k size : item_syntax w it -> item_kind it = Some (k, size) ->
  size <= 2 * Z.of_nat (cost w).
Proof.
  intros H E. destruct H as [t op ts os Ht Hn Ho|t n|t|t s|t ts o|t ts o]; cbn [item_kind] in E.
  - destruct (instr_form op os) as [[m1 m2]|] eqn:Ef; [|done]. cbn [mbind option_bind] in E. injection E as _ <-.
    rewrite <- !mode_len_size. pose proof (mode_len_small m1). pose proof (mode_len_small m2).
    change (cost (t :: ts)) with (token_cost t + cost ts)%nat. unfold token_cost at 1.
    destruct Ho as [|ts o Ho|ts1 o1 c ts2 o2 Ho1 Hc Ho2]; unfold instr_form in Ef; destruct (opcode_masks op) as [k1 k2].
    + destruct (_ && _); [|done]. injection Ef as <- <-. change (mode_len MODE_NONE) with 0. lia.
    + destruct (_ && _); [|done]. destruct (operand_form k1 (op_kind o)); [|done]. injection Ef as <- <-.
      pose proof (operand_cost _ _ _ Ho). change (mode_len MODE_NONE) with 0 in *. lia.
    + pose proof (operand_cost _ _ _ Ho1). rewrite cost_app. change (cost (c :: ts2)) with (token_cost c + cost ts2)%nat.
      unfold token_cost. lia.
  - done.
  - done.
  - injection E as _ <-. unfold cost. simpl. unfold token_cost. lia.
  - injection E as _ <-. unfold cost. simpl. unfold token_cost. lia.
  - injection E as _ <-. unfold cost. simpl. unfold token_cost. lia.
Qed.

Definition size_of (it : Item) : Z := match item_kind it with Some (_, size) => size | None => 0 end.
Definition sizes (items : list Item) : Z := foldr (fun it n => size_of it + n) 0 items.

Lemma sizes_app l1 l2 : sizes (l1 ++ l2) = sizes l1 + sizes l2.
Proof. induction l1 as [|it l1 IH]; simpl; [done|lia]. Qed.

Lemma item_size_of w it : item_syntax w it -> size_of it <= 2 * Z.of_nat (cost w).
Proof.
  intros H. unfold size_of. destruct (item_kind it) as [[k size]|] eqn:E; [by eapply item_size|lia].
Qed.

Lemma line_sizes w items : line_syntax w items -> sizes items <= 2 * Z.of_nat (cost w).
Proof.
  destruct 1 as [|t c|ts it H|t c ts it _ _ H].
  - done.
  - unfold sizes, size_of. simpl. lia.
  - pose proof (item_size_of _ _ H). unfold sizes. cbn [foldr]. lia.
  - pose proof (item_size_of _ _ H). change (cost (t :: c :: ts)) with (token_cost t + (token_cost c + cost ts))%nat.
    unfold sizes. cbn [foldr]. unfold size_of at 1. cbn [item_kind]. lia.
Qed.

Lemma program_sizes ts items : program_syntax ts items -> sizes items + 2 <= 2 * Z.of_nat (cost ts).
Proof.
  induction 1 as [ts items e H _|ts items n rest items' H _ _ IH]; pose proof (line_sizes _ _ H).
  - rewrite cost_app. unfold cost at 2. simpl. unfold token_cost. lia.
  - rewrite cost_app, sizes_app. change (cost (n :: rest)) with (token_cost n + cost rest)%nat. lia.
Qed.

(** ** Addresses *)

(** The values of [.org] are at most [M]. *)
Definition orgs_below (M : Z) (ts : list Token) : Prop := forall pre t n post, ts = pre ++ t :: n :: post ->
  directive t (str "org") -> num_value n <= M.

(** The highest address [.org] asks for. *)
Fixpoint highest_org (ts : list Token) : Z :=
  match ts with
  | t :: ts' =>
      let m := highest_org ts' in
      match ts' with
      | n :: _ =>
          if decide (type t = TOK_DIRECTIVE /\ same_word (text t) (str "org")) then Z.max (num_value n) m else m
      | [] => m
      end
  | [] => 0
  end.

Lemma highest_org_nonneg ts : 0 <= highest_org ts.
Proof.
  induction ts as [|t ts IH]; [done|]. cbn [highest_org]. destruct ts as [|n ts]; [done|]. case_decide; lia.
Qed.

Lemma orgs_below_highest ts : orgs_below (highest_org ts) ts.
Proof.
  induction ts as [|t ts IH]; intros pre t' n post E Ht; [by destruct pre|].
  destruct pre as [|u pre]; injection E as -> ->.
  - simpl. rewrite decide_True by done. lia.
  - specialize (IH pre t' n post eq_refl Ht). simpl in *. destruct (pre ++ t' :: n :: post); [done|]. case_decide; lia.
Qed.

Definition org_below (M : Z) (it : Item) : Prop := match it with I_org v _ => v <= M | _ => True end.

Lemma orgs_below_infix M pre ts post : orgs_below M (pre ++ ts ++ post) -> orgs_below M ts.
Proof. intros H p t n q ->. apply (H (pre ++ p) t n (q ++ post)). by rewrite <- !app_assoc. Qed.

Lemma line_orgs M w items : line_syntax w items -> orgs_below M w -> Forall (org_below M) items.
Proof.
  assert (forall ts it, item_syntax ts it -> orgs_below M ts -> org_below M it) as Hitem.
  { intros ts it [| t n Ht Hn| | | |] Hm; try done. by apply (Hm [] t n []). }
  destruct 1 as [|t c|ts it H|t c ts it _ _ H]; intros Hm; repeat constructor; [by eapply Hitem|].
  eapply Hitem; [done|]. apply (orgs_below_infix M [t; c] ts []). by rewrite app_nil_r.
Qed.

Lemma program_orgs M ts items : program_syntax ts items -> orgs_below M ts -> Forall (org_below M) items.
Proof.
  induction 1 as [ts items e H _|ts items n rest items' H _ _ IH]; intros Hm.
  - eapply line_orgs; [done|]. by apply (orgs_below_infix M [] ts [e]).
  - apply Forall_app. split.
    + eapply line_orgs; [done|]. by apply (orgs_below_infix M [] ts (n :: rest)).
    + apply IH. apply (orgs_below_infix M (ts ++ [n]) rest []). by rewrite app_nil_r, <- app_assoc.
Qed.

(** Both counters are at most [n], and every statement has ended below the top. *)
Definition up_to (n : Z) (s : P1State) : Prop :=
  0 <= code_cursor s.2 <= n /\ 0 <= data_cursor s.2 <= n /\ all_fit s.1.1.

Lemma up_to_silent n stmts symtab sec st tab : emits st = false -> up_to n (stmts, symtab, sec) ->
  up_to n (stmts ++ [st], tab, sec).
Proof. intros He (? & ? & ?). split; [done|split; [done|by apply all_fit_silent]]. Qed.

Lemma do_item_up_to M n it s s' : M <= n -> org_below M it -> n + size_of it <= 0xFFFF -> item_ok it ->
  up_to n s -> do_item it s = Some s' -> up_to (n + size_of it) s'.
Proof.
  intros HM Hm Hn Hok Hs E. destruct s as [[stmts symtab] sec].
  assert (0 <= active_cursor sec <= n) as Ha by (unfold active_cursor; destruct Hs as (? & ? & _); by case_match).
  destruct (item_kind it) as [[k size]|] eqn:Ek.
  - pose proof (placeable_size _ _ (item_kind_placeable _ _ _ Hok Ek)) as Hp.
    rewrite do_item_place in E by (by destruct it). rewrite Ek in E. cbn [mbind option_bind fst snd] in E.
    apply (inj Some) in E. subst s'.
    unfold size_of in *. rewrite Ek in *. destruct Hs as (Hc & Hd & Hf). cbn [fst snd] in *.
    rewrite place_eq. unfold up_to. cbn [fst snd]. rewrite (u16_id (active_cursor sec + size)) by (unfold is_u16; lia).
    split; [|split; [|apply Forall_app; split; [done|]; repeat constructor; intros _; unfold st_fits, st_end; simpl; lia]].
    all: unfold note_section_start, set_active_cursor, active_cursor in *; repeat case_match; simpl in *; lia.
  - assert (size_of it = 0) as -> by (unfold size_of; by rewrite Ek). rewrite Z.add_0_r.
    destruct it as [m ln|op os ln|v ln|ln|bs ln|o ln|o ln]; cbn [do_item] in E; try (by rewrite Ek in E).
    + destruct (symtab_define _ _ _); [|done]. cbn [mbind option_bind] in E. injection E as <-. by apply (up_to_silent _ _ symtab).
    + destruct (_ && _) eqn:Ev in E; [|done]. injection E as <-. apply (up_to_silent n stmts symtab); [done|].
      destruct Hs as (Hc & Hd & Hf). unfold up_to, set_active_cursor. cbn [org_below fst snd] in *.
      case_match; simpl; split_and!; done || lia.
    + destruct (data_seen sec); [done|]. injection E as <-. apply (up_to_silent n stmts symtab); [done|].
      destruct Hs as (Hc & Hd & Hf). split_and!; simpl in *; done || lia.
Qed.

Lemma do_items_up_to M items n s s' : M <= n -> Forall (org_below M) items -> Forall item_ok items ->
  n + sizes items <= 0xFFFF -> up_to n s -> do_items items s = Some s' -> all_fit s'.1.1.
Proof.
  intros HM Hm Hok. revert n s HM. induction items as [|it items IH]; intros n s HM Hn Hs E; simpl in *.
  { simplify_eq. apply Hs. }
  apply Forall_cons in Hm as [Hi Hm], Hok as [Ho Hok]. destruct (do_item it s) as [s1|] eqn:E1; [|done].
  assert (0 <= size_of it) as Hp.
  { unfold size_of. destruct (item_kind it) as [[k size]|] eqn:Ek; [|done].
    pose proof (placeable_size _ _ (item_kind_placeable _ _ _ Ho Ek)). lia. }
  assert (0 <= sizes items) as Hps.
  { clear -Hok. induction Hok as [|it items Ho _ IH]; simpl; [done|]. unfold size_of.
    destruct (item_kind it) as [[k size]|] eqn:Ek; [|done].
    pose proof (placeable_size _ _ (item_kind_placeable _ _ _ Ho Ek)). lia. }
  apply (IH Hm Hok (n + size_of it) s1); [lia|lia| |done]. by eapply do_item_up_to; [..|lia| | |].
Qed.

(** The two conditions on the text of a source. *)
Definition small_text (source : list Z) : bool :=
  digits_ok 0 source && match lex source with Ok ts => highest_org ts + 2 * zlen source <=? 0xFFFF | _ => true end.

Lemma small_text_spec source : small_text source = true <->
  short_digits source /\ forall ts, lex source = Ok ts -> highest_org ts + 2 * zlen source <= 0xFFFF.
Proof.
  unfold small_text, short_digits. rewrite andb_true_iff.
  destruct (lex source) as [ts| |]; rewrite ?Z.leb_le; split; intros [? H]; (split; [done|]); try done.
  - by intros ? [= <-].
  - by apply H.
Qed.

Lemma small_defined source : is_byte_list source -> short_digits source ->
  (forall ts, lex source = Ok ts -> highest_org ts + 2 * zlen source <= 0xFFFF) ->
  lex source <> UB /\ (forall stmts symtab sec, pass1 source = Ok (stmts, symtab, sec) -> all_fit stmts) /\
  assemble source <> UB.
Proof.
  intros Hb Hd Hn. pose proof (lex_defined _ Hd) as Hl.
  assert (forall stmts symtab sec, pass1 source = Ok (stmts, symtab, sec) -> all_fit stmts) as Hf;
    [|split; [done|split; [done|by apply assemble_safe]]].
  intros stmts symtab sec Hp. destruct (lex source) as [ts| |] eqn:El; [|by unfold pass1 in Hp; rewrite El in Hp..].
  specialize (Hn ts eq_refl). destruct (lex_Ok _ _ El) as (body & ln & Ets & Hlx).
  pose proof (lexes_cost _ _ _ _ _ Hlx) as Hc. apply (pass1_accepts _ _ _ El) in Hp as (items & P & Ed & _).
  destruct (lex_tokens _ _ Hb El) as (t & ts' & E & _ & Ht). rewrite <- E in Ht.
  pose proof (program_sizes _ _ P) as Hsz. rewrite Ets, cost_app in Hsz. unfold cost at 2 in Hsz. simpl in Hsz, Hc.
  apply (do_items_up_to (highest_org ts) items (highest_org ts) pass1_start (stmts, symtab, sec));
    [done|by eapply program_orgs, orgs_below_highest|by eapply program_syntax_ok|unfold token_cost in Hsz; simpl in Hsz; lia| |done].
  pose proof (highest_org_nonneg ts). split; [done|split; [done|constructor]].
Qed.

(** C18: What fits, read off the text. A source whose numbers have at most fifteen digits
    each, and in which the highest address [.org] asks for and twice the number of
    characters stay together below 64 KB, is assembled without overflow: no literal
    leaves 64 bits, every statement ends below the top of the address space, and the
    assembler returns an image or an error without touching memory outside its
    buffers. *)
Theorem small_sources_assemble source : is_byte_list source -> short_digits source ->
  (forall ts, lex source = Ok ts -> highest_org ts + 2 * zlen source <= 0xFFFF) ->
  lex source <> UB /\ (forall stmts symtab sec, pass1 source = Ok (stmts, symtab, sec) -> all_fit stmts) /\
  assemble source <> UB.
Proof. apply small_defined. Qed.

Lemma small_sources_assemble_witness : lex demo_source <> UB /\
  (forall stmts symtab sec, pass1 demo_source = Ok (stmts, symtab, sec) -> all_fit stmts) /\ assemble demo_source <> UB.
Proof.
  apply (small_sources_assemble demo_source); [by_decide|by_decide|].
  intros ts E. change ts with (match Ok ts with Ok ts => ts | _ => [] end). rewrite <- E. by_decide.
Defined.
