(* ===== verification/LangSem.v ===== *)
(** What an assembly program means: a semantics of the items of a source, with the
    layout of [Syntax] and the instructions of [Isa], in which no image, no encoding and
    no decoder occurs.

    Control is at an address, and the instruction executed there is the one the source
    has placed there. The bytes of instructions are in memory, to be read, but a program
    that stores to one has left the language: what happens then depends on the
    encoding. So has one that runs to an address where the source has no instruction. *)

From S2P Require Import Prelude Common CLib Memory Instruction Vm Isa Symtab Lexer Parser Syntax.
Open Scope Z_scope.

Section program.
Context (L : Layout).

Definition placed_instr (p : Placed) : option Instruction :=
  match pl_item p with
  | I_instr op os _ => instr_code (ly_labels L) op os
  | _ => None
  end.

(** The instruction the source has at an address. *)
Definition instr_from (a : Z) : option Instruction :=
  p ← find (fun p => pl_addr p =? a) (ly_placed L); placed_instr p.

(** ** Memory *)

Definition covers (x : Z) (p : Placed) : bool :=
  match item_bytes (ly_labels L) (pl_item p) with
  | Some bs => (pl_addr p <=? x) && (x <? pl_addr p + zlen bs)
  | None => false
  end.

(** The byte of the item placed over an address; zero where there is none. *)
Definition program_byte (x : Z) : Z :=
  match find (covers x) (ly_placed L) with
  | Some p => default 0 (default [] (item_bytes (ly_labels L) (pl_item p)) !! Z.to_nat (x - pl_addr p))
  | None => 0
  end.

Definition is_code (x : Z) : bool :=
  existsb (fun p => covers x p && match placed_instr p with Some _ => true | None => false end)
    (ly_placed L).

(** The first address behind the program, the limit of its stack. *)
Definition program_end : Z :=
  match section_items true L with [] => ly_code_next L | _ => ly_data_next L end.

Definition entry_address : Z :=
  match section_items false L with [] => 0 | p :: _ => pl_addr p end.

Definition program_start : Arch :=
  mkArch (fun _ => 0) entry_address 0xFFFE (mkFlags false false false false) program_byte.

(** ** Execution *)

Definition stores_code (a : Arch) (i : Instruction) : bool :=
  match opcode i with
  | OP_STORE => let x := mem_addr a (op1 i) in is_code x || is_code ((x + 1) mod 65536)
  | _ => false
  end.

(** One instruction; [None] is outside the language. *)
Definition lang_step (a : Arch) (io : Stdio) : option (Arch * Stdio * Outcome) :=
  i ← instr_from (apc a);
  if stores_code a i then None
  else Some (isa_exec program_end (with_pc a ((apc a + zlen (instr_bytes i)) mod 65536)) io i).

(** How a run of some instructions stands: it goes on, has been stopped by HALT or SYS
    EXIT, or by a fault of the instruction at an address. *)
Inductive Ending : Type := Going | Stopped | Faulted (e : VmResult) (at_ : Z).

(** At most [n] instructions. *)
Fixpoint lang_run (n : nat) (a : Arch) (io : Stdio) : option (Arch * Stdio * Ending) :=
  match n with
  | O => Some (a, io, Going)
  | S n =>
      '(a', io', o) ← lang_step a io;
      match o with
      | Next => lang_run n a' io'
      | Stop => Some (a', io', Stopped)
      | Fault e => Some (a', io', Faulted e (apc a))
      end
  end.

Definition program_run (n : nat) (io : Stdio) : option (Arch * Stdio * Ending) :=
  lang_run n program_start io.
End program.
