(* ===== verification/LangFacts.v ===== *)
(** An assembled image runs as the source says: what the loaded machine holds is the
    program of [LangSem], and a cycle of it is a step of the language as long as the
    program stays inside the language. *)

From S2P Require Import Prelude Machine Common CLib Memory Cpu Instruction Vm VmFacts Isa VmArith VmRefine.
From S2P Require Import VmStep VmStack Loader VmDemo VmHalt Symtab Lexer LexFacts Parser Assembler.
From S2P Require Import AsmFacts EmitFacts AsmCorrect RtParse Syntax SyntaxFacts ParseFacts AsmSpec LangSem.
From stdpp Require Import relations.
Open Scope Z_scope.

(** ** The architecture cannot tell equivalent states apart *)

Definition same_outcome (x y : Arch * Stdio * Outcome) : Prop :=
  x.1.1 ≡ y.1.1 /\ x.1.2 = y.1.2 /\ x.2 = y.2.

Lemma src_val_proper a1 a2 op : a1 ≡ a2 -> src_operand op \/ none_operand op -> src_val a1 op = src_val a2 op.
Proof.
  intros (Hg & _) [[[Hm Hv]|[Hm _]]|[Hm _]]; unfold src_val; rewrite Hm; try done. by apply Hg.
Qed.

Lemma mem_addr_proper a1 a2 op : a1 ≡ a2 -> mem_operand op -> mem_addr a1 op = mem_addr a2 op.
Proof. intros (Hg & _) [[Hm _]|[Hm Hv]]; unfold mem_addr; rewrite Hm; [done|]. by apply Hg. Qed.

Lemma word_at_proper f g x : (forall x, f x = g x) -> word_at f x = word_at g x.
Proof. intros H. unfold word_at. by rewrite !H. Qed.

Lemma store_word_proper f g x v y : (forall x, f x = g x) -> store_word f x v y = store_word g x v y.
Proof. intros H. unfold store_word. by rewrite H. Qed.

Lemma with_gpr_proper a1 a2 i v : a1 ≡ a2 -> with_gpr a1 i v ≡ with_gpr a2 i v.
Proof.
  intros (H1 & H2 & H3 & H4 & H5). repeat split; try done. intros j Hj. simpl. unfold upd. by rewrite H1.
Qed.

Lemma with_ram_proper a1 a2 f g : a1 ≡ a2 -> (forall x, f x = g x) -> with_ram a1 f ≡ with_ram a2 g.
Proof. intros (H1 & H2 & H3 & H4 & H5) H. by repeat split. Qed.

Lemma with_pc_proper a1 a2 v : a1 ≡ a2 -> with_pc a1 v ≡ with_pc a2 v.
Proof. intros (H1 & H2 & H3 & H4 & H5). by repeat split. Qed.

Lemma with_sp_proper a1 a2 v : a1 ≡ a2 -> with_sp a1 v ≡ with_sp a2 v.
Proof. intros (H1 & H2 & H3 & H4 & H5). by repeat split. Qed.

Lemma with_flags_proper a1 a2 f : a1 ≡ a2 -> with_flags a1 f ≡ with_flags a2 f.
Proof. intros (H1 & H2 & H3 & H4 & H5). by repeat split. Qed.

Create HintDb arch.
#[export] Hint Resolve with_gpr_proper with_ram_proper with_pc_proper with_sp_proper with_flags_proper
  store_word_proper : arch.

Section proper.
Context (limit : Z) (a1 a2 : Arch) (Ha : a1 ≡ a2) (io : Stdio).

Let Hreg : forall i, 0 <= i <= 7 -> gpr a1 i = gpr a2 i.
Proof. apply Ha. Qed.

Lemma isa_push_proper v :
  (isa_push limit a1 v).1 ≡ (isa_push limit a2 v).1 /\ (isa_push limit a1 v).2 = (isa_push limit a2 v).2.
Proof.
  destruct Ha as (_ & _ & Hs & _ & Hm). unfold isa_push. rewrite Hs.
  destruct (asp a2 - 2 <? limit); simpl; [done|]. split; [|done].
  apply with_sp_proper, with_ram_proper; [done|]. intros x. by apply store_word_proper.
Qed.

Lemma isa_sys_proper code : same_outcome (isa_sys a1 io code) (isa_sys a2 io code).
Proof.
  unfold isa_sys, same_outcome. rewrite Hreg by lia.
  repeat (case_match; simpl); try done. split; [by apply with_gpr_proper|done].
Qed.

Lemma isa_exec_proper i : instr_legal i -> same_outcome (isa_exec limit a1 io i) (isa_exec limit a2 io i).
Proof.
  intros Hi. destruct Hi as [H1 H2]. pose proof Ha as (_ & Hp & Hs & Hf & Hm).
  unfold isa_exec. destruct (opcode i); cbn [operand_shapes fst snd] in H1, H2; try apply isa_sys_proper.
  all: try match goal with |- context [isa_push limit a1 (?f a1 _)] =>
    rewrite (src_val_proper a1 a2) by auto; destruct (isa_push_proper (src_val a2 (op1 i))) as [P1 P2] end.
  all: try match goal with |- context [isa_push limit a1 (apc a1)] =>
    rewrite Hp; destruct (isa_push_proper (apc a2)) as [P1 P2] end.
  all: rewrite ?Hs, ?Hf, ?(src_val_proper a1 a2 (op1 i)), ?(src_val_proper a1 a2 (op2 i)),
    ?(mem_addr_proper a1 a2 (op1 i)), ?(mem_addr_proper a1 a2 (op2 i)), ?(word_at_proper _ _ _ Hm) by auto.
  all: try (rewrite (Hreg (value (op1 i))) by apply H1); try (rewrite (Hreg (value (op2 i))) by apply H2).
  all: try destruct (isa_push limit a1 _), (isa_push limit a2 _); cbn [fst snd] in *; subst;
    repeat case_match; simplify_eq; unfold same_outcome; cbn [fst snd]; split_and!; auto 6 with arch.
Qed.
End proper.

(** ** The program in the loaded image *)

Section program.
Context (source : list Z) (stmts : list Statement) (symtab : SymbolTable) (sec : SectionState) (L : Layout).
Context (Hb : is_byte_list source) (Hp : pass1 source = Ok (stmts, symtab, sec)).
Context (H : sim L (stmts, symtab, sec)) (image : list Z) (Hi : assemble source = Ok image).

Let Hf := sm_fit _ _ H.
Let Hl := sm_layout _ _ H.

(** The numbers of the header are those of the layout. *)
Lemma program_numbers : entry_address L = code_start_addr sec /\ program_end L <= 0xFFFF /\
  program_end L = Z.max (code_cursor sec)
    (data_start_addr sec + if data_started sec then data_cursor sec - data_start_addr sec else 0).
Proof.
  pose proof (section_numbers source stmts symtab sec Hb Hp Hf) as (Ua & Uc & Uda & Uds & Hpos & B1 & B2 & _).
  destruct (pass1_spec _ _ _ _ Hb Hp) as [_ Hcs].
  pose proof (section_placed false L stmts (sm_placed _ _ H)) as P0.
  pose proof (section_placed true L stmts (sm_placed _ _ H)) as P1.
  pose proof (lo_code_start _ Hl) as CS. pose proof (lo_code_head _ Hl) as CH.
  pose proof (lo_data_start _ Hl) as DS. pose proof (lo_data_zero _ Hl) as DZ.
  pose proof (lo_above _ Hl) as AB. pose proof (lo_data _ Hl) as D.
  cbn [fst snd] in *. rewrite Hcs in CS. unfold entry_address, program_end, is_u16 in *. rewrite (sm_code _ _ H).
  destruct (section_items false L) as [|p ps]; [apply Forall2_nil_inv_l in P0; by rewrite P0 in CS|].
  destruct (Forall2_head _ _ _ _ P0) as (st & l & E0 & (_ & Ea & _)). rewrite Ea, <- (CH _ _ E0). cbn [snd].
  split; [done|]. destruct (section_items true L) as [|q qs].
  - apply Forall2_nil_inv_l in P1. rewrite P1 in DS. change (data_started sec = false) in DS.
    rewrite DS in *. rewrite (DZ eq_refl) in *. lia.
  - destruct (Forall2_head _ _ _ _ P1) as (st1 & l1 & E1 & _). rewrite E1 in DS, D.
    change (data_started sec = true) in DS. rewrite DS in *. specialize (AB eq_refl). apply chain_le in D. rewrite (sm_dnext _ _ H).
    + cbn [snd]. lia.
    + rewrite (sm_data _ _ H). cbn [snd]. pose proof (lo_mode _ Hl) as M. cbn [snd] in M.
      destruct (sec_in_data sec); [done|]. destruct (lo_no_data _ Hl (eq_sym M)) as [E _].
      cbn [fst snd] in E. by rewrite E in E1.
Qed.

Lemma placed_size p st bs : placed_as p st -> item_bytes (ly_labels L) (pl_item p) = Some bs ->
  zlen bs = encoded_size st.
Proof.
  intros Hst E. pose proof (stmt_bytes_item symtab p st Hst) as Hit. rewrite (sm_labels _ _ H) in E. cbn [fst snd] in E.
  destruct (stmt_bytes symtab st) as [bs'| |] eqn:Eb; [|congruence|done]. rewrite E in Hit. injection Hit as <-.
  destruct Hst as (_ & _ & Ek & Hok & _). by apply (stmt_bytes_spec symtab st bs (item_kind_placeable _ _ _ Hok Ek)).
Qed.

(** Every placed item has bytes, and they are in the loaded machine. *)
Lemma placed_bytes p : In p (ly_placed L) -> exists bs,
  item_bytes (ly_labels L) (pl_item p) = Some bs /\ 0 < zlen bs /\ 0 <= pl_addr p /\
  pl_addr p + zlen bs <= program_end L /\ forall vm, bytes_at (memory (loaded vm image)) (pl_addr p) bs.
Proof.
  intros Hin. apply list_elem_of_In, list_elem_of_lookup in Hin as [k Hk].
  destruct (Forall2_lookup_l _ _ _ _ _ (sm_placed _ _ H) Hk) as (st & Est & Hst).
  assert (In st stmts /\ emits st = true) as [Hs He].
  { apply list_elem_of_lookup_2, list_elem_of_In, filter_In in Est. done. }
  destruct (stmt_bytes_at source stmts symtab sec Hb Hp Hf image st Hi Hs He) as (_ & _ & _ & bs & Ebs & Hm).
  pose proof (stmt_bytes_item symtab p st Hst) as Hit. rewrite Ebs in Hit.
  pose proof (layout_emittable _ Hl Hf) as Hem. unfold emittable in Hem. rewrite List.Forall_forall in Hem.
  destruct (Hem st Hs He) as (Hpl & Hfit & Hnn). destruct (stmt_bytes_spec _ _ _ Hpl Ebs) as [Hsz _].
  pose proof (placeable_size _ _ Hpl). destruct Hst as (Ed & -> & _). exists bs. rewrite (sm_labels _ _ H).
  split_and!; [done|lia|lia| |done].
  pose proof (stmt_in_section source stmts symtab sec Hb Hp Hf st Hs He) as Hsec. unfold st_end in Hsec.
  destruct program_numbers as (_ & _ & ->). destruct (in_data st); lia.
Qed.

(** An address that no placed item covers reads 0. *)
Lemma uncovered_zero vm x : (forall p, In p (ly_placed L) -> covers L x p = false) ->
  mem_read8 (memory (loaded vm image)) x = 0.
Proof.
  intros Hx. destruct (assembled_memory source stmts symtab sec Hb Hp Hf image Hi) as (b & Eb & _ & _ & _ & ->).
  assert (Hz : forall d, mem_read8 (buf d b) x = 0).
  { intros d. rewrite (emit_gaps symtab stmts _ b d x (layout_emittable _ Hl Hf) Eb).
    - unfold mem_read8, empty_buffer. by destruct d; cbn; rewrite lookup_empty.
    - pose proof (section_placed d L stmts (sm_placed _ _ H)) as P. apply List.Forall_forall. intros st Hst Hc.
      apply list_elem_of_In, list_elem_of_lookup in Hst as [k Hk].
      destruct (Forall2_lookup_r _ _ _ _ _ P Hk) as (p & Ep & Hst).
      apply list_elem_of_lookup_2, list_elem_of_In in Ep. unfold section_items in Ep. apply filter_In in Ep as [Ep _].
      destruct (placed_bytes p Ep) as (bs & Ebs & Hpos & _). specialize (Hx p Ep). unfold covers in Hx.
      rewrite Ebs in Hx. unfold st_end in Hc. pose proof (placed_size p st bs Hst Ebs).
      destruct Hst as (_ & Ea & _). lia. }
  pose proof (Hz true) as Z1. pose proof (Hz false) as Z2. cbn [buf] in Z1, Z2. rewrite Z1, Z2. by repeat case_match.
Qed.

(** The loaded memory is the program's. *)
Lemma loaded_program vm x : mem_read8 (memory (loaded vm image)) x = program_byte L x.
Proof.
  unfold program_byte. destruct (find (covers L x) (ly_placed L)) as [p|] eqn:E.
  - apply find_some in E as [Hin Hc]. destruct (placed_bytes p Hin) as (bs & Ebs & Hpos & Hnn & Hend & Hm).
    unfold covers in Hc. rewrite Ebs in Hc |- *.
    change (default [] (Some bs)) with bs. destruct program_numbers as (_ & Hn & _).
    rewrite <- (bytes_at_read _ _ _ _ Hnn) by (apply Hm || lia). f_equal. lia.
  - apply uncovered_zero. by apply find_none.
Qed.

Lemma loaded_start vm : abs (loaded vm image) ≡ program_start L /\ stack_limit (loaded vm image) = program_end L.
Proof.
  destruct (assembled_memory source stmts symtab sec Hb Hp Hf image Hi) as (b & _ & Hv & Hbytes & Hh & _).
  destruct program_numbers as (He & Hn & Hend). split.
  - split_and!; [|change (h_entry (header_of image) = entry_address L); by rewrite Hh, He|done|done|by apply loaded_program].
    intros i Hi'. assert (i = 0 \/ i = 1 \/ i = 2 \/ i = 3 \/ i = 4 \/ i = 5 \/ i = 6 \/ i = 7) as Hcase by lia.
    by repeat (destruct Hcase as [->|Hcase]; [done|]); subst.
  - unfold loaded, image_end. rewrite Hh. cbn [stack_limit h_code_addr h_code_size h_data_addr h_data_size]. lia.
Qed.

(** ** The text of the program *)

Lemma placed_legal p i : In p (ly_placed L) -> placed_instr L p = Some i -> instr_legal i.
Proof.
  intros Hin E. apply list_elem_of_In, list_elem_of_lookup in Hin as [k Hk].
  destruct (Forall2_lookup_l _ _ _ _ _ (sm_placed _ _ H) Hk) as (st & _ & _ & _ & Ek & Hok & _).
  pose proof (item_kind_placeable _ _ _ Hok Ek) as Hpl. unfold placed_instr in E.
  destruct (pl_item p) as [|op os ln| | | | |]; try done. cbn [item_kind] in Ek.
  destruct (instr_form op os) as [[m1 m2]|] eqn:Ef; [|done]. cbn [mbind option_bind] in Ek. injection Ek as Ek _.
  rewrite <- Ek in Hpl. pose proof (instr_code_resolved symtab op os m1 m2 Ef) as Hr.
  rewrite (sm_labels _ _ H) in E. cbn [fst snd] in E.
  destruct (resolved _ _ _ _ _ _ _) as [i'| |] eqn:Er; [|congruence|done]. rewrite E in Hr. injection Hr as <-.
  by apply (resolved_legal _ _ _ _ _ _ _ _ _ Hpl Er).
Qed.

(** The instruction at an address is legal, has its bytes there, and is code. *)
Lemma instr_from_placed a i : instr_from L a = Some i ->
  instr_legal i /\ 0 <= a /\ a + zlen (instr_bytes i) <= program_end L /\
  (forall vm, bytes_at (memory (loaded vm image)) a (instr_bytes i)) /\
  forall x, a <= x < a + zlen (instr_bytes i) -> is_code L x = true.
Proof.
  unfold instr_from. intros E. destruct (find _ _) as [p|] eqn:Ef; [|done]. cbn [mbind option_bind] in E.
  apply find_some in Ef as [Hin <-%Z.eqb_eq]. destruct (placed_bytes p Hin) as (bs & Ebs & Hpos & Hnn & Hend & Hm).
  assert (bs = instr_bytes i) as ->.
  { unfold placed_instr in E. destruct (pl_item p); try done. simpl in Ebs. rewrite E in Ebs. by simplify_eq/=. }
  split_and!; try done.
  - by eapply placed_legal.
  - intros x Hx. unfold is_code. apply existsb_exists. exists p. split; [done|]. unfold covers. rewrite Ebs, E.
    apply andb_true_iff. split; [lia|done].
Qed.

(** A machine that runs the program: its code is as it was loaded. *)
Record on_program (vm : VM) : Prop := {
  op_wf : vm_wf vm;
  op_stack : stack_ok vm;
  op_limit : stack_limit vm = program_end L;
  op_running : halted vm = false;
  op_code : forall x, is_code L x = true -> mem_read8 (memory vm) x = program_byte L x;
}.

Lemma on_program_start vm : on_program (loaded vm image).
Proof.
  destruct (assembled_valid source stmts symtab sec Hb Hp Hf image Hi) as [Hv Hbytes].
  split; try done; [by apply loaded_wf|by apply loaded_stack_ok|by apply loaded_start|].
  intros x _. apply loaded_program.
Qed.

Lemma code_below x : is_code L x = true -> 0 <= x < program_end L.
Proof.
  intros (p & Hin & [Hc _]%andb_true_iff)%existsb_exists. unfold covers in Hc.
  destruct (placed_bytes p Hin) as (bs & Ebs & Hpos & Hnn & Hend & _). rewrite Ebs in Hc. lia.
Qed.

(** The machine fetches the instruction the source has at PC. *)
Lemma on_program_fetch vm i : on_program vm -> instr_from L (pc (cpu vm)) = Some i -> at_instr vm i.
Proof.
  intros [Hwf Hs Hl' Hh Hc] E. destruct (instr_from_placed _ _ E) as (Hleg & Hnn & Hend & Hm & Hcode).
  split; [done|]. destruct program_numbers as (_ & Hn & _). apply bytes_at_intro; [lia|lia|]. intros k Hk.
  rewrite Hc by (apply Hcode; lia). rewrite <- (loaded_program vm).
  apply bytes_at_read; [lia|lia|apply Hm|done].
Qed.

(** What is not the target of a STORE is not changed by it. *)
Lemma store_elsewhere a io i a' io' o x : opcode i = OP_STORE -> stores_code L a i = false -> is_code L x = true ->
  forall npc, isa_exec (program_end L) (with_pc a npc) io i = (a', io', o) -> ram a' x = ram a x.
Proof.
  unfold stores_code, isa_exec. intros Ho Hst Hx npc. rewrite Ho in Hst |- *. intros [= <- _ _].
  apply orb_false_iff in Hst as [H1 H2]. cbn [ram with_ram]. unfold store_word.
  change (mem_addr (with_pc a npc) (op1 i)) with (mem_addr a (op1 i)).
  destruct (Z.eqb_spec x (mem_addr a (op1 i))); [congruence|].
  destruct (Z.eqb_spec x ((mem_addr a (op1 i) + 1) `mod` 65536)); [congruence|done].
Qed.

(** A step of the language is a cycle of the machine. *)
Lemma lang_step_cycle vm a io a' io' o : on_program vm -> abs vm ≡ a ->
  lang_step L a io = Some (a', io', o) ->
  exists vm' rc, vm_step vm io = Some (vm', io', rc) /\ abs vm' ≡ a' /\ step_result vm vm' rc o /\
    (o = Next -> on_program vm').
Proof.
  intros Hon Ha E. pose proof Ha as (_ & Epc & _). unfold lang_step in E. rewrite <- Epc in E. cbn [abs apc] in E.
  destruct (instr_from L (pc (cpu vm))) as [i|] eqn:Ei; [|done]. cbn [mbind option_bind] in E.
  destruct (stores_code L a i) eqn:Est; [done|]. apply (inj Some) in E.
  pose proof (on_program_fetch vm i Hon Ei) as Hat. destruct Hon as [Hwf Hs Hl' Hh Hc].
  destruct (step_exec vm io i Hwf Hh Hat) as (vm' & io1 & rc & Hv & Hwf' & Hl1 & Ha' & Hio & Hr).
  change ((pc (cpu vm) + zlen (instr_bytes i)) `mod` 65536) with (next_pc vm i) in E.
  destruct (isa_exec_proper (stack_limit vm) (with_pc (abs vm) (next_pc vm i)) (with_pc a (next_pc vm i))
    ltac:(by apply with_pc_proper) io i (proj1 Hat)) as (P1 & P2 & P3).
  rewrite Hl' in P1, P2, P3, Ha', Hio, Hr. rewrite E in P1, P2, P3. cbn [fst snd] in P1, P2, P3.
  rewrite P1 in Ha'. rewrite P2 in Hio. rewrite P3 in Hr. subst io1.
  exists vm', rc. split_and!; try done. intros ->. destruct Hr as (-> & Hh' & _).
  assert (vm_next (vm, io) (vm', io')) as Hn by by econstructor.
  split; [done|by apply (stack_ok_next _ _ Hn)|congruence|done|]. intros x Hx. pose proof (code_below x Hx) as Hb'.
  destruct (decide (opcode i = OP_STORE)) as [Ho|Ho].
  - pose proof (store_elsewhere a io i a' io' Next x Ho Est Hx _ E) as Hr.
    destruct Ha as (_ & _ & _ & _ & Ha), Ha' as (_ & _ & _ & _ & Ha'). cbn [ram abs] in Ha, Ha'.
    rewrite Ha', Hr, <- Ha. by apply Hc.
  - rewrite <- Hc by done. apply (storeless_next_memory (vm, io) (vm', io')); [|done|done|cbn; lia].
    split; [done|]. unfold next_opcode. cbn [fst].
    destruct Hat as [Hleg Hbytes].
    rewrite (decode_complete _ (wf_mem _ Hwf) _ i (cpu_wf_pc _ (wf_cpu _ Hwf)) Hleg Hbytes). congruence.
Qed.

(** How a machine stands after a run of the language. *)
Definition ends_as (vm : VM) (e : Ending) : Prop :=
  match e with
  | Going => halted vm = false /\ last_error vm = VM_OK
  | Stopped => halted vm = true /\ last_error vm = VM_OK
  | Faulted err at_ => halted vm = true /\ err <> VM_OK /\ last_error vm = err /\ error_pc vm = at_
  end.

Lemma lang_run_cycles n vm a io a' io' e : on_program vm -> abs vm ≡ a ->
  lang_run L n a io = Some (a', io', e) ->
  exists vm', vm_steps n vm io = Some (vm', io') /\ vm_wf vm' /\ abs vm' ≡ a' /\ ends_as vm' e /\
    (e = Going -> on_program vm').
Proof.
  revert vm a io. induction n as [|n IH]; intros vm a io Hon Ha E; cbn [lang_run] in E.
  { simplify_eq. exists vm. pose proof Hon as [Hwf _ _ Hh _].
    split_and!; try done. split; [done|by apply wf_running]. }
  destruct (lang_step L a io) as [[[a1 io1] o]|] eqn:Est; [|done]. cbn [mbind option_bind] in E.
  destruct (lang_step_cycle vm a io a1 io1 o Hon Ha Est) as (vm1 & rc & Hv & Ha1 & Hr & Hon1).
  destruct (vm_next_wf (vm, io) (vm1, io1)) as [Hwf1 _]; [by econstructor; [apply (op_running _ Hon)|]|apply (op_wf _ Hon)|].
  cbn [vm_steps]. rewrite Hv. cbn [mbind option_bind]. destruct o as [| |err].
  - by apply (IH vm1 a1 io1 (Hon1 eq_refl)).
  - simplify_eq. destruct Hr as (_ & Hh & Hok & _). exists vm1. by rewrite vm_steps_halted.
  - simplify_eq. destruct Hr as (_ & Hne & Hh & Hle & Hpc). exists vm1. rewrite vm_steps_halted by done.
    split_and!; try done. cbn [ends_as]. split_and!; try done. rewrite Hpc. apply Ha.
Qed.
End program.
