(* ===== verification/LangProps.v ===== *)
(** The theorems about running assembly programs: the machine and the command line do
    with a source what the semantics of its items says. *)

From S2P Require Import Prelude Machine Common CLib Memory Cpu Instruction Vm VmFacts Isa VmRefine VmStep Loader.
From S2P Require Import VmDemo Symtab Lexer Parser Assembler AsmFacts AsmCorrect Syntax ParseFacts Reader AsmSpec.
From S2P Require Import AsmProps Disassembler Debugger Main MainProps LangSem LangFacts.
Open Scope Z_scope.

(** A source of the language, with its layout and its image. *)
Definition is_program (source : list Z) (L : Layout) (image : list Z) : Prop :=
  exists ts items, lex source = Ok ts /\ program_syntax ts items /\
    lay_items items ly_start = Some L /\ spec_image L = Some image.

Definition find_program (source : list Z) : option (Layout * list Z) :=
  match lex source with
  | Ok ts =>
      items ← read_program ts; L ← lay_items items ly_start; image ← spec_image L; Some (L, image)
  | _ => None
  end.

Lemma find_program_spec source L image : find_program source = Some (L, image) <-> is_program source L image.
Proof.
  unfold find_program, is_program. split.
  - destruct (lex source) as [ts| |]; [|done..]. destruct (read_program ts) as [items|] eqn:P; [|done].
    apply read_program_spec in P. cbn. destruct (lay_items items ly_start) as [L'|] eqn:EL; [|done]. cbn.
    destruct (spec_image L') as [im|] eqn:Es; [|done]. cbn. intros [= -> ->]. eauto 8.
  - intros (ts & items & -> & P%read_program_spec & EL & Es). rewrite P. cbn. rewrite EL. cbn. by rewrite Es.
Qed.

(** ** The machine *)

Section program.
Context (source : list Z) (L : Layout) (image : list Z) (Hb : is_byte_list source)
  (Hprog : is_program source L image).

(** The image is what the assembler makes of the source, and loads. *)
Lemma program_image : assemble source = Ok image /\ image_valid image /\ is_byte_list image.
Proof.
  destruct Hprog as (ts & items & Hlex & P & EL & Hs).
  destruct (specified_pass1 source ts items L image Hb Hlex P EL Hs) as (stmts & symtab & sec & Hp & Hsim).
  pose proof (spec_is_assembled source stmts symtab sec L Hb Hp Hsim image Hs) as Hi.
  split; [exact Hi|by apply (assembled_valid source stmts symtab sec Hb Hp (sm_fit _ _ Hsim) image Hi)].
Qed.

(** A machine that runs the program does what the program says. *)
Lemma on_program_runs n vm a io a' io' e : on_program L vm -> abs vm ≡ a ->
  lang_run L n a io = Some (a', io', e) ->
  exists vm', vm_steps n vm io = Some (vm', io') /\ vm_wf vm' /\ abs vm' ≡ a' /\ ends_as vm' e /\
    (e = Going -> on_program L vm').
Proof.
  destruct Hprog as (ts & items & Hlex & P & EL & Hs).
  destruct (specified_pass1 source ts items L image Hb Hlex P EL Hs) as (stmts & symtab & sec & Hp & Hsim).
  pose proof (spec_is_assembled source stmts symtab sec L Hb Hp Hsim image Hs) as Hi.
  by apply (lang_run_cycles source stmts symtab sec L Hb Hp Hsim image Hi).
Qed.

(** It fetches the instructions of the source. *)
Lemma on_program_at vm i : on_program L vm -> instr_from L (pc (cpu vm)) = Some i -> at_instr vm i.
Proof.
  destruct Hprog as (ts & items & Hlex & P & EL & Hs).
  destruct (specified_pass1 source ts items L image Hb Hlex P EL Hs) as (stmts & symtab & sec & Hp & Hsim).
  pose proof (spec_is_assembled source stmts symtab sec L Hb Hp Hsim image Hs) as Hi.
  by apply (on_program_fetch source stmts symtab sec L Hb Hp Hsim image Hi).
Qed.

(** A machine that has loaded the image runs the program, from its start. *)
Lemma on_program_loaded vm :
  on_program L (vm_load vm image).1 /\ abs (vm_load vm image).1 ≡ program_start L.
Proof.
  destruct program_image as (_ & Hv & Hbytes). rewrite vm_load_ok by done.
  destruct Hprog as (ts & items & Hlex & P & EL & Hs).
  destruct (specified_pass1 source ts items L image Hb Hlex P EL Hs) as (stmts & symtab & sec & Hp & Hsim).
  pose proof (spec_is_assembled source stmts symtab sec L Hb Hp Hsim image Hs) as Hi.
  split; [by apply (on_program_start source stmts symtab sec L Hb Hp Hsim image Hi)|].
  by eapply (proj1 (loaded_start source stmts symtab sec L Hb Hp Hsim image Hi vm)).
Qed.

Lemma program_cycles vm n io a' io' e : program_run L n io = Some (a', io', e) ->
  exists vm', vm_steps n (vm_load vm image).1 io = Some (vm', io') /\ vm_wf vm' /\ abs vm' ≡ a' /\
    ends_as vm' e.
Proof.
  intros E. destruct (on_program_loaded vm) as [Hon Ha].
  destruct (on_program_runs n _ _ io a' io' e Hon Ha E) as (vm' & ? & ? & ? & ? & _). eauto 6.
Qed.
End program.

(** C4: Assembly programs run as they are written. A source whose items have a layout and
    an image assembles to it; and as long as the program stays in its language -
    executes instructions the source has, and does not store to them - a machine with
    the image loaded does, instruction by instruction, what the semantics of the items
    says: after any number of instructions the registers, flags, stack, memory and
    streams are the same, and so is the end, be it HALT, SYS EXIT, or a fault at the
    address of the instruction at fault. *)
Theorem program_runs_as_written source L image vm n io a' io' e :
  is_byte_list source -> is_program source L image -> program_run L n io = Some (a', io', e) ->
  assemble source = Ok image /\
  exists vm', vm_steps n (vm_load vm image).1 io = Some (vm', io') /\ abs vm' ≡ a' /\ ends_as vm' e.
Proof.
  intros Hb Hp E. split; [by apply (program_image source L image)|].
  destruct (program_cycles source L image Hb Hp vm n io a' io' e E) as (vm' & E' & _ & Ha & He). eauto.
Qed.

(** The demo counts down in three rounds, loads a word of its data and halts. *)
Definition demo_layout : Layout := match find_program demo_source with Some (L, _) => L | None => ly_start end.

Definition demo_end : Arch :=
  match program_run demo_layout 9 quiet with Some (a, _, _) => a | None => program_start demo_layout end.

Lemma demo_is_program : is_program demo_source demo_layout demo_image.
Proof. apply find_program_spec. vm_compute. reflexivity. Qed.

Lemma demo_run : program_run demo_layout 9 quiet = Some (demo_end, quiet, Stopped).
Proof.
  assert (option_map (fun r => (r.1.2, r.2)) (program_run demo_layout 9 quiet) = Some (quiet, Stopped)) as E
    by (vm_compute; reflexivity).
  unfold demo_end. destruct (program_run demo_layout 9 quiet) as [[[a io] e]|]; by simplify_eq/=.
Qed.

Lemma program_runs_as_written_witness : assemble demo_source = Ok demo_image /\
  exists vm', vm_steps 9 (vm_load blank demo_image).1 quiet = Some (vm', quiet) /\ abs vm' ≡ demo_end /\
    ends_as vm' Stopped.
Proof.
  apply (program_runs_as_written demo_source demo_layout demo_image blank 9 quiet demo_end quiet Stopped);
    [by_decide|exact demo_is_program|exact demo_run].
Defined.

(** ** The command line *)

Lemma c_string_bytes s : is_byte_list s -> is_byte_list (c_string s).
Proof.
  intros H. unfold c_string. induction H as [|c s Hc _ IH]; simpl; [constructor|].
  destruct (negb (c =? 0)); by constructor.
Qed.

(** What [run] reports about how a program ended. *)
Definition ending_report (w : World) (a : Arch) (e : Ending) : World * Z :=
  match e with
  | Stopped => (w, gpr a 0 mod 256)
  | Faulted err at_ => (complain w (vm_result_str err ++ str " at PC=0x" ++ fmt_04X at_), 1)
  | Going => (complain w (str "step limit (10000000) reached without halting"), 1)
  end.

Lemma run_ending w vm io a e : vm_wf vm -> abs vm ≡ a -> ends_as vm e ->
  (run_world w vm io, run_status vm) = ending_report (with_io w io) a e.
Proof.
  intros Hwf (Hg & _) He. unfold run_world, run_status, run_report.
  destruct e as [| |err p]; cbn [ends_as ending_report] in *.
  - destruct He as [-> ->]. rewrite bool_decide_true by done. done.
  - destruct He as [-> ->]. rewrite bool_decide_true by done. cbn [andb]. by rewrite <- (Hg 0 ltac:(lia)).
  - destruct He as (-> & Hne & -> & ->). by rewrite bool_decide_false.
Qed.

(** C5: [bytevm run prog.asm] does what the program says: from the assembly language's
    semantics of the source alone - its items, their layout, the meaning of its
    instructions - follow the output, the exit status and the message, through lexer,
    both passes, image, loader, decoder and machine, for programs that end within ten
    million instructions and for those that do not. *)
Theorem run_does_what_is_written w path contents L image vm k a' io' e :
  open_file w path = File_bytes contents -> has_suffix path (str ".asm") = true -> is_byte_list contents ->
  is_program (c_string contents) L image ->
  program_run L k (wio w) = Some (a', io', e) -> Z.of_nat k <= MAX_STEPS -> e <> Going \/ Z.of_nat k = MAX_STEPS ->
  cmd_run w path vm = Some (ending_report (with_io w io') a' e).
Proof.
  intros Ho Hsuf Hb Hp E Hk He.
  assert (is_byte_list (c_string contents)) as Hbs by by apply c_string_bytes.
  destruct (program_image _ _ _ Hbs Hp) as (Hi & Hv & Hbi).
  destruct (program_cycles _ _ _ Hbs Hp vm k (wio w) a' io' e E) as (v1 & E1 & Hwf & Ha & Hend).
  assert (image_from_path w path = Some (w, Some image)) as Him
    by (rewrite (image_from_source w path contents Ho Hsuf), Hi; done).
  destruct (run_image w path image vm w Him Hbi) as [(_ & k2 & v2 & io2 & Hk2 & E2 & Hend2 & ->)|[? _]]; [|done].
  rewrite vm_steps_machine in E1, E2.
  assert ((v1, io') = (v2, io2)) as [= <- <-].
  { apply (m_steps_unique (Z.to_nat MAX_STEPS) k k2 _ _ _ E1 E2); [lia|lia| |].
    - destruct He as [He|He]; [left|right; lia]. destruct e; [done|apply Hend|apply Hend].
    - destruct Hend2 as [He2|He2]; [by left|right; lia]. }
  by rewrite (run_ending w v1 io' a' e).
Qed.

Definition asm_world : World := mkWorld (fun _ => File_bytes demo_source) (fun _ => None) (fun _ => 0) quiet [] [].

Lemma run_does_what_is_written_witness :
  cmd_run asm_world (str "p.asm") blank = Some (ending_report (with_io asm_world quiet) demo_end Stopped).
Proof.
  apply (run_does_what_is_written asm_world (str "p.asm") demo_source demo_layout demo_image blank 9);
    [reflexivity|reflexivity|by_decide| |exact demo_run|by vm_compute|by left].
  apply find_program_spec. vm_compute. reflexivity.
Defined.
