(* ===== verification/Heap.v ===== *)
(** The heap of the C program: [malloc], [realloc] and [free].

    A block is named by the allocator; a pointer carries the size of its block, which
    the program does not see, so that freeing or writing through it can be checked.
    Sizes count elements of the type the block is an array of. Which block a request
    is given, and whether it is given one at all, is up to an [Allocator]: everything
    below holds for each of them.

    A computation on the heap has no result ([None]) when it frees a block that is not
    allocated, uses one, or writes outside one. [runs own m Q] says that [m], owning the
    blocks [own] of any heap, has a result, and owns blocks with [Q] afterwards; what it
    does not own stays as it was. *)

From S2P Require Import Prelude.
Open Scope Z_scope.

(** A block and its size. *)
Definition Block : Type := nat * Z.

Definition Ptr : Type := option Block.

Record Heap : Type := mkHeap { allocated : list Block; requests : nat }.

Definition heap_empty : Heap := mkHeap [] 0.

(** The name a request is given, from the blocks there are, the number of requests so
    far and the size; [None] when there is no memory. *)
Class Allocator : Type := {
  pick : list Block -> nat -> Z -> option nat;
  pick_fresh : forall blocks n size b, pick blocks n size = Some b -> b ∉ blocks.*1;
}.

(** ** The monad *)

Definition H (A : Type) : Type := Heap -> option (A * Heap).

#[export] Instance h_ret : MRet H := fun A a h => Some (a, h).
#[export] Instance h_bind : MBind H := fun A B f m h =>
  match m h with Some (a, h) => f a h | None => None end.

(** Computations that report errors. *)
Definition hr_bind {A B} (f : A -> H (res B)) (m : H (res A)) : H (res B) :=
  r ← m; match r with Ok a => f a | Err l e => mret (Err l e) | UB => mret UB end.

Declare Scope heap_scope.
Delimit Scope heap_scope with heap.
Notation "x ⇐ m ; k" := (hr_bind (fun x => k) m)
  (at level 20, m at level 100, k at level 200, only parsing) : heap_scope.
Notation "' p ⇐ m ; k" := (hr_bind (fun x => match x with p => k end) m)
  (at level 20, p pattern, m at level 100, k at level 200, only parsing) : heap_scope.
Open Scope heap_scope.

(** ** The operations *)

(** The block taken out of the list. *)
Fixpoint take_out (b : Block) (blocks : list Block) : option (list Block) :=
  match blocks with
  | [] => None
  | c :: blocks => if decide (c = b) then Some blocks else rest ← take_out b blocks; Some (c :: rest)
  end.

Definition ptr_blocks (p : Ptr) : list Block := match p with Some b => [b] | None => [] end.

Section heap.
Context {A : Allocator}.

Definition malloc (size : Z) : H Ptr := fun h =>
  match pick (allocated h) (requests h) size with
  | Some b => Some (Some (b, size), mkHeap ((b, size) :: allocated h) (S (requests h)))
  | None => Some (None, mkHeap (allocated h) (S (requests h)))
  end.

(** [realloc(NULL, size)] is [malloc]; a block that cannot be moved stays. *)
Definition realloc (p : Ptr) (size : Z) : H Ptr := fun h =>
  match p with
  | None => malloc size h
  | Some b =>
      rest ← take_out b (allocated h);
      match pick rest (requests h) size with
      | Some c => Some (Some (c, size), mkHeap ((c, size) :: rest) (S (requests h)))
      | None => Some (None, mkHeap (allocated h) (S (requests h)))
      end
  end.

Definition free (p : Ptr) : H unit := fun h =>
  match p with
  | None => Some (tt, h)
  | Some b => rest ← take_out b (allocated h); Some (tt, mkHeap rest (requests h))
  end.

(** The pointer may be used: its block is allocated, and element [i] is inside it. *)
Definition write_at (p : Ptr) (i : Z) : H unit := fun h =>
  b ← p;
  if bool_decide (b ∈ allocated h) && (0 <=? i) && (i <? b.2) then Some (tt, h) else None.

(** The same for [n] elements from [i] on, as [memcpy] and [fread] write them; a string
    of [n] characters is written with its NUL as [n + 1]. *)
Definition write_range (p : Ptr) (i n : Z) : H unit := fun h =>
  b ← p;
  if bool_decide (b ∈ allocated h) && (0 <=? i) && (0 <=? n) && (i + n <=? b.2) then Some (tt, h) else None.

(** All the blocks may be read. *)
Definition reads (blocks : list Block) : H unit := fun h =>
  if forallb (fun b => bool_decide (b ∈ allocated h)) blocks then Some (tt, h) else None.

(** ** Ownership *)

(** Some request finds no memory. *)
Definition can_refuse : Prop := exists blocks n size, pick blocks n size = None.

Definition heap_ok (h : Heap) : Prop := NoDup (allocated h).*1.

Definition runs {B} (own : list Block) (m : H B) (Q : B -> list Block -> Prop) : Prop :=
  forall h frame, heap_ok h -> allocated h ≡ₚ own ++ frame ->
  exists b h' own', m h = Some (b, h') /\ heap_ok h' /\ allocated h' ≡ₚ own' ++ frame /\ Q b own'.

Lemma runs_ret {B} own (b : B) (Q : B -> list Block -> Prop) : Q b own -> runs own (mret b) Q.
Proof. intros HQ h frame Hok E. by exists b, h, own. Qed.

Lemma runs_perm {B} own own' (m : H B) Q : own ≡ₚ own' -> runs own m Q -> runs own' m Q.
Proof. intros E Hm h frame Hok Eh. apply Hm; [done|]. by rewrite Eh, E. Qed.

Lemma runs_post {B} own (m : H B) (Q R : B -> list Block -> Prop) :
  runs own m Q -> (forall b o, Q b o -> R b o) -> runs own m R.
Proof.
  intros Hm HQ h frame Hok Eh. destruct (Hm _ _ Hok Eh) as (b & h' & o & E & Hok' & Eh' & Hq).
  exists b, h', o. auto.
Qed.

(** A step that needs part of what is owned leaves the rest alone. *)
Lemma runs_bind {B C} own own1 frame (m : H B) (f : B -> H C) Q R :
  runs own1 m Q -> own ≡ₚ own1 ++ frame ->
  (forall b o, Q b o -> runs (o ++ frame) (f b) R) -> runs own (m ≫= f) R.
Proof.
  intros Hm E Hf h fr Hok Eh.
  destruct (Hm h (frame ++ fr) Hok) as (b & h1 & o & E1 & Hok1 & Eh1 & Hq).
  { by rewrite Eh, E, (assoc_L (++)). }
  destruct (Hf b o Hq h1 fr Hok1) as (c & h2 & o2 & E2 & Hrest).
  { by rewrite Eh1, (assoc_L (++)). }
  exists c, h2, o2. split; [|done]. unfold mbind, h_bind. by rewrite E1.
Qed.

Lemma runs_frame {B} own own1 frame (m : H B) Q :
  runs own1 m Q -> own ≡ₚ own1 ++ frame ->
  runs own m (fun b o => exists o1, o = o1 ++ frame /\ Q b o1).
Proof.
  intros Hm E h fr Hok Eh.
  destruct (Hm h (frame ++ fr) Hok) as (b & h1 & o & E1 & Hok1 & Eh1 & Hq).
  { by rewrite Eh, E, (assoc_L (++)). }
  exists b, h1, (o ++ frame). split; [done|]. split; [done|]. split; [by rewrite Eh1, (assoc_L (++))|]. eauto.
Qed.

Lemma runs_hr_bind {B C} own own1 frame (m : H (res B)) (f : B -> H (res C)) Q R :
  runs own1 m Q -> own ≡ₚ own1 ++ frame ->
  (forall b o, Q (Ok b) o -> runs (o ++ frame) (f b) R) ->
  (forall l e o, Q (Err l e) o -> R (Err l e) (o ++ frame)) ->
  (forall o, Q UB o -> R UB (o ++ frame)) -> runs own (hr_bind f m) R.
Proof.
  intros Hm E Hf He Hu. eapply runs_bind; [done..|]. intros [b|l e|] o Hq; [by apply Hf|..];
    apply runs_ret; auto.
Qed.

Lemma take_out_perm b blocks rest : take_out b blocks = Some rest -> blocks ≡ₚ b :: rest.
Proof.
  revert rest. induction blocks as [|c blocks IH]; intros rest E; [done|]. simpl in E. case_decide.
  - by simplify_eq.
  - destruct (take_out b blocks) as [r|]; [|done]. simplify_option_eq. rewrite (IH r) by done.
    constructor.
Qed.

Lemma take_out_Some b blocks rest : blocks ≡ₚ b :: rest -> exists r, take_out b blocks = Some r /\ r ≡ₚ rest.
Proof.
  intros E. assert (Hin : b ∈ blocks) by (rewrite E; left). 
  assert (exists r, take_out b blocks = Some r) as [r Er].
  { clear E. induction blocks as [|c blocks IH]; [by apply not_elem_of_nil in Hin|]. simpl. case_decide; [eauto|].
    apply elem_of_cons in Hin as [->|Hin]; [done|]. destruct (IH Hin) as [r ->]. eauto. }
  exists r. split; [done|]. apply take_out_perm in Er. rewrite Er in E. by apply Permutation_cons_inv in E.
Qed.

Lemma runs_malloc size : runs [] (malloc size) (fun p o => o = ptr_blocks p /\
  match p with Some b => b.2 = size | None => can_refuse end).
Proof.
  intros h frame Hok E. unfold malloc. destruct (pick _ _ _) as [b|] eqn:Ep.
  - exists (Some (b, size)), (mkHeap ((b, size) :: allocated h) (S (requests h))), [(b, size)].
    split_and!; [done| |by simpl; rewrite E|done|done].
    unfold heap_ok. cbn [allocated fmap list_fmap fst]. apply NoDup_cons. by apply pick_fresh in Ep.
  - eexists _, _, []. split; [done|]. split; [done|]. split; [done|]. split; [done|]. by eexists _, _, _.
Qed.

Lemma runs_realloc p size : runs (ptr_blocks p) (realloc p size) (fun q o =>
  match q with Some b => o = [b] /\ b.2 = size | None => o = ptr_blocks p /\ can_refuse end).
Proof.
  destruct p as [b|]; cbn [ptr_blocks].
  - intros h frame Hok E. unfold realloc. destruct (take_out_Some b (allocated h) frame E) as (r & -> & Er).
    cbn [mbind option_bind]. destruct (pick r _ _) as [c|] eqn:Ep.
    + exists (Some (c, size)), (mkHeap ((c, size) :: r) (S (requests h))), [(c, size)].
      split_and!; [done| |by simpl; rewrite Er|done|done].
      unfold heap_ok in *. rewrite E, <- Er in Hok. cbn in *. apply NoDup_cons in Hok as [_ Hok].
      apply NoDup_cons. by apply pick_fresh in Ep.
    + eexists _, _, [b]. split; [done|]. split; [done|]. split; [done|]. split; [done|]. by eexists _, _, _.
  - eapply runs_post; [apply (runs_malloc size)|]. intros [b|] o [-> ?]; done.
Qed.

Lemma runs_free p : runs (ptr_blocks p) (free p) (fun _ o => o = []).
Proof.
  intros h frame Hok E. destruct p as [b|]; [|by exists tt, h, []].
  unfold free. destruct (take_out_Some b (allocated h) frame E) as (r & -> & Er).
  exists tt, (mkHeap r (requests h)), []. split_and!; [done| |done|done].
  unfold heap_ok in *. rewrite E, <- Er in Hok. by apply NoDup_cons in Hok as [_ ?].
Qed.

Lemma runs_write_at b i : 0 <= i < b.2 -> runs [b] (write_at (Some b) i) (fun _ o => o = [b]).
Proof.
  intros Hi h frame Hok E. exists tt, h, [b]. split_and!; [|done..]. unfold write_at. cbn [mbind option_bind].
  rewrite bool_decide_true by (rewrite E; set_solver). by rewrite !(proj2 (Z.leb_le _ _)), !(proj2 (Z.ltb_lt _ _)) by lia.
Qed.

Lemma runs_write_range b i n : 0 <= i -> 0 <= n -> i + n <= b.2 ->
  runs [b] (write_range (Some b) i n) (fun _ o => o = [b]).
Proof.
  intros Hi Hn Hb h frame Hok E. exists tt, h, [b]. split_and!; [|done..]. unfold write_range.
  cbn [mbind option_bind]. rewrite bool_decide_true by (rewrite E; set_solver).
  by rewrite !(proj2 (Z.leb_le _ _)) by lia.
Qed.

Lemma runs_reads blocks own : blocks ⊆ own -> runs own (reads blocks) (fun _ o => o = own).
Proof.
  intros Hs h frame Hok E. exists tt, h, own. split_and!; [|done..]. unfold reads.
  rewrite (proj2 (forallb_forall _ _)); [done|]. intros b Hb%list_elem_of_In. apply bool_decide_eq_true.
  rewrite E. set_solver.
Qed.

Lemma runs_ret_bind {B C} own (b : B) (f : B -> H C) Q : runs own (f b) Q -> runs own (mret b ≫= f) Q.
Proof. done. Qed.

Lemma runs_after_reads {B} blocks own (m : H B) Q : blocks ⊆ own -> runs own m Q ->
  runs own (_ ← reads blocks; m) Q.
Proof.
  intros Hb Hm. eapply (runs_bind _ own []); [by apply runs_reads|by rewrite (right_id_L [] (++))|].
  intros _ o ->. by rewrite (right_id_L [] (++)).
Qed.

(** A step that only looks at an owned block. *)
Lemma runs_after_step {B} b own (s : H unit) (m : H B) Q : runs [b] s (fun _ o => o = [b]) ->
  b ∈ own -> runs own m Q -> runs own (_ ← s; m) Q.
Proof.
  intros Hs (own1 & own2 & ->)%list_elem_of_split Hm.
  eapply (runs_bind _ _ (own1 ++ own2)); [exact Hs|by rewrite <- Permutation_middle|].
  intros _ o ->. eapply runs_perm; [|exact Hm]. by rewrite <- Permutation_middle.
Qed.

Lemma runs_after_write_at {B} b i own (m : H B) Q : 0 <= i < b.2 -> b ∈ own -> runs own m Q ->
  runs own (_ ← write_at (Some b) i; m) Q.
Proof. intros Hi. apply runs_after_step. by apply runs_write_at. Qed.

Lemma runs_after_write_range {B} b i n own (m : H B) Q : 0 <= i -> 0 <= n -> i + n <= b.2 ->
  b ∈ own -> runs own m Q -> runs own (_ ← write_range (Some b) i n; m) Q.
Proof. intros ???. apply runs_after_step. by apply runs_write_range. Qed.

(** Freeing the block at the head. *)
Lemma runs_after_free {B} b own (m : H B) Q : runs own m Q -> runs (b :: own) (_ ← free (Some b); m) Q.
Proof.
  intros Hm. eapply (runs_bind _ _ own); [apply (runs_free (Some b))|done|]. by intros _ o ->.
Qed.

(** From a heap without blocks: the run, and what is left. *)
Lemma runs_closed {B} (m : H B) Q : runs [] m Q ->
  exists b h', m heap_empty = Some (b, h') /\ exists o, allocated h' ≡ₚ o /\ Q b o.
Proof.
  intros Hm. destruct (Hm heap_empty []) as (b & h' & o & E & _ & Ep & HQ); [constructor|done|].
  exists b, h'. split; [done|]. exists o. split; [|done]. by rewrite Ep, (right_id_L [] (++)).
Qed.
End heap.

(** ** Allocators *)

(** One that gives request [n] memory when [grant n] does. *)
Definition granting (grant : nat -> bool) : Allocator.
Proof.
  refine {| pick := fun blocks n _ => if grant n then Some (fresh blocks.*1) else None |}.
  intros blocks n size b E. destruct (grant n); [|done]. injection E as <-. apply infinite_is_fresh.
Defined.

(** Memory never ends. *)
Definition unlimited : Allocator := granting (fun _ => true).

Lemma unlimited_never_refuses : ~ can_refuse (A := unlimited).
Proof. by intros (blocks & n & size & E). Qed.

(** ** Growable arrays

    The pointer, count and capacity triples of the sources: [vec_reserve] is the test
    for a full array with its [realloc], to [initial] elements first and twice as many
    from then on, and [vec_store] the assignment behind the last element. *)

Record Vec (T : Type) : Type := mkVec { vec_ptr : Ptr; vec_items : list T; vec_cap : Z }.
Arguments mkVec {T}.
Arguments vec_ptr {T}.
Arguments vec_items {T}.
Arguments vec_cap {T}.

Definition vec_empty {T} : Vec T := mkVec None [] 0.

Section vec.
Context {A : Allocator} {T : Type}.
Implicit Type v : Vec T.

Definition vec_reserve (initial : Z) v : H (option (Vec T)) :=
  if zlen (vec_items v) =? vec_cap v then
    let new_cap := if vec_cap v =? 0 then initial else vec_cap v * 2 in
    grown ← realloc (vec_ptr v) new_cap;
    match grown with
    | None => mret None
    | Some b => mret (Some (mkVec (Some b) (vec_items v) new_cap))
    end
  else mret (Some v).

Definition vec_store v (x : T) : H (Vec T) :=
  _ ← write_at (vec_ptr v) (zlen (vec_items v));
  mret (mkVec (vec_ptr v) (vec_items v ++ [x]) (vec_cap v)).

Definition vec_push (initial : Z) v (x : T) : H (option (Vec T)) :=
  r ← vec_reserve initial v;
  match r with
  | None => mret None
  | Some v => v ← vec_store v x; mret (Some v)
  end.

Definition vec_blocks v : list Block := ptr_blocks (vec_ptr v).

(** The capacity is the size of the block, and the elements are inside it. *)
Definition vec_ok v : Prop :=
  match vec_ptr v with
  | Some b => b.2 = vec_cap v /\ 0 < vec_cap v /\ zlen (vec_items v) <= vec_cap v
  | None => vec_cap v = 0 /\ vec_items v = []
  end.

Lemma vec_empty_ok : vec_ok vec_empty.
Proof. done. Qed.

Lemma runs_vec_reserve initial v : 0 < initial -> vec_ok v ->
  runs (vec_blocks v) (vec_reserve initial v) (fun r o =>
    match r with
    | Some v' => o = vec_blocks v' /\ vec_ok v' /\ vec_items v' = vec_items v /\ zlen (vec_items v') < vec_cap v'
    | None => o = vec_blocks v /\ can_refuse
    end).
Proof.
  intros Hi Hv. unfold vec_reserve. destruct (Z.eqb_spec (zlen (vec_items v)) (vec_cap v)) as [Ec|Ec].
  - eapply runs_bind with (frame := []); [apply runs_realloc|by rewrite (right_id_L [] (++))|].
    intros [b|] o; intros [-> Hb]; apply runs_ret; [|by rewrite (right_id_L [] (++))].
    split_and!; [done| |done|]; unfold vec_ok in *; cbn; destruct (vec_ptr v); destruct (Z.eqb_spec (vec_cap v) 0); lia.
  - apply runs_ret. split_and!; [done..|]. unfold vec_ok in Hv. destruct (vec_ptr v); [lia|].
    destruct Hv as [E1 E2]. rewrite E1, E2 in Ec. done.
Qed.

Lemma runs_vec_store v x : vec_ok v -> zlen (vec_items v) < vec_cap v ->
  runs (vec_blocks v) (vec_store v x) (fun v' o =>
    o = vec_blocks v' /\ vec_ok v' /\ vec_items v' = vec_items v ++ [x]).
Proof.
  intros Hv Hc. unfold vec_store, vec_blocks, vec_ok in *. destruct (vec_ptr v) as [b|]; [|lia].
  eapply runs_bind with (frame := []); [apply runs_write_at; lia|done|]. intros _ o ->. apply runs_ret.
  cbn. split_and!; [done|lia..| |done]. rewrite length_app. simpl. lia.
Qed.

Lemma runs_vec_push initial v x : 0 < initial -> vec_ok v ->
  runs (vec_blocks v) (vec_push initial v x) (fun r o =>
    match r with
    | Some v' => o = vec_blocks v' /\ vec_ok v' /\ vec_items v' = vec_items v ++ [x]
    | None => o = vec_blocks v /\ can_refuse
    end).
Proof.
  intros Hi Hv. unfold vec_push.
  eapply runs_bind with (frame := []); [by apply runs_vec_reserve|by rewrite (right_id_L [] (++))|].
  intros [v'|] o; rewrite (right_id_L [] (++)).
  - intros (-> & Hv' & E & Hc).
    eapply runs_bind with (frame := []); [by apply runs_vec_store|by rewrite (right_id_L [] (++))|].
    intros v2 o (-> & Hv2 & E2). apply runs_ret. rewrite (right_id_L [] (++)). by rewrite E2, E.
  - intros [-> Hr]. by apply runs_ret.
Qed.
End vec.
