(* ===== verification/AsmHeap.v ===== *)
(** The assembler with its memory management: the allocations, checks and frees of
    [lexer.c], [symtab.c], [parser.c] and [assembler.c], around the computations of
    [Lexer], [Symtab], [Parser] and [Assembler].

    A token owns its text and its string bytes, a symbol its name; statements point into
    the tokens. Functions that fill a list of the caller return it also when they fail,
    since the caller then frees it. *)

From S2P Require Import Prelude CLib Memory Instruction Symtab Lexer Parser Assembler Heap.
Open Scope Z_scope.

(** ** Lexer *)

(** A [Token]: its fields, with the blocks that [text] and [str_value] point to. *)
Record TokenMem : Type := mkTokenMem { tok : Token; text_ptr : Ptr; str_ptr : Ptr }.

Definition TokenList : Type := Vec TokenMem.

Definition token_blocks (t : TokenMem) : list Block := ptr_blocks (text_ptr t) ++ ptr_blocks (str_ptr t).

Definition tokens_blocks (toks : TokenList) : list Block :=
  vec_blocks toks ++ flat_map token_blocks (vec_items toks).

Definition OUT_OF_MEMORY : list Z := str "out of memory".

Definition lex_oom {B} (ln : Z) : res B := set_error ln OUT_OF_MEMORY.

(** The list filled so far, and where the lexer is. *)
Definition LexResult : Type := TokenList * res (list Z * Z).

Section lexer.
Context {A : Allocator}.

Definition tokenlist_push (toks : TokenList) (t : TokenMem) : H (option TokenList) := vec_push 64 toks t.

(** The text and the NUL behind it are written into the block. *)
Definition dup_range (s : list Z) : H Ptr :=
  p ← malloc (zlen s + 1);
  match p with
  | None => mret None
  | Some _ => _ ← write_range p 0 (zlen s); _ ← write_at p (zlen s); mret p
  end.

(** [PUSH_SIMPLE], and where the lexer goes on. *)
Definition push_simple (out : TokenList) (t : Token) (ln : Z) (next : list Z * Z) : H LexResult :=
  r ← tokenlist_push out (mkTokenMem t None None);
  match r with
  | None => mret (out, lex_oom ln)
  | Some out => mret (out, Ok next)
  end.

(** A token with a text of its own: [if (tok.text == NULL || !tokenlist_push(...))]. *)
Definition push_text (out : TokenList) (t : Token) (ln : Z) (next : list Z * Z) : H LexResult :=
  p ← dup_range (text t);
  match p with
  | None => _ ← free p; mret (out, lex_oom ln)
  | Some _ =>
      r ← tokenlist_push out (mkTokenMem t p None);
      match r with
      | None => _ ← free p; mret (out, lex_oom ln)
      | Some out => mret (out, Ok next)
      end
  end.

(** A string token takes the buffer over. *)
Definition push_string (out : TokenList) (buf : Vec Z) (ln : Z) (next : list Z * Z) : H LexResult :=
  r ← tokenlist_push out (mkTokenMem (string_token ln (vec_items buf)) None (vec_ptr buf));
  match r with
  | None => _ ← free (vec_ptr buf); mret (out, lex_oom ln)
  | Some out => mret (out, Ok next)
  end.

(** Giving the buffer up with an error. *)
Definition drop_buffer {B} (buf : Vec Z) (e : res B) : H (res B) :=
  _ ← free (vec_ptr buf); mret e.

(** A byte behind the others, and on with [k]. *)
Definition push_byte {B} (ln : Z) (buf : Vec Z) (byte : Z) (k : Vec Z -> H (res B)) : H (res B) :=
  r ← vec_push 16 buf byte;
  match r with
  | None => drop_buffer buf (lex_oom ln)
  | Some buf => k buf
  end.

Fixpoint lex_string_mem (ln : Z) (p : list Z) (buf : Vec Z) : H (res (Vec Z * list Z)) :=
  match p with
  | [] => drop_buffer buf (set_error ln (str "unterminated string literal"))
  | c :: p =>
      if c =? 10 then drop_buffer buf (set_error ln (str "unterminated string literal"))
      else if c =? 34 then mret (Ok (buf, p))
      else if c =? 92 then
        match p with
        | [] => drop_buffer buf (set_error ln BAD_ESCAPE)
        | e :: p =>
            if e =? 110 then push_byte ln buf 10 (lex_string_mem ln p)
            else if e =? 114 then push_byte ln buf 13 (lex_string_mem ln p)
            else if e =? 116 then push_byte ln buf 9 (lex_string_mem ln p)
            else if e =? 92 then push_byte ln buf 92 (lex_string_mem ln p)
            else if e =? 34 then push_byte ln buf 34 (lex_string_mem ln p)
            else if e =? 48 then push_byte ln buf 0 (lex_string_mem ln p)
            else if e =? 120 then
              match p with
              | h1 :: h2 :: p =>
                  if negb (isxdigit h1) || negb (isxdigit h2)
                  then drop_buffer buf (set_error ln (str "\x escape needs exactly two hex digits"))
                  else push_byte ln buf (u8 (hex_value 0 [h1; h2])) (lex_string_mem ln p)
              | _ => drop_buffer buf (set_error ln (str "\x escape needs exactly two hex digits"))
              end
            else drop_buffer buf (set_error ln BAD_ESCAPE)
        end
      else push_byte ln buf c (lex_string_mem ln p)
  end.

Definition lex_iter_mem (c : Z) (p : list Z) (ln : Z) (out : TokenList) : H LexResult :=
  if (c =? 32) || (c =? 9) || (c =? 13) then mret (out, Ok (p, ln))
  else if c =? 59 then mret (out, Ok (skip_comment (c :: p), ln))
  else if c =? 10 then push_simple out (simple_token TOK_NEWLINE ln) ln (p, ln + 1)
  else if c =? 44 then push_simple out (simple_token TOK_COMMA ln) ln (p, ln)
  else if c =? 58 then push_simple out (simple_token TOK_COLON ln) ln (p, ln)
  else if c =? 91 then push_simple out (simple_token TOK_LBRACKET ln) ln (p, ln)
  else if c =? 93 then push_simple out (simple_token TOK_RBRACKET ln) ln (p, ln)
  else if c =? 46 then
    let '(s, q) := span isalpha p in
    if decide (s = []) then mret (out, set_error ln (str "'.' must be followed by a directive name"))
    else push_text out (text_token TOK_DIRECTIVE ln s) ln (q, ln)
  else if c =? 34 then
    r ← lex_string_mem ln p vec_empty;
    match r with
    | Ok (buf, q) => push_string out buf ln (q, ln)
    | Err l m => mret (out, Err l m)
    | UB => mret (out, UB)
    end
  else if (c =? 45) || isdigit c then
    match lex_number ln (c :: p) with
    | Ok (v, q) => push_simple out (number_token ln v) ln (q, ln)
    | Err l m => mret (out, Err l m)
    | UB => mret (out, UB)
    end
  else if ident_start c then
    let '(s, q) := span ident_char (c :: p) in
    push_text out (text_token TOK_IDENT ln s) ln (q, ln)
  else mret (out, set_error ln (clip 64 (str "unexpected character '" ++ [c] ++ str "'"))).

(** Fuel as in [lex_loop]. *)
Fixpoint lex_loop_mem (fuel : nat) (p : list Z) (ln : Z) (out : TokenList) : H LexResult :=
  match p with
  | [] => push_simple out (simple_token TOK_EOF ln) ln ([], ln)
  | c :: p =>
      match fuel with
      | O => mret (out, UB)
      | S fuel =>
          '(out, r) ← lex_iter_mem c p ln out;
          match r with
          | Ok (q, ln') => lex_loop_mem fuel q ln' out
          | Err l m => mret (out, Err l m)
          | UB => mret (out, UB)
          end
      end
  end.

Definition lex_mem (source : list Z) : H LexResult := lex_loop_mem (length source) source 1 vec_empty.

(** The pointers are read out of the [array]. *)
Fixpoint free_tokens (array : Ptr) (ts : list TokenMem) : H unit :=
  match ts with
  | [] => mret tt
  | t :: ts =>
      _ ← reads (ptr_blocks array);
      _ ← free (text_ptr t); _ ← free (str_ptr t); free_tokens array ts
  end.

Definition token_list_free (toks : TokenList) : H unit :=
  _ ← free_tokens (vec_ptr toks) (vec_items toks); free (vec_ptr toks).
End lexer.

(** ** Symbol table *)

Record SymbolMem : Type := mkSymbolMem { sym : Symbol; name_ptr : Ptr }.

Definition SymbolVec : Type := Vec SymbolMem.

Definition symbol_blocks (s : SymbolMem) : list Block := ptr_blocks (name_ptr s).

Definition symtab_blocks (table : SymbolVec) : list Block :=
  vec_blocks table ++ flat_map symbol_blocks (vec_items table).

(** The table without its pointers. *)
Definition symtab_of (table : SymbolVec) : SymbolTable := mkSymbolTable (map sym (vec_items table)).

Section symtab.
Context {A : Allocator}.

(** The table, and the boolean result. The lookup reads the array and the names in it;
    the new name is copied with its NUL. *)
Definition symtab_define_mem (table : SymbolVec) (n : list Z) (addr : Z) : H (SymbolVec * bool) :=
  _ ← reads (symtab_blocks table);
  match symtab_lookup (symtab_of table) n with
  | Some _ => mret (table, false)
  | None =>
      r ← vec_reserve 32 table;
      match r with
      | None => mret (table, false)
      | Some table =>
          owned_name ← malloc (zlen n + 1);
          match owned_name with
          | None => mret (table, false)
          | Some _ =>
              _ ← write_range owned_name 0 (zlen n + 1);
              table ← vec_store table (mkSymbolMem (mkSymbol n addr) owned_name);
              mret (table, true)
          end
      end
  end.

Fixpoint free_symbols (array : Ptr) (ss : list SymbolMem) : H unit :=
  match ss with
  | [] => mret tt
  | s :: ss => _ ← reads (ptr_blocks array); _ ← free (name_ptr s); free_symbols array ss
  end.

Definition symtab_free (table : SymbolVec) : H unit :=
  _ ← free_symbols (vec_ptr table) (vec_items table); free (vec_ptr table).
End symtab.

(** ** Pass 1 *)

Definition StatementList : Type := Vec Statement.

(** The two lists, and the rest of the state. *)
Definition Pass1Mem : Type := StatementList * SymbolVec * res (Parser * SectionState).

Section parser.
Context {A : Allocator}.

Definition statement_list_push (stmts : StatementList) (st : Statement) : H (option StatementList) :=
  vec_push 64 stmts st.

Definition statement_list_free (stmts : StatementList) : H unit := free (vec_ptr stmts).

(** The one statement [parse_statement] builds is pushed last. *)
Definition parse_statement_mem (ps : Parser) (stmts : StatementList) (symtab : SymbolVec)
  (sec : SectionState) : H Pass1Mem :=
  match parse_statement ps [] (symtab_of symtab) sec with
  | Ok (ps, [st], _, sec) =>
      r ← statement_list_push stmts st;
      match r with
      | None => mret (stmts, symtab, fail (st_line st) OUT_OF_MEMORY)
      | Some stmts => mret (stmts, symtab, Ok (ps, sec))
      end
  | Ok _ => mret (stmts, symtab, UB)
  | Err l m => mret (stmts, symtab, Err l m)
  | UB => mret (stmts, symtab, UB)
  end.

Definition parse_line_mem (ps : Parser) (stmts : StatementList) (symtab : SymbolVec)
  (sec : SectionState) : H Pass1Mem :=
  if decide (type (cur ps) = TOK_IDENT /\ type (cur (advance ps)) = TOK_COLON) then
    let name := text (cur ps) in
    let name_line := line (cur ps) in
    let ps := advance (advance ps) in
    let addr := active_cursor sec in
    '(symtab, defined) ← symtab_define_mem symtab name addr;
    if negb defined then
      mret (stmts, symtab, fail name_line (str "label '" ++ name ++ str "' is already defined"))
    else
      r ← statement_list_push stmts (mkStmt (STMT_LABEL name) name_line false addr 0);
      match r with
      | None => mret (stmts, symtab, fail name_line OUT_OF_MEMORY)
      | Some stmts =>
          if ends_line (cur ps) then mret (stmts, symtab, Ok (ps, sec))
          else parse_statement_mem ps stmts symtab sec
      end
  else parse_statement_mem ps stmts symtab sec.

(** The token list's blocks are read for every line. *)
Fixpoint build_loop_mem (fuel : nat) (tokens : list Block) (ps : Parser) (stmts : StatementList)
  (symtab : SymbolVec) (sec : SectionState) : H Pass1Mem :=
  _ ← reads tokens;
  if decide (type (cur ps) = TOK_EOF) then mret (stmts, symtab, Ok (ps, sec))
  else
    match fuel with
    | O => mret (stmts, symtab, UB)
    | S fuel =>
        if decide (type (cur ps) = TOK_NEWLINE) then build_loop_mem fuel tokens (advance ps) stmts symtab sec
        else
          '(stmts, symtab, r) ← parse_line_mem ps stmts symtab sec;
          match r with
          | Ok (ps, sec) =>
              if decide (type (cur ps) = TOK_NEWLINE) then
                build_loop_mem fuel tokens (advance ps) stmts symtab sec
              else if negb (bool_decide (type (cur ps) = TOK_EOF)) then
                mret (stmts, symtab, fail (line (cur ps)) (str "expected end of line"))
              else build_loop_mem fuel tokens ps stmts symtab sec
          | Err l m => mret (stmts, symtab, Err l m)
          | UB => mret (stmts, symtab, UB)
          end
    end.

Definition build_statements_mem (tokens : list Block) (ps : Parser) : H Pass1Mem :=
  '(stmts, symtab, r) ← build_loop_mem (S (length (rest ps))) tokens ps vec_empty vec_empty sec_init;
  match r with
  | Ok (ps, sec) =>
      if negb (code_started sec) then
        mret (stmts, symtab,
          fail (line (cur ps)) (str "program contains no instructions or code-section data"))
      else mret (stmts, symtab, Ok (ps, sec))
  | Err l m => mret (stmts, symtab, Err l m)
  | UB => mret (stmts, symtab, UB)
  end.

(** ** Pass 2 *)

(** A statement is read, with the label or string it points to, and so is the table. *)
Fixpoint emit_statements_mem (blocks : list Block) (stmts : list Statement) (symtab : SymbolTable)
  (b : Buffers) : H (res Buffers) :=
  match stmts with
  | [] => mret (Ok b)
  | st :: stmts =>
      _ ← reads blocks;
      match emit_statement st symtab b with
      | Ok b => emit_statements_mem blocks stmts symtab b
      | Err l m => mret (Err l m)
      | UB => mret UB
      end
  end.

Definition assemble_tokens_mem (tokens : TokenList) : H (res ParseResult) :=
  match map tok (vec_items tokens) with
  | [] => mret UB
  | t :: ts =>
      '(stmts, symtab, r) ← build_statements_mem (tokens_blocks tokens) (mkParser t ts);
      match r with
      | Ok (ps, sec) =>
          e ← emit_statements_mem (tokens_blocks tokens ++ vec_blocks stmts ++ symtab_blocks symtab)
                (vec_items stmts) (symtab_of symtab) (mkBuf empty_buffer empty_buffer);
          _ ← statement_list_free stmts;
          _ ← symtab_free symtab;
          mret (b ← e;
            Ok (mkResult (buf_code b) (code_start_addr sec) (u16 (code_cursor sec - code_start_addr sec))
                  (buf_data b) (data_start_addr sec)
                  (if data_started sec then u16 (data_cursor sec - data_start_addr sec) else 0)
                  (code_start_addr sec)))
      | Err l m => _ ← statement_list_free stmts; _ ← symtab_free symtab; mret (Err l m)
      | UB => mret UB
      end
  end.

(** ** The public interface *)

(** The bytes written into the image. *)
Definition image_bytes (parsed : ParseResult) : res (list Z) :=
  code_bytes ← buf_read (code parsed) (code_addr parsed) (Z.to_nat (code_size parsed));
  data_bytes ← buf_read (data parsed) (data_addr parsed) (Z.to_nat (data_size parsed));
  Ok ([66; 86; 77; 49; 1; 0] ++ write_u16_le (entry_point parsed) ++
      write_u16_le (code_size parsed) ++ write_u16_le (code_addr parsed) ++
      write_u16_le (data_size parsed) ++ write_u16_le (data_addr parsed) ++
      code_bytes ++ data_bytes).

(** The block of the image with its bytes, or the error line and message; a failed
    allocation of [assemble] itself has no line. *)
Definition assemble_mem (source : list Z) : H (res (Ptr * list Z)) :=
  '(tokens, r) ← lex_mem source;
  match r with
  | Err l m => _ ← token_list_free tokens; mret (Err l (format_error l m))
  | UB => mret UB
  | Ok _ =>
      parsed_ptr ← malloc 1;
      match parsed_ptr with
      | None => _ ← token_list_free tokens; mret (Err 0 OUT_OF_MEMORY)
      | Some _ =>
          _ ← write_at parsed_ptr 0;
          r ← assemble_tokens_mem tokens;
          _ ← token_list_free tokens;
          match r with
          | Err l m => _ ← free parsed_ptr; mret (Err l (format_error l m))
          | UB => mret UB
          | Ok parsed =>
              image ← malloc (16 + code_size parsed + data_size parsed);
              match image with
              | None => _ ← free parsed_ptr; mret (Err 0 OUT_OF_MEMORY)
              | Some _ =>
                  match image_bytes parsed with
                  | Ok bytes =>
                      _ ← reads (ptr_blocks parsed_ptr);
                      _ ← write_range image 0 (zlen bytes);
                      _ ← free parsed_ptr;
                      mret (Ok (image, bytes))
                  | Err l m => mret (Err l m)
                  | UB => mret UB
                  end
              end
          end
      end
  end.

Definition assembly_result_free (image : Ptr) : H unit := free image.
End parser.
