(* ===== verification/AsmHeapFacts.v ===== *)
(** What the assembler allocates it owns, and what it computes is what it computes with
    unlimited memory, unless a request is refused. *)

From S2P Require Import Prelude CLib Memory Instruction Symtab Lexer LexFacts Parser Assembler Heap AsmHeap.
Open Scope Z_scope.

(** The messages of a refused request: that memory has run out or, when
    [symtab_define] was refused, that the label is a duplicate, for which its caller
    takes every failure. *)
Definition exhausted (m : list Z) : Prop :=
  m = OUT_OF_MEMORY \/ exists n, m = clip 256 (str "label '" ++ n ++ str "' is already defined").

Section agreement.
Context {A : Allocator}.

(** A result under an allocator that may refuse, and the one without. *)
Definition agrees {B C} (r : res B) (pure : res C) (R : B -> C -> Prop) : Prop :=
  match r with
  | Ok b => exists c, pure = Ok c /\ R b c
  | Err l m => pure = Err l m \/ can_refuse /\ exhausted m
  | UB => pure = UB
  end.

Lemma agrees_refused {B C} l (pure : res C) (R : B -> C -> Prop) m :
  can_refuse -> exhausted m -> agrees (Err l m) pure R.
Proof. intros. right. auto. Qed.

Lemma exhausted_oom : exhausted OUT_OF_MEMORY.
Proof. by left. Qed.

#[local] Hint Resolve exhausted_oom : core.

(** ** Lexer *)

Definition string_lexed (pure : res (list Z * list Z)) (r : res (Vec Z * list Z)) (o : list Block) : Prop :=
  o = match r with Ok (buf, _) => vec_blocks buf | _ => [] end /\
  agrees r pure (fun x y => vec_ok x.1 /\ y = (vec_items x.1, x.2)).

Lemma runs_drop_buffer buf (pure : res (list Z * list Z)) l m : pure = Err l m \/ can_refuse /\ exhausted m ->
  runs (vec_blocks buf) (drop_buffer buf (Err l m)) (string_lexed pure).
Proof.
  intros Hm. eapply (runs_bind _ _ []); [apply runs_free|by rewrite (right_id_L [] (++))|].
  intros _ o ->. by apply runs_ret.
Qed.

Lemma runs_push_byte ln buf byte k pure : vec_ok buf ->
  (forall buf', vec_ok buf' -> vec_items buf' = vec_items buf ++ [byte] ->
     runs (vec_blocks buf') (k buf') (string_lexed pure)) ->
  runs (vec_blocks buf) (push_byte ln buf byte k) (string_lexed pure).
Proof.
  intros Hb Hk. eapply (runs_bind _ _ []); [by apply runs_vec_push|by rewrite (right_id_L [] (++))|].
  intros [buf'|] o; rewrite (right_id_L [] (++)).
  - intros (-> & Hb' & E). by apply Hk.
  - intros [-> Hr]. apply runs_drop_buffer. auto.
Qed.

Lemma runs_lex_string n ln p buf : (length p <= n)%nat -> vec_ok buf ->
  runs (vec_blocks buf) (lex_string_mem ln p buf) (string_lexed (lex_string ln p (vec_items buf))).
Proof.
  revert p buf. induction n as [|n IH]; intros p buf Hn Hb.
  { destruct p; simpl in Hn; [|lia]. apply runs_drop_buffer. by left. }
  assert (Hpush : forall byte q, (length q <= n)%nat ->
    runs (vec_blocks buf) (push_byte ln buf byte (lex_string_mem ln q))
      (string_lexed (lex_string ln q (vec_items buf ++ [byte])))).
  { intros byte q Hq. apply runs_push_byte; [done|]. intros buf' Hb' <-. by apply IH. }
  destruct p as [|c p]; [apply runs_drop_buffer; by left|]. simpl in Hn. simpl.
  case_match; [apply runs_drop_buffer; by left|].
  case_match; [by apply runs_ret; split; [|eexists; split]|].
  case_match; [|apply Hpush; lia].
  destruct p as [|e p]; [apply runs_drop_buffer; by left|]. simpl in Hn.
  do 6 (case_match; [apply Hpush; lia|]). case_match; [|apply runs_drop_buffer; by left].
  destruct p as [|h1 [|h2 p]]; [apply runs_drop_buffer; by left..|]. simpl in Hn.
  case_match; [apply runs_drop_buffer; by left|apply Hpush; lia].
Qed.

(** The list owns its tokens, which are those of the pure lexer behind the ones before. *)
Definition lexed (before : list Token) (pure : res (list Token * list Z * Z)) (s : LexResult)
  (o : list Block) : Prop :=
  o ≡ₚ tokens_blocks s.1 /\ vec_ok s.1 /\
  agrees s.2 pure (fun next r => next = (r.1.2, r.2) /\ map tok (vec_items s.1) = before ++ r.1.1).

Abbreviation texts out := (map tok (vec_items out)).

Lemma tokens_blocks_snoc out out' t : vec_items out' = vec_items out ++ [t] ->
  tokens_blocks out' = vec_blocks out' ++ flat_map token_blocks (vec_items out) ++ token_blocks t.
Proof. intros E. unfold tokens_blocks. rewrite E, flat_map_app. cbn [flat_map].
  by rewrite (right_id_L [] (++)). Qed.

(** Pushing a token that owns [own]. *)
Lemma runs_tokenlist_push out t : vec_ok out ->
  runs (tokens_blocks out ++ token_blocks t) (tokenlist_push out t) (fun r o =>
    match r with
    | Some out' => o ≡ₚ tokens_blocks out' /\ vec_ok out' /\ texts out' = texts out ++ [tok t]
    | None => o ≡ₚ tokens_blocks out ++ token_blocks t /\ can_refuse
    end).
Proof.
  intros Ho. eapply runs_post.
  - eapply (runs_frame _ _ (flat_map token_blocks (vec_items out) ++ token_blocks t));
      [by apply (runs_vec_push 64)|unfold tokens_blocks; by rewrite <- (assoc_L (++))].
  - intros [out'|] o (o1 & -> & H).
    + destruct H as (-> & Ho' & E). rewrite (tokens_blocks_snoc _ _ _ E).
      split_and!; [done..|]. by rewrite E, map_app.
    + destruct H as (-> & Hr). split; [|done]. unfold tokens_blocks. by rewrite <- (assoc_L (++)).
Qed.

Lemma runs_push_simple out t ln q ln' : vec_ok out ->
  runs (tokens_blocks out) (push_simple out t ln (q, ln')) (lexed (texts out) (Ok ([t], q, ln'))).
Proof.
  intros Ho. assert (token_blocks (mkTokenMem t None None) = []) as Et by done.
  eapply (runs_bind _ _ []); [by apply runs_tokenlist_push|by rewrite Et, !(right_id_L [] (++))|].
  intros [out'|] o; rewrite (right_id_L [] (++)).
  - intros (Ho' & Hok & E). apply runs_ret. split; [done|]. split; [done|]. simpl. eauto.
  - intros [Eo Hr]. apply runs_ret. split_and!; [|done|by apply agrees_refused].
    by rewrite Eo, Et, (right_id_L [] (++)).
Qed.

Lemma runs_push_owned out t ln q ln' p : vec_ok out ->
  token_blocks t = ptr_blocks p ->
  runs (tokens_blocks out ++ ptr_blocks p)
    (r ← tokenlist_push out t;
     match r with
     | None => _ ← free p; mret (out, lex_oom ln)
     | Some out => mret (out, Ok (q, ln'))
     end) (lexed (texts out) (Ok ([tok t], q, ln'))).
Proof.
  intros Ho Et. rewrite <- Et.
  eapply (runs_bind _ _ []); [by apply runs_tokenlist_push|by rewrite (right_id_L [] (++))|].
  intros [out'|] o; rewrite (right_id_L [] (++)).
  - intros (Ho' & Hok & E). apply runs_ret. split; [done|]. split; [done|]. simpl. eauto.
  - intros [Eo Hr]. rewrite Et in Eo.
    eapply (runs_bind _ _ (tokens_blocks out)); [apply (runs_free p)|rewrite Eo; apply Permutation_app_comm|].
    intros _ o' ->. apply runs_ret. split_and!; [done..|by apply agrees_refused].
Qed.

(** The block of a text has room for its NUL. *)
Lemma runs_dup_range s : runs [] (dup_range s) (fun p o => o = ptr_blocks p /\
  match p with Some b => b.2 = zlen s + 1 | None => can_refuse end).
Proof.
  eapply (runs_bind _ [] []); [apply runs_malloc|done|].
  intros [b|] o [-> Hb]; [|by apply runs_ret].
  apply runs_after_write_range; [lia..|set_solver|]. apply runs_after_write_at; [lia|set_solver|].
  by apply runs_ret.
Qed.

Lemma runs_push_text out t ln q ln' : vec_ok out ->
  runs (tokens_blocks out) (push_text out t ln (q, ln')) (lexed (texts out) (Ok ([t], q, ln'))).
Proof.
  intros Ho. eapply (runs_bind _ [] (tokens_blocks out)); [apply runs_dup_range|done|].
  intros [b|] o [-> Hb].
  - eapply runs_perm; [apply Permutation_app_comm|].
    by apply (runs_push_owned out (mkTokenMem t (Some b) None) ln q ln' (Some b)).
  - eapply (runs_bind _ [] (tokens_blocks out)); [apply (runs_free None)|done|].
    intros _ o ->. apply runs_ret. split_and!; [done..|by apply agrees_refused].
Qed.

Lemma runs_push_string out buf ln q ln' : vec_ok out ->
  runs (tokens_blocks out ++ vec_blocks buf) (push_string out buf ln (q, ln'))
    (lexed (texts out) (Ok ([string_token ln (vec_items buf)], q, ln'))).
Proof.
  intros Ho. by apply (runs_push_owned out (mkTokenMem (string_token ln (vec_items buf)) None (vec_ptr buf))).
Qed.

(** The list is returned as it is. *)
Lemma runs_lex_ret out r pure : vec_ok out ->
  agrees r pure (fun next x => next = (x.1.2, x.2) /\ texts out = texts out ++ x.1.1) ->
  runs (tokens_blocks out) (mret (out, r)) (lexed (texts out) pure).
Proof. intros Ho Hr. by apply runs_ret. Qed.

Lemma runs_lex_iter c p ln out : vec_ok out ->
  runs (tokens_blocks out) (lex_iter_mem c p ln out) (lexed (texts out) (lex_iter c p ln)).
Proof.
  intros Ho. unfold lex_iter_mem, lex_iter.
  assert (Hret : forall q ln', runs (tokens_blocks out) (mret (out, Ok (q, ln'))) (lexed (texts out) (Ok ([], q, ln')))).
  { intros q ln'. apply runs_lex_ret; [done|]. eexists. split; [done|].
    cbn [fst snd]. by rewrite (right_id_L [] (++)). }
  assert (Herr : forall l m, runs (tokens_blocks out) (mret (out, Err l m)) (lexed (texts out) (Err l m))).
  { intros l m. apply runs_lex_ret; [done|]. by left. }
  do 2 (case_match; [apply Hret|]). do 5 (case_match; [by apply runs_push_simple|]).
  case_match.
  { destruct (span isalpha p) as [s q]. case_decide; [apply Herr|by apply runs_push_text]. }
  case_match.
  { eapply (runs_bind _ _ (tokens_blocks out)); [by apply (runs_lex_string (length p) ln p vec_empty)|done|].
    intros r o [-> Hr]. cbn [vec_items vec_empty] in Hr. destruct r as [[buf q]|l m|]; simpl in Hr.
    - destruct Hr as (x & -> & _ & ->). eapply runs_perm; [apply Permutation_app_comm|]. by apply runs_push_string.
    - apply runs_lex_ret; [done|]. destruct Hr as [->|Hr]; [by left|by right].
    - rewrite Hr. by apply runs_lex_ret. }
  case_match.
  { destruct (lex_number ln (c :: p)) as [[v q]|l m|]; [by apply runs_push_simple|apply Herr|by apply runs_lex_ret]. }
  case_match; [|apply Herr]. destruct (span ident_char (c :: p)) as [s q]. by apply runs_push_text.
Qed.

Lemma runs_lex_loop fuel p ln out : vec_ok out ->
  runs (tokens_blocks out) (lex_loop_mem fuel p ln out) (fun s o =>
    o ≡ₚ tokens_blocks s.1 /\ vec_ok s.1 /\
    agrees s.2 (default UB (lex_loop fuel p ln (texts out))) (fun _ ts => ts = texts s.1)).
Proof.
  revert p ln out. induction fuel as [|fuel IH]; intros p ln out Ho.
  all: destruct p as [|c p]; simpl.
  1,3: eapply runs_post; [by apply runs_push_simple|]; intros [out' r] o (Eo & Hok & Hr);
    split_and!; [done..|]; destruct r as [x|l m|]; simpl in *;
    [destruct Hr as (y & [= <-] & _ & E); by eauto|destruct Hr as [?|Hr]; [done|by right]|done].
  - by apply runs_ret.
  - eapply (runs_bind _ _ []); [by apply runs_lex_iter|by rewrite (right_id_L [] (++))|].
    intros [out' r] o (Eo & Hok & Hr). rewrite (right_id_L [] (++)). cbn [fst snd] in *.
    destruct r as [[q ln']|l m|]; simpl in Hr.
    + destruct Hr as ([[ts q'] ln''] & -> & [= -> ->] & E). cbn [fst snd] in E. rewrite <- E.
      eapply runs_perm; [by symmetry|]. by apply IH.
    + apply runs_ret. split_and!; [done..|]. destruct Hr as [->|Hr]; [by left|by right].
    + rewrite Hr. by apply runs_ret.
Qed.

Lemma runs_lex source : runs [] (lex_mem source) (fun s o =>
  o ≡ₚ tokens_blocks s.1 /\ vec_ok s.1 /\ agrees s.2 (lex source) (fun _ ts => ts = texts s.1)).
Proof. apply (runs_lex_loop _ _ _ vec_empty). done. Qed.

Lemma runs_free_tokens p ts : runs (flat_map token_blocks ts ++ ptr_blocks p) (free_tokens p ts)
  (fun _ o => o = ptr_blocks p).
Proof.
  induction ts as [|t ts IH]; simpl; [by apply runs_ret|]. apply runs_after_reads; [set_solver|].
  unfold token_blocks at 1.
  eapply (runs_bind _ _ (ptr_blocks (str_ptr t) ++ flat_map token_blocks ts ++ ptr_blocks p));
    [apply runs_free|by rewrite <- !(assoc_L (++))|].
  intros _ o ->. eapply (runs_bind _ _ (flat_map token_blocks ts ++ ptr_blocks p)); [apply runs_free|done|].
  by intros _ o ->.
Qed.

Lemma runs_token_list_free out : runs (tokens_blocks out) (token_list_free out) (fun _ o => o = []).
Proof.
  eapply (runs_bind _ _ []); [apply runs_free_tokens|rewrite (right_id_L [] (++)); apply Permutation_app_comm|].
  intros _ o ->. rewrite (right_id_L [] (++)). apply runs_free.
Qed.
(** ** Symbol table *)

Lemma runs_symtab_define table n addr : vec_ok table ->
  runs (symtab_blocks table) (symtab_define_mem table n addr) (fun r o =>
    o ≡ₚ symtab_blocks r.1 /\ vec_ok r.1 /\
    if r.2 then symtab_define (symtab_of table) n addr = Some (symtab_of r.1)
    else symtab_define (symtab_of table) n addr = None \/ can_refuse).
Proof.
  intros Ht. unfold symtab_define_mem, symtab_define. apply runs_after_reads; [done|]. destruct (symtab_lookup (symtab_of table) n).
  { apply runs_ret. split_and!; [done..|by left]. }
  eapply (runs_bind _ _ (flat_map symbol_blocks (vec_items table)));
    [by apply (runs_vec_reserve 32)|done|].
  intros [t1|] o; [intros (-> & Ht1 & E & Hc)|intros [-> Hr]; apply runs_ret; split_and!; [done..|by right]].
  assert (Eb : vec_blocks t1 ++ flat_map symbol_blocks (vec_items table) = symtab_blocks t1)
    by (unfold symtab_blocks; by rewrite E).
  rewrite Eb. eapply (runs_bind _ [] (symtab_blocks t1)); [apply runs_malloc|done|].
  intros [b|] o [-> Hb]; [|apply runs_ret; split_and!; [done..|by right]].
  apply runs_after_write_range; [lia..|set_solver|].
  eapply (runs_bind _ _ (flat_map symbol_blocks (vec_items t1) ++ [b]));
    [by apply runs_vec_store|unfold symtab_blocks; cbn [ptr_blocks]; solve_Permutation|].
  intros t2 o (-> & Ht2 & E2). apply runs_ret. split_and!; [|done|].
  - unfold symtab_blocks. cbn [fst]. by rewrite E2, flat_map_app.
  - unfold symtab_of. cbn [fst snd]. by rewrite E2, E, map_app.
Qed.

Lemma runs_free_symbols p ss : runs (flat_map symbol_blocks ss ++ ptr_blocks p) (free_symbols p ss)
  (fun _ o => o = ptr_blocks p).
Proof.
  induction ss as [|s ss IH]; simpl; [by apply runs_ret|]. apply runs_after_reads; [set_solver|].
  unfold symbol_blocks at 1.
  eapply (runs_bind _ _ (flat_map symbol_blocks ss ++ ptr_blocks p));
    [apply runs_free|by rewrite <- (assoc_L (++))|]. by intros _ o ->.
Qed.

Lemma runs_symtab_free table : runs (symtab_blocks table) (symtab_free table) (fun _ o => o = []).
Proof.
  eapply (runs_bind _ _ []); [apply runs_free_symbols|rewrite (right_id_L [] (++)); apply Permutation_app_comm|].
  intros _ o ->. rewrite (right_id_L [] (++)). apply runs_free.
Qed.

(** ** Pass 1 *)

(** A function that appends one statement, whatever the statements before. *)
Definition one_more (f : list Statement -> res (Parser * list Statement * SectionState))
  (stmts : list Statement) : Prop :=
  match f [] with
  | Ok (ps', l, sec') => exists st, l = [st] /\ f stmts = Ok (ps', stmts ++ [st], sec')
  | Err l m => f stmts = Err l m
  | UB => f stmts = UB
  end.

Lemma parse_instruction_one ps sec op ln stmts :
  one_more (fun l => parse_instruction_statement ps l sec op ln) stmts.
Proof.
  unfold one_more, parse_instruction_statement.
  destruct (parse_operands ps op) as [[[[n o1] o2] ps']| |]; [|done..]. cbn [mbind res_bind].
  destruct (opcode_masks op) as [k1 k2]. destruct (negb _); [done|].
  destruct (operand_mode _ o1 k1) as [m1| |]; [|done..]. cbn [mbind res_bind].
  destruct (operand_mode _ o2 k2) as [m2| |]; [|done..]. simpl. eauto.
Qed.

Lemma parse_directive_one ps sec n ln stmts :
  one_more (fun l => parse_directive_statement ps l sec n ln) stmts.
Proof.
  unfold one_more, parse_directive_statement.
  destruct (ident_equals n (str "org")).
  { unfold parse_org. destruct (negb _); [done|]. cbv zeta. destruct (_ || _); [done|].
    destruct (_ <? _); [done|]. eauto. }
  destruct (ident_equals n (str "data")).
  { unfold parse_data. destruct (data_seen sec); [done|]. cbv zeta. eauto. }
  destruct (ident_equals n (str "string")).
  { unfold parse_string. destruct (negb _); [done|]. simpl. eauto. }
  destruct (ident_equals n (str "word")).
  { unfold parse_word. destruct (parse_operand _ _) as [[o ps']| |]; [|done..]. cbn [mbind res_bind].
    destruct (negb _); [done|]. simpl. eauto. }
  destruct (ident_equals n (str "byte")); [|done].
  unfold parse_byte. destruct (parse_operand _ _) as [[o ps']| |]; [|done..]. cbn [mbind res_bind].
  destruct (negb _); [done|]. simpl. eauto.
Qed.

(** So is a line's statement. *)
Lemma parse_statement_one ps stmts symtab sec :
  match parse_statement ps [] symtab sec with
  | Ok (ps', l, symtab', sec') => exists st, l = [st] /\
      parse_statement ps stmts symtab sec = Ok (ps', stmts ++ [st], symtab, sec')
  | Err l m => parse_statement ps stmts symtab sec = Err l m
  | UB => parse_statement ps stmts symtab sec = UB
  end.
Proof.
  unfold parse_statement. case_decide.
  - pose proof (parse_directive_one ps sec (text (cur ps)) (line (cur ps)) stmts) as Hd. unfold one_more in Hd.
    destruct (parse_directive_statement ps [] _ _ _) as [[[ps' l] sec']| |]; [|by rewrite Hd..].
    destruct Hd as (st & -> & ->). simpl. eauto.
  - case_decide; [|done]. destruct (lookup_mnemonic _) as [op|]; [|done].
    pose proof (parse_instruction_one (advance ps) sec op (line (cur ps)) stmts) as Hd. unfold one_more in Hd.
    destruct (parse_instruction_statement _ [] _ _ _) as [[[ps' l] sec']| |]; [|by rewrite Hd..].
    destruct Hd as (st & -> & ->). simpl. eauto.
Qed.

(** What pass 1 owns, and what it has built. *)
Definition built (pure : res Pass1) (s : Pass1Mem) (o : list Block) : Prop :=
  o ≡ₚ vec_blocks s.1.1 ++ symtab_blocks s.1.2 /\ vec_ok s.1.1 /\ vec_ok s.1.2 /\
  agrees s.2 pure (fun x y => y = (x.1, vec_items s.1.1, symtab_of s.1.2, x.2)).

Lemma runs_statement_push stmts symtab st pure (f : StatementList -> H Pass1Mem) : vec_ok stmts -> vec_ok symtab ->
  (forall stmts', vec_ok stmts' -> vec_items stmts' = vec_items stmts ++ [st] ->
     runs (vec_blocks stmts' ++ symtab_blocks symtab) (f stmts') (built pure)) ->
  runs (vec_blocks stmts ++ symtab_blocks symtab)
    (r ← statement_list_push stmts st;
     match r with
     | None => mret (stmts, symtab, fail (st_line st) OUT_OF_MEMORY)
     | Some stmts => f stmts
     end) (built pure).
Proof.
  intros Hs Ht Hf. eapply (runs_bind _ _ (symtab_blocks symtab)); [by apply (runs_vec_push 64)|done|].
  intros [stmts'|] o; [intros (-> & Hs' & E); by apply Hf|intros [-> Hr]].
  apply runs_ret. split_and!; [done..|by apply agrees_refused].
Qed.

Lemma runs_parse_statement ps stmts symtab sec : vec_ok stmts -> vec_ok symtab ->
  runs (vec_blocks stmts ++ symtab_blocks symtab) (parse_statement_mem ps stmts symtab sec)
    (built (parse_statement ps (vec_items stmts) (symtab_of symtab) sec)).
Proof.
  intros Hs Ht. unfold parse_statement_mem.
  pose proof (parse_statement_one ps (vec_items stmts) (symtab_of symtab) sec) as H.
  destruct (parse_statement ps [] _ sec) as [[[[ps' l] tab'] sec']|l m|].
  - destruct H as (st & -> & ->).
    apply (runs_statement_push stmts symtab st _ (fun stmts => mret (stmts, symtab, Ok (ps', sec')))); [done..|].
    intros stmts' Hs' E. apply runs_ret. split_and!; [done..|]. simpl. rewrite E. eauto.
  - rewrite H. apply runs_ret. split_and!; [done..|by left].
  - rewrite H. by apply runs_ret.
Qed.

Lemma runs_parse_line ps stmts symtab sec : vec_ok stmts -> vec_ok symtab ->
  runs (vec_blocks stmts ++ symtab_blocks symtab) (parse_line_mem ps stmts symtab sec)
    (built (parse_line ps (vec_items stmts) (symtab_of symtab) sec)).
Proof.
  intros Hs Ht. unfold parse_line_mem, parse_line. case_decide; [|by apply runs_parse_statement].
  eapply (runs_bind _ _ (vec_blocks stmts)); [by apply runs_symtab_define|apply Permutation_app_comm|].
  intros [tab defined] o (Eo & Ht' & Hd). cbn [fst snd] in *.
  eapply (runs_perm (vec_blocks stmts ++ symtab_blocks tab)); [rewrite Eo; apply Permutation_app_comm|].
  destruct defined; cbn [negb].
  - rewrite Hd. cbv zeta.
    apply (runs_statement_push stmts tab
      (mkStmt (STMT_LABEL (text (cur ps))) (line (cur ps)) false (active_cursor sec) 0) _
      (fun stmts => if ends_line _ then mret (stmts, tab, Ok (_, sec)) else parse_statement_mem _ stmts tab sec));
      [done..|].
    intros stmts' Hs' E. rewrite <- E. case_match; [|by apply runs_parse_statement].
    apply runs_ret. split_and!; [done..|]. simpl. eauto.
  - apply runs_ret. split_and!; [done..|]. destruct Hd as [->|Hr]; [by left|].
    apply agrees_refused; [done|]. right. eauto.
Qed.

Lemma runs_build_loop fuel tokens ps stmts symtab sec : vec_ok stmts -> vec_ok symtab ->
  runs (tokens ++ vec_blocks stmts ++ symtab_blocks symtab) (build_loop_mem fuel tokens ps stmts symtab sec)
    (fun s o => exists o', o = tokens ++ o' /\
       built (default UB (build_loop fuel ps (vec_items stmts) (symtab_of symtab) sec)) s o').
Proof.
  revert ps stmts symtab sec. induction fuel as [|fuel IH]; intros ps stmts symtab sec Hs Ht; simpl.
  all: apply runs_after_reads; [set_solver|].
  all: case_decide; [apply runs_ret; eexists; split; [done|]; split_and!; [done..|]; simpl; eauto|].
  - apply runs_ret. eexists. split; [done|]. by split_and!.
  - case_decide; [by apply IH|].
    eapply (runs_bind _ _ tokens); [by apply runs_parse_line|apply Permutation_app_comm|].
    intros [[st tab] r] o (Eo & Hs' & Ht' & Hr). cbn [fst snd] in *.
    eapply (runs_perm (tokens ++ vec_blocks st ++ symtab_blocks tab)); [rewrite Eo; apply Permutation_app_comm|].
    destruct r as [[ps' sec']|l m|]; simpl in Hr.
    + destruct Hr as (y & -> & ->). cbn [fst snd]. case_decide; [by apply IH|].
      case_match; [|by apply IH]. apply runs_ret. eexists. split; [done|]. split_and!; [done..|by left].
    + apply runs_ret. eexists. split; [done|]. split_and!; [done..|]. destruct Hr as [->|Hr]; [by left|by right].
    + rewrite Hr. apply runs_ret. eexists. split; [done|]. by split_and!.
Qed.

Lemma runs_build_statements tokens ps : runs tokens (build_statements_mem tokens ps)
  (fun s o => exists o', o = tokens ++ o' /\ built (build_statements ps) s o').
Proof.
  unfold build_statements_mem, build_statements.
  eapply (runs_bind _ _ []);
    [by apply (runs_build_loop _ _ _ vec_empty vec_empty)|by cbn; rewrite !(right_id_L [] (++))|].
  intros [[st tab] r] o (o' & -> & Eo & Hs' & Ht' & Hr). rewrite (right_id_L [] (++)).
  change (symtab_of vec_empty) with symtab_init in Hr. cbn [fst snd vec_items vec_empty] in *.
  remember (default UB _) as x eqn:Ex. clear Ex.
  destruct r as [[ps' sec']|l m|]; cbn [agrees] in Hr.
  - destruct Hr as (y & -> & ->). simpl. case_match; apply runs_ret; eexists;
      (split; [done|]); split_and!; [done..|by left|done|done|done|simpl; eauto].
  - apply runs_ret. eexists. split; [done|]. split_and!; [done..|]. destruct Hr as [->|Hr]; [by left|by right].
  - rewrite Hr. apply runs_ret. eexists. split; [done|]. by split_and!.
Qed.

(** ** Pass 2 and the image *)

Lemma runs_emit_statements blocks own stmts symtab b : blocks ⊆ own ->
  runs own (emit_statements_mem blocks stmts symtab b)
    (fun r o => o = own /\ r = emit_statements stmts symtab b).
Proof.
  intros Hb. revert b. induction stmts as [|st stmts IH]; intros b; simpl; [by apply runs_ret|].
  apply runs_after_reads; [done|]. destruct (emit_statement st symtab b) as [b'|l m|];
    [apply IH|by apply runs_ret..].
Qed.
Lemma runs_assemble_tokens tokens : runs (tokens_blocks tokens) (assemble_tokens_mem tokens)
  (fun r o => (exists extra, o = tokens_blocks tokens ++ extra /\ (r <> UB -> extra = [])) /\
     agrees r (assemble_tokens (texts tokens)) eq).
Proof.
  assert (Hall : forall r : res ParseResult, exists extra, tokens_blocks tokens = tokens_blocks tokens ++ extra /\
    (r <> UB -> extra = [])) by (intros r; exists []; by rewrite (right_id_L [] (++))).
  unfold assemble_tokens_mem, assemble_tokens. destruct (map tok (vec_items tokens)) as [|t ts] eqn:Et.
  { by apply runs_ret. }
  eapply (runs_bind _ _ []); [apply runs_build_statements|by rewrite (right_id_L [] (++))|].
  intros [[stmts tab] r] o (o' & -> & Eo & Hs & Ht & Hr). rewrite (right_id_L [] (++)). cbn [fst snd] in *.
  eapply runs_perm; [rewrite Eo; done|]. clear Eo.
  assert (Hfree : forall (e : res ParseResult) (Q : res ParseResult -> list Block -> Prop),
    Q e (tokens_blocks tokens) ->
    runs (tokens_blocks tokens ++ vec_blocks stmts ++ symtab_blocks tab)
      (_ ← statement_list_free stmts; _ ← symtab_free tab; mret e) Q).
  { intros e Q He. eapply (runs_bind _ (vec_blocks stmts) (symtab_blocks tab ++ tokens_blocks tokens));
      [apply runs_free|solve_Permutation|]. intros _ o ->.
    eapply (runs_bind _ _ (tokens_blocks tokens)); [apply runs_symtab_free|done|]. intros _ o ->.
    by apply runs_ret. }
  destruct r as [[ps sec]|l m|]; simpl in Hr.
  - destruct Hr as (y & -> & ->). cbn [mbind res_bind fst snd].
    eapply (runs_bind _ _ []); [by apply runs_emit_statements|by rewrite (right_id_L [] (++))|].
    intros e o [-> ->]. rewrite (right_id_L [] (++)). apply Hfree. split; [apply Hall|].
    destruct (emit_statements _ _ _) as [b|l m|]; simpl; eauto.
  - apply Hfree. split; [apply Hall|]. destruct Hr as [->|Hr]; [by left|by right].
  - rewrite Hr. apply runs_ret. split; [by eexists|done].
Qed.

Lemma buf_read_length b start n bs : buf_read b start n = Ok bs -> length bs = n.
Proof.
  revert start bs. induction n as [|n IH]; intros start bs; simpl; [by intros [= <-]|].
  case_match; [|done]. destruct (buf_read b (start + 1) n) as [l| |] eqn:E; [|done..]. intros [= <-].
  simpl. by rewrite (IH _ _ E).
Qed.

Lemma assemble_tokens_sizes ts parsed : assemble_tokens ts = Ok parsed ->
  0 <= code_size parsed /\ 0 <= data_size parsed.
Proof.
  unfold assemble_tokens. destruct ts as [|t ts]; [done|].
  destruct (build_statements _) as [[[[ps stmts] tab] sec]| |]; [|done..]. cbn [mbind res_bind].
  destruct (emit_statements _ _ _); [|done..]. intros [= <-]. cbn [code_size data_size].
  split; [|case_match]; mlia.
Qed.

Lemma image_bytes_length ts parsed bytes : assemble_tokens ts = Ok parsed -> image_bytes parsed = Ok bytes ->
  zlen bytes = 16 + code_size parsed + data_size parsed.
Proof.
  intros Hp H. destruct (assemble_tokens_sizes _ _ Hp). unfold image_bytes in H.
  apply res_bind_Ok in H as (cb & Ec & H). apply res_bind_Ok in H as (db & Ed & [= <-]).
  apply buf_read_length in Ec, Ed. simpl. rewrite length_app. lia.
Qed.

Lemma image_bytes_no_error parsed l m : image_bytes parsed <> Err l m.
Proof.
  assert (Hb : forall b start n l m, buf_read b start n <> Err l m).
  { intros b start n l' m'. revert start. induction n as [|n IH]; intros start; simpl; [done|]. case_match; [|done].
    specialize (IH (start + 1)). by destruct (buf_read b (start + 1) n). }
  unfold image_bytes. intros H. destruct (buf_read (code parsed) _ _) eqn:E1; cbn [mbind res_bind] in H;
    [|by apply Hb in E1|done].
  destruct (buf_read (data parsed) _ _) eqn:E2; cbn [mbind res_bind] in H; [done|by apply Hb in E2|done].
Qed.

(** What [assemble] reports when a request is refused. *)
Definition exhausted_report (l : Z) (m : list Z) : Prop :=
  l = 0 /\ m = OUT_OF_MEMORY \/ exists m', m = format_error l m' /\ exhausted m'.

(** The image's block is all that is left, and it has the image's size. *)
Definition assembled (source : list Z) (r : res (Ptr * list Z)) (o : list Block) : Prop :=
  match r with
  | Ok (p, bytes) => assemble source = Ok bytes /\ exists b, p = Some b /\ o = [b] /\ b.2 = zlen bytes
  | Err l m => o = [] /\ (assemble source = Err l m \/ can_refuse /\ exhausted_report l m)
  | UB => assemble source = UB
  end.

(** Freeing the tokens before the rest. *)
Lemma runs_drop_tokens {B} tokens own (m : H B) Q : runs own m Q ->
  runs (tokens_blocks tokens ++ own) (_ ← token_list_free tokens; m) Q.
Proof.
  intros Hm. eapply (runs_bind _ _ own); [apply runs_token_list_free|done|]. by intros _ o ->.
Qed.

Lemma agrees_report {B C} l m (pure : res C) (R : B -> C -> Prop) : agrees (Err l m) pure R ->
  pure = Err l m \/ can_refuse /\ exhausted_report l (format_error l m).
Proof. intros [H|[Hr Hm]]; [by left|right]. split; [done|]. right. eauto. Qed.

(** The image of what pass 2 has made, in a block of its own. *)
Lemma runs_write_image source b parsed ts : lex source = Ok ts -> assemble_tokens ts = Ok parsed ->
  runs [b]
    (image ← malloc (16 + code_size parsed + data_size parsed);
     match image with
     | None => _ ← free (Some b); mret (Err 0 OUT_OF_MEMORY)
     | Some _ =>
         match image_bytes parsed with
         | Ok bytes =>
             _ ← reads (ptr_blocks (Some b));
             _ ← write_range image 0 (zlen bytes);
             _ ← free (Some b); mret (Ok (image, bytes))
         | Err l m => mret (Err l m)
         | UB => mret UB
         end
     end) (assembled source).
Proof.
  intros El Ep. assert (Ea : assemble source = image_bytes parsed).
  { unfold assemble. rewrite El. cbn [mbind res_bind]. by rewrite Ep. }
  eapply (runs_bind _ [] [b]); [apply runs_malloc|done|]. intros [i|] o [-> Hi].
  2:{ eapply (runs_bind _ _ []); [apply (runs_free (Some b))|done|]. intros _ o ->. apply runs_ret.
      split; [done|]. right. split; [done|]. by left. }
  destruct (image_bytes parsed) as [bytes|l m|] eqn:Eb; [|by apply image_bytes_no_error in Eb|by apply runs_ret].
  assert (Ea' : assemble source = Ok bytes) by done.
  pose proof (image_bytes_length _ _ _ Ep Eb) as Hl. destruct (assemble_tokens_sizes _ _ Ep).
  apply runs_after_reads; [set_solver|]. apply runs_after_write_range; [lia..|set_solver|].
  eapply (runs_bind _ _ [i]); [apply (runs_free (Some b))|apply perm_swap|]. intros _ o ->.
  apply runs_ret. split; [done|]. exists i. split_and!; [done..|]. lia.
Qed.

Lemma runs_assemble source : runs [] (assemble_mem source) (assembled source).
Proof.
  eapply (runs_bind _ _ []); [apply runs_lex|done|].
  intros [tokens r] o (Eo & Hok & Hr). cbn [fst snd] in *. rewrite (right_id_L [] (++)).
  eapply runs_perm; [symmetry; exact Eo|]. clear o Eo.
  rewrite <- (right_id_L [] (++) (tokens_blocks tokens)). destruct r as [x|l m|].
  - destruct Hr as (ts & El & ->).
    eapply (runs_bind _ [] (tokens_blocks tokens)); [apply runs_malloc|by rewrite (right_id_L [] (++))|].
    intros [b|] o [-> Hb]; cbn [ptr_blocks app].
    2:{ rewrite <- (right_id_L [] (++) (tokens_blocks tokens)). apply runs_drop_tokens, runs_ret.
        split; [done|]. right. split; [done|]. by left. }
    apply runs_after_write_at; [lia|set_solver|].
    eapply (runs_bind _ _ [b]); [apply runs_assemble_tokens|apply Permutation_cons_append|].
    intros r o [(extra & -> & He) Ha]. rewrite <- (assoc_L (++)). apply runs_drop_tokens.
    destruct r as [parsed|l m|]; [rewrite (He ltac:(done))..|].
    + destruct Ha as (p & Ep & ->). by eapply runs_write_image.
    + eapply (runs_bind _ _ []); [apply (runs_free (Some b))|done|].
      intros _ o' ->. apply runs_ret. split; [done|]. apply agrees_report in Ha as [Ha|Ha]; [left|by right].
      unfold assemble. rewrite El. cbn [mbind res_bind]. by rewrite Ha.
    + apply runs_ret. unfold assembled, assemble. rewrite El. cbn [mbind res_bind]. by rewrite Ha.
  - apply runs_drop_tokens, runs_ret. split; [done|].
    apply agrees_report in Hr as [Hr|Hr]; [left|by right]. unfold assemble. by rewrite Hr.
  - apply runs_ret. unfold assembled, assemble. by rewrite Hr.
Qed.
End agreement.
