(* ===== verification/DisHeap.v ===== *)
(** The disassembler with its memory management: the growable [Out] buffer with its
    sticky out-of-memory flag, and the [Memory] the decoder runs against, of
    [disassembler.c]. *)

From S2P Require Import Prelude CLib Memory Instruction Loader Disassembler Heap.
Open Scope Z_scope.

(** [Out]: the buffer, the text in it without the NUL behind, its capacity, and whether
    memory has run out. *)
Record Out : Type := mkOut { out_ptr : Ptr; out_text : list Z; out_cap : Z; oom : bool }.

Definition out_init : Out := mkOut None [] 0 false.

(** [while (new_cap < need) new_cap *= 2]. *)
Fixpoint double_until (fuel : nat) (need new_cap : Z) : Z :=
  match fuel with
  | O => new_cap
  | S fuel => if new_cap <? need then double_until fuel need (new_cap * 2) else new_cap
  end.

Section dis.
Context {A : Allocator}.

(** The text is copied behind what is there, with a NUL behind it. *)
Definition out_write (o : Out) (piece : list Z) : H (res Out) :=
  let len := zlen (out_text o) + zlen piece in
  _ ← write_range (out_ptr o) (zlen (out_text o)) (zlen piece);
  _ ← write_at (out_ptr o) len;
  mret (Ok (mkOut (out_ptr o) (out_text o ++ piece) (out_cap o) (oom o))).

Definition out_printf_mem (o : Out) (piece : list Z) : H (res Out) :=
  if oom o then mret (Ok o)
  else if negb (zlen piece <? 256) then mret UB
  else
    let need := zlen (out_text o) + zlen piece + 1 in
    if out_cap o <? need then
      let new_cap := if out_cap o =? 0 then 1024 else out_cap o in
      let new_cap := double_until (Z.to_nat (Z.log2_up need)) need new_cap in
      grown ← realloc (out_ptr o) new_cap;
      match grown with
      | None => mret (Ok (mkOut (out_ptr o) (out_text o) (out_cap o) true))
      | Some b => out_write (mkOut (Some b) (out_text o) new_cap (oom o)) piece
      end
    else out_write o piece.

Definition format_operand_mem (o : Out) (opcode : Opcode) (op : Operand) (legal_mask : Z) : H (res Out) :=
  match mode op with
  | MODE_NONE => mret (Ok o)
  | MODE_REG => out_printf_mem o (str "R" ++ fmt_u (value op))
  | MODE_REG_INDIRECT => out_printf_mem o (str "[R" ++ fmt_u (value op) ++ str "]")
  | MODE_IMM16 => out_printf_mem o (fmt_u (value op))
  | MODE_IMM8 =>
      match (if decide (opcode = OP_SYS) then syscall_name_for (value op) else None) with
      | Some name => out_printf_mem o name
      | None => out_printf_mem o (fmt_u (value op))
      end
  | MODE_MEM_DIRECT =>
      let indirect_also_legal := negb (Z.land legal_mask (u8 (Z.shiftl 1 4)) =? 0) in
      if indirect_also_legal then out_printf_mem o (str "[0x" ++ fmt_04X (value op) ++ str "]")
      else out_printf_mem o (str "0x" ++ fmt_04X (value op))
  | MODE_RESERVED _ => mret (Ok o)
  end.

Definition format_instruction_mem (o : Out) (instr : Instruction) : H (res Out) :=
  let '(op1_modes, op2_modes) := default (0, 0) (instruction_opcode_modes (opcode instr)) in
  o ⇐ out_printf_mem o (mnemonic_for (opcode instr));
  if decide (mode (op1 instr) = MODE_NONE) then mret (Ok o)
  else
    o ⇐ out_printf_mem o (str " ");
    o ⇐ format_operand_mem o (opcode instr) (op1 instr) op1_modes;
    if decide (mode (op2 instr) = MODE_NONE) then mret (Ok o)
    else
      o ⇐ out_printf_mem o (str ", ");
      format_operand_mem o (opcode instr) (op2 instr) op2_modes.

(** [disassemble_one]: the text or the complaint is copied into [buf], and the buffer
    freed. *)
Definition disassemble_one_mem (mem : Memory) (addr : Z) (buf_size : nat) : H (res (list Z * Z * bool)) :=
  match instruction_decode mem addr with
  | inl _ =>
      mret (Ok (clip buf_size (str ".byte 0x" ++ fmt_02X (mem_read8 mem addr)), u16 (addr + 1), false))
  | inr (next, instr) =>
      o ⇐ format_instruction_mem out_init instr;
      let text :=
        if oom o || bool_decide (out_ptr o = None) then str "<out of memory>" else out_text o in
      _ ← free (out_ptr o);
      mret (Ok (clip buf_size text, next, true))
  end.

Fixpoint dis_loop_mem (fuel : nat) (mem : Memory) (pc end_ : Z) (o : Out) : H (res Out) :=
  if negb (pc <? end_) then mret (Ok o)
  else
    match fuel with
    | O => mret UB
    | S fuel =>
        let as_byte :=
          o ⇐ out_printf_mem o (str "    .byte 0x" ++ fmt_02X (mem_read8 mem pc) ++ [10]);
          dis_loop_mem fuel mem (u16 (pc + 1)) end_ o in
        match instruction_decode mem pc with
        | inr (next, instr) =>
            if negb ((end_ <? next) || (next <=? pc)) then
              o ⇐ out_printf_mem o (str "    ");
              o ⇐ format_instruction_mem o instr;
              o ⇐ out_printf_mem o [10];
              dis_loop_mem fuel mem next end_ o
            else as_byte
        | inl _ => as_byte
        end
    end.

Fixpoint dis_data_mem (bytes : list Z) (o : Out) : H (res Out) :=
  match bytes with
  | [] => mret (Ok o)
  | b :: bytes =>
      o ⇐ out_printf_mem o (str "    .byte 0x" ++ fmt_02X b ++ [10]);
      dis_data_mem bytes o
  end.

(** The listing of an image whose header is in order. *)
Definition print_image_mem (image : list Z) (code_addr code_size data_addr data_size : Z) (o : Out)
  : H (res Out) :=
  let mem := dis_memory image code_addr code_size in
  o ⇐ out_printf_mem o (str "; disassembled from a .bvm image" ++ [10]);
  o ⇐ out_printf_mem o (str "; code: " ++ fmt_u code_size ++ str " bytes at 0x" ++ fmt_04X code_addr);
  o ⇐ (if 0 <? data_size then
         out_printf_mem o (str ", data: " ++ fmt_u data_size ++ str " bytes at 0x" ++ fmt_04X data_addr)
       else mret (Ok o));
  o ⇐ out_printf_mem o [10; 10];
  o ⇐ (if negb (code_addr =? 0) then out_printf_mem o (str ".org 0x" ++ fmt_04X code_addr ++ [10])
       else mret (Ok o));
  let end_ := u16 (code_addr + code_size) in
  o ⇐ dis_loop_mem (Z.to_nat end_) mem code_addr end_ o;
  if 0 <? data_size then
    o ⇐ out_printf_mem o ([10] ++ str ".data" ++ [10]);
    o ⇐ (if negb (data_addr =? end_) then out_printf_mem o (str ".org 0x" ++ fmt_04X data_addr ++ [10])
         else mret (Ok o));
    dis_data_mem (slice image (BVM_HEADER_SIZE + code_size) data_size) o
  else mret (Ok o).

(** The text's block with the text. *)
Definition disassemble_mem (image : list Z) : H (res (Ptr * list Z)) :=
  let image_size := zlen image in
  if (image_size <? BVM_HEADER_SIZE) || negb (magic_ok image) || negb (byte_at image 4 =? 1) ||
     negb (byte_at image 5 =? 0)
  then mret (dis_error (str "not a valid BVM1 image"))
  else
    let entry_point := read_u16_le image 6 in
    let code_size := read_u16_le image 8 in
    let code_addr := read_u16_le image 10 in
    let data_size := read_u16_le image 12 in
    let data_addr := read_u16_le image 14 in
    if image_size <? BVM_HEADER_SIZE + code_size + data_size then
      mret (dis_error (str "image is shorter than its header claims"))
    else if negb (entry_point =? code_addr) then
      mret (dis_error (str "entry_point (0x" ++ fmt_04X entry_point ++ str ") differs from code_addr (0x" ++
                       fmt_04X code_addr ++ str "); no .asm form of this exists"))
    else
      mem ← malloc 1;
      match mem with
      | None => mret (dis_error (str "out of memory"))
      | Some _ =>
          _ ← write_at mem 0;
          r ← print_image_mem image code_addr code_size data_addr data_size out_init;
          match r with
          | Ok o =>
              _ ← free mem;
              if oom o then _ ← free (out_ptr o); mret (dis_error (str "out of memory"))
              else mret (Ok (out_ptr o, out_text o))
          | Err l m => mret (Err l m)
          | UB => mret UB
          end
      end.

Definition disassembly_result_free (text : Ptr) : H unit := free text.
End dis.

(** ** The listing *)

Section facts.
Context {A : Allocator}.

(** The buffer owns its block, which holds the text and the NUL. *)
Definition out_blocks (o : Out) : list Block := ptr_blocks (out_ptr o).

Definition out_ok (o : Out) : Prop :=
  match out_ptr o with
  | Some b => b.2 = out_cap o /\ zlen (out_text o) < out_cap o
  | None => out_cap o = 0 /\ out_text o = []
  end.

(** The buffer holds the text [t], unless a request was refused. *)
Definition holds (o : Out) (t : list Z) : Prop :=
  out_ok o /\ if oom o then can_refuse else out_text o = t.

(** [m] writes what [f] writes. *)
Definition prints (m : Out -> H (res Out)) (f : list Z -> res (list Z)) : Prop :=
  forall o t t', f t = Ok t' -> holds o t ->
  runs (out_blocks o) (m o) (fun r bs => exists o', r = Ok o' /\ bs = out_blocks o' /\ holds o' t').

Lemma double_until_enough fuel need cap : 0 < cap -> need <= cap * 2 ^ Z.of_nat fuel ->
  0 < double_until fuel need cap /\ need <= double_until fuel need cap.
Proof.
  revert cap. induction fuel as [|fuel IH]; intros cap Hc Hn; simpl; [rewrite Z.mul_1_r in Hn; lia|].
  destruct (Z.ltb_spec cap need); [|lia]. apply IH; [lia|].
  rewrite Nat2Z.inj_succ, Z.pow_succ_r in Hn by lia. lia.
Qed.

Lemma double_until_log need cap : 0 < cap -> 0 < need ->
  need <= double_until (Z.to_nat (Z.log2_up need)) need cap.
Proof.
  intros Hc Hn. apply double_until_enough; [done|].
  pose proof (Z.log2_up_nonneg need). rewrite Z2Nat.id by done.
  assert (need <= 2 ^ Z.log2_up need).
  { destruct (Z.eq_dec need 1) as [->|]; [done|]. apply Z.log2_up_spec. lia. }
  nia.
Qed.

Lemma runs_out_write b t cap piece : b.2 = cap -> zlen t + zlen piece + 1 <= cap ->
  runs [b] (out_write (mkOut (Some b) t cap false) piece)
    (fun r bs => exists o', r = Ok o' /\ bs = out_blocks o' /\ holds o' (t ++ piece)).
Proof.
  intros Hb Hc. unfold out_write. cbn [out_ptr out_text].
  apply runs_after_write_range; [lia..|set_solver|]. apply runs_after_write_at; [lia|set_solver|].
  apply runs_ret. eexists. split; [done|]. split; [done|]. split; [|done].
  unfold out_ok. cbn [out_ptr out_cap out_text]. rewrite length_app. lia.
Qed.

Lemma prints_printf piece : prints (fun o => out_printf_mem o piece) (fun t => out_printf t piece).
Proof.
  intros o t t' Hf [Hok Ho]. unfold out_printf in Hf. unfold out_printf_mem.
  destruct (zlen piece <? 256) eqn:El; [|done]. injection Hf as <-. cbn [negb].
  destruct (oom o) eqn:Eo.
  { apply runs_ret. exists o. unfold holds. by rewrite Eo. }
  subst t. destruct o as [p text cap oo]. cbn [out_ptr out_text out_cap oom] in *. subst oo.
  destruct (Z.ltb_spec cap (zlen text + zlen piece + 1)).
  - assert (0 <= cap) by (unfold out_ok in Hok; cbn in Hok; destruct p; lia).
    eapply (runs_bind _ _ []); [apply runs_realloc|by rewrite (right_id_L [] (++))|].
    intros [b|] bs; rewrite (right_id_L [] (++)).
    + intros [-> Hb]. apply runs_out_write; [done|]. apply double_until_log; [|lia].
      destruct (Z.eqb_spec cap 0); lia.
    + intros [-> Hr]. apply runs_ret. by eexists.
  - destruct p as [b|]; cbn in Hok; [|destruct Hok as [-> ->]; simpl in *; lia]. apply runs_out_write; lia.
Qed.

Lemma prints_ret : prints (fun o => mret (Ok o)) (fun t => Ok t).
Proof. intros o t t' [= <-] Ho. apply runs_ret. eauto. Qed.

Lemma prints_seq m1 m2 f1 f2 : prints m1 f1 -> prints m2 f2 ->
  prints (fun o => hr_bind m2 (m1 o)) (fun t => t ← f1 t; f2 t).
Proof.
  intros H1 H2 o t t' Hf Ho. apply res_bind_Ok in Hf as (t1 & E1 & E2).
  eapply (runs_bind _ _ []); [by eapply H1|by rewrite (right_id_L [] (++))|].
  intros r bs (o1 & -> & -> & Ho1). rewrite (right_id_L [] (++)). by eapply H2.
Qed.

Lemma prints_if (c : bool) m1 m2 f1 f2 : prints m1 f1 -> prints m2 f2 ->
  prints (fun o => if c then m1 o else m2 o) (fun t => if c then f1 t else f2 t).
Proof. by destruct c. Qed.

Lemma prints_decide (P : Prop) `{Decision P} m1 m2 f1 f2 : prints m1 f1 -> prints m2 f2 ->
  prints (fun o => if decide P then m1 o else m2 o) (fun t => if decide P then f1 t else f2 t).
Proof. by destruct (decide P). Qed.
End facts.

Create HintDb printing.
#[export] Hint Resolve prints_printf prints_ret prints_seq prints_if prints_decide : printing.

Section listing.
Context {A : Allocator}.

Lemma prints_operand opc op mask :
  prints (fun o => format_operand_mem o opc op mask) (fun t => format_operand t opc op mask).
Proof.
  unfold format_operand_mem, format_operand.
  destruct (mode op); try apply prints_printf; try apply prints_ret.
  - apply prints_if; apply prints_printf.
  - by destruct (if decide (opc = OP_SYS) then syscall_name_for (value op) else None); apply prints_printf.
Qed.

Lemma prints_instruction i : prints (fun o => format_instruction_mem o i) (fun t => format_instruction t i).
Proof.
  unfold format_instruction_mem, format_instruction. destruct (default _ _) as [k1 k2].
  apply prints_seq; [apply prints_printf|]. apply prints_decide; [apply prints_ret|].
  apply prints_seq; [apply prints_printf|]. apply prints_seq; [apply prints_operand|].
  apply prints_decide; [apply prints_ret|]. apply prints_seq; [apply prints_printf|apply prints_operand].
Qed.

(** The code loop as the printing of one line after the other. *)
Lemma dis_loop_eq fuel mem pc end_ t : default UB (dis_loop (S fuel) mem pc end_ t) =
  if negb (pc <? end_) then Ok t
  else
    let as_byte :=
      t ← out_printf t (str "    .byte 0x" ++ fmt_02X (mem_read8 mem pc) ++ [10]);
      default UB (dis_loop fuel mem (u16 (pc + 1)) end_ t) in
    match instruction_decode mem pc with
    | inr (next, instr) =>
        if negb ((end_ <? next) || (next <=? pc)) then
          t ← out_printf t (str "    ");
          t ← format_instruction t instr;
          t ← out_printf t [10];
          default UB (dis_loop fuel mem next end_ t)
        else as_byte
    | inl _ => as_byte
    end.
Proof.
  cbn [dis_loop]. destruct (negb (pc <? end_)); [done|]. cbv zeta.
  destruct (instruction_decode mem pc) as [|[next i]]; [by destruct (out_printf t _)|].
  destruct (negb _); [|by destruct (out_printf t _)].
  destruct (out_printf t _) as [t1| |]; [|done..]. cbn [mbind res_bind].
  destruct (format_instruction t1 i) as [t2| |]; [|done..]. cbn [mbind res_bind].
  by destruct (out_printf t2 _).
Qed.

Lemma prints_loop fuel mem pc end_ : prints (dis_loop_mem fuel mem pc end_)
  (fun t => default UB (dis_loop fuel mem pc end_ t)).
Proof.
  revert pc. induction fuel as [|fuel IH]; intros pc o t t' Hf Ho.
  { cbn [dis_loop dis_loop_mem] in *. destruct (negb (pc <? end_)); [by apply (prints_ret o t)|done]. }
  rewrite dis_loop_eq in Hf. cbn [dis_loop_mem]. destruct (negb (pc <? end_)); [by apply (prints_ret o t)|].
  assert (Hb : forall piece pc', prints (fun o => hr_bind (dis_loop_mem fuel mem pc' end_) (out_printf_mem o piece))
    (fun t => t ← out_printf t piece; default UB (dis_loop fuel mem pc' end_ t)))
    by (intros; apply prints_seq; [apply prints_printf|apply IH]).
  cbv zeta in *. destruct (instruction_decode mem pc) as [|[next i]]; [by apply (Hb _ _ o t)|].
  destruct (negb _); [|by apply (Hb _ _ o t)].
  by apply (prints_seq _ _ _ _ (prints_printf _) (prints_seq _ _ _ _ (prints_instruction i)
    (prints_seq _ _ _ _ (prints_printf _) (IH next))) o t).
Qed.

Lemma prints_data bytes : prints (dis_data_mem bytes) (dis_data bytes).
Proof.
  induction bytes as [|b bytes IH]; [apply prints_ret|]. by apply prints_seq; [apply prints_printf|].
Qed.

(** Printing has no errors of its own and removes nothing. *)
Definition writes (f : list Z -> res (list Z)) : Prop :=
  forall t, match f t with Ok t' => zlen t <= zlen t' | Err _ _ => False | UB => True end.

Lemma writes_printf piece : writes (fun t => out_printf t piece).
Proof. intros t. unfold out_printf. destruct (zlen piece <? 256); [|done]. rewrite length_app. lia. Qed.

Lemma writes_ret : writes (fun t => Ok t).
Proof. intros t. lia. Qed.

Lemma writes_seq f1 f2 : writes f1 -> writes f2 -> writes (fun t => t ← f1 t; f2 t).
Proof.
  intros H1 H2 t. specialize (H1 t). destruct (f1 t) as [t1| |]; [|done..]. cbn [mbind res_bind].
  specialize (H2 t1). destruct (f2 t1); [lia|done..].
Qed.

Lemma writes_if (c : bool) f1 f2 : writes f1 -> writes f2 -> writes (fun t => if c then f1 t else f2 t).
Proof. by destruct c. Qed.

Lemma writes_decide (P : Prop) `{Decision P} f1 f2 : writes f1 -> writes f2 ->
  writes (fun t => if decide P then f1 t else f2 t).
Proof. by destruct (decide P). Qed.

Lemma writes_operand opc op mask : writes (fun t => format_operand t opc op mask).
Proof.
  unfold format_operand. destruct (mode op); try apply writes_printf; try apply writes_ret.
  - apply writes_if; apply writes_printf.
  - by destruct (if decide (opc = OP_SYS) then syscall_name_for (value op) else None); apply writes_printf.
Qed.

(** Behind a first piece that is not empty. *)
Lemma writes_more piece f t t' : writes f -> 0 < zlen piece ->
  (t ← out_printf t piece; f t) = Ok t' -> zlen t < zlen t'.
Proof.
  intros Hf Hp (t1 & E1 & E2)%res_bind_Ok. specialize (Hf t1). rewrite E2 in Hf.
  unfold out_printf in E1. case_match; [|done]. injection E1 as <-. rewrite length_app in Hf. lia.
Qed.

Lemma format_instruction_writes i : writes (fun t => format_instruction t i) /\
  forall t t', format_instruction t i = Ok t' -> zlen t < zlen t'.
Proof.
  assert (0 < zlen (mnemonic_for (opcode i))) by (by destruct (opcode i)).
  unfold format_instruction. destruct (default _ _) as [k1 k2].
  match goal with |- context [out_printf _ (mnemonic_for _) ≫= ?g] => assert (writes g) as Hg end.
  { apply writes_decide; [apply writes_ret|]. apply writes_seq; [apply writes_printf|].
    apply writes_seq; [apply writes_operand|]. apply writes_decide; [apply writes_ret|].
    apply writes_seq; [apply writes_printf|apply writes_operand]. }
  split; [by apply writes_seq; [apply writes_printf|]|]. intros t t'. by apply writes_more.
Qed.

Lemma writes_loop fuel mem pc end_ : writes (fun t => default UB (dis_loop fuel mem pc end_ t)).
Proof.
  revert pc. induction fuel as [|fuel IH]; intros pc t.
  { cbn [dis_loop]. destruct (negb (pc <? end_)); [apply (writes_ret t)|done]. }
  rewrite dis_loop_eq. destruct (negb (pc <? end_)); [apply (writes_ret t)|]. cbv zeta.
  assert (Hb : forall piece pc', writes (fun t => t ← out_printf t piece; default UB (dis_loop fuel mem pc' end_ t)))
    by (intros; apply writes_seq; [apply writes_printf|apply IH]).
  destruct (instruction_decode mem pc) as [|[next i]]; [apply (Hb _ _ t)|].
  destruct (negb _); [|apply (Hb _ _ t)].
  apply (writes_seq _ _ (writes_printf _) (writes_seq _ _ (proj1 (format_instruction_writes i))
    (writes_seq _ _ (writes_printf _) (IH next))) t).
Qed.

Lemma writes_data bytes : writes (dis_data bytes).
Proof.
  induction bytes as [|b bytes IH]; [apply writes_ret|]. by apply writes_seq; [apply writes_printf|].
Qed.

(** [disassemble_one] leaves nothing behind. *)
Lemma runs_disassemble_one mem addr n text next ok : disassemble_one mem addr n = Ok (text, next, ok) ->
  runs [] (disassemble_one_mem mem addr n) (fun r bs => bs = [] /\
    (r = Ok (text, next, ok) \/ can_refuse /\ r = Ok (clip n (str "<out of memory>"), next, ok))).
Proof.
  unfold disassemble_one, disassemble_one_mem. destruct (instruction_decode mem addr) as [|[nx i]].
  { intros [= <- <- <-]. apply runs_ret. auto. }
  intros E. apply res_bind_Ok in E as (t & E & [= <- <- <-]).
  eapply (runs_bind _ _ []); [by apply (prints_instruction i out_init [] t)|done|].
  intros r bs (o & -> & -> & Ho & Ht). cbn [hr_bind].
  eapply (runs_bind _ _ []); [apply runs_free|done|]. intros _ bs ->. apply runs_ret. split; [done|].
  destruct (oom o); [right; by split|left]. subst t. cbn [orb].
  rewrite bool_decide_false; [done|]. intros Ep. unfold out_ok in Ho. rewrite Ep in Ho.
  destruct Ho as [_ Et]. rewrite Et in E. apply format_instruction_writes in E. simpl in E. lia.
Qed.

(** The part of [disassemble] behind the checks. *)
Definition print_image (image : list Z) (code_addr code_size data_addr data_size : Z) (o : list Z)
  : res (list Z) :=
  let mem := dis_memory image code_addr code_size in
  o ← out_printf o (str "; disassembled from a .bvm image" ++ [10]);
  o ← out_printf o (str "; code: " ++ fmt_u code_size ++ str " bytes at 0x" ++ fmt_04X code_addr);
  o ← (if 0 <? data_size then
         out_printf o (str ", data: " ++ fmt_u data_size ++ str " bytes at 0x" ++ fmt_04X data_addr)
       else Ok o);
  o ← out_printf o [10; 10];
  o ← (if negb (code_addr =? 0) then out_printf o (str ".org 0x" ++ fmt_04X code_addr ++ [10])
       else Ok o);
  let end_ := u16 (code_addr + code_size) in
  o ← default UB (dis_loop (Z.to_nat end_) mem code_addr end_ o);
  if 0 <? data_size then
    o ← out_printf o ([10] ++ str ".data" ++ [10]);
    o ← (if negb (data_addr =? end_) then out_printf o (str ".org 0x" ++ fmt_04X data_addr ++ [10])
         else Ok o);
    dis_data (slice image (BVM_HEADER_SIZE + code_size) data_size) o
  else Ok o.

Lemma prints_image image ca cs da ds :
  prints (print_image_mem image ca cs da ds) (print_image image ca cs da ds).
Proof.
  unfold print_image_mem, print_image. apply prints_seq; [apply prints_printf|].
  apply prints_seq; [apply prints_printf|]. apply prints_seq; [auto with printing|].
  apply prints_seq; [apply prints_printf|]. apply prints_seq; [auto with printing|].
  apply prints_seq; [apply prints_loop|]. apply prints_if; [|apply prints_ret].
  apply prints_seq; [apply prints_printf|]. apply prints_seq; [auto with printing|]. apply prints_data.
Qed.

Lemma print_image_writes image ca cs da ds : writes (print_image image ca cs da ds) /\
  forall t t', print_image image ca cs da ds t = Ok t' -> zlen t < zlen t'.
Proof.
  unfold print_image.
  match goal with |- context [out_printf _ (str "; disassembled from a .bvm image" ++ [10]) ≫= ?g] =>
    assert (writes g) as Hg end.
  { apply writes_seq; [apply writes_printf|].
    apply writes_seq; [apply writes_if; [apply writes_printf|apply writes_ret]|].
    apply writes_seq; [apply writes_printf|].
    apply writes_seq; [apply writes_if; [apply writes_printf|apply writes_ret]|].
    apply writes_seq; [apply writes_loop|]. apply writes_if; [|apply writes_ret].
    apply writes_seq; [apply writes_printf|].
    apply writes_seq; [apply writes_if; [apply writes_printf|apply writes_ret]|]. apply writes_data. }
  split; [by apply writes_seq; [apply writes_printf|]|]. intros t t'. by apply writes_more.
Qed.

Definition dis_blocks (r : res (Ptr * list Z)) : list Block :=
  match r with Ok (p, _) => ptr_blocks p | _ => [] end.

(** The text's block is all that is left. *)
Lemma runs_disassemble image : disassemble image <> UB ->
  runs [] (disassemble_mem image) (fun r bs => bs = dis_blocks r /\
    match r with
    | Ok (p, text) => disassemble image = Ok text /\ exists b, p = Some b /\ zlen text < b.2
    | Err l m => disassemble image = Err l m \/ can_refuse /\ m = str "out of memory"
    | UB => False
    end).
Proof.
  unfold disassemble, disassemble_mem. intros Hu.
  destruct (_ || _); [by apply runs_ret; split; [|left]|]. destruct (_ <? _); [by apply runs_ret; split; [|left]|].
  destruct (negb _); [by apply runs_ret; split; [|left]|].
  match type of Hu with ?p <> UB => change p with
    (print_image image (read_u16_le image 10) (read_u16_le image 8) (read_u16_le image 14)
       (read_u16_le image 12) []) in * end.
  eapply (runs_bind _ [] []); [apply runs_malloc|done|].
  intros [b|] bs [-> Hb]; [|by apply runs_ret; split; [|right]].
  pose proof (proj1 (print_image_writes image (read_u16_le image 10) (read_u16_le image 8)
    (read_u16_le image 14) (read_u16_le image 12)) []) as Hw.
  destruct (print_image _ _ _ _ _ _) as [text|l m|] eqn:E; [|done..].
  apply runs_after_write_at; [lia|set_solver|].
  eapply (runs_bind _ _ [b]); [by apply (prints_image _ _ _ _ _ out_init [] text)|done|].
  intros r bs (o & -> & -> & Ho & Ht).
  eapply (runs_bind _ _ (out_blocks o)); [apply (runs_free (Some b))|apply Permutation_app_comm|].
  intros _ bs ->. cbn [app]. destruct (oom o).
  - eapply (runs_bind _ _ []); [apply runs_free|by rewrite (right_id_L [] (++))|].
    intros _ bs ->. apply runs_ret. split; [done|]. by right.
  - apply runs_ret. split; [done|]. subst text. split; [done|]. apply print_image_writes in E.
    unfold out_ok in Ho. destruct (out_ptr o) as [c|]; [exists c; split; [done|lia]|].
    destruct Ho as [_ Et]. rewrite Et in E. simpl in E. lia.
Qed.
End listing.
