(* ===== verification/DbgHeap.v ===== *)
(** The debugger with the memory its commands use: [disassemble_one] prints through a
    buffer of its own, so a refused request shows in the text a session prints and in
    nothing else. *)

From S2P Require Import Prelude Common CLib Memory Cpu Instruction Vm Loader Disassembler Debugger.
From S2P Require Import VmStep VmStreams DbgFacts Heap DisHeap.
Open Scope Z_scope.

(** Undefined behaviour of the machine, in this monad. *)
Definition or_UB {B} (x : option B) : H (res B) :=
  mret (match x with Some b => Ok b | None => UB end).

Section session.
Context {A : Allocator}.

Definition instruction_text_mem (mem : Memory) (addr : Z) : H (res (list Z * Z)) :=
  '(text, next, _) ⇐ disassemble_one_mem mem addr 128;
  mret (Ok (text, next)).

Definition report_stop_mem (dbg : Debugger) (io : Stdio) : H (res Stdio) :=
  let vm := dvm dbg in
  if halted vm then
    if negb (bool_decide (last_error vm = VM_OK)) then
      mret (Ok (say io (str "halted: " ++ vm_result_str (last_error vm) ++ str " at PC=0x" ++
                        fmt_04X (error_pc vm) ++ nl)))
    else mret (Ok (say io (str "halted" ++ nl)))
  else
    '(text, _) ⇐ instruction_text_mem (memory vm) (pc (cpu vm));
    mret (Ok (say io (str "PC=0x" ++ fmt_04X (pc (cpu vm)) ++ str ": " ++ text ++ nl))).

Definition cmd_step_mem (dbg : Debugger) (arg : option (list Z)) (io : Stdio) : H (res (Debugger * Stdio)) :=
  match (match arg with None => Some 1 | Some _ => parse_number arg end) with
  | None => mret (Ok (dbg, say io (str "error: step takes a count" ++ nl)))
  | Some n =>
      '(vm, io) ⇐ or_UB (step_loop (Z.to_nat n) (dvm dbg) io);
      let dbg := set_dvm dbg vm in
      io ⇐ report_stop_mem dbg io;
      mret (Ok (dbg, io))
  end.

(** What [continue] says where its loop ended. *)
Definition continue_end (dbg : Debugger) (e : VM * Stdio + ContinueExit) : H (res (Debugger * Stdio)) :=
  match e with
  | inr Exit_UB => mret UB
  | inr (Exit_breakpoint vm io) =>
      let dbg := set_dvm dbg vm in
      let io := say io (str "breakpoint at 0x" ++ fmt_04X (pc (cpu vm)) ++ nl) in
      io ⇐ report_stop_mem dbg io;
      mret (Ok (dbg, io))
  | inr (Exit_halted vm io) =>
      let dbg := set_dvm dbg vm in
      io ⇐ report_stop_mem dbg io;
      mret (Ok (dbg, io))
  | inl (vm, io) =>
      let dbg := set_dvm dbg vm in
      let io :=
        if negb (halted vm) then
          say io (str "step limit (" ++ fmt_d CONTINUE_STEP_LIMIT ++ str ") reached without halting" ++ nl)
        else io in
      io ⇐ report_stop_mem dbg io;
      mret (Ok (dbg, io))
  end.

Definition cmd_continue_mem (dbg : Debugger) (io : Stdio) : H (res (Debugger * Stdio)) :=
  if halted (dvm dbg) then mret (Ok (dbg, say io (str "halted" ++ nl)))
  else
    '(vm, io, _) ⇐ or_UB (vm_step (dvm dbg) io);
    continue_end dbg (iter_until (Z.to_pos (CONTINUE_STEP_LIMIT - 1)) (continue_round dbg) (vm, io)).

Fixpoint disassemble_lines_mem (n : nat) (vm : VM) (pc_ : Z) : H (res (list Z)) :=
  match n with
  | O => mret (Ok [])
  | S n =>
      '(text, next) ⇐ instruction_text_mem (memory vm) pc_;
      rest ⇐ disassemble_lines_mem n vm next;
      mret (Ok ((if pc_ =? pc (cpu vm) then str ">" else str " ") ++ str "0x" ++ fmt_04X pc_ ++
                str ": " ++ text ++ nl ++ rest))
  end.

Definition cmd_disassemble_mem (dbg : Debugger) (addr_arg count_arg : option (list Z)) (io : Stdio)
  : H (res Stdio) :=
  let usage := str "error: disassemble takes an address and an optional instruction count" ++ nl in
  match optional_number addr_arg (pc (cpu (dvm dbg))) with
  | None => mret (Ok (say io usage))
  | Some addr =>
      match optional_number count_arg 8 with
      | None => mret (Ok (say io usage))
      | Some count =>
          if count <=? 0 then mret (Ok (say io (str "error: count must be positive" ++ nl)))
          else
            text ⇐ disassemble_lines_mem (Z.to_nat count) (dvm dbg) (u16 addr);
            mret (Ok (say io text))
      end
  end.

Definition debugger_execute_mem (dbg : Debugger) (line : list Z) (io : Stdio)
  : H (res (Debugger * Stdio * bool)) :=
  let buf := clip 256 line in
  let '(cmd, buf) := strtok buf in
  match cmd with
  | None => mret (Ok (dbg, io, negb (quit_requested dbg)))
  | Some cmd =>
      let '(arg1, buf) := strtok buf in
      let '(arg2, buf) := strtok buf in
      if is_cmd cmd "registers" "r" then mret (Ok (dbg, cmd_registers dbg io, true))
      else if is_cmd cmd "step" "s" then '(dbg, io) ⇐ cmd_step_mem dbg arg1 io; mret (Ok (dbg, io, true))
      else if is_cmd cmd "continue" "c" then '(dbg, io) ⇐ cmd_continue_mem dbg io; mret (Ok (dbg, io, true))
      else if is_cmd cmd "break" "b" then
        let '(dbg, io) := cmd_break dbg arg1 io in mret (Ok (dbg, io, true))
      else if is_cmd cmd "delete" "d" then
        let '(dbg, io) := cmd_delete dbg arg1 io in mret (Ok (dbg, io, true))
      else if is_cmd cmd "memory" "m" then mret (Ok (dbg, cmd_memory dbg arg1 arg2 io, true))
      else if is_cmd cmd "stack" "stack" then mret (Ok (dbg, cmd_stack dbg io, true))
      else if is_cmd cmd "disassemble" "dis" then
        io ⇐ cmd_disassemble_mem dbg arg1 arg2 io; mret (Ok (dbg, io, true))
      else if is_cmd cmd "reset" "reset" then
        let '(dbg, io) := cmd_reset dbg io in mret (Ok (dbg, io, true))
      else if is_cmd cmd "quit" "q" then
        mret (Ok (mkDbg (dvm dbg) (image dbg) (breakpoints dbg) true, io, false))
      else if is_cmd cmd "help" "h" then mret (Ok (dbg, say io HELP, true))
      else mret (Ok (dbg, say io (str "error: unknown command '" ++ cmd ++ str "' (try 'help')" ++ nl), true))
  end.

(** The image's block is read by [reset]; [Ok None] is out of fuel. *)
Fixpoint repl_loop_mem (fuel : nat) (blocks : list Block) (dbg : Debugger) (io : Stdio)
  : H (res (option (Debugger * Stdio))) :=
  match fuel with
  | O => mret (Ok None)
  | S fuel =>
      let io := say io (str "(bytevm) ") in
      match stdin io with
      | [] => mret (Ok (Some (dbg, say io nl)))
      | _ =>
          let '(line, rest) := fgets 256 (stdin io) in
          _ ← reads blocks;
          '(dbg, io, go_on) ⇐ debugger_execute_mem dbg (c_string line) (mkStdio rest (stdout io));
          if go_on : bool then repl_loop_mem fuel blocks dbg io else mret (Ok (Some (dbg, io)))
      end
  end.

Definition debugger_repl_mem (blocks : list Block) (dbg : Debugger) (io : Stdio)
  : H (res (option (Debugger * Stdio))) :=
  let io := say io (str "ByteVM debugger. Type 'help' for commands." ++ nl) in
  io ⇐ report_stop_mem dbg io;
  repl_loop_mem (S (length (stdin io))) blocks dbg io.

(** ** What a refused request changes *)

Definition same_text (t t' : list Z) : Prop := t = t' \/ can_refuse.

(** The same input is left, and the same was written, up to a refused request. *)
Definition similar : Stdio -> Stdio -> Prop := alike same_text.

(** [m] keeps what is owned, and follows the computation without memory. *)
Definition follows {B C} (own : list Block) (m : H (res B)) (pure : option C) (R : B -> C -> Prop) : Prop :=
  forall c, pure = Some c -> runs own m (fun x o => o = own /\ exists b, x = Ok b /\ R b c).

Lemma follows_ret {B C} own (b : B) (c : C) (R : B -> C -> Prop) : R b c -> follows own (mret (Ok b)) (Some c) R.
Proof. intros HR ? [= <-]. apply runs_ret. eauto. Qed.

Lemma follows_bind {B C B' C'} own (m : H (res B)) (p : option C) (f : B -> H (res B')) (g : C -> option C') R S :
  follows own m p R -> (forall b c, R b c -> follows own (f b) (g c) S) ->
  follows own (hr_bind f m) (p ≫= g) S.
Proof.
  intros Hm Hf c' E. destruct p as [c|]; [|done]. cbn [mbind option_bind] in E.
  eapply (runs_bind _ _ []); [by apply Hm|by rewrite (right_id_L [] (++))|].
  intros x o (-> & b & -> & HR). rewrite (right_id_L [] (++)). by eapply Hf.
Qed.

Lemma follows_or_UB {B C} own (x : option B) (y : option C) (R : B -> C -> Prop) :
  (forall c, y = Some c -> exists b, x = Some b /\ R b c) -> follows own (or_UB x) y R.
Proof. intros HR c E. destruct (HR c E) as (b & -> & ?). apply runs_ret. eauto. Qed.

Lemma similar_refl io : similar io io.
Proof. by split; [|left]. Qed.

Lemma similar_say io io' t t' : similar io io' -> same_text t t' -> similar (say io t) (say io' t').
Proof.
  intros [H1 H2] H3. split; [done|]. unfold same_text in *. cbn [say put stdout].
  destruct H2 as [->|?], H3 as [->|?]; auto.
Qed.

Lemma similar_says io io' t : similar io io' -> similar (say io t) (say io' t).
Proof. intros H. apply similar_say; [done|by left]. Qed.

Lemma same_text_app a a' b b' : same_text a a' -> same_text b b' -> same_text (a ++ b) (a' ++ b').
Proof. unfold same_text. intros [->|?] [->|?]; auto. Qed.

Lemma same_text_refl a : same_text a a.
Proof. by left. Qed.
End session.

#[export] Hint Resolve similar_refl similar_says similar_say same_text_app same_text_refl : printing.

Section following.
Context {A : Allocator}.

(** ** Running the machine *)

Lemma same_text_more a b t : same_text a b -> same_text (a ++ t) (b ++ t).
Proof. intros H. by apply same_text_app, same_text_refl. Qed.

Lemma vm_step_similar vm io io' : similar io io' -> same_step same_text (vm_step vm io) (vm_step vm io').
Proof. apply vm_step_alike, same_text_more. Qed.

Abbreviation same_state := (same_state same_text).

Lemma step_loop_similar n vm io io' : similar io io' ->
  option_Forall2 same_state (step_loop n vm io) (step_loop n vm io').
Proof. rewrite !step_loop_steps. apply vm_steps_alike, same_text_more. Qed.

(** Where the rounds of [continue] end. *)
Definition same_end (x y : VM * Stdio + ContinueExit) : Prop :=
  match x, y with
  | inl a, inl b => same_state a b
  | inr (Exit_halted v i), inr (Exit_halted v' i') => v = v' /\ similar i i'
  | inr (Exit_breakpoint v i), inr (Exit_breakpoint v' i') => v = v' /\ similar i i'
  | inr Exit_UB, inr Exit_UB => True
  | _, _ => False
  end.

Lemma continue_round_similar dbg a b : same_state a b -> same_end (continue_round dbg a) (continue_round dbg b).
Proof.
  destruct a as [v i], b as [v' i']. intros [Ev Hio]. cbn in Ev, Hio. subst v'. unfold continue_round.
  destruct (halted v); [done|]. destruct (has_breakpoint dbg _); [done|].
  destruct (vm_step_similar v i i' Hio) as [[[w j] rc] [[w' j'] rc'] (Ew & Ej & Er)|]; [|done].
  cbn in *. by subst w'.
Qed.

Lemma continue_similar dbg n a b : same_state a b ->
  same_end (iter_n n (continue_round dbg) a) (iter_n n (continue_round dbg) b).
Proof.
  revert a b. induction n as [|n IH]; intros a b Hab; [done|]. cbn [iter_n].
  pose proof (continue_round_similar dbg a b Hab) as Hr.
  destruct (continue_round dbg a) as [a'|[]], (continue_round dbg b) as [b'|[]]; simpl in Hr; try done.
  by apply IH.
Qed.

(** ** The commands *)

Abbreviation same_session := (fun a b : Debugger * Stdio => a.1 = b.1 /\ similar a.2 b.2).

Lemma instruction_text_follows own mem addr : follows own (instruction_text_mem mem addr)
  (instruction_text mem addr) (fun a b => same_text a.1 b.1 /\ a.2 = b.2).
Proof.
  intros [text next] E. unfold instruction_text in E.
  destruct (disassemble_one mem addr 128) as [[[t nx] ok]| |] eqn:Ed; [|done..]. simplify_eq.
  eapply (runs_bind _ [] own); [by eapply runs_disassemble_one|done|].
  intros r bs [-> [->|[Hc ->]]]; apply runs_ret; (split; [done|]); eexists; (split; [done|]);
    (split; [|done]); [by left|by right].
Qed.

Lemma report_stop_follows own dbg io io' : similar io io' ->
  follows own (report_stop_mem dbg io) (report_stop dbg io') similar.
Proof.
  intros Hio. unfold report_stop_mem, report_stop.
  destruct (halted (dvm dbg)); [destruct (negb _); apply follows_ret; by auto with printing|].
  eapply follows_bind; [apply instruction_text_follows|]. intros [t nx] [t' nx'] [Ht _].
  apply follows_ret. auto 10 with printing.
Qed.

(** Ending a command with the report. *)
Lemma report_ends own dbg io io' : similar io io' ->
  follows own (io ⇐ report_stop_mem dbg io; mret (Ok (dbg, io))) (io ← report_stop dbg io'; Some (dbg, io))
    same_session.
Proof.
  intros Hio. eapply follows_bind; [by apply report_stop_follows|]. intros i i' Hi. by apply follows_ret.
Qed.

Lemma cmd_step_follows own dbg arg io io' : similar io io' ->
  follows own (cmd_step_mem dbg arg io) (cmd_step dbg arg io') same_session.
Proof.
  intros Hio. unfold cmd_step_mem, cmd_step. destruct (match arg with None => _ | Some _ => _ end) as [n|].
  - apply (follows_bind _ _ _ _ _ same_state).
    + apply follows_or_UB. intros c Ec. pose proof (step_loop_similar (Z.to_nat n) (dvm dbg) io io' Hio) as Hs.
      rewrite Ec in Hs. inversion Hs; subst. eauto.
    + intros [v i] [v' i'] [Ev Hi]. cbn in Ev, Hi. subst v'. by apply report_ends.
  - apply follows_ret. split; [done|by apply similar_says].
Qed.

Lemma continue_end_follows own dbg x y : same_end x y ->
  follows own (continue_end dbg x)
    (match y with
     | inr Exit_UB => None
     | inr (Exit_breakpoint vm io) =>
         let dbg := set_dvm dbg vm in
         let io := say io (str "breakpoint at 0x" ++ fmt_04X (pc (cpu vm)) ++ nl) in
         io ← report_stop dbg io;
         Some (dbg, io)
     | inr (Exit_halted vm io) =>
         let dbg := set_dvm dbg vm in
         io ← report_stop dbg io;
         Some (dbg, io)
     | inl (vm, io) =>
         let dbg := set_dvm dbg vm in
         let io :=
           if negb (halted vm) then
             say io (str "step limit (" ++ fmt_d CONTINUE_STEP_LIMIT ++
                     str ") reached without halting" ++ nl)
           else io in
         io ← report_stop dbg io;
         Some (dbg, io)
     end) same_session.
Proof.
  intros He. destruct x as [[v i]|[v i|v i|]], y as [[v' i']|[v' i'|v' i'|]]; simpl in He; try done.
  - destruct He as [Ev Hi]. cbn in Ev, Hi. subst v'. cbn [continue_end]. cbv zeta.
    destruct (negb (halted v)); apply report_ends; by auto with printing.
  - destruct He as [-> Hi]. by apply report_ends.
  - destruct He as [-> Hi]. apply report_ends. by auto with printing.
Qed.

Lemma cmd_continue_follows own dbg io io' : similar io io' ->
  follows own (cmd_continue_mem dbg io) (cmd_continue dbg io') same_session.
Proof.
  intros Hio. unfold cmd_continue_mem, cmd_continue. destruct (halted (dvm dbg)).
  { apply follows_ret. split; [done|by apply similar_says]. }
  apply (follows_bind _ _ _ _ _ (fun a b => same_state a.1 b.1)).
  - apply follows_or_UB. intros c Ec. pose proof (vm_step_similar (dvm dbg) io io' Hio) as Hs.
    rewrite Ec in Hs. inversion Hs as [? ? (? & ? & ?)|]; subst. eexists. split; [done|]. by split.
  - intros [[v i] rc] [[v' i'] rc'] Hs. apply continue_end_follows. rewrite !iter_until_n. by apply continue_similar.
Qed.

Lemma disassemble_lines_follows own n vm p :
  follows own (disassemble_lines_mem n vm p) (disassemble_lines n vm p) same_text.
Proof.
  revert p. induction n as [|n IH]; intros p; cbn [disassemble_lines disassemble_lines_mem];
    [by apply follows_ret; auto with printing|].
  eapply follows_bind; [apply instruction_text_follows|]. intros [t nx] [t' nx'] [Ht En]. cbn in Ht, En. subst nx'.
  eapply follows_bind; [apply IH|]. intros r r' Hr. apply follows_ret. auto 10 with printing.
Qed.

Lemma cmd_disassemble_follows own dbg a1 a2 io io' : similar io io' ->
  follows own (cmd_disassemble_mem dbg a1 a2 io) (cmd_disassemble dbg a1 a2 io') similar.
Proof.
  intros Hio. unfold cmd_disassemble_mem, cmd_disassemble. cbv zeta.
  destruct (optional_number a1 _) as [a|]; [|apply follows_ret; by auto with printing].
  destruct (optional_number a2 _) as [n|]; [|apply follows_ret; by auto with printing].
  destruct (n <=? 0); [apply follows_ret; by auto with printing|].
  eapply follows_bind; [apply disassemble_lines_follows|]. intros t t' Ht. apply follows_ret. auto with printing.
Qed.

(** The commands that do not disassemble. *)
Lemma cmd_registers_similar dbg io io' : similar io io' -> similar (cmd_registers dbg io) (cmd_registers dbg io').
Proof. intros Hio. unfold cmd_registers. case_match; auto with printing. Qed.

Lemma cmd_memory_similar dbg a1 a2 io io' : similar io io' ->
  similar (cmd_memory dbg a1 a2 io) (cmd_memory dbg a1 a2 io').
Proof. intros Hio. unfold cmd_memory. repeat case_match; auto with printing. Qed.

Lemma cmd_stack_similar dbg io io' : similar io io' -> similar (cmd_stack dbg io) (cmd_stack dbg io').
Proof. intros Hio. unfold cmd_stack. case_match; auto with printing. Qed.

Lemma cmd_break_similar dbg a io io' : similar io io' -> same_session (cmd_break dbg a io) (cmd_break dbg a io').
Proof. intros Hio. unfold cmd_break. repeat case_match; cbn; auto with printing. Qed.

Lemma cmd_delete_similar dbg a io io' : similar io io' -> same_session (cmd_delete dbg a io) (cmd_delete dbg a io').
Proof. intros Hio. unfold cmd_delete. repeat case_match; cbn; auto with printing. Qed.

Lemma cmd_reset_similar dbg io io' : similar io io' -> same_session (cmd_reset dbg io) (cmd_reset dbg io').
Proof. intros Hio. unfold cmd_reset. destruct (vm_load _ _). case_match; cbn; auto with printing. Qed.

(** Two sessions, and whether they go on. *)
Definition same_go (a b : Debugger * Stdio * bool) : Prop :=
  a.1.1 = b.1.1 /\ similar a.1.2 b.1.2 /\ a.2 = b.2.

Lemma go_on_follows own m p : follows own m p same_session ->
  follows own ('(dbg, io) ⇐ m; mret (Ok (dbg, io, true))) ('(dbg, io) ← p; Some (dbg, io, true)) same_go.
Proof.
  intros Hm. eapply follows_bind; [exact Hm|]. intros [d i] [d' i'] [Ed Hi]. by apply follows_ret.
Qed.

Lemma go_on_session own x y : same_session x y ->
  follows own (let '(dbg, io) := x in mret (Ok (dbg, io, true))) (let '(dbg, io) := y in Some (dbg, io, true)) same_go.
Proof. destruct x, y. intros [Ed Hi]. by apply follows_ret. Qed.

Lemma execute_follows own dbg line io io' : similar io io' ->
  follows own (debugger_execute_mem dbg line io) (debugger_execute dbg line io') same_go.
Proof.
  intros Hio. unfold debugger_execute_mem, debugger_execute. cbv zeta.
  destruct (strtok _) as [[cmd|] b1]; [|by apply follows_ret].
  destruct (strtok b1) as [a1 b2]. destruct (strtok b2) as [a2 b3].
  assert (Hs : forall i i', similar i i' -> follows own (mret (Ok (dbg, i, true))) (Some (dbg, i', true)) same_go)
    by (intros i i' Hi; by apply follows_ret).
  destruct (is_cmd cmd "registers" "r"); [by apply Hs, cmd_registers_similar|].
  destruct (is_cmd cmd "step" "s"); [by apply go_on_follows, cmd_step_follows|].
  destruct (is_cmd cmd "continue" "c"); [by apply go_on_follows, cmd_continue_follows|].
  destruct (is_cmd cmd "break" "b"); [by apply go_on_session, cmd_break_similar|].
  destruct (is_cmd cmd "delete" "d"); [by apply go_on_session, cmd_delete_similar|].
  destruct (is_cmd cmd "memory" "m"); [by apply Hs, cmd_memory_similar|].
  destruct (is_cmd cmd "stack" "stack"); [by apply Hs, cmd_stack_similar|].
  destruct (is_cmd cmd "disassemble" "dis").
  { eapply follows_bind; [by apply cmd_disassemble_follows|]. intros i i' Hi. by apply Hs. }
  destruct (is_cmd cmd "reset" "reset"); [by apply go_on_session, cmd_reset_similar|].
  destruct (is_cmd cmd "quit" "q"); [by apply follows_ret|].
  destruct (is_cmd cmd "help" "h"); by apply Hs, similar_says.
Qed.

(** ** The session *)

Definition same_result (x y : option (Debugger * Stdio)) : Prop := option_Forall2 same_session x y.

Lemma repl_loop_follows fuel own blocks dbg io io' : blocks ⊆ own -> similar io io' ->
  follows own (repl_loop_mem fuel blocks dbg io) (repl_loop fuel dbg io') same_result.
Proof.
  intros Hb. revert dbg io io'. induction fuel as [|fuel IH]; intros dbg io io' Hio; cbn [repl_loop repl_loop_mem].
  { apply follows_ret. constructor. }
  cbv zeta. pose proof (similar_says _ _ (str "(bytevm) ") Hio) as [Ein Hout]. rewrite Ein.
  destruct (stdin (say io' _)) as [|c s]; [apply follows_ret; constructor; cbn; auto with printing|].
  destruct (fgets 256 (c :: s)) as [line rest]. intros r E. apply runs_after_reads; [done|].
  revert r E. eapply follows_bind; [apply execute_follows; by split|].
  intros [[d i] go] [[d' i'] go'] (Ed & Hi & Eg). cbn in Ed, Hi, Eg. subst d' go'.
  destruct go; [by apply IH|]. apply follows_ret. by constructor.
Qed.

Lemma debugger_repl_follows own blocks dbg io : blocks ⊆ own ->
  follows own (debugger_repl_mem blocks dbg io) (debugger_repl dbg io) same_result.
Proof.
  intros Hb. unfold debugger_repl_mem, debugger_repl. cbv zeta.
  eapply follows_bind; [apply report_stop_follows, similar_refl|].
  intros i i' Hi. pose proof Hi as [Ein _]. rewrite Ein. by apply repl_loop_follows.
Qed.
End following.
