(* ===== verification/MainHeap.v ===== *)
(** The command line with its memory management: the file buffers, images, texts and
    machines that [main.c] allocates and frees around the computations of [Main]. *)

From S2P Require Import Prelude Common CLib Memory Cpu Instruction Vm Loader Symtab Lexer Parser.
From S2P Require Import Assembler Disassembler Debugger Main Heap AsmHeap AsmHeapFacts DisHeap DbgHeap.
Open Scope Z_scope.

Section main.
Context {A : Allocator}.

(** The buffer for a file of the size [len], with the bytes [fread] delivers and a NUL
    behind them. *)
Definition read_into (w : World) (path : list Z) (len : Z) (bytes : list Z)
  : H (World * option (Ptr * list Z)) :=
  buf ← malloc (len + 1);
  match buf with
  | None => mret (complain w (str "out of memory reading " ++ quoted path), None)
  | Some _ =>
      _ ← write_range buf 0 (zlen bytes);
      _ ← write_at buf (zlen bytes);
      mret (w, Some (buf, bytes))
  end.

Definition read_file_mem (w : World) (path : list Z) : H (World * option (Ptr * list Z)) :=
  match open_file w path with
  | File_missing => mret (complain w (str "cannot open " ++ quoted path), None)
  | File_unseekable => mret (complain w (str "cannot seek " ++ quoted path), None)
  | File_unsizable => mret (complain w (str "cannot size " ++ quoted path), None)
  | File_short len bytes => read_into w path (Z.of_nat len) (take len bytes)
  | File_bytes bytes => read_into w path (zlen bytes) bytes
  end.

Definition image_from_path_mem (w : World) (path : list Z) : H (res (World * option (Ptr * list Z))) :=
  '(w, contents) ← read_file_mem w path;
  match contents with
  | None => mret (Ok (w, None))
  | Some (buf, contents) =>
      if negb (has_suffix path (str ".asm")) then mret (Ok (w, Some (buf, contents)))
      else
        _ ← reads (ptr_blocks buf);
        r ← assemble_mem (c_string contents);
        _ ← free buf;
        match r with
        | Ok (image, bytes) => _ ← assembly_result_free None; mret (Ok (w, Some (image, bytes)))
        | Err _ error =>
            _ ← assembly_result_free None;
            mret (Ok (eprint w (path ++ str ":" ++ error ++ nl), None))
        | UB => mret UB
        end
  end.

Definition OUT_OF_MEMORY_EXIT : list Z := str "out of memory".

(** How a finished run is reported. *)
Definition exit_report (w : World) (vm : VM) : option (World * Z) :=
  if negb (bool_decide (last_error vm = VM_OK)) then
    Some (complain w (vm_result_str (last_error vm) ++ str " at PC=0x" ++ fmt_04X (error_pc vm)), 1)
  else if negb (halted vm) then
    Some (complain w (str "step limit (" ++ fmt_d MAX_STEPS ++ str ") reached without halting"), 1)
  else
    r0 ← get_r vm 0;
    Some (w, Z.land r0 0xFF).

Definition cmd_run_mem (w : World) (path : list Z) (vm : VM) : H (res (World * Z)) :=
  '(w, image) ⇐ image_from_path_mem w path;
  match image with
  | None => mret (Ok (w, 1))
  | Some (image, bytes) =>
      machine ← malloc 1;
      match machine with
      | None => _ ← free image; mret (Ok (complain w OUT_OF_MEMORY_EXIT, 1))
      | Some _ =>
          _ ← reads (ptr_blocks image);
          _ ← write_at machine 0;
          let vm := vm_init vm in
          let '(vm, load) := vm_load vm bytes in
          _ ← free image;
          if negb (bool_decide (load = VM_OK)) then
            _ ← free machine; mret (Ok (complain w (vm_result_str load), 1))
          else
            _ ← reads (ptr_blocks machine);
            r ← or_UB ('(vm, io) ← run_loop vm (wio w); exit_report (with_io w io) vm);
            _ ← free machine;
            mret r
      end
  end.

Definition cmd_asm_mem (w : World) (in_path out_path : list Z) : H (res (World * Z)) :=
  '(w, image) ⇐ image_from_path_mem w in_path;
  match image with
  | None => mret (Ok (w, 1))
  | Some (image, bytes) =>
      match write_capacity w out_path with
      | None =>
          let w := complain w (str "cannot write " ++ quoted out_path) in
          _ ← free image; mret (Ok (w, 1))
      | Some capacity =>
          _ ← reads (ptr_blocks image);
          let count := Z.max 0 (Z.min capacity (zlen bytes)) in
          let w := write_file w out_path (take (Z.to_nat (Z.min (close_capacity w out_path) count)) bytes) in
          _ ← free image;
          if negb (count =? zlen bytes) then
            mret (Ok (complain w (str "short write to " ++ quoted out_path), 1))
          else
            mret (Ok (with_io w (put (wio w) (str "wrote " ++ out_path ++ str " (" ++ fmt_u (zlen bytes) ++
                                          str " bytes)" ++ nl)), 0))
      end
  end.

Definition cmd_dis_mem (w : World) (path : list Z) : H (res (World * Z)) :=
  '(w, image) ⇐ image_from_path_mem w path;
  match image with
  | None => mret (Ok (w, 1))
  | Some (image, bytes) =>
      _ ← reads (ptr_blocks image);
      r ← disassemble_mem bytes;
      _ ← free image;
      match r with
      | Ok (p, text) =>
          _ ← reads (ptr_blocks p);
          let w := with_io w (put (wio w) text) in
          _ ← disassembly_result_free p; mret (Ok (w, 0))
      | Err _ error => _ ← disassembly_result_free None; mret (Ok (complain w error, 1))
      | UB => mret UB
      end
  end.

(** The debugger keeps the machine and the image until the session ends. *)
Definition cmd_debug_mem (w : World) (path : list Z) (vm : VM) : H (res (World * Z)) :=
  '(w, image) ⇐ image_from_path_mem w path;
  match image with
  | None => mret (Ok (w, 1))
  | Some (image, bytes) =>
      machine ← malloc 1;
      match machine with
      | None => _ ← free image; mret (Ok (complain w OUT_OF_MEMORY_EXIT, 1))
      | Some _ =>
          _ ← reads (ptr_blocks image);
          _ ← write_at machine 0;
          let vm := vm_init vm in
          let '(vm, load) := vm_load vm bytes in
          if negb (bool_decide (load = VM_OK)) then
            let w := complain w (vm_result_str load) in
            _ ← free machine; _ ← free image; mret (Ok (w, 1))
          else
            r ← debugger_repl_mem (ptr_blocks machine ++ ptr_blocks image) (debugger_init vm bytes) (wio w);
            _ ← free machine; _ ← free image;
            mret (s ← r; match s with Some (_, io) => Ok (with_io w io, 0) | None => UB end)
      end
  end.

Definition main_mem (w : World) (argv : list (list Z)) (vm : VM) : H (res (World * Z)) :=
  let prog := default [] (argv !! 0%nat) in
  let is_arg s := bool_decide (argv !! 1%nat = Some (str s)) in
  match argv !! 2%nat, argv !! 3%nat with
  | Some a2, a3 =>
      if is_arg "run" then cmd_run_mem w a2 vm
      else
        match is_arg "asm", a3 with
        | true, Some a3 => cmd_asm_mem w a2 a3
        | _, _ =>
            if is_arg "dis" then cmd_dis_mem w a2
            else if is_arg "debug" then cmd_debug_mem w a2 vm
            else mret (Ok (eprint w (usage prog), 2))
        end
  | None, _ => mret (Ok (eprint w (usage prog), 2))
  end.

(** ** Nothing is left *)

(** What is printed when a request is refused: for the machine, the disassembler's
    memory and text; for the file's buffer; in the assembler, whose report is that
    memory has run out or, for a refused symbol, that its label is a duplicate. *)
Definition refusal (path text : list Z) : Prop :=
  text = str "bytevm: " ++ OUT_OF_MEMORY_EXIT ++ nl \/
  text = str "bytevm: " ++ str "out of memory reading " ++ quoted path ++ nl \/
  exists l m, exhausted_report l m /\ text = path ++ str ":" ++ m ++ nl.

(** A command that is refused memory complains and exits with 1, before it has printed
    or written anything else. *)
Definition refused_exit (w : World) (path : list Z) (r : World * Z) : Prop :=
  can_refuse /\ exists text, refusal path text /\ r = (eprint w text, 1).

(** A debugger session that was refused memory may have printed something else. *)
Definition session_differs (r r' : World * Z) : Prop :=
  can_refuse /\ exists io, r' = (with_io r.1 io, r.2) /\ stdin io = stdin (wio r.1).

(** No block is left, and the outcome is the one without memory management, or the
    command was refused memory; only a session goes on then. *)
Definition reports (debug : bool) (w : World) (path : list Z) (r : World * Z) (x : res (World * Z)) (own : list Block) : Prop :=
  own = [] /\ exists r', x = Ok r' /\
    (r' = r \/ refused_exit w path r' \/ debug = true /\ session_differs r r').

Definition does (debug : bool) (w : World) (path : list Z) (m : H (res (World * Z))) (pure : option (World * Z)) : Prop :=
  forall r, pure = Some r -> runs [] m (reports debug w path r).

Lemma reports_done debug w path r r' : r' = r -> reports debug w path r (Ok r') [].
Proof. intros ->. split; [done|]. eexists. split; [done|by left]. Qed.

Lemma reports_refused debug w path r text : can_refuse -> refusal path text ->
  reports debug w path r (Ok (eprint w text, 1)) [].
Proof. intros Hc Ht. split; [done|]. eexists. split; [done|]. right. left. split; [done|by eexists]. Qed.

Lemma runs_read_into w path len bytes : zlen bytes <= len ->
  runs [] (read_into w path len bytes) (fun x own =>
    (exists b, x = (w, Some (Some b, bytes)) /\ own = [b]) \/
    own = [] /\ can_refuse /\ exists text, refusal path text /\ x = (eprint w text, None)).
Proof.
  unfold read_into. intros Hl. eapply (runs_bind _ _ []); [apply runs_malloc|done|].
  intros [b|] o [-> Hb]; [|apply runs_ret; right; split_and!; [done..|eexists; split; [by right; left|done]]].
  apply runs_after_write_range; [lia..|set_solver|]. apply runs_after_write_at; [lia|set_solver|].
  apply runs_ret. left. by exists b.
Qed.

(** The image of the contents in a buffer. *)
Definition image_outcome (w : World) (path : list Z) (w' : World) (image : option (list Z)) (x : res (World * option (Ptr * list Z)))
  (own : list Block) : Prop :=
  match image with
  | Some bytes => w' = w /\ exists b, x = Ok (w, Some (Some b, bytes)) /\ own = [b]
  | None => own = [] /\ x = Ok (w', None)
  end \/ own = [] /\ can_refuse /\ exists text, refusal path text /\ x = Ok (eprint w text, None).

Lemma runs_image_of_contents w path bytes b w' image :
  (if negb (has_suffix path (str ".asm")) then Some (w, Some bytes)
   else match assemble (c_string bytes) with
        | Ok image => Some (w, Some image)
        | Err _ error => Some (eprint w (path ++ str ":" ++ error ++ nl), None)
        | UB => None
        end) = Some (w', image) ->
  runs [b]
    (if negb (has_suffix path (str ".asm")) then mret (Ok (w, Some (Some b, bytes)))
     else
       _ ← reads (ptr_blocks (Some b));
       r ← assemble_mem (c_string bytes);
       _ ← free (Some b);
       match r with
       | Ok (image, bytes) => _ ← assembly_result_free None; mret (Ok (w, Some (image, bytes)))
       | Err _ error =>
           _ ← assembly_result_free None; mret (Ok (eprint w (path ++ str ":" ++ error ++ nl), None))
       | UB => mret UB
       end)
    (image_outcome w path w' image).
Proof.
  intros E. unfold image_outcome.
  destruct (negb _); [simplify_eq; apply runs_ret; left; split; [done|by exists b]|].
  apply runs_after_reads; [set_solver|].
  eapply (runs_bind _ [] [b]); [apply runs_assemble|done|]. intros r own Hr. unfold assembled in Hr.
  destruct r as [[p bs]|l m|]; [| |by rewrite Hr in E].
  - destruct Hr as (Ea & c & -> & -> & _). rewrite Ea in E. simplify_eq.
    eapply runs_perm; [apply perm_swap|]. apply runs_after_free, runs_ret_bind, runs_ret.
    left. split; [done|]. by exists c.
  - destruct Hr as (-> & Hr). apply runs_after_free. apply runs_ret_bind, runs_ret.
    destruct Hr as [Ea|[Hc Hm]]; [rewrite Ea in E; simplify_eq; by left|].
    right. split_and!; [done..|]. eexists. split; [|done]. right. right. by exists l, m.
Qed.

(** The image and its block, and the world it was read in. *)
Lemma runs_image_from_path w path w' image : image_from_path w path = Some (w', image) ->
  runs [] (image_from_path_mem w path) (image_outcome w path w' image).
Proof.
  unfold image_from_path, image_from_path_mem, read_file. intros E.
  unfold read_file_mem. destruct (open_file w path) as [| | |len short|full].
  1,2,3: cbn in E; simplify_eq; apply runs_ret_bind, runs_ret; by left.
  all: eapply (runs_bind _ _ []); [apply runs_read_into; rewrite ?length_take; lia|done|].
  all: intros x o; rewrite (right_id_L [] (++)); intros [(b & -> & ->)|(-> & Hc & text & Ht & ->)];
    [|by apply runs_ret; right; split_and!; [..|exists text]]; by apply runs_image_of_contents.
Qed.

Lemma does_with_image debug w path (f : World -> Ptr -> list Z -> H (res (World * Z)))
  (g : World -> list Z -> option (World * Z)) :
  (forall b bytes r, g w bytes = Some r -> runs [b] (f w (Some b) bytes) (reports debug w path r)) ->
  does debug w path
    ('(w, image) ⇐ image_from_path_mem w path;
     match image with
     | None => mret (Ok (w, 1))
     | Some (image, bytes) => f w image bytes
     end)
    ('(w, image) ← image_from_path w path;
     match image with
     | None => Some (w, 1)
     | Some bytes => g w bytes
     end).
Proof.
  intros Hf r E. destruct (image_from_path w path) as [[w' image]|] eqn:Ei; [|done]. cbn [mbind option_bind] in E.
  eapply (runs_bind _ _ []); [by eapply runs_image_from_path|done|].
  intros x own. rewrite (right_id_L [] (++)).
  intros [Hx|(-> & Hc & text & Ht & ->)]; [|by apply runs_ret, reports_refused].
  destruct image as [bytes|].
  - destruct Hx as (-> & b & -> & ->). by apply Hf.
  - destruct Hx as (-> & ->). apply runs_ret, reports_done. congruence.
Qed.

(** A command refused its machine. *)
Lemma runs_refused_machine debug w path r b : can_refuse ->
  runs [b] (_ ← free (Some b); mret (Ok (complain w OUT_OF_MEMORY_EXIT, 1))) (reports debug w path r).
Proof. intros Hc. apply runs_after_free, runs_ret, reports_refused; [done|by left]. Qed.

Lemma cmd_run_does w path vm : does false w path (cmd_run_mem w path vm) (cmd_run w path vm).
Proof.
  apply (does_with_image _ w path _ (fun w image =>
    let vm := vm_init vm in
    let '(vm, load) := vm_load vm image in
    if negb (bool_decide (load = VM_OK)) then Some (complain w (vm_result_str load), 1)
    else '(vm, io) ← run_loop vm (wio w); exit_report (with_io w io) vm)).
  intros b bytes r E. eapply (runs_bind _ [] [b]); [apply runs_malloc|done|].
  intros [m|] o [-> Hm]; [|by apply runs_refused_machine].
  apply runs_after_reads; [set_solver|]. apply runs_after_write_at; [lia|set_solver|].
  cbv zeta in *. destruct (vm_load (vm_init vm) bytes) as [vm' load].
  eapply runs_perm; [apply perm_swap|]. apply runs_after_free. destruct (negb _).
  - apply runs_after_free, runs_ret, reports_done. congruence.
  - apply runs_after_reads; [set_solver|]. rewrite E. apply runs_ret_bind.
    by apply runs_after_free, runs_ret, reports_done.
Qed.

Lemma cmd_asm_does w in_path out_path : does false w in_path (cmd_asm_mem w in_path out_path) (cmd_asm w in_path out_path).
Proof.
  apply (does_with_image _ w in_path _ (fun w image =>
    match write_capacity w out_path with
    | None => Some (complain w (str "cannot write " ++ quoted out_path), 1)
    | Some capacity =>
        let count := Z.max 0 (Z.min capacity (zlen image)) in
        let w := write_file w out_path (take (Z.to_nat (Z.min (close_capacity w out_path) count)) image) in
        if negb (count =? zlen image) then
          Some (complain w (str "short write to " ++ quoted out_path), 1)
        else
          Some (with_io w (put (wio w) (str "wrote " ++ out_path ++ str " (" ++ fmt_u (zlen image) ++
                                        str " bytes)" ++ nl)), 0)
    end)).
  intros b bytes r E. destruct (write_capacity w out_path) as [cap|].
  - apply runs_after_reads; [set_solver|]. cbv zeta in *. apply runs_after_free.
    destruct (negb _); apply runs_ret, reports_done; congruence.
  - apply runs_after_free, runs_ret, reports_done. congruence.
Qed.

Lemma cmd_dis_does w path : does false w path (cmd_dis_mem w path) (cmd_dis w path).
Proof.
  apply (does_with_image _ w path _ (fun w image =>
    match disassemble image with
    | Ok text => Some (with_io w (put (wio w) text), 0)
    | Err _ error => Some (complain w error, 1)
    | UB => None
    end)).
  intros b bytes r E. apply runs_after_reads; [set_solver|].
  eapply (runs_bind _ [] [b]); [apply runs_disassemble; by intros Hu; rewrite Hu in E|done|].
  intros x o [-> Hx]. eapply runs_perm; [apply Permutation_app_comm|]. apply runs_after_free.
  destruct x as [[p text]|l m|]; [| |done].
  - destruct Hx as (Ed & c & -> & _). rewrite Ed in E. apply runs_after_reads; [set_solver|]. cbv zeta.
    apply runs_after_free, runs_ret, reports_done. congruence.
  - apply runs_ret_bind, runs_ret. destruct Hx as [Ed|[Hc ->]]; [|apply reports_refused; [done|by left]].
    apply reports_done. rewrite Ed in E. congruence.
Qed.

Lemma session_reports w path io io' : similar io io' ->
  reports true w path (with_io w io', 0) (Ok (with_io w io, 0)) [].
Proof.
  intros [Ein Hout]. split; [done|]. eexists. split; [done|]. destruct Hout as [Eout|Hc].
  - left. destruct io, io'. cbn in *. congruence.
  - right. right. split; [done|]. split; [done|]. by exists io.
Qed.

Lemma cmd_debug_does w path vm : does true w path (cmd_debug_mem w path vm) (cmd_debug w path vm).
Proof.
  apply (does_with_image _ w path _ (fun w image =>
    let vm := vm_init vm in
    let '(vm, load) := vm_load vm image in
    if negb (bool_decide (load = VM_OK)) then Some (complain w (vm_result_str load), 1)
    else s ← debugger_repl (debugger_init vm image) (wio w); '(_, io) ← s; Some (with_io w io, 0))).
  intros b bytes r E. eapply (runs_bind _ [] [b]); [apply runs_malloc|done|].
  intros [m|] o [-> Hm]; [|by apply runs_refused_machine].
  apply runs_after_reads; [set_solver|]. apply runs_after_write_at; [lia|set_solver|].
  cbv zeta in *. destruct (vm_load (vm_init vm) bytes) as [vm' load].
  destruct (negb _).
  - do 2 apply runs_after_free. apply runs_ret, reports_done. congruence.
  - destruct (debugger_repl _ _) as [[[d io']|]|] eqn:Er; [|done..]. cbn in E. simplify_eq.
    eapply (runs_bind _ _ []); [by eapply (debugger_repl_follows [m; b] [m; b])|done|].
    intros x o (-> & s & -> & Hs). inversion Hs as [[d1 io] ? [Ed Hio] E1|]; subst.
    do 2 apply runs_after_free. apply runs_ret. by apply session_reports.
Qed.

(** The outcome of the program; only [debug] has sessions. *)
Lemma main_does w argv vm : does (bool_decide (argv !! 1%nat = Some (str "debug"))) w
  (default [] (argv !! 2%nat)) (main_mem w argv vm) (main w argv vm).
Proof.
  unfold main, main_mem. cbv zeta. set (path := default [] (argv !! 2%nat)). set (dbg := bool_decide (argv !! 1%nat = Some (str "debug"))).
  assert (Hu : forall text, does dbg w path (mret (Ok (eprint w text, 2))) (Some (eprint w text, 2)))
    by (intros text r [= <-]; by apply runs_ret, reports_done).
  assert (Hany : forall m p, does false w path m p -> does dbg w path m p).
  { intros m p Hm r E. eapply runs_post; [by apply Hm|]. intros x o [-> (r' & -> & Hr)]. split; [done|].
    exists r'. split; [done|]. destruct Hr as [?|[?|[? _]]]; [by left|by right; left|done]. }
  destruct (argv !! 2%nat) as [a2|]; [|apply Hu]. change a2 with path.
  destruct (bool_decide (argv !! 1%nat = Some (str "run"))); [apply Hany, cmd_run_does|].
  assert (Hrest : does dbg w path
    (if bool_decide (argv !! 1%nat = Some (str "dis")) then cmd_dis_mem w a2
     else if dbg then cmd_debug_mem w a2 vm else mret (Ok (eprint w (usage (default [] (argv !! 0%nat))), 2)))
    (if bool_decide (argv !! 1%nat = Some (str "dis")) then cmd_dis w a2
     else if dbg then cmd_debug w a2 vm else Some (eprint w (usage (default [] (argv !! 0%nat))), 2))).
  { destruct (bool_decide (argv !! 1%nat = Some (str "dis"))); [apply Hany, cmd_dis_does|].
    destruct dbg; [apply cmd_debug_does|apply Hu]. }
  destruct (bool_decide (argv !! 1%nat = Some (str "asm"))), (argv !! 3%nat) as [a3|]; try exact Hrest.
  apply Hany, cmd_asm_does.
Qed.
End main.
