(* ===== verification/HeapProps.v ===== *)
(** The theorems about memory management: under every allocator the program uses only
    blocks it owns, writes inside their bounds, frees each of them once, and does what it
    does with unlimited memory or gives up with one of the messages of [refusal]. *)

From S2P Require Import Prelude Common CLib Memory Cpu Instruction Vm Loader Symtab Lexer Parser.
From S2P Require Import Assembler AsmProps VmDemo Disassembler Debugger Main MainProps.
From S2P Require Import Heap AsmHeap AsmHeapFacts DisHeap DbgHeap MainHeap.
Open Scope Z_scope.

(** ** The program *)

(** C19: Under every allocator a command that has a defined outcome has one with its
    memory management: no block is freed twice, used after it was freed or written
    outside its bounds, and none is left when the program exits, on all its error
    paths. The outcome is the same - the files, streams, messages and exit status -
    unless a request was refused; then the program prints one message on the error
    stream, exits with 1, and has done nothing else, or is a debugger session, which
    goes on with the same machine and can differ only in what it prints. The message is
    that memory has run out, that it has run out reading the file, or the assembler's
    report: out of memory at a line or, for a symbol that is refused, that its label is
    already defined. *)
Theorem program_frees_memory (A : Allocator) w argv vm r : main w argv vm = Some r ->
  exists x h, main_mem w argv vm heap_empty = Some (Ok x, h) /\ allocated h = [] /\
    (x = r \/
     can_refuse /\ (exists text, refusal (default [] (argv !! 2%nat)) text /\ x = (eprint w text, 1)) \/
     can_refuse /\ argv !! 1%nat = Some (str "debug") /\
       exists io, x = (with_io r.1 io, r.2) /\ stdin io = stdin (wio r.1)).
Proof.
  intros E. destruct (runs_closed _ _ (main_does w argv vm r E)) as (y & h & Em & o & Eo & -> & x & -> & Hx).
  exists x, h. split; [done|]. split; [by apply Permutation_nil_r in Eo|].
  destruct Hx as [->|[[Hc Ht]|[Hd [Hc Hs]]]]; [by left|right; by left|right; right].
  apply bool_decide_eq_true in Hd. done.
Qed.

(** Assembling and disassembling, with an allocator that is out of memory from its tenth
    request on: the text buffer's. *)
Definition tenth_refused : Allocator := granting (fun n => Nat.ltb n 9).

Definition dis_argv : list (list Z) := [str "bytevm"; str "dis"; str "p.asm"].

Definition dis_outcome : World * Z := default (demo_world, 2) (main demo_world dis_argv blank).

Lemma program_frees_memory_witness :
  exists x h, main_mem (A := tenth_refused) demo_world dis_argv blank heap_empty = Some (Ok x, h) /\
    allocated h = [] /\
    (x = dis_outcome \/
     can_refuse (A := tenth_refused) /\
       (exists text, refusal (str "p.asm") text /\ x = (eprint demo_world text, 1)) \/
     can_refuse (A := tenth_refused) /\ dis_argv !! 1%nat = Some (str "debug") /\
       exists io, x = (with_io dis_outcome.1 io, dis_outcome.2) /\ stdin io = stdin (wio dis_outcome.1)).
Proof. apply (program_frees_memory tenth_refused demo_world dis_argv blank dis_outcome). vm_compute. reflexivity. Defined.

(** ** The assembler *)

(** C20: Under every allocator the assembler returns the image of the source in a block
    of exactly its size, which is the one block left and which
    [assembly_result_free] frees; or, with no block left, the source's error or the
    report of a refused request: out of memory, with or without a line or, when it was
    for a symbol, that the label is already defined. *)
Theorem assembler_owns_image (A : Allocator) source : assemble source <> UB ->
  exists r h, assemble_mem source heap_empty = Some (r, h) /\
    match r with
    | Ok (p, image) =>
        assemble source = Ok image /\
        exists b h', p = Some b /\ allocated h = [b] /\ b.2 = zlen image /\
          assembly_result_free p h = Some (tt, h') /\ allocated h' = []
    | Err l m =>
        allocated h = [] /\ (assemble source = Err l m \/ can_refuse /\ exhausted_report l m)
    | UB => False
    end.
Proof.
  intros Hu. destruct (runs_closed _ _ (runs_assemble source)) as (r & h & E & o & Eo & Hr).
  exists r, h. split; [done|]. destruct r as [[p image]|l m|]; simpl in Hr; [| |done].
  - destruct Hr as (Ea & b & -> & -> & Hb). split; [done|]. apply Permutation_singleton_r in Eo.
    exists b, (mkHeap [] (requests h)). split_and!; [done..| |done].
    unfold assembly_result_free, free. rewrite Eo. cbn. by rewrite decide_True.
  - destruct Hr as [-> Hr]. by apply Permutation_nil_r in Eo.
Qed.

Lemma assembler_owns_image_witness :
  exists r h, assemble_mem (A := tenth_refused) demo_source heap_empty = Some (r, h) /\
    match r with
    | Ok (p, image) =>
        assemble demo_source = Ok image /\
        exists b h', p = Some b /\ allocated h = [b] /\ b.2 = zlen image /\
          assembly_result_free p h = Some (tt, h') /\ allocated h' = []
    | Err l m =>
        allocated h = [] /\
        (assemble demo_source = Err l m \/ can_refuse (A := tenth_refused) /\ exhausted_report l m)
    | UB => False
    end.
Proof. apply (assembler_owns_image tenth_refused demo_source). by vm_compute. Defined.

(** With memory for every request the image is the assembler's. *)
Lemma unlimited_assembles : exists b h,
  assemble_mem (A := unlimited) demo_source heap_empty = Some (Ok (Some b, demo_image), h) /\ allocated h = [b].
Proof. eexists _, _. split; vm_compute; reflexivity. Qed.

(** When the table of a source with one label cannot be allocated, the label is reported
    as a duplicate. *)
Lemma refused_symbol_is_duplicate :
  let A := granting (fun n => negb (Nat.eqb n 4)) in
  exists h, assemble_mem (A := A) (str "a: HALT") heap_empty =
    Some (Err 1 (str "line 1: label 'a' is already defined"), h) /\ allocated h = [] /\
  exists image, assemble (str "a: HALT") = Ok image.
Proof. eexists. split; [vm_compute; reflexivity|]. split; [reflexivity|]. eexists. vm_compute. reflexivity. Qed.
