(* ===== verification/MainSafe.v ===== *)
(** The safety of the whole program: on files of any contents, if its sources keep within
    bounds that can be read off their text, no invocation reaches undefined behaviour. *)

From S2P Require Import Prelude Machine Common CLib Memory Cpu Instruction Vm VmFacts VmStep VmStreams Loader.
From S2P Require Import Symtab Lexer Parser Assembler AsmFacts AsmCorrect Disassembler DisFacts RoundTrip AsmBounds.
From S2P Require Import Debugger DbgFacts DbgProps VmDemo Main MainProps LangProps.
From S2P Require Import Heap AsmHeap AsmHeapFacts MainHeap.
Open Scope Z_scope.

(** Files hold bytes, and what is read of a source is small. *)
Definition readable (w : World) : Prop := forall path contents,
  (read_file w path).2 = Some contents ->
  is_byte_list contents /\ (has_suffix path (str ".asm") = true -> small_text (c_string contents) = true).

(** Small sources assemble to an image or to an error. *)
Lemma small_assembles source : is_byte_list source -> small_text source = true ->
  match assemble source with Ok image => is_byte_list image | Err _ _ => True | UB => False end.
Proof.
  intros Hb [Hd Hn]%small_text_spec. destruct (small_defined source Hb Hd Hn) as (_ & Hf & Hu).
  destruct (assemble source) as [image|line error|] eqn:E; [|done|by destruct Hu].
  destruct (pass1 source) as [[[stmts symtab] sec]|l m|] eqn:Hp.
  - by apply (assembled_canonical source stmts symtab sec image Hb Hp (Hf _ _ _ eq_refl) E).
  - rewrite assemble_parsed, tokens_parsed, Hp in E. done.
  - rewrite assemble_parsed, tokens_parsed, Hp in E. done.
Qed.

Lemma image_defined w path : readable w -> exists w1 im, image_from_path w path = Some (w1, im) /\
  forall image, im = Some image -> is_byte_list image.
Proof.
  intros Hw. pose proof (Hw path) as Hp. unfold image_from_path. destruct (read_file w path) as [w1 [contents|]];
    [|by do 2 eexists].
  destruct (Hp contents eq_refl) as [Hb Hs]. destruct (has_suffix path (str ".asm")); cbn [negb].
  - pose proof (small_assembles _ (c_string_bytes _ Hb) (Hs eq_refl)) as Ha.
    destruct (assemble (c_string contents)); [|by do 2 eexists|done].
    do 2 eexists. split; [done|]. by intros ? [= <-].
  - do 2 eexists. split; [done|]. by intros ? [= <-].
Qed.

(** A command has an outcome, with the exit status of a process. *)
Definition defined (r : option (World * Z)) : Prop := exists w st, r = Some (w, st) /\ is_u8 st.

Lemma defined_Some w st : is_u8 st -> defined (Some (w, st)).
Proof. by exists w, st. Qed.

Section commands.
Context (w : World) (Hw : readable w).

Lemma cmd_run_defined path vm : defined (cmd_run w path vm).
Proof.
  destruct (image_defined w path Hw) as (w1 & [image|] & E & Hb); [|unfold cmd_run; rewrite E; by apply defined_Some].
  destruct (run_image w path image vm w1 E (Hb _ eq_refl)) as [(_ & k & v & i & _ & _ & _ & ->)|[_ ->]];
    apply defined_Some; [|done].
  unfold run_status, is_u8. case_match; [|lia]. apply Z.mod_pos_bound. lia.
Qed.

Lemma cmd_asm_defined path out : defined (cmd_asm w path out).
Proof.
  unfold cmd_asm. destruct (image_defined w path Hw) as (w1 & [image|] & -> & _); cbn [mbind option_bind];
    [|by apply defined_Some].
  destruct (write_capacity w1 out); [|by apply defined_Some]. by case_match; apply defined_Some.
Qed.

Lemma cmd_dis_defined path : defined (cmd_dis w path).
Proof.
  unfold cmd_dis. destruct (image_defined w path Hw) as (w1 & [image|] & -> & Hb); cbn [mbind option_bind];
    [|by apply defined_Some].
  destruct (disassemble_cases image (Hb _ eq_refl)) as [(_ & items & -> & _)|(_ & msg & ->)]; by apply defined_Some.
Qed.

Lemma cmd_debug_defined path vm : defined (cmd_debug w path vm).
Proof.
  unfold cmd_debug. destruct (image_defined w path Hw) as (w1 & [image|] & -> & Hb); cbn [mbind option_bind];
    [|by apply defined_Some].
  specialize (Hb _ eq_refl). destruct (vm_load_cases image Hb (vm_init vm)) as [[Hv ->]|[_ ->]]; [|by apply defined_Some].
  rewrite bool_decide_true by done. cbn [negb]. rewrite (loaded_indep image (vm_init vm) blank).
  destruct (session_total image (wio w1) Hb Hv) as (dbg & io' & E & _). rewrite vm_load_ok in E by done.
  cbn [fst] in E. rewrite E. by apply defined_Some.
Qed.

Lemma main_defined argv vm : defined (main w argv vm).
Proof.
  unfold main. destruct (argv !! 2%nat) as [a2|]; [|by apply defined_Some].
  case_match; [apply cmd_run_defined|].
  assert (defined (if bool_decide (argv !! 1%nat = Some (str "dis")) then cmd_dis w a2
    else if bool_decide (argv !! 1%nat = Some (str "debug")) then cmd_debug w a2 vm
    else Some (eprint w (usage (default [] (argv !! 0%nat))), 2))) as Hrest.
  { case_match; [apply cmd_dis_defined|]. case_match; [apply cmd_debug_defined|by apply defined_Some]. }
  destruct (bool_decide (argv !! 1%nat = Some (str "asm"))), (argv !! 3%nat); try apply Hrest. apply cmd_asm_defined.
Qed.
End commands.

(** C3: The program is safe: whatever files it is given - images, damaged or not, of any bytes,
    and sources of any text whose numbers have at most fifteen digits and whose length
    and highest [.org] stay below 64 KB - and whatever its arguments, its input, and the
    requests for memory that are refused, every invocation of [bytevm] ends, has freed
    every block, exits with the status of a process, and meets none of the kinds of
    undefined behaviour that are in the model: an index outside the machine's registers
    or the assembler's 64 KB buffers, a literal that overflows its 64 bits, a piece of
    the disassembler's text that does not fit the array it is formatted in, tokens read
    behind their end, and a block that is written outside its bounds, used when it is
    not allocated, or freed twice. *)
Theorem invocations_are_safe (A : Allocator) w argv vm : readable w ->
  exists r, main w argv vm = Some r /\ is_u8 r.2 /\
  exists x h, main_mem w argv vm heap_empty = Some (Ok x, h) /\ allocated h = [] /\ is_u8 x.2.
Proof.
  intros Hw. destruct (main_defined w Hw argv vm) as (w1 & st & E & Hst). exists (w1, st). split; [done|]. split; [done|].
  destruct (runs_closed _ _ (main_does w argv vm _ E)) as (y & h & Em & o & Eo & -> & x & -> & Hx).
  exists x, h. split; [done|]. split; [by apply Permutation_nil_r in Eo|].
  by destruct Hx as [->|[[_ (text & _ & ->)]|[_ [_ (io & -> & _)]]]].
Qed.

Lemma demo_readable : readable demo_world.
Proof.
  intros path contents. unfold read_file. cbn [open_file demo_world].
  case_decide; [intros [= <-]; split; [by_decide|by subst]|].
  case_decide; [intros [= <-]; split; [by_decide|intros _; vm_compute; reflexivity]|].
  case_decide; [intros [= <-]; split; [by_decide|by subst]|done].
Qed.

Lemma invocations_are_safe_witness : exists r,
  main demo_world [str "bytevm"; str "debug"; str "p.asm"] blank = Some r /\ is_u8 r.2 /\
  exists x h, @main_mem (granting (fun n => Nat.ltb n 9)) demo_world [str "bytevm"; str "debug"; str "p.asm"] blank heap_empty =
    Some (Ok x, h) /\ allocated h = [] /\ is_u8 x.2.
Proof. apply (invocations_are_safe (granting (fun n => Nat.ltb n 9)) demo_world). apply demo_readable. Defined.
