(* ===== verification/Golden.v ===== *)
(** The repository's own end-to-end tests: the programs of [examples/] run through
    [main] to the output and the exit status recorded in [tests/golden/], and
    assemble and disassemble to the files [hello.bvm] and [hello.dis.asm] checked in
    at the root. They test the definitions against the program's recorded behaviour. *)

From S2P Require Import Prelude Common CLib Memory Cpu Instruction Vm Loader Symtab Lexer Parser.
From S2P Require Import Assembler Disassembler Debugger VmDemo Main.
Open Scope Z_scope.

(** [examples/hello.asm]. *)
Definition hello_asm : list Z :=
  str "; hello.asm -- prints " ++ [34] ++ str "Hello!\n" ++ [34] ++ str " one character at a time." ++ nl ++
  str "; Demonstrates: .data, .string, label references, [Rn] indirect" ++ nl ++
  str "; addressing, a conditional-jump loop, and SYS PRINT_CHAR." ++ nl ++
  nl ++
  str "    MOV R1, message         ; R1 = pointer into the string" ++ nl ++
  str "loop:" ++ nl ++
  str "    LOAD R0, [R1]           ; R0 = the 16-bit word at R1..." ++ nl ++
  str "    AND R0, 0x00FF          ; ...keep only the low byte (one character)" ++ nl ++
  str "    JZ done                 ; a NUL byte ends the string" ++ nl ++
  str "    SYS PRINT_CHAR" ++ nl ++
  str "    ADD R1, 1               ; advance one byte" ++ nl ++
  str "    JMP loop" ++ nl ++
  str "done:" ++ nl ++
  str "    HALT" ++ nl ++
  nl ++
  str ".data" ++ nl ++
  str "message:" ++ nl ++
  str "    .string " ++ [34] ++ str "Hello!\n" ++ [34] ++ nl.

(** [examples/sum.asm]. *)
Definition sum_asm : list Z :=
  str "; sum.asm -- sums an array stored in the data section and prints the" ++ nl ++
  str "; total (expects 150). This is the program that was impossible to write" ++ nl ++
  str "; before REG_INDIRECT addressing was wired up to LOAD/STORE (see" ++ nl ++
  str "; DESIGN.md section 0, revision 0.1 -> 0.2, item 4): indexing an array" ++ nl ++
  str "; needs a runtime-computed address, not a compile-time literal." ++ nl ++
  nl ++
  str "    MOV R0, 0               ; running total" ++ nl ++
  str "    MOV R1, numbers         ; R1 = pointer to the current element" ++ nl ++
  str "    MOV R2, 5               ; R2 = elements remaining" ++ nl ++
  str "sum_loop:" ++ nl ++
  str "    LOAD R3, [R1]           ; R3 = *R1  -- the indirect load" ++ nl ++
  str "    ADD R0, R3" ++ nl ++
  str "    ADD R1, 2               ; advance one 16-bit word" ++ nl ++
  str "    SUB R2, 1" ++ nl ++
  str "    JNZ sum_loop" ++ nl ++
  nl ++
  str "    SYS PRINT_INT" ++ nl ++
  str "    MOV R0, 10              ; '\n'" ++ nl ++
  str "    SYS PRINT_CHAR" ++ nl ++
  str "    MOV R0, 0               ; exit code 0 (DESIGN.md section 8.7)" ++ nl ++
  str "    HALT" ++ nl ++
  nl ++
  str ".data" ++ nl ++
  str "numbers:" ++ nl ++
  str "    .word 10" ++ nl ++
  str "    .word 20" ++ nl ++
  str "    .word 30" ++ nl ++
  str "    .word 40" ++ nl ++
  str "    .word 50" ++ nl.

(** [examples/factorial.asm]. *)
Definition factorial_asm : list Z :=
  str "; factorial.asm -- computes 5! iteratively and prints it (expects 120)." ++ nl ++
  str "; Demonstrates: CALL/RET, the R0-R3 calling convention (DESIGN.md" ++ nl ++
  str "; section 8.6), PUSH/POP to preserve a register across a call, and" ++ nl ++
  str "; SYS PRINT_INT." ++ nl ++
  nl ++
  str "    MOV R0, 5               ; argument: n = 5" ++ nl ++
  str "    CALL factorial          ; returns n! in R0" ++ nl ++
  str "    SYS PRINT_INT" ++ nl ++
  str "    MOV R0, 10              ; '\n'" ++ nl ++
  str "    SYS PRINT_CHAR" ++ nl ++
  str "    MOV R0, 0               ; exit code 0 (DESIGN.md section 8.7)" ++ nl ++
  str "    HALT" ++ nl ++
  nl ++
  str "; factorial(n in R0) -> n! in R0" ++ nl ++
  str "; Clobbers R1/R2 freely (caller-saved), but preserves R3 by pushing it," ++ nl ++
  str "; to show the " ++ [34] ++ str "callers must PUSH what they need" ++ [34] ++ str " convention from the" ++ nl ++
  str "; callee side too." ++ nl ++
  str "factorial:" ++ nl ++
  str "    PUSH R3" ++ nl ++
  str "    MOV R1, R0              ; R1 = counter, counting down" ++ nl ++
  str "    MOV R0, 1               ; R0 = accumulator" ++ nl ++
  str "fact_loop:" ++ nl ++
  str "    CMP R1, 0" ++ nl ++
  str "    JZ fact_done" ++ nl ++
  str "    MUL R0, R1" ++ nl ++
  str "    SUB R1, 1" ++ nl ++
  str "    JMP fact_loop" ++ nl ++
  str "fact_done:" ++ nl ++
  str "    POP R3" ++ nl ++
  str "    RET" ++ nl.

(** [examples/sort.asm]. *)
Definition sort_asm : list Z :=
  str "; sort.asm -- bubble sort, in place, on a 6-element array, then prints" ++ nl ++
  str "; it sorted. Expects: 1 2 3 5 8 9" ++ nl ++
  str ";" ++ nl ++
  str "; This closes a loop that started at the very first design review: the" ++ nl ++
  str "; original scaffold's sort.asm was an empty placeholder because" ++ nl ++
  str "; REG_INDIRECT addressing wasn't wired up to LOAD/STORE yet (DESIGN.md" ++ nl ++
  str "; section 0, revision 0.1 -> 0.2, item 4) -- there was no way to index" ++ nl ++
  str "; into an array at all. It works now." ++ nl ++
  nl ++
  str "outer:" ++ nl ++
  str "    MOV R6, 0                ; swapped = false, this pass" ++ nl ++
  str "    MOV R1, numbers          ; R1 = &numbers[0]" ++ nl ++
  str "    MOV R2, 5                ; 5 adjacent pairs to compare (6 elements)" ++ nl ++
  nl ++
  str "inner:" ++ nl ++
  str "    LOAD R3, [R1]            ; R3 = numbers[i]" ++ nl ++
  str "    ADD R1, 2                ; R1 = &numbers[i+1]" ++ nl ++
  str "    LOAD R4, [R1]            ; R4 = numbers[i+1]" ++ nl ++
  nl ++
  str "    CMP R3, R4" ++ nl ++
  str "    JLE no_swap               ; already in order -- nothing to do" ++ nl ++
  nl ++
  str "    STORE [R1], R3            ; numbers[i+1] = R3" ++ nl ++
  str "    SUB R1, 2" ++ nl ++
  str "    STORE [R1], R4            ; numbers[i]   = R4" ++ nl ++
  str "    ADD R1, 2" ++ nl ++
  str "    MOV R6, 1                 ; a swap happened this pass" ++ nl ++
  nl ++
  str "no_swap:" ++ nl ++
  str "    SUB R2, 1" ++ nl ++
  str "    JNZ inner" ++ nl ++
  nl ++
  str "    CMP R6, 0" ++ nl ++
  str "    JNZ outer                  ; keep passing while swaps still happen" ++ nl ++
  nl ++
  str "    ; print the sorted array, space-separated" ++ nl ++
  str "    MOV R1, numbers" ++ nl ++
  str "    MOV R2, 6" ++ nl ++
  str "print_loop:" ++ nl ++
  str "    LOAD R0, [R1]" ++ nl ++
  str "    SYS PRINT_INT" ++ nl ++
  str "    MOV R0, 32                 ; ' '" ++ nl ++
  str "    SYS PRINT_CHAR" ++ nl ++
  str "    ADD R1, 2" ++ nl ++
  str "    SUB R2, 1" ++ nl ++
  str "    JNZ print_loop" ++ nl ++
  nl ++
  str "    MOV R0, 10                 ; '\n'" ++ nl ++
  str "    SYS PRINT_CHAR" ++ nl ++
  str "    MOV R0, 0" ++ nl ++
  str "    HALT" ++ nl ++
  nl ++
  str ".data" ++ nl ++
  str "numbers:" ++ nl ++
  str "    .word 5" ++ nl ++
  str "    .word 3" ++ nl ++
  str "    .word 8" ++ nl ++
  str "    .word 1" ++ nl ++
  str "    .word 9" ++ nl ++
  str "    .word 2" ++ nl.

(** [hello.bvm]. *)
Definition hello_bvm : list Z :=
  [66; 86; 77; 49; 1; 0; 0; 0; 32; 0; 0; 0; 8; 0; 32; 0; 1; 18; 1; 32; 0; 13; 20; 0; 1; 7;
   18; 0; 255; 0; 19; 48; 30; 0; 31; 80; 2; 2; 18; 1; 1; 0; 18; 48; 5; 0; 255; 0; 72; 101;
   108; 108; 111; 33; 10; 0].

(** [hello.dis.asm]. *)
Definition hello_dis_asm : list Z :=
  str "; disassembled from a .bvm image" ++ nl ++
  str "; code: 32 bytes at 0x0000, data: 8 bytes at 0x0020" ++ nl ++
  nl ++
  str "    MOV R1, 32" ++ nl ++
  str "    LOAD R0, [R1]" ++ nl ++
  str "    AND R0, 255" ++ nl ++
  str "    JZ 0x001E" ++ nl ++
  str "    SYS PRINT_CHAR" ++ nl ++
  str "    ADD R1, 1" ++ nl ++
  str "    JMP 0x0005" ++ nl ++
  str "    HALT" ++ nl ++
  nl ++
  str ".data" ++ nl ++
  str "    .byte 0x48" ++ nl ++
  str "    .byte 0x65" ++ nl ++
  str "    .byte 0x6C" ++ nl ++
  str "    .byte 0x6C" ++ nl ++
  str "    .byte 0x6F" ++ nl ++
  str "    .byte 0x21" ++ nl ++
  str "    .byte 0x0A" ++ nl ++
  str "    .byte 0x00" ++ nl.

(** The directory of the examples. *)
Definition example_files : list (list Z * list Z) :=
  [(str "hello.asm", hello_asm); (str "sum.asm", sum_asm);
   (str "factorial.asm", factorial_asm); (str "sort.asm", sort_asm); (str "hello.bvm", hello_bvm);
   (str "hello.dis.asm", hello_dis_asm)].

Definition example_world : World :=
  mkWorld (fun path =>
             match find (fun f => bool_decide (f.1 = path)) example_files with
             | Some f => File_bytes f.2
             | None => File_missing
             end)
    (fun _ => Some 65536) (fun _ => 65536) quiet [] [].

(** What a command prints, complains, writes and returns. *)
Definition shell (args : list String.string) : option (list Z * list Z * list (list Z * list Z) * Z) :=
  '(w, status) ← main example_world (map str ("bytevm" :: args)) blank;
  Some (stdout (wio w), wstderr w, written w, status).

Example golden_hello :
  shell ["run"; "hello.asm"] = Some (str "Hello!" ++ nl, [], [], 0).
Proof. vm_compute. reflexivity. Qed.

Example golden_sum :
  shell ["run"; "sum.asm"] = Some (str "150" ++ nl, [], [], 0).
Proof. vm_compute. reflexivity. Qed.

Example golden_factorial :
  shell ["run"; "factorial.asm"] = Some (str "120" ++ nl, [], [], 0).
Proof. vm_compute. reflexivity. Qed.

Example golden_sort :
  shell ["run"; "sort.asm"] = Some (str "1 2 3 5 8 9 " ++ nl, [], [], 0).
Proof. vm_compute. reflexivity. Qed.

Example golden_hello_image :
  shell ["asm"; "hello.asm"; "hello.bvm"] =
    Some (str "wrote hello.bvm (56 bytes)" ++ nl, [], [(str "hello.bvm", hello_bvm)], 0).
Proof. vm_compute. reflexivity. Qed.

Example golden_hello_text : shell ["dis"; "hello.bvm"] = Some (hello_dis_asm, [], [], 0).
Proof. vm_compute. reflexivity. Qed.

(** [hello2.bvm] in the repository is [hello.bvm] again. *)
Example golden_hello_round_trip :
  shell ["asm"; "hello.dis.asm"; "hello2.bvm"] =
    Some (str "wrote hello2.bvm (56 bytes)" ++ nl, [], [(str "hello2.bvm", hello_bvm)], 0).
Proof. vm_compute. reflexivity. Qed.

Example golden_hello_run_image : shell ["run"; "hello.bvm"] = shell ["run"; "hello.asm"].
Proof. vm_compute. reflexivity. Qed.
