(* ===== verification/LangRules.v ===== *)
(** Rules for verifying assembly programs on the semantics of [LangSem]: runs with a
    postcondition, their composition, one instruction read off its address, and words in
    memory. *)

From S2P Require Import Prelude Common CLib Memory Instruction Vm Isa Symtab Lexer Parser Syntax LangSem.
Open Scope Z_scope.

Section rules.
Context (L : Layout).
Implicit Types (Q P : Arch -> Stdio -> Prop).

(** After [k] instructions the program goes on, in a state that satisfies [Q]. *)
Definition leads (k : nat) (a : Arch) (io : Stdio) (Q : Arch -> Stdio -> Prop) : Prop :=
  exists a' io', lang_run L k a io = Some (a', io', Going) /\ Q a' io'.

(** The same after some number of them, [b] at most. *)
Definition within (b : nat) (a : Arch) (io : Stdio) (Q : Arch -> Stdio -> Prop) : Prop :=
  exists k, (k <= b)%nat /\ leads k a io Q.

Lemma lang_run_next n a io a' io' : lang_step L a io = Some (a', io', Next) ->
  lang_run L (S n) a io = lang_run L n a' io'.
Proof. intros E. cbn [lang_run]. by rewrite E. Qed.

Lemma lang_run_add k n a io a' io' : lang_run L k a io = Some (a', io', Going) ->
  lang_run L (k + n) a io = lang_run L n a' io'.
Proof.
  revert a io. induction k as [|k IH]; intros a io E; [by simplify_eq/=|]. cbn [lang_run Nat.add] in *.
  destruct (lang_step L a io) as [[[a1 io1] o]|]; [|done]. cbn [mbind option_bind] in *.
  destruct o; [by apply IH|done|done].
Qed.

Lemma leads_0 a io Q : Q a io -> leads 0 a io Q.
Proof. intros H. by exists a, io. Qed.

Lemma leads_S k a io a' io' Q : lang_step L a io = Some (a', io', Next) -> leads k a' io' Q ->
  leads (S k) a io Q.
Proof. intros E (a2 & io2 & R & H). exists a2, io2. by rewrite (lang_run_next _ _ _ _ _ E). Qed.

Lemma leads_bind k n a io P Q : leads k a io P -> (forall a' io', P a' io' -> leads n a' io' Q) ->
  leads (k + n) a io Q.
Proof.
  intros (a1 & io1 & R & H) Hn. destruct (Hn _ _ H) as (a2 & io2 & R2 & H2). exists a2, io2.
  by rewrite (lang_run_add _ _ _ _ _ _ R).
Qed.

Lemma within_0 b a io Q : Q a io -> within b a io Q.
Proof. intros H. exists 0%nat. split; [lia|by apply leads_0]. Qed.

Lemma within_S b a io a' io' Q : lang_step L a io = Some (a', io', Next) -> within b a' io' Q ->
  within (S b) a io Q.
Proof. intros E (k & Hk & R). exists (S k). split; [lia|by eapply leads_S]. Qed.

Lemma within_bind b c d a io P Q : within b a io P -> (forall a' io', P a' io' -> within c a' io' Q) ->
  (b + c <= d)%nat -> within d a io Q.
Proof.
  intros (k & Hk & a1 & io1 & R & H) Hn Hd. destruct (Hn _ _ H) as (n & Hc & R2). exists (k + n)%nat.
  split; [lia|]. apply (leads_bind _ _ _ _ (fun a io => a = a1 /\ io = io1)); [by exists a1, io1|].
  by intros ? ? [-> ->].
Qed.

Lemma within_weaken b c a io Q : (b <= c)%nat -> within b a io Q -> within c a io Q.
Proof. intros Hb (k & Hk & R). exists k. split; [lia|done]. Qed.

Lemma within_post b a io P Q : (forall a' io', P a' io' -> Q a' io') -> within b a io P -> within b a io Q.
Proof. intros H (k & Hk & a' & io' & R & HP). exists k. split; [done|]. exists a', io'. auto. Qed.

(** The program stops after [b] instructions at most, in a state that satisfies [Q]. *)
Definition stops_within (b : nat) (a : Arch) (io : Stdio) (Q : Arch -> Stdio -> Prop) : Prop :=
  exists k a' io', (k <= b)%nat /\ lang_run L k a io = Some (a', io', Stopped) /\ Q a' io'.

Lemma within_stop b a io Q :
  within b a io (fun a1 io1 => exists a' io', lang_step L a1 io1 = Some (a', io', Stop) /\ Q a' io') ->
  stops_within (S b) a io Q.
Proof.
  intros (k & Hk & a1 & io1 & R & a' & io' & E & H). exists (k + 1)%nat, a', io'. split; [lia|].
  rewrite (lang_run_add _ _ _ _ _ _ R). cbn [lang_run]. by rewrite E.
Qed.

(** The instruction at an address. *)
Lemma lang_step_at g p q s f m io i r : instr_from L p = Some i ->
  (p + zlen (instr_bytes i)) mod 65536 = q -> stores_code L (mkArch g p s f m) i = false ->
  isa_exec (program_end L) (mkArch g q s f m) io i = r -> lang_step L (mkArch g p s f m) io = Some r.
Proof. intros E <- Hs <-. unfold lang_step. cbn [apc]. rewrite E. cbn [mbind option_bind]. by rewrite Hs. Qed.
End rules.

(** ** Registers *)

Lemma upd_same f i v : upd f i v i = v.
Proof. unfold upd. by rewrite Z.eqb_refl. Qed.

Lemma upd_other f i j v : j <> i -> upd f i v j = f j.
Proof. intros H. unfold upd. by rewrite (proj2 (Z.eqb_neq _ _) H). Qed.

Ltac simpl_upd := repeat first [rewrite upd_same|rewrite upd_other by lia].

Lemma put_put io s t : put (put io s) t = put io (s ++ t).
Proof. unfold put. cbn [stdin stdout]. by rewrite app_assoc. Qed.

(** ** Words in memory *)

Lemma word_at_store m x v : 0 <= x < 65536 -> word_at (store_word m x v) x = v.
Proof.
  intros Hx. unfold word_at, store_word. rewrite Z.eqb_refl.
  assert (((x + 1) mod 65536 =? x) = false) as -> by (apply Z.eqb_neq; mlia). rewrite Z.eqb_refl.
  pose proof (Z.div_mod v 256). lia.
Qed.

(** A word that does not overlap the one that is stored. *)
Lemma word_at_other m x y v : 0 <= x <= 0xFFFE -> 0 <= y <= 0xFFFE -> x + 2 <= y \/ y + 2 <= x ->
  word_at (store_word m x v) y = word_at m y.
Proof.
  intros Hx Hy Hne. unfold word_at, store_word. rewrite !(Z.mod_small (_ + 1)) by lia.
  by repeat (rewrite (proj2 (Z.eqb_neq _ _)) by lia).
Qed.

(** The words [vs] in consecutive places from [x] on. *)
Definition words_at (m : Z -> Z) (x : Z) (vs : list Z) : Prop :=
  forall i v, vs !! i = Some v -> word_at m (x + 2 * Z.of_nat i) = v.

Lemma words_at_middle m x pre v vs : words_at m x (pre ++ v :: vs) -> word_at m (x + 2 * zlen pre) = v.
Proof. intros H. apply (H (length pre)). by rewrite list_lookup_middle. Qed.

Lemma words_at_store m x pre v w vs : words_at m x (pre ++ v :: vs) -> 0 <= x ->
  x + 2 * zlen (pre ++ v :: vs) <= 65536 ->
  words_at (store_word m (x + 2 * zlen pre) w) x (pre ++ w :: vs).
Proof.
  intros H Hx Hend i u E. rewrite length_app in Hend. cbn [length] in Hend.
  destruct (decide (i = length pre)) as [->|Hne].
  - rewrite list_lookup_middle in E by done. simplify_eq. apply word_at_store. lia.
  - assert (i < length (pre ++ w :: vs))%nat as Hi by (by apply lookup_lt_Some in E).
    rewrite length_app in Hi. cbn [length] in Hi. rewrite word_at_other by lia. apply H.
    rewrite <- E. rewrite !lookup_app. repeat case_match; try done.
    destruct (i - length pre)%nat eqn:Ei; [|done]. apply lookup_ge_None in H0. lia.
Qed.

(** ** Symbolic execution

    One instruction of a program, read off its address; [limit] is the equation of
    [program_end], [tac] decides the tests of the instruction. *)

Ltac isa_simpl :=
  cbn [isa_exec isa_sys opcode op1 op2 mode value src_val mem_addr alu taken gpr apc asp afl ram with_gpr with_pc
       with_flags with_sp with_ram fZ negb].

Ltac exec_with safe limit tac :=
  first [eapply leads_S|eapply within_S];
  [eapply lang_step_at;
     [vm_compute; reflexivity|vm_compute; reflexivity|safe|rewrite limit; isa_simpl; tac; reflexivity]|];
  isa_simpl; unfold with_gpr, with_pc, with_sp, with_ram, with_flags; isa_simpl.

Ltac exec_instr limit tac := exec_with ltac:(reflexivity) limit tac.

(** A STORE to an address that is not code by [free]. *)
Ltac exec_store limit free := exec_with ltac:(cbn [stores_code opcode op1 mode value mem_addr gpr]; free) limit idtac.
