(* ===== verification/FactorialExample.v ===== *)
(** A program of [examples/] verified: the subroutine of [factorial.asm] computes the
    factorial of every argument, modulo 2^16.

    The proof runs the items of the source symbolically with [LangSem]; that the machine
    does the same with the assembled image is [LangFacts.lang_run_cycles]. *)

From S2P Require Import Prelude Common CLib Memory Cpu Instruction Vm VmFacts Isa VmRefine VmStep VmStack Loader.
From S2P Require Import VmDemo Symtab Lexer Parser Assembler Syntax ParseFacts Reader AsmSpec AsmProps LangSem.
From S2P Require Import LangFacts LangProps LangRules Golden.
From Stdlib Require Import Factorial.
Open Scope Z_scope.

Definition factorial_program : Layout * list Z :=
  default (ly_start, []) (find_program factorial_asm).

Definition factorial_layout : Layout := factorial_program.1.
Definition factorial_image : list Z := factorial_program.2.

Lemma factorial_is_program : is_program factorial_asm factorial_layout factorial_image.
Proof. apply find_program_spec. vm_compute. reflexivity. Qed.

Lemma factorial_bytes : is_byte_list factorial_asm.
Proof. by_decide. Qed.

Lemma factorial_end : program_end factorial_layout = 66.
Proof. vm_compute. reflexivity. Qed.

Ltac exec tac := exec_instr factorial_end tac.

(** The address of the label [factorial]. *)
Definition factorial_entry : Z := default 0 (ly_labels factorial_layout !! str "factorial").

(** ** The subroutine *)

Section factorial.
Context (io : Stdio).

(** The loop at [fact_loop] multiplies R0 by the factorial of R1. *)
Lemma factorial_loop k g s f m : g 1 = Z.of_nat k -> Z.of_nat k < 65536 ->
  leads factorial_layout (5 * k + 2) (mkArch g 39 s f m) io (fun a' io' =>
    exists g' f', a' = mkArch g' 61 s f' m /\ io' = io /\
      g' 0 mod 65536 = (g 0 * Z.of_nat (fact k)) mod 65536 /\ (is_u16 (g 0) -> is_u16 (g' 0)) /\
      forall i, i <> 0 -> i <> 1 -> g' i = g i).
Proof.
  revert g f. induction k as [|k IH]; intros g f Hk Hlt.
  - change (5 * 0 + 2)%nat with 2%nat. exec idtac. exec ltac:(rewrite Hk). apply leads_0.
    do 2 eexists. split_and!; [reflexivity..| | |]; try done. by rewrite Z.mul_1_r.
  - replace (5 * S k + 2)%nat with (S (S (S (S (S (5 * k + 2)))))) by lia.
    assert (((g 1 - 0) mod 65536 =? 0) = false) as Hz by (rewrite Hk, Z.mod_small by lia; apply Z.eqb_neq; lia).
    exec idtac. exec ltac:(rewrite Hz). do 3 exec idtac.
    match goal with |- leads _ _ (mkArch ?g1 39 _ ?f1 _) _ _ =>
      destruct (IH g1 f1) as (a' & io' & E & g' & f' & -> & -> & H0 & Hu & Hi) end; [|lia|].
    { simpl_upd. rewrite Hk, Z.mod_small; lia. }
    do 2 eexists. split; [exact E|]. exists g', f'. rewrite H0. simpl_upd. split_and!; [done..| | |].
    + rewrite Z.mul_mod_idemp_l, Hk by done. f_equal. change (fact (S k)) with (fact k + k * fact k)%nat. nia.
    + intros _. apply Hu. simpl_upd. unfold is_u16. mlia.
    + intros i Hi0 Hi1. rewrite Hi by done. unfold upd. by rewrite !(proj2 (Z.eqb_neq _ _)) by done.
Qed.

(** Called at [factorial] with room for one word, the subroutine returns. *)
Lemma factorial_runs n g s f m : g 0 = Z.of_nat n -> Z.of_nat n < 65536 -> 68 <= s <= 0xFFFC ->
  leads factorial_layout (5 * n + 7) (mkArch g 27 s f m) io (fun a' io' =>
    exists g' f' m', a' = mkArch g' (word_at m (s + 2)) (s + 2) f' m' /\ io' = io /\
      g' 0 = Z.of_nat (fact n) mod 65536 /\ (forall i, 2 <= i -> g' i = g i) /\
      forall x, x <> s -> x <> s + 1 -> m' x = m x).
Proof.
  intros Hn Hlt Hs. replace (5 * n + 7)%nat with (S (S (S (5 * n + 2 + 2)))) by lia.
  assert ((s - 2 <? 66) = false /\ (s - 2 =? 0xFFFE) = false /\ (s =? 0xFFFE) = false) as (Hroom & Ht1 & Ht2) by lia.
  assert ((s - 2 + 2) mod 65536 = s /\ (s + 2) mod 65536 = s + 2) as [Hs1 Hs2] by mlia.
  exec ltac:(unfold isa_push; cbn [asp]; rewrite Hroom). do 2 exec idtac.
  eapply leads_bind; [apply (factorial_loop n); [by simpl_upd|done]|].
  intros a' io' (g' & f' & -> & -> & H0 & Hu & Hi).
  exec ltac:(rewrite Ht1, Hs1, word_at_store by lia). exec ltac:(rewrite Ht2, Hs2, word_at_other by lia).
  apply leads_0. do 3 eexists. split_and!; [reflexivity|done| | |].
  - rewrite upd_other by lia. revert H0. rewrite upd_same, Z.mul_1_l. intros <-. symmetry. apply Z.mod_small, Hu.
    rewrite upd_same. by split.
  - intros i H. destruct (decide (i = 3)) as [->|]; simpl_upd; [done|]. rewrite Hi by lia. by simpl_upd.
  - intros x Hx1 Hx2. unfold store_word. by rewrite !(proj2 (Z.eqb_neq _ _)) by mlia.
Qed.
End factorial.

(** ** The machine *)

(** C27: The subroutine of [examples/factorial.asm] computes the factorial, for every
    argument, on the machine that runs the assembled program. Called with n in R0, a
    return address on the stack, and room for one more word, it returns to that address
    after 5n+7 instructions with n! modulo 2^16 in R0; R2 to R7, and the memory but for
    the word it pushes, are as they were, the return address is off the stack, and nothing
    is read or written. *)
Theorem factorial_subroutine vm io n : on_program factorial_layout vm -> pc (cpu vm) = factorial_entry ->
  reg vm 0 = Z.of_nat n -> 68 <= sp (cpu vm) <= 0xFFFC ->
  exists vm', vm_steps (5 * n + 7) vm io = Some (vm', io) /\ on_program factorial_layout vm' /\
    pc (cpu vm') = mem_read16 (memory vm) (sp (cpu vm) + 2) /\ sp (cpu vm') = sp (cpu vm) + 2 /\
    reg vm' 0 = Z.of_nat (fact n) mod 65536 /\ (forall i, 2 <= i <= 7 -> reg vm' i = reg vm i) /\
    forall x, x <> sp (cpu vm) -> x <> sp (cpu vm) + 1 -> mem_read8 (memory vm') x = mem_read8 (memory vm) x.
Proof.
  intros Hon Hpc Hn Hs. pose proof (op_wf _ _ Hon) as Hwf. change factorial_entry with 27 in Hpc.
  assert (Z.of_nat n < 65536) as Hlt by (rewrite <- Hn; apply reg_u16, Hwf).
  destruct (factorial_runs io n (reg vm) (sp (cpu vm)) (flags_of (cpu vm)) (mem_read8 (memory vm)) Hn Hlt Hs)
    as (a' & io' & E & g' & f' & m' & -> & -> & H0 & Hi & Hm).
  assert (abs vm ≡ mkArch (reg vm) 27 (sp (cpu vm)) (flags_of (cpu vm)) (mem_read8 (memory vm))) as Ha
    by (unfold abs; rewrite Hpc; reflexivity).
  destruct (on_program_runs factorial_asm factorial_layout factorial_image factorial_bytes factorial_is_program
    (5 * n + 7) vm _ io _ _ _ Hon Ha E) as (vm' & Es & _ & (Hg & Hp' & Hs' & _ & Hm') & _ & Hon').
  cbn [abs gpr apc asp ram] in *. exists vm'. split_and!; [exact Es|exact (Hon' eq_refl)| |exact Hs'| | |].
  - rewrite Hp'. apply (word_at_abs vm Hwf).
  - by rewrite Hg, H0.
  - intros i H. rewrite Hg by lia. apply Hi. lia.
  - intros x H1 H2. rewrite Hm'. by apply Hm.
Qed.

(** The program itself calls it with 5, and is back behind the call with 120. *)
Definition factorial_called : VM :=
  default blank (fst <$> vm_steps 2 (vm_load blank factorial_image).1 quiet).

Lemma factorial_called_runs : on_program factorial_layout factorial_called.
Proof.
  unfold factorial_called. generalize blank. intros vm.
  destruct (on_program_loaded factorial_asm factorial_layout factorial_image factorial_bytes factorial_is_program vm)
    as [Hon Ha].
  assert (snd <$> lang_run factorial_layout 2 (program_start factorial_layout) quiet = Some Going) as E
    by (vm_compute; reflexivity).
  destruct (lang_run factorial_layout 2 (program_start factorial_layout) quiet) as [[[a io] e]|] eqn:El; [|done].
  cbn in E. injection E as ->.
  destruct (on_program_runs factorial_asm factorial_layout factorial_image factorial_bytes factorial_is_program
    2 _ _ quiet a io Going Hon Ha El) as (vm' & Es & _ & _ & _ & Hon').
  rewrite Es. exact (Hon' eq_refl).
Qed.

Lemma factorial_subroutine_witness : exists vm', vm_steps 32 factorial_called quiet = Some (vm', quiet) /\
  pc (cpu vm') = 9 /\ reg vm' 0 = 120.
Proof.
  destruct (factorial_subroutine factorial_called quiet 5 factorial_called_runs) as (vm' & E & _ & Hp & _ & H0 & _);
    [vm_compute; reflexivity|vm_compute; reflexivity|by vm_compute|].
  exists vm'. split; [exact E|]. split; [rewrite Hp; vm_compute; reflexivity|rewrite H0; vm_compute; reflexivity].
Defined.
