(* ===== verification/DbgLang.v ===== *)
(** Debugging an assembly program: what [continue] does and shows, said of the source. *)

From S2P Require Import Prelude Machine Common CLib Memory Cpu Instruction Vm VmFacts Isa VmRefine VmStep Loader.
From S2P Require Import VmDemo Symtab Lexer Parser Assembler Syntax AsmProps Disassembler DisFacts Debugger DbgFacts.
From S2P Require Import LangSem LangFacts LangProps LangRules Golden FactorialExample.
Open Scope Z_scope.

(** What is said where the program has been stopped: how it ended, or that it is at a
    breakpoint or, when [limited], that it has not ended within the step limit; and the
    address it is at with the instruction that the source has there. *)
Definition stop_says (L : Layout) (limited : bool) (a : Arch) (e : Ending) (text : list Z) : Prop :=
  match e with
  | Stopped => text = str "halted" ++ nl
  | Faulted err p => text = str "halted: " ++ vm_result_str err ++ str " at PC=0x" ++ fmt_04X p ++ nl
  | Going => forall i, instr_from L (apc a) = Some i ->
      text = (if limited then
                str "step limit (" ++ fmt_d CONTINUE_STEP_LIMIT ++ str ") reached without halting" ++ nl
              else str "breakpoint at 0x" ++ fmt_04X (apc a) ++ nl) ++
             str "PC=0x" ++ fmt_04X (apc a) ++ str ": " ++ instr_text i ++ nl
  end.

(** A run has a result after fewer instructions, too. *)
Lemma lang_run_prefix L k n a io r : lang_run L n a io = Some r -> (k <= n)%nat -> is_Some (lang_run L k a io).
Proof.
  revert n a io. induction k as [|k IH]; intros [|n] a io E Hk; try lia; [by eexists..|].
  cbn [lang_run] in *. destruct (lang_step L a io) as [[[a1 io1] o]|]; [|done]. cbn [mbind option_bind] in *.
  destruct o; [|by eexists..]. apply (IH n a1 io1 E). lia.
Qed.

Lemma instruction_text_at vm i : vm_wf vm -> at_instr vm i ->
  exists next, instruction_text (memory vm) (pc (cpu vm)) = Some (instr_text i, next).
Proof.
  intros Hwf [Hleg Hbytes]. pose proof (cpu_wf_pc _ (wf_cpu _ Hwf)) as Hpc. unfold instruction_text.
  destruct (disassemble_one_spec (memory vm) (pc (cpu vm)) 128 (wf_mem _ Hwf) Hpc) as (t & nx & b & -> & _ & Ht).
  rewrite (decode_complete _ (wf_mem _ Hwf) _ i Hpc Hleg Hbytes) in Ht. destruct Ht as (-> & _ & _).
  exists nx. pose proof (instr_text_length i Hleg). unfold clip. by rewrite take_ge by (simpl; lia).
Qed.

Section program.
Context (source : list Z) (L : Layout) (image : list Z) (Hb : is_byte_list source)
  (Hprog : is_program source L image).

Lemma continue_says limited vm a e : vm_wf vm -> abs vm ≡ a -> ends_as vm e -> (e = Going -> on_program L vm) ->
  stop_says L limited a e (continue_text limited vm).
Proof.
  intros Hwf (_ & Hpc & _) He Hon. unfold continue_text, stop_text. destruct e as [| |err p]; cbn [ends_as stop_says] in *.
  - destruct He as [-> _]. cbn [abs apc] in Hpc. rewrite <- Hpc. intros i Ei.
    destruct (instruction_text_at vm i Hwf (on_program_at source L image Hb Hprog vm i (Hon eq_refl) Ei)) as [nx ->].
    done.
  - destruct He as [-> ->]. by rewrite bool_decide_true.
  - destruct He as (-> & Hne & -> & ->). by rewrite bool_decide_false.
Qed.

Lemma continue_source dbg a io n a' io' e : on_program L (dvm dbg) -> abs (dvm dbg) ≡ a ->
  lang_run L n a io = Some (a', io', e) -> (1 <= n)%nat -> Z.of_nat n <= CONTINUE_STEP_LIMIT ->
  (forall k b i f, (1 <= k < n)%nat -> lang_run L k a io = Some (b, i, f) -> f = Going /\ apc b ∉ bp_set dbg) ->
  e <> Going \/ apc a' ∈ bp_set dbg \/ Z.of_nat n = CONTINUE_STEP_LIMIT ->
  exists vm' text, cmd_continue dbg io = Some (set_dvm dbg vm', say io' text) /\ abs vm' ≡ a' /\
    ends_as vm' e /\ stop_says L (Z.of_nat n =? CONTINUE_STEP_LIMIT) a' e text /\ (e = Going -> on_program L vm').
Proof.
  intros Hon Ha E Hn Hlim Hway He. pose proof (op_wf _ _ Hon) as Hwf. pose proof (op_running _ _ Hon) as Hrun.
  destruct (on_program_runs source L image Hb Hprog n _ _ io _ _ _ Hon Ha E) as (v1 & E1 & Hw1 & Ha1 & He1 & Hon1).
  destruct (cmd_continue_spec dbg io Hwf Hrun)
    as (m & vm' & io2 & text & Hm & Hml & E2 & Ec & Hw & Hbefore & Hstop & Htext).
  assert (m = n) as ->.
  { destruct (lt_eq_lt_dec m n) as [[Hlt| ->]|Hlt]; [|done|].
    - destruct (lang_run_prefix L m n a io _ E ltac:(lia)) as [[[b i] f] Eb].
      destruct (Hway m b i f ltac:(lia) Eb) as [-> Hbp].
      destruct (on_program_runs source L image Hb Hprog m _ _ io _ _ _ Hon Ha Eb) as (v & Ev & _ & (_ & Hp & _) & [Hh _] & _).
      rewrite E2 in Ev. injection Ev as -> ->. rewrite Hh in Hstop. cbn [abs apc] in Hp.
      rewrite has_breakpoint_set, bool_decide_eq_true, Hp in Hstop. destruct Hstop as [?|[?|?]]; [done|done|lia].
    - destruct (Hbefore n v1 io' ltac:(lia) E1) as [Hh Hbp].
      rewrite has_breakpoint_set, bool_decide_eq_false in Hbp. destruct Ha1 as (_ & Hp & _). cbn [abs apc] in Hp.
      destruct e; cbn [ends_as] in He1; [|destruct He1; congruence..].
      destruct He as [He|[He|He]]; [done|by rewrite Hp in Hbp|lia]. }
  rewrite E1 in E2. injection E2 as <- <-. rewrite Htext in Ec. eexists v1, _.
  split_and!; try done. by apply continue_says.
Qed.
End program.

(** C34: Debugging a program is watching it run as it is written: [continue] on a machine that
    runs an assembled source does what the semantics of the source's items says up to the
    first state, at least one instruction on, in which the program has ended or stands at
    a breakpoint, or that is ten million instructions on, the limit of [continue]. The
    machine is then the state of that run; what the program printed on the way is
    printed; and the report is how it ended - HALT, or the fault and its address - or
    else the breakpoint, or that the limit has been reached, with the instruction that
    the source has there, in its own mnemonics. *)
Theorem continue_follows_source source L image dbg a io n a' io' e :
  is_byte_list source -> is_program source L image -> on_program L (dvm dbg) -> abs (dvm dbg) ≡ a ->
  lang_run L n a io = Some (a', io', e) -> (1 <= n)%nat -> Z.of_nat n <= CONTINUE_STEP_LIMIT ->
  (forall k b i f, (1 <= k < n)%nat -> lang_run L k a io = Some (b, i, f) -> f = Going /\ apc b ∉ bp_set dbg) ->
  e <> Going \/ apc a' ∈ bp_set dbg \/ Z.of_nat n = CONTINUE_STEP_LIMIT ->
  exists vm' text, cmd_continue dbg io = Some (set_dvm dbg vm', say io' text) /\ abs vm' ≡ a' /\
    ends_as vm' e /\ stop_says L (Z.of_nat n =? CONTINUE_STEP_LIMIT) a' e text /\ (e = Going -> on_program L vm').
Proof. intros Hb Hp. by apply (continue_source source L image). Qed.

(** The program of [factorial.asm] with a breakpoint at the loop of its subroutine, at
    which its fifth instruction arrives. *)
Definition factorial_debugged : Debugger :=
  set_breakpoints (debugger_init (vm_load blank factorial_image).1 factorial_image)
    [default 0 (ly_labels factorial_layout !! str "fact_loop")].

Definition factorial_at_loop : Arch :=
  match program_run factorial_layout 5 quiet with Some (a, _, _) => a | None => program_start factorial_layout end.

Lemma factorial_to_loop : program_run factorial_layout 5 quiet = Some (factorial_at_loop, quiet, Going).
Proof.
  assert (option_map (fun r => (r.1.2, r.2)) (program_run factorial_layout 5 quiet) = Some (quiet, Going)) as E
    by (vm_compute; reflexivity).
  unfold factorial_at_loop. destruct (program_run factorial_layout 5 quiet) as [[[a io] e]|]; [|done].
  cbn [option_map fst snd] in E. by injection E as -> ->.
Qed.

Lemma continue_follows_source_witness :
  exists vm' text, cmd_continue factorial_debugged quiet = Some (set_dvm factorial_debugged vm', say quiet text) /\
    abs vm' ≡ factorial_at_loop /\ ends_as vm' Going /\ stop_says factorial_layout false factorial_at_loop Going text /\
    (Going = Going -> on_program factorial_layout vm').
Proof.
  destruct (on_program_loaded factorial_asm factorial_layout factorial_image factorial_bytes factorial_is_program blank)
    as [Hon Ha].
  apply (continue_follows_source factorial_asm factorial_layout factorial_image factorial_debugged
    (program_start factorial_layout) quiet 5); [exact factorial_bytes|exact factorial_is_program|exact Hon|exact Ha| | |done| |].
  - exact factorial_to_loop.
  - lia.
  - intros k b i f Hk E.
    assert ((fun r => (r.2, apc r.1.1)) <$> lang_run factorial_layout k (program_start factorial_layout) quiet =
      Some (Going, match k with 1%nat => 5 | 2%nat => 27 | 3%nat => 30 | _ => 34 end)) as E'.
    { assert (k = 1 \/ k = 2 \/ k = 3 \/ k = 4)%nat as [->|[->|[->| ->]]] by lia; vm_compute; reflexivity. }
    rewrite E in E'. cbn in E'. injection E' as -> Hp. split; [done|]. rewrite Hp.
    assert (k = 1 \/ k = 2 \/ k = 3 \/ k = 4)%nat as [->|[->|[->| ->]]] by lia; by_decide.
  - right. left. by_decide.
Defined.

(** What is shown there. *)
Example factorial_stop_shown : snd <$> cmd_continue factorial_debugged quiet =
  Some (say quiet (str "breakpoint at 0x0027" ++ nl ++ str "PC=0x0027: CMP R1, 0" ++ nl)).
Proof. vm_compute. reflexivity. Qed.
