(* ===== verification/SortExample.v ===== *)
(** A program of [examples/] verified: [sort.asm] sorts any six words in its data, as
    signed numbers, and prints them. *)

From S2P Require Import Prelude Common CLib Memory Cpu Instruction Vm VmFacts Isa VmRefine VmStep VmBranch Loader.
From S2P Require Import VmDemo Symtab Lexer Parser Assembler Syntax Reader LangSem LangFacts LangProps LangRules.
From S2P Require Import Golden.
From stdpp Require Import sorting.
Open Scope Z_scope.

(** ** Bubble sort on lists *)

Definition sle (a b : Z) : Prop := signed a <= signed b.

(** One pass of adjacent comparisons over [a :: l], and whether it exchanged anything. *)
Fixpoint pass (a : Z) (l : list Z) : list Z * bool :=
  match l with
  | [] => ([a], false)
  | b :: l =>
      if signed a <=? signed b then let '(r, s) := pass b l in (a :: r, s)
      else let '(r, _) := pass a l in (b :: r, true)
  end.

Lemma pass_cons a b l : pass a (b :: l) =
  if signed a <=? signed b then (a :: (pass b l).1, (pass b l).2) else (b :: (pass a l).1, true).
Proof. cbn [pass]. by destruct (pass b l), (pass a l). Qed.

Lemma pass_perm a l : (pass a l).1 ≡ₚ a :: l.
Proof.
  revert a. induction l as [|b l IH]; intros a; [done|]. cbn [pass]. destruct (signed a <=? signed b).
  - specialize (IH b). destruct (pass b l) as [r s]. cbn in *. by rewrite IH.
  - specialize (IH a). destruct (pass a l) as [r s]. cbn in *. rewrite IH. apply perm_swap.
Qed.

Lemma pass_length a l : length (pass a l).1 = S (length l).
Proof. by rewrite (Permutation_length (pass_perm a l)). Qed.

(** A pass without an exchange has found the list sorted. *)
Lemma pass_unchanged a l : (pass a l).2 = false -> (pass a l).1 = a :: l /\ Sorted sle (a :: l).
Proof.
  revert a. induction l as [|b l IH]; intros a; [split; [done|repeat constructor]|]. cbn [pass].
  destruct (Z.leb_spec (signed a) (signed b)) as [Hab|Hab].
  - specialize (IH b). destruct (pass b l) as [r s]. cbn in *. intros ->. destruct IH as [-> Hs]; [done|].
    split; [done|]. constructor; [exact Hs|by constructor].
  - destruct (pass a l) as [r s]. done.
Qed.

(** Every other pass leaves fewer pairs in the wrong order. *)
Definition smaller (a : Z) (l : list Z) : nat := length (filter (fun b => signed b < signed a) l).

Fixpoint inversions (l : list Z) : nat :=
  match l with [] => 0 | a :: l => smaller a l + inversions l end.

Lemma smaller_cons a b l : smaller a (b :: l) = ((if (signed b <? signed a)%Z then 1 else 0) + smaller a l)%nat.
Proof. unfold smaller. rewrite filter_cons. destruct (Z.ltb_spec (signed b) (signed a)); case_decide; simpl; lia. Qed.

Lemma smaller_perm a l l' : l ≡ₚ l' -> smaller a l = smaller a l'.
Proof. intros H. unfold smaller. by rewrite H. Qed.

Lemma pass_inversions a l : (inversions (pass a l).1 + (if (pass a l).2 then 1 else 0) <= inversions (a :: l))%nat.
Proof.
  revert a. induction l as [|b l IH]; intros a; [simpl; lia|]. cbn [pass].
  destruct (Z.leb_spec (signed a) (signed b)) as [Hab|Hab].
  - specialize (IH b). pose proof (pass_perm b l) as Hp. destruct (pass b l) as [r s]. cbn [fst snd] in *.
    cbn [inversions] in *. rewrite (smaller_perm a _ _ Hp). lia.
  - specialize (IH a). pose proof (pass_perm a l) as Hp. destruct (pass a l) as [r s]. cbn [fst snd] in *.
    cbn [inversions] in *. rewrite (smaller_perm b _ _ Hp), !smaller_cons.
    destruct (Z.ltb_spec (signed a) (signed b)), (Z.ltb_spec (signed b) (signed a)); destruct s; lia.
Qed.

Lemma inversions_bound l : (2 * inversions l + length l <= length l * length l)%nat.
Proof.
  induction l as [|a l IH]; [done|]. cbn [inversions length].
  assert (smaller a l <= length l)%nat by apply length_filter. lia.
Qed.

(** ** The program *)

Definition sort_program : Layout * list Z := default (ly_start, []) (find_program sort_asm).
Definition sort_layout : Layout := sort_program.1.
Definition sort_image : list Z := sort_program.2.

Lemma sort_is_program : is_program sort_asm sort_layout sort_image.
Proof. apply find_program_spec. vm_compute. reflexivity. Qed.

Lemma sort_bytes : is_byte_list sort_asm.
Proof. by_decide. Qed.

Lemma sort_end : program_end sort_layout = 143.
Proof. vm_compute. reflexivity. Qed.

(** The address of the label [numbers], where six words are. *)
Definition numbers : Z := default 0 (ly_labels sort_layout !! str "numbers").

Lemma numbers_free i : (i < 6)%nat ->
  is_code sort_layout (131 + 2 * Z.of_nat i) || is_code sort_layout ((131 + 2 * Z.of_nat i + 1) mod 65536) = false.
Proof. intros H. do 6 (destruct i as [|i]; [vm_compute; reflexivity|]). lia. Qed.

Ltac exec tac := exec_instr sort_end tac.

Section passes.
Context (io : Stdio) (s : Z).

(** At [p], with [R1] at [a] and [R2] words behind it, the loop at [inner] completes a
    pass over them; R6 remembers an exchange. *)
Definition completes (b : nat) (g : Z -> Z) (p : Z) (f : Flags) (m : Z -> Z) (pre r : list Z) (swapped : bool) : Prop :=
  within sort_layout b (mkArch g p s f m) io (fun a' io' =>
    exists g' f' m', a' = mkArch g' 68 s f' m' /\ io' = io /\ words_at m' 131 (pre ++ r) /\
      g' 6 = if swapped then 1 else g 6).

Definition inner_pass (rest : list Z) : Prop := forall pre a g f m,
  g 1 = 131 + 2 * zlen pre -> g 2 = zlen rest -> length (pre ++ a :: rest) = 6%nat ->
  Forall is_u16 (a :: rest) -> words_at m 131 (pre ++ a :: rest) ->
  completes (12 * length rest) g 15 f m pre (pass a rest).1 (pass a rest).2.

(** At [no_swap], with [y] done and [x] next. *)
Lemma inner_next rest pre y x g f m : (rest <> [] -> inner_pass rest) ->
  g 1 = 131 + 2 * zlen (pre ++ [y]) -> g 2 = Z.of_nat (S (length rest)) ->
  length (pre ++ y :: x :: rest) = 6%nat -> Forall is_u16 (x :: rest) -> words_at m 131 (pre ++ y :: x :: rest) ->
  completes (2 + 12 * length rest) g 59 f m pre (y :: (pass x rest).1) (pass x rest).2.
Proof.
  intros IH H1 H2 Hlen Hu Hm. unfold completes. cbn [Nat.add].
  assert ((g 2 - 1) mod 65536 = zlen rest) as Hr.
  { rewrite H2. rewrite length_app in Hlen. cbn [length] in Hlen. mlia. }
  exec ltac:(rewrite Hr). destruct rest as [|z rest].
  - exec idtac. apply within_0. do 3 eexists. split_and!; [reflexivity..| |]; [exact Hm|by simpl_upd].
  - assert ((zlen (z :: rest) =? 0) = false) as Ht by done. exec ltac:(rewrite Ht).
    rewrite cons_middle, app_assoc. rewrite cons_middle, app_assoc in Hm, Hlen.
    apply (IH ltac:(done) (pre ++ [y]) x (upd g 2 (zlen (z :: rest)))); by simpl_upd.
Qed.

Lemma inner_passes rest : rest <> [] -> inner_pass rest.
Proof.
  induction rest as [|b rest IH]; [done|]. intros _ pre a g f m H1 H2 Hlen Hu Hm.
  apply Forall_cons in Hu as [Ha [Hb Hu]%Forall_cons]. unfold completes.
  assert ((131 + 2 * zlen pre + 2) mod 65536 = 131 + 2 * zlen (pre ++ [a])) as Hnext.
  { rewrite length_app in *. cbn [length] in *. mlia. }
  assert ((131 + 2 * zlen (pre ++ [a]) - 2) mod 65536 = 131 + 2 * zlen pre) as Hback.
  { rewrite length_app in *. cbn [length] in *. mlia. }
  assert (length pre < 6 /\ length (pre ++ [a]) < 6)%nat as [Hp Hpa]
    by (rewrite !length_app in *; cbn [length] in *; lia).
  assert (word_at m (131 + 2 * zlen pre) = a) as Wa by by eapply words_at_middle.
  assert (words_at m 131 ((pre ++ [a]) ++ b :: rest)) as Hm' by by rewrite <- app_assoc.
  pose proof (words_at_middle _ _ _ _ _ Hm') as Wb. pose proof (taken_relation OP_JLE a b Ha Hb eq_refl) as Hjle.
  cbn [jump_relation taken] in Hjle.
  replace (12 * length (b :: rest))%nat with (S (S (S (S (S (7 + 12 * length rest)))))) by (cbn [length]; lia).
  exec ltac:(rewrite H1, Wa). exec ltac:(rewrite upd_other, H1, Hnext by lia).
  exec ltac:(rewrite upd_same, Wb). exec ltac:(simpl_upd). fold (cmp_flags a b).
  rewrite pass_cons. destruct (signed a <=? signed b); cbn [fst snd]; exec ltac:(rewrite Hjle).
  - apply (within_weaken _ (2 + 12 * length rest)); [lia|].
    match goal with |- within _ _ (mkArch ?g1 _ _ _ _) _ _ => apply (inner_next rest pre a b g1) end;
      [done|by simpl_upd|by simpl_upd|done|by constructor|done].
  - exec_store sort_end ltac:(simpl_upd; by apply numbers_free). simpl_upd.
    exec ltac:(simpl_upd; rewrite Hback).
    exec_store sort_end ltac:(simpl_upd; by apply numbers_free). simpl_upd.
    exec ltac:(simpl_upd; rewrite Hnext). exec idtac.
    match goal with |- within _ _ (mkArch ?g1 _ _ _ ?m1) _ _ =>
      assert (words_at m1 131 (pre ++ b :: a :: rest)) as Hm1; [|eapply within_post; [|
        apply (inner_next rest pre b a g1); [done|by simpl_upd; rewrite !length_app|by simpl_upd|
          by rewrite length_app in Hlen |- *|by constructor|exact Hm1]]] end.
    + apply (words_at_store _ _ _ a); [|lia|rewrite length_app in *; cbn [length] in *; lia].
      pose proof (words_at_store m 131 (pre ++ [a]) b a rest Hm' ltac:(lia)) as Hst.
      rewrite <- !(app_assoc pre) in Hst. apply Hst. rewrite !length_app in *.
      cbn [length app] in *. lia.
    + intros a' io' (g' & f' & m' & -> & -> & Hw & H6). exists g', f', m'. split_and!; [done..|].
      rewrite H6. simpl_upd. by destruct (pass a rest).2.
Qed.

(** The loop at [outer] sorts. *)
Lemma outer_sorts vs g f m : length vs = 6%nat -> Forall is_u16 vs -> words_at m 131 vs ->
  within sort_layout (65 * S (inversions vs)) (mkArch g 0 s f m) io (fun a' io' =>
    exists g' f' m' vs', a' = mkArch g' 77 s f' m' /\ io' = io /\ words_at m' 131 vs' /\
      vs' ≡ₚ vs /\ Sorted sle vs').
Proof.
  remember (inversions vs) as n eqn:En. revert vs En g f m.
  induction n as [n IH] using lt_wf_ind. intros vs -> g f m Hlen Hu Hm.
  destruct vs as [|v vs]; [done|]. replace (65 * S (inversions (v :: vs)))%nat
    with (S (S (S (62 + 65 * inversions (v :: vs)))))%nat by lia.
  do 3 exec idtac.
  match goal with |- within _ _ (mkArch ?g1 _ _ _ _) _ _ =>
    apply (within_bind _ _ (2 + 65 * inversions (v :: vs)) _ _ _ _ _
      (inner_passes vs ltac:(by destruct vs) [] v g1 f m ltac:(done) ltac:(cbn in *; lia) Hlen Hu Hm))
  end; [|cbn [length] in Hlen; lia].
  intros a' io' (g' & f' & m' & -> & -> & Hw & H6). cbn [app] in Hw.
  pose proof (pass_inversions v vs) as Hinv. pose proof (pass_perm v vs) as Hp. pose proof (pass_unchanged v vs) as Hs.
  exec ltac:(rewrite H6). destruct (pass v vs) as [r [|]]; cbn [fst snd] in *.
  - exec idtac. apply (within_weaken _ (65 * S (inversions r))); [lia|].
    eapply within_post; [|apply (IH (inversions r) ltac:(lia) r eq_refl); [|by rewrite Hp|done]].
    + intros a' io' (g2 & f2 & m2 & vs' & -> & -> & Hw2 & Hp2 & Hs2). exists g2, f2, m2, vs'. split_and!; try done.
      by rewrite Hp2.
    + by rewrite Hp.
  - destruct (Hs eq_refl) as [-> Hsorted]. exec idtac. apply within_0. by do 4 eexists.
Qed.

(** The loop at [print_loop] prints the words that are left. *)
Lemma print_loop_prints rest : forall pre g f m io, rest <> [] -> g 1 = 131 + 2 * zlen pre -> g 2 = zlen rest ->
  length (pre ++ rest) = 6%nat -> words_at m 131 (pre ++ rest) ->
  within sort_layout (7 * length rest) (mkArch g 87 s f m) io (fun a' io' =>
    exists g' f', a' = mkArch g' 116 s f' m /\
      io' = put io (concat (map (fun v => fmt_d (signed v) ++ [32]) rest))).
Proof.
  induction rest as [|v rest IH]; intros pre g f m out Hne H1 H2 Hlen Hm; [done|]. clear Hne.
  assert ((131 + 2 * zlen pre + 2) mod 65536 = 131 + 2 * zlen (pre ++ [v])) as Hnext.
  { rewrite length_app in *. cbn [length] in *. mlia. }
  assert ((g 2 - 1) mod 65536 = zlen rest) as Hr.
  { rewrite length_app in *. cbn [length] in *. rewrite H2. mlia. }
  pose proof (words_at_middle _ _ _ _ _ Hm) as Wv.
  replace (7 * length (v :: rest))%nat with (S (S (S (S (S (S (S (7 * length rest))))))))%nat by (cbn [length]; lia).
  exec ltac:(rewrite H1, Wv). exec ltac:(rewrite upd_same). exec idtac. exec ltac:(rewrite upd_same; change (32 mod 256) with 32).
  exec ltac:(simpl_upd; rewrite H1, Hnext). exec ltac:(simpl_upd; rewrite Hr).
  cbn [map concat]. destruct rest as [|w rest].
  - exec idtac. apply within_0. do 2 eexists. split; [reflexivity|]. by rewrite put_put, app_nil_r.
  - assert ((zlen (w :: rest) =? 0) = false) as Ht by done. exec ltac:(rewrite Ht).
    rewrite cons_middle, app_assoc in Hm, Hlen.
    match goal with |- within _ _ (mkArch ?g1 _ _ ?f1 _) ?o _ =>
      eapply within_post; [|apply (IH (pre ++ [v]) g1 f1 m o); [done|by simpl_upd|by simpl_upd|done|done]] end.
    intros a' io' (g' & f' & -> & ->). exists g', f'. split; [done|]. by rewrite !put_put, !app_assoc.
Qed.

(** From its start with six words at [numbers], the program prints them in order and
    stops with 0 in R0. *)
Lemma sort_runs vs g f m : length vs = 6%nat -> Forall is_u16 vs -> words_at m 131 vs ->
  stops_within sort_layout (65 * S (inversions vs) + 49) (mkArch g 0 s f m) io (fun a' io' =>
    exists vs', vs' ≡ₚ vs /\ Sorted sle vs' /\ words_at (ram a') 131 vs' /\ gpr a' 0 = 0 /\
      io' = put io (concat (map (fun v => fmt_d (signed v) ++ [32]) vs') ++ [10])).
Proof.
  intros Hlen Hu Hm. replace (65 * S (inversions vs) + 49)%nat with (S (65 * S (inversions vs) + 48)) by lia.
  apply within_stop. eapply within_bind; [by apply outer_sorts| |reflexivity].
  intros a' io' (g1 & f1 & m1 & vs' & -> & -> & Hw & Hp & Hs).
  assert (length vs' = 6%nat) as Hlen' by by rewrite Hp.
  assert (zlen vs' = 6) as Hz by lia.
  do 2 exec idtac. match goal with |- within _ _ (mkArch ?g2 _ _ _ _) _ _ =>
    eapply (within_bind _ (7 * length vs') 4); [apply (print_loop_prints vs' [] g2 f1 m1 io); [|done|by simpl_upd; rewrite Hz|done|done]| |lia] end;
    [by intros ->|].
  intros a' io' (g' & f' & -> & ->). do 3 exec idtac. apply within_0. do 2 eexists. split.
  { eapply lang_step_at; [vm_compute; reflexivity|vm_compute; reflexivity|reflexivity|]. rewrite sort_end. reflexivity. }
  exists vs'. split_and!; try done. rewrite put_put. done.
Qed.
End passes.

(** ** The machine *)

(** The six words at [numbers] in the memory of a machine. *)
Definition numbers_are (vm : VM) (vs : list Z) : Prop :=
  length vs = 6%nat /\ forall i v, vs !! i = Some v -> mem_read16 (memory vm) (numbers + 2 * Z.of_nat i) = v.

Lemma numbers_words vm vs : vm_wf vm -> numbers_are vm vs ->
  words_at (mem_read8 (memory vm)) 131 vs /\ Forall is_u16 vs.
Proof.
  intros Hwf [_ H]. split.
  - intros i v E. rewrite <- (H i v E). apply (word_at_abs vm Hwf).
  - apply Forall_lookup. intros i v E. rewrite <- (H i v E). apply mem_read16_u16.
Qed.

(** C26: The program [examples/sort.asm] sorts, whatever six words its array holds, on the
    machine that runs the assembled program: started at its entry, it stops by HALT
    after at most 1089 instructions, without an error and with 0 in R0; the array then
    holds the same words in ascending order as signed numbers, and exactly these have
    been printed, each followed by a blank, and a newline. Nothing is read. *)
Theorem sort_sorts vm io vs : on_program sort_layout vm -> pc (cpu vm) = entry_address sort_layout ->
  numbers_are vm vs ->
  exists n vm' vs', (n <= 1089)%nat /\
    vm_steps n vm io = Some (vm', put io (concat (map (fun v => fmt_d (signed v) ++ [32]) vs') ++ [10])) /\
    halted vm' = true /\ last_error vm' = VM_OK /\ reg vm' 0 = 0 /\
    numbers_are vm' vs' /\ vs' ≡ₚ vs /\ Sorted sle vs'.
Proof.
  intros Hon Hpc Hvs. pose proof (op_wf _ _ Hon) as Hwf. change (entry_address sort_layout) with 0 in Hpc.
  destruct (numbers_words vm vs Hwf Hvs) as [Hw Hu]. destruct Hvs as [Hlen _].
  destruct (sort_runs io (sp (cpu vm)) vs (reg vm) (flags_of (cpu vm)) _ Hlen Hu Hw)
    as (n & a' & io' & Hn & E & vs' & Hp & Hs & Hw' & H0 & ->).
  assert (abs vm ≡ mkArch (reg vm) 0 (sp (cpu vm)) (flags_of (cpu vm)) (mem_read8 (memory vm))) as Ha
    by (unfold abs; rewrite Hpc; reflexivity).
  destruct (on_program_runs sort_asm sort_layout sort_image sort_bytes sort_is_program n vm _ io _ _ _ Hon Ha E)
    as (vm' & Es & Hwf' & (Hg & _ & _ & _ & Hm) & [Hh He] & _).
  exists n, vm', vs'. split; [pose proof (inversions_bound vs); nia|]. split; [exact Es|].
  split_and!; [done|done| | |done|done].
  - cbn [abs gpr] in Hg. by rewrite Hg.
  - split; [by rewrite Hp|]. intros i v Ei. rewrite <- (word_at_abs vm' Hwf'). rewrite <- (Hw' i v Ei).
    unfold word_at. by rewrite !Hm.
Qed.

(** The program as it is loaded. *)
Definition sort_loaded : VM := (vm_load blank sort_image).1.

Lemma sort_loaded_runs : on_program sort_layout sort_loaded.
Proof.
  unfold sort_loaded. generalize blank. intros vm.
  apply (on_program_loaded sort_asm sort_layout sort_image sort_bytes sort_is_program vm).
Qed.

Lemma sort_sorts_witness : exists n vm' vs', (n <= 1089)%nat /\
  vm_steps n sort_loaded quiet =
    Some (vm', put quiet (concat (map (fun v => fmt_d (signed v) ++ [32]) vs') ++ [10])) /\
  vs' ≡ₚ [5; 3; 8; 1; 9; 2] /\ Sorted sle vs'.
Proof.
  destruct (sort_sorts sort_loaded quiet [5; 3; 8; 1; 9; 2] sort_loaded_runs)
    as (n & vm' & vs' & Hn & E & _ & _ & _ & _ & Hp & Hs); [vm_compute; reflexivity| |by exists n, vm', vs'].
  split; [reflexivity|]. intros i v E. do 6 (destruct i as [|i]; [injection E as <-; vm_compute; reflexivity|]). done.
Defined.
