(* ===== verification/PrintExamples.v ===== *)
(** Programs of [examples/] verified: [hello.asm] prints any string at its label
    [message], and [sum.asm] the sum of any five words at [numbers]. *)

From S2P Require Import Prelude Common CLib Memory Cpu Instruction Vm VmFacts Isa VmRefine VmStep Loader.
From S2P Require Import VmDemo Symtab Lexer Parser Assembler Syntax Reader LangSem LangFacts LangProps LangRules.
From S2P Require Import Golden.
Open Scope Z_scope.

(** ** hello.asm *)

Definition hello_program : Layout * list Z := default (ly_start, []) (find_program hello_asm).
Definition hello_layout : Layout := hello_program.1.
Definition hello_image : list Z := hello_program.2.

Lemma hello_is_program : is_program hello_asm hello_layout hello_image.
Proof. apply find_program_spec. vm_compute. reflexivity. Qed.

Lemma hello_bytes : is_byte_list hello_asm.
Proof. by_decide. Qed.

Lemma hello_end : program_end hello_layout = 40.
Proof. vm_compute. reflexivity. Qed.

Definition message : Z := default 0 (ly_labels hello_layout !! str "message").

(** The characters [s] from [x] on, and a NUL behind them. *)
Fixpoint text_at (m : Z -> Z) (x : Z) (s : list Z) : Prop :=
  match s with
  | [] => m x = 0
  | c :: s => m x = c /\ 0 < c < 256 /\ text_at m (x + 1) s
  end.

Ltac exec tac := exec_instr hello_end tac.

(** The low byte of a word. *)
Lemma low_byte m x : 0 <= m x < 256 -> Z.land (word_at m x) 255 = m x.
Proof.
  intros H. change 255 with (Z.ones 8). rewrite Z.land_ones by lia. change (2 ^ 8) with 256.
  unfold word_at. mlia.
Qed.

(** The loop at [loop] prints the characters that are left. *)
Lemma hello_loop t : forall g f io s m, 0 <= g 1 -> g 1 + zlen t < 65536 -> text_at m (g 1) t ->
  leads hello_layout (6 * length t + 3) (mkArch g 5 s f m) io (fun a' io' =>
    exists g' f', a' = mkArch g' 30 s f' m /\ io' = put io t).
Proof.
  induction t as [|c t IH]; intros g f io s m Hg Hend Ht; cbn [text_at] in Ht.
  - change (6 * length [] + 3)%nat with 3%nat. pose proof (low_byte m (g 1) ltac:(lia)) as Hc. rewrite Ht in Hc.
    exec idtac. exec ltac:(rewrite upd_same, Hc). exec idtac. apply leads_0. do 2 eexists. split; [done|].
    destruct io. unfold put. cbn. by rewrite app_nil_r.
  - destruct Ht as (Hm & Hc & Ht). pose proof (low_byte m (g 1) ltac:(lia)) as Hl. rewrite Hm in Hl.
    replace (6 * length (c :: t) + 3)%nat with (S (S (S (S (S (S (6 * length t + 3))))))) by (cbn [length]; lia).
    assert ((c =? 0) = false) as Hz by lia. cbn [length] in Hend.
    assert ((g 1 + 1) mod 65536 = g 1 + 1) as Hn by mlia.
    exec idtac. exec ltac:(rewrite upd_same, Hl). exec ltac:(rewrite Hz). exec ltac:(rewrite upd_same, (Z.mod_small c 256) by lia).
    exec ltac:(simpl_upd; rewrite Hn). exec idtac.
    match goal with |- leads _ _ (mkArch ?g1 _ _ ?f1 _) ?o _ =>
      destruct (IH g1 f1 o s m) as (a' & io' & E & g' & f' & -> & ->) end; [by simpl_upd; lia..|by simpl_upd|].
    do 2 eexists. split; [exact E|]. exists g', f'. split; [done|]. by rewrite put_put.
Qed.

Lemma hello_runs t g s f io m : text_at m 32 t -> 32 + zlen t < 65536 ->
  exists a', lang_run hello_layout (6 * length t + 5) (mkArch g 0 s f m) io = Some (a', put io t, Stopped).
Proof.
  intros Ht Hend. assert (leads hello_layout (S (6 * length t + 3)) (mkArch g 0 s f m) io (fun a' io' =>
    exists g' f', a' = mkArch g' 30 s f' m /\ io' = put io t)) as (a' & io' & E & g' & f' & -> & ->).
  { exec idtac. apply hello_loop; by simpl_upd. }
  replace (6 * length t + 5)%nat with (S (6 * length t + 3) + 1)%nat by lia.
  rewrite (lang_run_add _ _ _ _ _ _ _ E). cbn [lang_run].
  erewrite lang_step_at; [|vm_compute; reflexivity|vm_compute; reflexivity|reflexivity|].
  2:{ rewrite hello_end. reflexivity. }
  cbn [mbind option_bind]. by eexists.
Qed.

(** The program [examples/hello.asm] prints the string at [message], whatever it is: any
    characters but NUL, up to the one that ends it, anywhere below the top of memory. It
    stops by HALT after six instructions for each and five more. *)
Theorem hello_prints vm io t : on_program hello_layout vm -> pc (cpu vm) = entry_address hello_layout ->
  text_at (mem_read8 (memory vm)) message t -> message + zlen t < 65536 ->
  exists vm', vm_steps (6 * length t + 5) vm io = Some (vm', put io t) /\ halted vm' = true /\ last_error vm' = VM_OK.
Proof.
  intros Hon Hpc Ht Hend. change (entry_address hello_layout) with 0 in Hpc. change message with 32 in *.
  destruct (hello_runs t (reg vm) (sp (cpu vm)) (flags_of (cpu vm)) io _ Ht Hend) as [a' E].
  assert (abs vm ≡ mkArch (reg vm) 0 (sp (cpu vm)) (flags_of (cpu vm)) (mem_read8 (memory vm))) as Ha
    by (unfold abs; rewrite Hpc; reflexivity).
  destruct (on_program_runs hello_asm hello_layout hello_image hello_bytes hello_is_program _ vm _ io _ _ _ Hon Ha E)
    as (vm' & Es & _ & _ & [Hh He] & _). by exists vm'.
Qed.

(** As it is loaded, it prints its greeting. *)
Definition hello_loaded : VM := (vm_load blank hello_image).1.

Lemma hello_loaded_runs : on_program hello_layout hello_loaded.
Proof.
  unfold hello_loaded. generalize blank. intros vm.
  apply (on_program_loaded hello_asm hello_layout hello_image hello_bytes hello_is_program vm).
Qed.

Lemma hello_prints_witness : exists vm', vm_steps 47 hello_loaded quiet = Some (vm', put quiet (str "Hello!" ++ [10])) /\
  halted vm' = true /\ last_error vm' = VM_OK.
Proof.
  apply (hello_prints hello_loaded quiet (str "Hello!" ++ [10]) hello_loaded_runs);
    [vm_compute; reflexivity| |by vm_compute].
  vm_compute. repeat split; congruence.
Defined.

(** ** sum.asm *)

Definition sum_program : Layout * list Z := default (ly_start, []) (find_program sum_asm).
Definition sum_layout : Layout := sum_program.1.
Definition sum_image : list Z := sum_program.2.

Lemma sum_is_program : is_program sum_asm sum_layout sum_image.
Proof. apply find_program_spec. vm_compute. reflexivity. Qed.

Lemma sum_bytes : is_byte_list sum_asm.
Proof. by_decide. Qed.

Lemma sum_end : program_end sum_layout = 65.
Proof. vm_compute. reflexivity. Qed.

Definition summands : Z := default 0 (ly_labels sum_layout !! str "numbers").

Definition zsum (vs : list Z) : Z := foldr Z.add 0 vs.

Ltac exec_sum tac := exec_instr sum_end tac.

(** The loop at [sum_loop] adds the words that are left to R0. *)
Lemma sum_loop rest : forall pre g f io s m, rest <> [] -> length (pre ++ rest) = 5%nat ->
  g 1 = 55 + 2 * zlen pre -> g 2 = zlen rest -> words_at m 55 (pre ++ rest) ->
  leads sum_layout (5 * length rest) (mkArch g 15 s f m) io (fun a' io' =>
    exists g' f', a' = mkArch g' 37 s f' m /\ io' = io /\ g' 0 mod 65536 = (g 0 + zsum rest) mod 65536 /\ is_u16 (g' 0)).
Proof.
  induction rest as [|v rest IH]; intros pre g f io s m Hne Hlen H1 H2 Hm; [done|]. clear Hne.
  pose proof (words_at_middle _ _ _ _ _ Hm) as Wv. rewrite length_app in Hlen. cbn [length] in Hlen.
  assert ((55 + 2 * zlen pre + 2) mod 65536 = 55 + 2 * zlen (pre ++ [v])) as Hnext
    by (rewrite length_app; cbn [length]; mlia).
  assert ((g 2 - 1) mod 65536 = zlen rest) as Hr by (rewrite H2; cbn [length]; mlia).
  replace (5 * length (v :: rest))%nat with (S (S (S (S (S (5 * length rest)))))) by (cbn [length]; lia).
  exec_sum ltac:(rewrite H1, Wv). exec_sum ltac:(simpl_upd). exec_sum ltac:(simpl_upd; rewrite H1, Hnext).
  exec_sum ltac:(simpl_upd; rewrite Hr). destruct rest as [|w rest].
  - exec_sum idtac. apply leads_0. do 2 eexists. split_and!; [reflexivity|done| |]; simpl_upd.
    + cbn [zsum foldr]. rewrite Z.mod_mod, Z.add_0_r by done. done.
    + apply u16_range.
  - assert ((zlen (w :: rest) =? 0) = false) as Ht by done. exec_sum ltac:(rewrite Ht).
    rewrite cons_middle, app_assoc in Hm.
    match goal with |- leads _ _ (mkArch ?g1 _ _ ?f1 _) _ _ =>
      destruct (IH (pre ++ [v]) g1 f1 io s m) as (a' & io' & E & g' & f' & -> & -> & H0 & Hu) end;
      [done|rewrite !length_app; cbn [length] in *; lia|by simpl_upd|by simpl_upd|done|].
    do 2 eexists. split; [exact E|]. exists g', f'. split_and!; [done..| |done].
    rewrite H0. simpl_upd. cbn [zsum foldr]. fold (zsum rest). by rewrite Z.add_mod_idemp_l, <- Z.add_assoc by done.
Qed.

Lemma sum_runs vs g s f io m : length vs = 5%nat -> words_at m 55 vs ->
  exists a', lang_run sum_layout 33 (mkArch g 0 s f m) io =
    Some (a', put io (fmt_d (signed (zsum vs mod 65536)) ++ [10]), Stopped) /\ gpr a' 0 = 0.
Proof.
  intros Hlen Hm. assert (leads sum_layout (3 + (25 + 4)) (mkArch g 0 s f m) io (fun a' io' =>
    exists g' f', a' = mkArch g' 53 s f' m /\ io' = put io (fmt_d (signed (zsum vs mod 65536)) ++ [10]) /\ g' 0 = 0))
    as (a' & io' & E & g' & f' & -> & -> & H0).
  { change (3 + (25 + 4))%nat with (S (S (S (25 + 4)))). do 3 exec_sum idtac. eapply leads_bind.
    - replace 25%nat with (5 * length vs)%nat by lia.
      match goal with |- leads _ _ (mkArch ?g1 _ _ ?f1 _) _ _ => apply (sum_loop vs [] g1 f1 io s m) end;
        [by intros ->|done|by simpl_upd|simpl_upd; lia|done].
    - intros a' io' (g' & f' & -> & -> & H0 & Hu). rewrite (Z.mod_small (g' 0)) in H0 by exact Hu.
      revert H0. simpl_upd. rewrite Z.add_0_l. intros H0. rewrite <- H0.
      do 2 exec_sum idtac. exec_sum ltac:(rewrite upd_same; change (10 mod 256) with 10). exec_sum idtac.
      apply leads_0. do 2 eexists. split_and!; [reflexivity|apply put_put|apply upd_same]. }
  change 33%nat with (3 + (25 + 4) + 1)%nat. rewrite (lang_run_add _ _ _ _ _ _ _ E). cbn [lang_run].
  erewrite lang_step_at; [|vm_compute; reflexivity|vm_compute; reflexivity|reflexivity|].
  2:{ isa_simpl. reflexivity. }
  cbn [mbind option_bind]. eexists. split; [reflexivity|exact H0].
Qed.

(** The program [examples/sum.asm] prints the sum of the five words at [numbers], whatever
    they are: modulo 2^16 and as a signed number, as SYS PRINT_INT shows a register, and a
    newline. It stops by HALT after 33 instructions with 0 in R0, its exit status. *)
Theorem sum_prints vm io vs : on_program sum_layout vm -> pc (cpu vm) = entry_address sum_layout ->
  length vs = 5%nat -> (forall i v, vs !! i = Some v -> mem_read16 (memory vm) (summands + 2 * Z.of_nat i) = v) ->
  exists vm', vm_steps 33 vm io = Some (vm', put io (fmt_d (signed (zsum vs mod 65536)) ++ [10])) /\
    halted vm' = true /\ last_error vm' = VM_OK /\ reg vm' 0 = 0.
Proof.
  intros Hon Hpc Hlen Hvs. change (entry_address sum_layout) with 0 in Hpc. change summands with 55 in *.
  pose proof (op_wf _ _ Hon) as Hwf.
  assert (words_at (mem_read8 (memory vm)) 55 vs) as Hm.
  { intros i v E. rewrite <- (Hvs i v E). apply (word_at_abs vm Hwf). }
  destruct (sum_runs vs (reg vm) (sp (cpu vm)) (flags_of (cpu vm)) io _ Hlen Hm) as (a' & E & H0).
  assert (abs vm ≡ mkArch (reg vm) 0 (sp (cpu vm)) (flags_of (cpu vm)) (mem_read8 (memory vm))) as Ha
    by (unfold abs; rewrite Hpc; reflexivity).
  destruct (on_program_runs sum_asm sum_layout sum_image sum_bytes sum_is_program _ vm _ io _ _ _ Hon Ha E)
    as (vm' & Es & _ & (Hg & _) & [Hh He] & _).
  exists vm'. split_and!; [exact Es|exact Hh|exact He|]. cbn [abs gpr] in Hg. rewrite Hg by lia. exact H0.
Qed.

(** As it is loaded, it prints 150. *)
Definition sum_loaded : VM := (vm_load blank sum_image).1.

Lemma sum_loaded_runs : on_program sum_layout sum_loaded.
Proof.
  unfold sum_loaded. generalize blank. intros vm.
  apply (on_program_loaded sum_asm sum_layout sum_image sum_bytes sum_is_program vm).
Qed.

Lemma sum_prints_witness : exists vm', vm_steps 33 sum_loaded quiet = Some (vm', put quiet (str "150" ++ [10])) /\
  halted vm' = true /\ last_error vm' = VM_OK /\ reg vm' 0 = 0.
Proof.
  apply (sum_prints sum_loaded quiet [10; 20; 30; 40; 50] sum_loaded_runs); [vm_compute; reflexivity|reflexivity|].
  intros i v E. do 5 (destruct i as [|i]; [injection E as <-; vm_compute; reflexivity|]). done.
Defined.
