(* ===== verification/UnitTests.v ===== *)
(** The repository's unit tests of the assembler, the disassembler, the debugger and the
    machine ([tests/unit/]), run on the definitions: what the C functions are tested to
    do is what their models do. *)

From S2P Require Import Prelude Common CLib Memory Cpu Instruction Vm VmFacts VmStep Loader Symtab Lexer Parser.
From S2P Require Import Assembler Disassembler Debugger VmDemo.
Open Scope Z_scope.

(** Lines of a source. *)
Definition src (ls : list (list Z)) : list Z := concat (map (fun l => l ++ [10]) ls).

(** The double quote. *)
Definition q : list Z := [34].

(** ** [test_assembler.c] *)

(** [assemble_and_run]. *)
Definition assemble_and_run (source : list Z) : option VM :=
  match assemble source with
  | Ok image =>
      let '(vm, load) := vm_load (vm_init blank) image in
      if bool_decide (load = VM_OK) then fst <$> vm_steps (Z.to_nat 10000) vm quiet else None
  | _ => None
  end.

(** The test asserts this of the machine the source leaves. *)
Definition runs_to (source : list Z) (P : VM -> bool) : bool :=
  match assemble_and_run source with Some vm => P vm | None => false end.

Definition expect_error (source : list Z) : bool :=
  match assemble source with Err _ _ => true | _ => false end.

Definition r0_is (v : Z) (vm : VM) : bool := halted vm && (reg vm 0 =? v).

Definition image_word (source : list Z) (i : nat) : Z :=
  match assemble source with
  | Ok image => default 0 (image !! i) + 256 * default 0 (image !! S i)
  | _ => -1
  end.

Example section_11_1_program : runs_to (src [str "; sum 5 + 10 and print it"; str "start:"; str "    MOV R0, 5";
    str "    MOV R1, 10"; str "    ADD R0, R1"; str "    CALL print_result"; str "    HALT"; [];
    str "print_result:"; str "    SYS PRINT_INT      ; symbolic syscall name"; str "    RET"])
  (fun vm => r0_is 15 vm && bool_decide (last_error vm = VM_OK)) = true.
Proof. vm_compute. reflexivity. Qed.

Example backward_jump : runs_to (src [str "    MOV R0, 0"; str "    MOV R1, 5"; str "loop:"; str "    ADD R0, R1";
    str "    SUB R1, 1"; str "    JNZ loop"; str "    HALT"]) (r0_is 15) = true.
Proof. vm_compute. reflexivity. Qed.

Example forward_reference : runs_to (src [str "    JMP skip"; str "    MOV R0, 99"; str "skip:"; str "    MOV R0, 42";
    str "    HALT"]) (r0_is 42) = true.
Proof. vm_compute. reflexivity. Qed.

Definition count_source : list Z :=
  src [str "    LOAD R0, [count]"; str "    HALT"; str ".data"; str "count:"; str "    .word 1234"].

Example word_and_load : runs_to count_source (r0_is 1234) = true.
Proof. vm_compute. reflexivity. Qed.

Definition string_source : list Z :=
  src [str "    HALT"; str ".data"; str "message:"; str "    .string " ++ q ++ str "hi\n\x41" ++ q].

Example string_escapes : runs_to string_source (fun vm =>
  let a := image_word string_source 14 in
  bool_decide (map (fun i => mem_read8 (memory vm) (a + i)) [0; 1; 2; 3; 4] = str "hi" ++ [10; 0x41; 0])) = true.
Proof. vm_compute. reflexivity. Qed.

Example indirect_addressing : runs_to (src [str "    MOV R1, 0x2000"; str "    MOV R2, 7"; str "    STORE [R1], R2";
    str "    LOAD R0, [R1]"; str "    HALT"])
  (fun vm => r0_is 7 vm && (mem_read16 (memory vm) 0x2000 =? 7)) = true.
Proof. vm_compute. reflexivity. Qed.

Example negative_immediate : exists image,
  assemble (src [str "    MOV R0, -1"; str "    HALT"]) = Ok image /\
  assemble (src [str "    MOV R0, 65535"; str "    HALT"]) = Ok image.
Proof. eexists. split; vm_compute; reflexivity. Qed.

Example org_moves_forward :
  let s := src [str ".org 0x0100"; str "    MOV R0, 1"; str "    HALT"] in
  image_word s 10 = 0x100 /\ image_word s 6 = 0x100.
Proof. by vm_compute. Qed.

Example data_behind_code : image_word count_source 14 >= image_word count_source 10 + image_word count_source 8.
Proof. by vm_compute. Qed.

Example errors_are_rejected : forallb expect_error
  [src [str "    FOO R0, R1"; str "    HALT"]; src [str "    JMP nowhere"; str "    HALT"];
   src [str "    MOV R9, 1"; str "    HALT"]; src [str "    MOV R0, 65536"; str "    HALT"];
   src [str "    ADD 5, R1"; str "    HALT"];
   src [str "    MOV R0, 1"; str "dup:"; str "    HALT"; str "dup:"; str "    NOP"];
   src [str ".org 0x0100"; str "    MOV R0, 1"; str ".org 0x0000"; str "    HALT"];
   src [str "    HALT"; str ".data"; str "    .word 1"; str ".data"; str "    .word 2"];
   src [str "    HALT"; str ".data"; str "m:"; str "    .string " ++ q ++ str "bad\q" ++ q];
   src [str "    HALT"; str ".data"; str "m:"; str "    .string " ++ q ++ str "unterminated"];
   src [str "    MOV R0"; str "    HALT"]; src [str "    HALT R0"; str "    HALT"];
   src [str "    LOAD R0, 0x2000"; str "    HALT"]] = true.
Proof. vm_compute. reflexivity. Qed.

(** ** [test_disassembler.c] *)

(** [expect_round_trip]. *)
Definition round_trip (source : list Z) : bool :=
  match assemble source with
  | Ok image =>
      match disassemble image with
      | Ok text => match assemble text with Ok image' => bool_decide (image' = image) | _ => false end
      | _ => false
      end
  | _ => false
  end.

Fixpoint contains (needle text : list Z) : bool :=
  bool_decide (take (length needle) text = needle) ||
  match text with [] => false | _ :: text => contains needle text end.

(** The disassembly of an assembled source has this in it. *)
Definition disassembly_has (source needle : list Z) : bool :=
  match assemble source with
  | Ok image => match disassemble image with Ok text => contains needle text | _ => false end
  | _ => false
  end.

Example round_trips : forallb round_trip
  [src [str "    MOV R0, 5"; str "    HALT"]; src [str "    ADD R0, R1"; str "    HALT"];
   src [str "    NOT R3"; str "    HALT"]; src [str "    NOP"; str "    RET"; str "    HALT"];
   src [str "    LOAD R2, [0x2000]"; str "    HALT"]; src [str "    LOAD R0, [R1]"; str "    HALT"];
   src [str "    STORE [R1], R0"; str "    HALT"]; src [str "    STORE [0x3000], R2"; str "    HALT"];
   src [str "    SYS PRINT_INT"; str "    HALT"]; src [str "    PUSH R4"; str "    POP R5"; str "    HALT"];
   src [str "    CMP R0, 100"; str "    HALT"]; src [str "start:"; str "    JMP start"; str "    HALT"];
   src [str "    CALL sub"; str "    HALT"; str "sub:"; str "    RET"];
   src [str "    JZ a"; str "    JNZ a"; str "    JG a"; str "    JGE a"; str "    JL a"; str "    JLE a";
        str "    JB a"; str "    JAE a"; str "    JA a"; str "    JBE a"; str "a:"; str "    HALT"];
   src [str "    MOV R0, 65535"; str "    HALT"]; src [str "    MOV R0, -32768"; str "    HALT"];
   src [str "    MOV R0, 0"; str "    HALT"];
   src [str "    HALT"; str ".data"; str "m:"; str "    .string " ++ q ++ str "hi\n" ++ q];
   src [str "    HALT"; str ".data"; str "c:"; str "    .word 1234"];
   src [str "    LOAD R0, [n]"; str "    HALT"; str ".data"; str "n:"; str "    .word 7"; str "    .word 8"];
   src [str ".org 0x0100"; str "    MOV R0, 1"; str "    HALT"];
   src [str "    HALT"; str "    .byte 0xAB"; str "    .byte 0xCD"];
   src [str "    MOV R0, 0"; str "    MOV R1, numbers"; str "    MOV R2, 3"; str "loop:"; str "    LOAD R3, [R1]";
        str "    ADD R0, R3"; str "    ADD R1, 2"; str "    SUB R2, 1"; str "    JNZ loop"; str "    SYS PRINT_INT";
        str "    HALT"; str ".data"; str "numbers:"; str "    .word 10"; str "    .word 20"; str "    .word 30"]] = true.
Proof. vm_compute. reflexivity. Qed.

Example undecodable_byte :
  disassembly_has (src [str "    HALT"; str "    .byte 0x20"; str "    .byte 0x00"]) (str ".byte 0x20") = true.
Proof. vm_compute. reflexivity. Qed.

Example truncated_instruction :
  disassembly_has (src [str "    .byte 0x01"; str "    .byte 0x12"]) (str ".byte 0x01") = true.
Proof. vm_compute. reflexivity. Qed.

Example junk_is_rejected : exists l m, disassemble (str "XXXX" ++ [1] ++ replicate 11 0) = Err l m.
Proof. do 2 eexists. vm_compute. reflexivity. Qed.

(** ** [test_debugger.c] *)

(** The commands of a session in order, with what the test asserts of the text each one
    prints and of the machine after it; [None] if an assertion fails. *)
Definition run_cmd (dbg : Debugger) (cmd : list Z) : option (Debugger * list Z * bool) :=
  '(dbg, io, go_on) ← debugger_execute dbg cmd quiet; Some (dbg, stdout io, go_on).

Fixpoint session (dbg : Debugger) (script : list (list Z * (list Z -> VM -> bool))) : option Debugger :=
  match script with
  | [] => Some dbg
  | (cmd, ok) :: script =>
      '(dbg, text, go_on) ← run_cmd dbg cmd;
      if go_on && ok text (dvm dbg) then session dbg script else None
  end.

(** The text has these in it. *)
Definition says (needles : list (list Z)) (text : list Z) (vm : VM) : bool :=
  forallb (fun n => contains n text) needles.

Definition pc_is (v : Z) (_ : list Z) (vm : VM) : bool := pc (cpu vm) =? v.
Definition reg_is (i v : Z) (_ : list Z) (vm : VM) : bool := reg vm i =? v.
Definition is_halted (b : bool) (_ : list Z) (vm : VM) : bool := eqb (halted vm) b.
Definition all_of (ps : list (list Z -> VM -> bool)) (text : list Z) (vm : VM) : bool :=
  forallb (fun p => p text vm) ps.

Definition loop_source : list Z :=
  src [str "    MOV R0, 0"; str "    MOV R1, 3"; str "loop:"; str "    ADD R0, R1"; str "    SUB R1, 1";
       str "    JNZ loop"; str "    HALT"].

Definition loop_debugger : Debugger :=
  let image := match assemble loop_source with Ok image => image | _ => [] end in
  debugger_init (vm_load (vm_init blank) image).1 image.

Definition debugger_script : list (list Z * (list Z -> VM -> bool)) :=
  [(str "registers", says [str "R0=0x0000"; str "SP=0xFFFE"; str "PC=0x0000"]);
   (str "step", pc_is 5); (str "step 2", all_of [pc_is 0xE; reg_is 0 3]);
   (str "disassemble 0x0000 3", says [str "MOV R0, 0"; str "0x000A"]);
   (str "reset", all_of [pc_is 0; reg_is 0 0]);
   (str "break 0x000E", says [str "breakpoint set"]);
   (str "continue", all_of [says [str "breakpoint at 0x000E"]; pc_is 0xE; reg_is 1 3]);
   (str "continue", all_of [says [str "breakpoint at 0x000E"]; reg_is 1 2]);
   (str "delete 0x000E", says [str "removed"]); (str "delete 0x000E", says [str "error"]);
   (str "continue", all_of [is_halted true; reg_is 0 6]);
   (str "break 0x000A", says []);
   (str "reset", all_of [says [str "1 breakpoint"]; is_halted false]);
   (str "continue", says [str "breakpoint at 0x000A"]);
   (str "reset", says []); (str "stack", says [str "empty"]);
   (str "memory 0x0000 4", says [str "0x0000:"; str "01"]);
   (str "break notanumber", says [str "error"]); (str "memory", says [str "error"]);
   (str "frobnicate", says [str "unknown command"]); (str "step", says []);
   (str "reset", says []); (str "step 1000", all_of [is_halted true; says [str "halted"]])].

Example debugger_session : exists dbg, session loop_debugger debugger_script = Some dbg.
Proof. eexists. vm_compute. reflexivity. Qed.

Example quit_ends_the_session :
  match run_cmd loop_debugger (str "quit") with Some (_, _, go_on) => negb go_on | None => false end = true.
Proof. vm_compute. reflexivity. Qed.

(** ** [test_functions.c] and [test_vm.c] *)

(** [exec_at]: these bytes at an address, PC on them, one cycle. *)
Definition exec_at (vm : VM) (io : Stdio) (addr : Z) (bytes : list Z) : option (VM * Stdio * VmResult) :=
  vm_step (set_pc (set_memory vm (copy_blob (memory vm) addr 0 bytes)) addr) io.

Definition fresh : VM := vm_init blank.

Definition test_exec (vm : VM) (io : Stdio) (addr : Z) (bytes : list Z) (P : VM -> Stdio -> VmResult -> bool) : bool :=
  match exec_at vm io addr bytes with Some (vm, io, rc) => P vm io rc | None => false end.

Definition result_is (a b : VmResult) : bool := bool_decide (a = b).

Example call_and_ret :
  test_exec fresh quiet 0 [0x1D; 0x30; 0x00; 0x20] (fun vm io rc =>
    result_is rc VM_OK && (pc (cpu vm) =? 0x2000) && (sp (cpu vm) =? 0xFFFC) &&
    (mem_read16 (memory vm) 0xFFFE =? 4) &&
    test_exec vm io 0x2000 [0x1E; 0x00] (fun vm io rc =>
      result_is rc VM_OK && (pc (cpu vm) =? 4) && (sp (cpu vm) =? 0xFFFE))) = true.
Proof. vm_compute. reflexivity. Qed.

Example call_overflows :
  test_exec (mkVM (cpu fresh) (memory fresh) false VM_OK 0 0xFFFD) quiet 0 [0x1D; 0x30; 0x00; 0x20] (fun vm io rc =>
    result_is rc VM_ERR_STACK_OVERFLOW && (sp (cpu vm) =? 0xFFFE)) = true.
Proof. vm_compute. reflexivity. Qed.

Example ret_underflows :
  test_exec fresh quiet 0 [0x1E; 0x00] (fun vm io rc => result_is rc VM_ERR_STACK_UNDERFLOW) = true.
Proof. vm_compute. reflexivity. Qed.

Example print_int :
  test_exec (put_r fresh 0 (u16 (-5))) quiet 0 [0x1F; 0x50; 0x01] (fun vm io rc =>
    bool_decide (stdout io = str "-5")) = true.
Proof. vm_compute. reflexivity. Qed.

Example print_char :
  test_exec (put_r fresh 0 0x41) quiet 0 [0x1F; 0x50; 0x02] (fun vm io rc =>
    bool_decide (stdout io = str "A")) = true.
Proof. vm_compute. reflexivity. Qed.

Example read_int :
  test_exec fresh (mkStdio (str "  -123abc") []) 0 [0x1F; 0x50; 0x03] (fun vm io rc =>
    (reg vm 0 =? u16 (-123)) && bool_decide (stdin io = str "abc")) = true.
Proof. vm_compute. reflexivity. Qed.

Example read_int_without_digits :
  test_exec fresh (mkStdio (str "xyz") []) 0 [0x1F; 0x50; 0x03] (fun vm io rc =>
    result_is rc VM_OK && (reg vm 0 =? 0)) = true.
Proof. vm_compute. reflexivity. Qed.

Example exit_halts :
  test_exec (put_r fresh 0 0x1FF) quiet 0 [0x1F; 0x50; 0x04] (fun vm io rc =>
    result_is rc VM_OK && halted vm && result_is (last_error vm) VM_OK && (Z.land (reg vm 0) 0xFF =? 0xFF)) = true.
Proof. vm_compute. reflexivity. Qed.

Example unknown_syscall :
  test_exec fresh quiet 0 [0x1F; 0x50; 0x99] (fun vm io rc =>
    result_is rc VM_ERR_INVALID_SYSCALL && halted vm) = true.
Proof. vm_compute. reflexivity. Qed.

(** Two MOVs of the operands into R0 and R1, the instruction, HALT; what R0, C and O are
    at the end. *)
Definition alu_program (opcode a b : Z) : option (Z * bool * bool * bool) :=
  let program := [0x01; 0x12; 0x00; a mod 256; a / 256; 0x01; 0x12; 0x01; b mod 256; b / 256;
                  opcode; 0x11; 0x00; 0x01; 0xFF; 0x00] in
  '(vm, _) ← vm_steps 10 (set_memory fresh (copy_blob (memory fresh) 0 0 program)) quiet;
  Some (reg vm 0, cpu_get_flag (cpu vm) CPU_FLAG_C, cpu_get_flag (cpu vm) CPU_FLAG_O,
        halted vm && result_is (last_error vm) VM_OK).

Example add_and_sub_flags :
  alu_program 0x02 5 10 = Some (15, false, false, true) /\
  alu_program 0x02 0xFFFF 1 = Some (0, true, false, true) /\
  alu_program 0x02 0x8000 0x8000 = Some (0, true, true, true) /\
  alu_program 0x03 0 1 = Some (0xFFFF, true, false, true) /\
  alu_program 0x03 0x8000 1 = Some (0x7FFF, false, true, true) /\
  alu_program 0x04 3 4 = Some (12, false, false, true) /\
  alu_program 0x04 0xFFFF 0xFFFF = Some (1, true, false, true) /\
  alu_program 0x04 0x7FFF 2 = Some (0xFFFE, false, true, true).
Proof. by vm_compute. Qed.

Example decode_failure :
  match vm_steps 3 (set_memory fresh (copy_blob (memory fresh) 0 0 [0x00; 0x00; 0x20; 0x00])) quiet with
  | Some (vm, _) => halted vm && result_is (last_error vm) VM_ERR_INVALID_OPCODE && (error_pc vm =? 2)
  | None => false
  end = true.
Proof. vm_compute. reflexivity. Qed.
