(* ===== verification/MachineTests.v ===== *)
(** The repository's unit tests of the machine and what it is made of ([tests/unit/]), run
    on the definitions, beside those in [UnitTests]. *)

From S2P Require Import Prelude Common CLib Memory Cpu Instruction Vm VmFacts VmStep Loader VmDemo UnitTests.
Open Scope Z_scope.

(** ** [test_memory.c] *)

Example memory_round_trips :
  let m := mem_write8 (mem_init (memory blank)) 0x1234 0x42 in
  let m2 := mem_write16 m 0x2000 0xBEEF in
  mem_read8 m 0x1234 = 0x42 /\ mem_read8 m2 0x2000 = 0xEF /\ mem_read8 m2 0x2001 = 0xBE /\
  mem_read16 m2 0x2000 = 0xBEEF.
Proof. by vm_compute. Qed.

Example memory_wraps :
  let m := mem_write16 (mem_init (memory blank)) 0xFFFF 0xABCD in
  mem_read8 m 0xFFFF = 0xCD /\ mem_read8 m 0 = 0xAB /\ mem_read16 m 0xFFFF = 0xABCD.
Proof. by vm_compute. Qed.

(** ** [test_cpu.c] *)

Example cpu_starts : cpu_init (cpu blank) = mkCPU (replicate 8 0) 0 CPU_INITIAL_SP 0.
Proof. reflexivity. Qed.

Example flags_are_independent :
  let c := cpu_set_flag (cpu_init (cpu blank)) CPU_FLAG_Z true in
  let c2 := cpu_set_flag c CPU_FLAG_Z false in
  cpu_get_flag c CPU_FLAG_Z = true /\ cpu_get_flag c CPU_FLAG_C = false /\ cpu_get_flag c2 CPU_FLAG_Z = false /\
  flags (cpu_set_flag (cpu_set_flag (cpu_set_flag c2 CPU_FLAG_C true) CPU_FLAG_S true) CPU_FLAG_O true) = 0x000E.
Proof. by vm_compute. Qed.

(** ** [test_instruction.c] *)

Definition decode_at (addr : Z) (bytes : list Z) : VmResult + Z * Instruction :=
  instruction_decode (copy_blob (mem_init (memory blank)) addr 0 bytes) addr.

Definition none : Operand := mkOperand MODE_NONE 0.

Example instructions_decode :
  decode_at 0 [0x01; 0x12; 0x00; 0x0A; 0x00] =
    inr (5, mkInstr OP_MOV (mkOperand MODE_REG 0) (mkOperand MODE_IMM16 10)) /\
  decode_at 0x100 [0x0D; 0x14; 0x00; 0x01] =
    inr (0x104, mkInstr OP_LOAD (mkOperand MODE_REG 0) (mkOperand MODE_REG_INDIRECT 1)) /\
  decode_at 0x200 [0x1F; 0x50; 0x01] = inr (0x203, mkInstr OP_SYS (mkOperand MODE_IMM8 1) none) /\
  decode_at 0xFFFF [0x00; 0x00] = inr (1, mkInstr OP_NOP none none).
Proof. by vm_compute. Qed.

Example bad_bytes_do_not_decode :
  decode_at 0x300 [0x20; 0x00] = inl VM_ERR_INVALID_OPCODE /\
  decode_at 0x400 [0x00; 0x60] = inl VM_ERR_INVALID_MODE /\
  decode_at 0x500 [0x02; 0x21; 0x05; 0x00; 0x00] = inl VM_ERR_INVALID_MODE /\
  decode_at 0x600 [0x01; 0x12; 0x09; 0x05; 0x00] = inl VM_ERR_INVALID_MODE.
Proof. by vm_compute. Qed.

(** ** [test_alu.c] *)

(** [exec_one] with R0 and R1 set: what R0 is then, and Z, C, S, O. *)
Definition exec_one (r0 r1 : Z) (bytes : list Z) : option (Z * (bool * bool * bool * bool) * VmResult) :=
  '(vm, _, rc) ← exec_at (put_r (put_r fresh 0 r0) 1 r1) quiet 0 bytes;
  let flag := cpu_get_flag (cpu vm) in
  Some (reg vm 0, (flag CPU_FLAG_Z, flag CPU_FLAG_C, flag CPU_FLAG_S, flag CPU_FLAG_O), rc).

(** The opcode with R0 and R1 as its operands. *)
Definition binary (opcode r0 r1 : Z) : option (Z * (bool * bool * bool * bool) * VmResult) :=
  exec_one r0 r1 [opcode; 0x11; 0x00; 0x01].

Example multiplication :
  binary 0x04 3 4 = Some (12, (false, false, false, false), VM_OK) /\
  binary 0x04 0xFFFF 0xFFFF = Some (1, (false, true, false, false), VM_OK) /\
  binary 0x04 0x7FFF 2 = Some (0xFFFE, (false, false, true, true), VM_OK).
Proof. by vm_compute. Qed.

Example division :
  binary 0x05 10 3 = Some (3, (false, false, false, false), VM_OK) /\
  binary 0x06 10 3 = Some (1, (false, false, false, false), VM_OK) /\
  binary 0x05 10 0 = Some (10, (false, false, false, false), VM_ERR_DIV_BY_ZERO).
Proof. by vm_compute. Qed.

Example division_keeps_carry :
  test_exec (put_r (put_r fresh 0 0) 1 1) quiet 0 [0x03; 0x11; 0x00; 0x01] (fun vm io _ =>
    cpu_get_flag (cpu vm) CPU_FLAG_C &&
    test_exec (put_r (put_r vm 0 10) 1 3) io 0 [0x05; 0x11; 0x00; 0x01] (fun vm _ _ =>
      cpu_get_flag (cpu vm) CPU_FLAG_C)) = true.
Proof. vm_compute. reflexivity. Qed.

Example bitwise :
  binary 0x07 0xF0F0 0x0FF0 = Some (0x00F0, (false, false, false, false), VM_OK) /\
  binary 0x08 0xF0F0 0x0FF0 = Some (0xFFF0, (false, false, true, false), VM_OK) /\
  binary 0x09 0xF0F0 0x0FF0 = Some (0xFF00, (false, false, true, false), VM_OK) /\
  exec_one 0 0 [0x0A; 0x10; 0x00] = Some (0xFFFF, (false, false, true, false), VM_OK).
Proof. by vm_compute. Qed.

Example shifts :
  binary 0x0B 0x1234 0 = Some (0x1234, (false, false, false, false), VM_OK) /\
  binary 0x0B 0x8001 1 = Some (2, (false, true, false, false), VM_OK) /\
  binary 0x0B 1 16 = Some (0, (true, true, false, false), VM_OK) /\
  binary 0x0B 0xFFFF 17 = Some (0, (true, false, false, false), VM_OK) /\
  binary 0x0C 3 1 = Some (1, (false, true, false, false), VM_OK) /\
  binary 0x0C 0x8000 16 = Some (0, (true, true, false, false), VM_OK).
Proof. by vm_compute. Qed.

Example comparison :
  binary 0x11 5 5 = Some (5, (true, false, false, false), VM_OK) /\
  binary 0x11 1 0xFFFF = Some (1, (false, true, false, false), VM_OK).
Proof. by vm_compute. Qed.

(** ** [test_control.c] *)

(** [run_jump]: the flags Z, C, S, O, then the jump to 0x2000 at 0; where PC is. *)
Definition run_jump (opcode : Z) (z c s o : bool) : option Z :=
  let cpu' := cpu_set_flag (cpu_set_flag (cpu_set_flag (cpu_set_flag (cpu fresh)
                CPU_FLAG_Z z) CPU_FLAG_C c) CPU_FLAG_S s) CPU_FLAG_O o in
  '(vm, _, _) ← exec_at (set_cpu fresh cpu') quiet 0 [opcode; 0x30; 0x00; 0x20];
  Some (pc (cpu vm)).

(** Which of the jumps with opcodes from JMP to JBE are taken. *)
Definition jumps_taken (z c s o : bool) : list Z :=
  filter (fun op => run_jump op z c s o = Some 0x2000) (seqZ 0x12 11).

Example jump_conditions :
  jumps_taken false false false false = [0x12; 0x14; 0x15; 0x16; 0x1A; 0x1B] /\
  jumps_taken true false false false = [0x12; 0x13; 0x16; 0x18; 0x1A; 0x1C] /\
  jumps_taken false true false false = [0x12; 0x14; 0x15; 0x16; 0x19; 0x1C] /\
  jumps_taken false false true false = [0x12; 0x14; 0x17; 0x18; 0x1A; 0x1B] /\
  run_jump 0x13 false false false false = Some 4.
Proof. by vm_compute. Qed.

Example push_and_pop :
  test_exec (put_r fresh 0 0x1234) quiet 0 [0x0F; 0x10; 0x00] (fun vm io rc =>
    result_is rc VM_OK && (sp (cpu vm) =? 0xFFFC) && (mem_read16 (memory vm) 0xFFFE =? 0x1234) &&
    test_exec vm io 3 [0x10; 0x10; 0x01] (fun vm io rc =>
      result_is rc VM_OK && (reg vm 1 =? 0x1234) && (sp (cpu vm) =? 0xFFFE))) = true /\
  test_exec fresh quiet 0 [0x0F; 0x20; 0xCD; 0xAB] (fun vm io rc => mem_read16 (memory vm) 0xFFFE =? 0xABCD) = true.
Proof. by vm_compute. Qed.

Definition with_stack (s limit : Z) : VM :=
  mkVM (mkCPU (replicate 8 0) 0 s 0) (memory fresh) false VM_OK 0 limit.

Example stack_errors :
  test_exec (with_stack 0xFFFE 0xFFFD) quiet 0 [0x0F; 0x10; 0x00] (fun vm io rc =>
    result_is rc VM_ERR_STACK_OVERFLOW && halted vm && (sp (cpu vm) =? 0xFFFE)) = true /\
  test_exec (with_stack 1 0) quiet 0 [0x0F; 0x10; 0x00] (fun vm io rc =>
    result_is rc VM_ERR_STACK_OVERFLOW && (sp (cpu vm) =? 1)) = true /\
  test_exec fresh quiet 0 [0x10; 0x10; 0x00] (fun vm io rc =>
    result_is rc VM_ERR_STACK_UNDERFLOW && halted vm && (sp (cpu vm) =? 0xFFFE)) = true.
Proof. by vm_compute. Qed.

(** ** [test_loader.c] *)

Definition word_bytes (v : Z) : list Z := [v mod 256; v / 256].

(** [build_bvm]. *)
Definition build_bvm (entry_point code_addr : Z) (code : list Z) (data_addr : Z) (data : list Z) : list Z :=
  str "BVM1" ++ [1; 0] ++ word_bytes entry_point ++ word_bytes (zlen code) ++ word_bytes code_addr ++
  word_bytes (zlen data) ++ word_bytes data_addr ++ code ++ data.

Definition halt_code : list Z := [0xFF; 0x00].
Definition some_data : list Z := [0xAB; 0xCD; 0xEF].
Definition valid_image : list Z := build_bvm 0 0 halt_code 0x1000 some_data.

Example valid_load :
  let '(vm, rc) := vm_load fresh valid_image in
  rc = VM_OK /\ pc (cpu vm) = 0 /\ sp (cpu vm) = 0xFFFE /\ halted vm = false /\
  map (mem_read8 (memory vm)) [0; 0x1000; 0x1002] = [0xFF; 0xAB; 0xEF] /\ stack_limit vm = 0x1003.
Proof. by vm_compute. Qed.

Example rejected_loads : forallb (fun image =>
    let vm := put_r fresh 0 0xDEAD in
    let '(vm', rc) := vm_load vm image in result_is rc VM_ERR_BAD_BYTECODE_HEADER && (reg vm' 0 =? 0xDEAD))
  [str "XXXX" ++ [1] ++ replicate 11 0; <[4%nat := 2]> valid_image; <[5%nat := 1]> valid_image;
   removelast valid_image; build_bvm 0xFFFF 0xFFFF halt_code 0x1000 some_data;
   build_bvm 0x10 0 halt_code 0x1000 some_data; build_bvm 0 0 halt_code 1 some_data] = true.
Proof. vm_compute. reflexivity. Qed.

Example stack_limit_clamps :
  let '(vm, rc) := vm_load fresh (build_bvm 0xFFFE 0xFFFE halt_code 0 []) in rc = VM_OK /\ stack_limit vm = 0xFFFF.
Proof. by vm_compute. Qed.

Example reload_resets :
  let image := build_bvm 0 0 [0x01; 0x12; 0x00; 0x2A; 0x00; 0xFF; 0x00] 0x1000 some_data in
  match vm_steps 10 (vm_load fresh image).1 quiet with
  | Some (vm, _) =>
      let '(vm', rc) := vm_load vm image in
      halted vm && (reg vm 0 =? 42) && result_is rc VM_OK && (reg vm' 0 =? 0) && (pc (cpu vm') =? 0) &&
      negb (halted vm')
  | None => false
  end = true.
Proof. vm_compute. reflexivity. Qed.

(** ** [test_vm.c] *)

Definition run_bytes (n : nat) (bytes : list Z) : option VM :=
  fst <$> vm_steps n (set_memory fresh (copy_blob (memory fresh) 0 0 bytes)) quiet.

Example mov_add_halt :
  let program := [0x01; 0x12; 0x00; 0x05; 0x00; 0x01; 0x12; 0x01; 0x0A; 0x00; 0x02; 0x11; 0x00; 0x01; 0xFF; 0x00] in
  (halted <$> run_bytes 3 program) = Some false /\
  ((fun vm => (halted vm, last_error vm, reg vm 0, pc (cpu vm))) <$> run_bytes 4 program) = Some (true, VM_OK, 15, 16) /\
  match run_bytes 4 program with
  | Some vm => vm_step vm quiet = Some (vm, quiet, VM_OK)
  | None => False
  end.
Proof. by vm_compute. Qed.

Example load_and_store :
  let program := [0x0D; 0x13; 0x00; 0x00; 0x30; 0x01; 0x12; 0x01; 0x00; 0x30; 0x0D; 0x14; 0x02; 0x01;
                  0x01; 0x12; 0x03; 0xAD; 0xDE; 0x0E; 0x41; 0x01; 0x03; 0xFF; 0x00] in
  let vm := set_memory fresh (mem_write16 (copy_blob (memory fresh) 0 0 program) 0x3000 0xBEEF) in
  match vm_steps 10 vm quiet with
  | Some (vm, _) =>
      halted vm && result_is (last_error vm) VM_OK && (reg vm 0 =? 0xBEEF) && (reg vm 2 =? 0xBEEF) &&
      (mem_read16 (memory vm) 0x3000 =? 0xDEAD)
  | None => false
  end = true.
Proof. vm_compute. reflexivity. Qed.

Example error_is_kept :
  match run_bytes 2 [0x00; 0x00; 0x20; 0x00] with
  | Some vm => vm_step vm quiet = Some (vm, quiet, VM_ERR_INVALID_OPCODE) /\ error_pc vm = 2
  | None => False
  end.
Proof. by vm_compute. Qed.

(** ** [test_fuzz.c]

    The loop that must not hang the harness, for its step budget; that random images are
    safe is [VmProps.loaded_run_safe], for all of them. *)

Example jump_to_itself_runs :
  let vm := (vm_load fresh (build_bvm 0 0 [0x12; 0x30; 0x00; 0x00] 0 [])).1 in
  (fun s => (halted s.1, pc (cpu s.1))) <$> vm_steps (Z.to_nat 5000) vm quiet = Some (false, 0).
Proof. vm_compute. reflexivity. Qed.
